(* ===== verification/_CoqProject ===== *)
-Q . S2P
Prelude.v
Json.v
JsonFacts.v
Codec.v
Vlb.v
Crypto.v
Word.v
Fe25519.v
Edwards.v
Prime25519.v
EdPoint.v
ModQ.v
Curve25519.v
EdPointFacts.v
EdEncode.v
Sha512.v
Ed25519.v
Ed25519Facts.v
Tokenizer.v
TokenizerFacts.v
Siphash.v
Dict.v
DictFacts.v
DictScan.v
Kanban.v
KanbanDict.v
Witness.v
Crawler.v
Stopwords.v
Indexer.v
Shard.v
Reducer.v
Querier.v
Pipeline.v
Executors.v
Manager.v
System.v
Rounds.v
Auditor.v
Oram.v
OramEvict.v
OramFacts.v
OramAccess.v
OramTrace.v
OramOblivious.v
OramQuerier.v
OramQuerierFacts.v
OramApp.v
OramJoint.v
OramPrivacy.v
Client.v
ClientFacts.v
