(* ===== verification/Prelude.v ===== *)
(** * DeSearch: a verification development for the decentralized search engine

    DeSearch (src/) lets untrusted nodes build and serve a search index over
    public posts.  Every step runs in an enclave that signs a witness naming
    the hashes of its inputs and of its output; the nodes share a key-value
    store, Kanban, in which data and witnesses live; a manager counts epochs
    and seals each one with a root hash over the witnesses; a user's client
    queries the nodes and audits the witnesses behind the answers.

    ** The parts and their files

    Values and formats
    - Prelude.v: characters, fixed-width integers, the outcomes of C++ code
      ([Ret], an exception [Throw], undefined behaviour [Undef], [NoFuel]),
      decimal texts, list lemmas.
    - Json.v, JsonFacts.v: executor/include/json.hpp and App/json.cpp.  A value
      is an inductive type, an object an association list in key order (the
      std::map of the source); [Load] is the recursive descent on a cursor
      that knows when it reads past the terminating zero.
    - Codec.v: executor/Utility.hpp, the text formats of documents and
      indexes; the 64 KB scratch buffer of [Binary2Digest] is modelled.
    - Vlb.v: the posting-list coder of Enclave/enclave_common.hpp and its
      marshalling.
    - Crypto.v: the wrappers of Enclave/enclave_key.cpp and
      client/utility.hpp.  Ed25519 and SHA-256 are the operations of the class
      [Crypto]; [CryptoLaws] has what the callers rely on, their lengths and
      that a signature verifies.
    - Tokenizer.v, TokenizerFacts.v: the part of Sphinx (contrib/sphinx,
      include/sphinx*.h) the enclaves call: charset tables, UTF-8, the
      tokenizer configured by [CreateTokenizer], the word hash.
    - Stopwords.v: Enclave/stopwords.hpp.

    Signatures (contrib/ed25519)
    - Word.v: the words, masks, loads and stores of kremlib.h, with their
      wrap-around.
    - Fe25519.v, EdPoint.v, ModQ.v, Sha512.v, Ed25519.v: Hacl_Ed25519.cpp, a
      definition for every function: field elements in five limbs of 51 bits,
      points in extended coordinates, scalars in limbs of 56 bits with Barrett
      reduction, the streaming hash, and keys, signing and verification.
    - Edwards.v, Prime25519.v, Curve25519.v: the mathematics they implement:
      the group law of a complete twisted Edwards curve over any field, a
      primality certificate for 2^255 - 19, the curve with its base point and
      the order of that point.
    - EdPointFacts.v, EdEncode.v, Ed25519Facts.v: points, their encoding and
      signatures against that group and RFC 8032.

    Enclaves
    - Witness.v: Enclave/enclave_witness.cpp and the auditor's check.
    - Crawler.v, Indexer.v, Reducer.v, Querier.v: Enclave/enclave_*.cpp, a
      state record and one definition per ecall.
    - Shard.v: the contract between them: [shard] says which documents an
      index blob stands for; each stage's theorems are stated against it.
    - Pipeline.v: the stages composed.

    Kanban's tables
    - Siphash.v: kanban/src/siphash.c, the hash of the keys.
    - Dict.v, DictFacts.v: kanban/src/dict.c, hash tables that grow and shrink
      by incremental rehashing; a dictionary is a record of two tables, its
      operations return it with what they moved.
    - DictScan.v: [dictScan], with its cursor of reversed bits.
    - KanbanDict.v: the key space, kanban/src/db.c, on such a dictionary.

    Nodes on Kanban
    - Kanban.v: the Redis commands in use (kanban/src/t_*.c) on a finite map,
      programs over them as a free monad [prog], [run] alone and [step]
      interleaved with any other nodes.
    - Executors.v: executor/App, one program per round of a node.
    - Manager.v: src/manager and the check of root hashes.
    - System.v: all nodes interleaved; what holds in every reachable store.
    - Rounds.v: what a round does to a store when it runs undisturbed.
    - Auditor.v: client/local_auditor.cpp.
    - Client.v, ClientFacts.v: client/web_server.cpp.

    Oblivious storage
    - Oram.v: Circuit ORAM, sgx-executor/Enclave2/ZeroTrace, with the storage
      outside, sgx-executor/App/ZeroTrace/LocalStorage.cpp.
    - OramEvict.v, OramFacts.v, OramAccess.v, OramTrace.v: eviction, the
      invariant, accesses, and sequences of accesses.
    - OramOblivious.v: the OCALLs of accesses, which the storage outside sees.
    - OramQuerier.v, OramQuerierFacts.v: Enclave2/oram_enclave_querier.cpp.
    - OramApp.v: the process around it, sgx-executor/App, which restarts the
      enclave for every set-up while the storage outside stays.
    - OramJoint.v: the OCALLs of several ORAMs in one sequence.
    - OramPrivacy.v: what the storage outside sees of set-ups and searches.

    ** What the theorems show

    - Correct search: the index built from crawled posts, merged over epochs
      and loaded by a querier answers with exactly the documents that contain
      the last two keywords, page by page ([search_end_to_end] and the theorem
      of each stage); the ORAM querier gives the same answers,
      restart after restart ([oram_query_equivalent]); through the web client the page of the right
      shard is shown, whichever live replicas are picked
      ([client_search_shows]).
    - Provenance: in every reachable store each registered witness is
      validly signed, named by its output, and of an output that the enclave
      has computed from the inputs it names ([witness_registry], in Rounds.v);
      a record that passes the check has the fields of a record that an enclave
      has signed, unless its signature is a forgery ([check_witness_binding]);
      root hashes fix the sealed witnesses ([check_root_hash_binds]); and the
      auditor passes exactly when all sealed items are below the answer's index
      or the verdict of the epoch is taken from the auditor's cache
      ([verify_decides], [verify_pass_complete], [client_verify_covers]).
    - Epochs: what [get_epoch] returns is valid in every reachable store
      ([epoch_always_valid]) and a round closes an epoch
      ([increment_epoch_closes]).
    - Storage: Circuit ORAM refines an array on traces in which no block is
      lost to a full stash or to a second write while it waits there
      ([oram_refines_array]), an eviction loses and duplicates no block
      ([evict_once_conserves]), the schedule visits every leaf
      ([eviction_fair]); which paths the storage is asked for and given says
      nothing about the accesses except how many there are, once the blocks
      are loaded ([oram_oblivious]); so the OCALLs of the querier's two ORAMs,
      in the order in which they are made, say nothing about the shard and the
      searches except the numbers of blocks that are loaded and that each
      search reads from each ORAM ([oram_searches_hidden]).
    - Signatures: the code signs and verifies as RFC 8032 says
      ([sign_standard], [verify_standard]), what is signed is accepted
      ([sign_then_verify]), and with the hard-coded keys the class [CryptoLaws]
      holds ([hacl_provides]), so that what is shown for the system above holds
      for the Ed25519 of the sources and any SHA-256 of 32 bytes.  Below them:
      no word overflows ([field_arithmetic], [point_operations_ok]), the ladder
      is multiplication in the group ([ladder_multiplies]), encodings
      ([point_roundtrip], [point_decompress_fails]), scalars
      ([scalar_arithmetic]) and the hash ([sha512_standard]).
    - The store: a dictionary is a finite map whatever the state of its
      rehashing ([dict_refines_map]), rehashing ends ([rehash_completes]), a
      scan returns every key that stays ([scan_complete]) and ends
      ([scan_ends]); the server that keeps its keys in one replies like the
      finite map on which the nodes run ([kanban_on_dict]).
    - Round trips, termination and equivalence with reference definitions for
      the formats, the tokenizer and the hash.
    - Where the code fails: [traverse_diverges], and lemmas without a number
      beside it: [second_write_lost], [Binary2Digest_overflow], [eviction_breaks_hashes], [audit_key_swap], [verify_cache_extends],
      [keywords_found] and others.

    ** Bounds and fuel

    Integers keep their width where the code can overflow ([u32], [i32],
    [u64], [u128]); buffers have the sizes of the source.  The fuel of [Load] is a function of
    the text, and [Load_terminates] shows that it is enough: a text gives a
    value or an error, and is undefined only when it ends inside a string or
    a number; so does
    [tokens_total] for the tokenizer.  The walk of the auditor has its fuel
    as an argument: [verify_decides] gives a bound when the witnesses have no
    cycle, and [traverse_diverges] shows that no fuel is enough otherwise.
    [url_decode] uses the length of its text; the loops of the signature
    library have fixed counts or count blocks of their input.  The loops of
    the hash tables run over the buckets; the theorems show that their fuel is
    enough as long as there are fewer than 2^60 entries, far below the 2^61
    buckets at which the size computation of dict.c overflows.  Waiting on Kanban ([AWAIT_GET],
    [AWAIT_SMEMBERS]) is a command that can only run when its answer is there.

    ** Parameters

    Code outside src/: OpenSSL's SHA-256 and the SGX library's AES counter
    mode ([AesCtr], [AesLaws]) are classes with their documented laws, each
    with an instance that shows the laws can hold.  The iteration order of
    unordered maps, std::shuffle, std::sort among equal keys, the network and
    the downloaded blocks are function arguments, with a permutation law where
    one is needed.  Uninitialised memory is an argument as well.

    ** Not modelled

    Timing: that the signature library takes the same time for all secrets,
    and that an ORAM access takes the same time and touches the same enclave
    memory for all blocks.  What the storage learns from the ciphertexts it
    holds, and from the numbers of accesses that a query makes to the two ORAMs,
    which depend on the length of its posting lists and on the number of its
    results.
    SHA-256, which is OpenSSL's or the SGX library's. Recursive position maps
    and the non-oblivious branches of ZeroTrace, which the querier never
    selects; the parts of Sphinx and Redis the program never calls, among them
    random sampling and safe iterators of the hash tables, expiry, and the
    compact encodings of small sets, hashes and lists, which are sets, maps and
    lists here; Enclave1 and Enclave3, whose only ECALL is empty; threads and sockets, apart from the bytes
    they carry; the HTTP server library, the web page, the native crawlers and
    the load generator. The sources of sgx-executor/Enclave2 that repeat
    executor/Enclave are modelled once. *)

From Stdlib Require Export ZArith Lia Ascii.
From Stdlib Require Import String.
From stdpp Require Export base list gmap sorting.
From stdpp Require Import strings countable.

(** ** Characters, strings and byte arrays

    A C++ [char], a [uint8_t] and a byte of a buffer are [ascii]; a
    [std::string], a [char] array and a [vector<BYTE>] are lists of them. *)

Notation str := (list ascii).

Definition L (s : string) : str := list_ascii_of_string s.

(** The double quote and the terminating zero. *)
Definition DQ : ascii := ascii_of_nat 34.
Definition NUL : ascii := ascii_of_nat 0.

#[export] Instance ascii_eqdec : EqDecision ascii := ascii_dec.

#[export] Instance ascii_count : Countable ascii :=
  inj_countable' N_of_ascii ascii_of_N ascii_N_embedding.

Definition b2z (c : ascii) : Z := Z.of_N (N_of_ascii c).
Definition z2b (z : Z) : ascii := ascii_of_N (Z.to_N (z mod 256)).

(** Values of the fixed-width integer types. *)
Definition u32 (z : Z) : Z := (z mod 2 ^ 32)%Z.
Definition i32 (z : Z) : Z := ((z + 2 ^ 31) mod 2 ^ 32 - 2 ^ 31)%Z.
Definition i64 (z : Z) : Z := ((z + 2 ^ 63) mod 2 ^ 64 - 2 ^ 63)%Z.
Definition is_u32 (z : Z) : Prop := (0 <= z < 2 ^ 32)%Z.
Definition is_i32 (z : Z) : Prop := (- 2 ^ 31 <= z < 2 ^ 31)%Z.

(** A [char] is signed on the targets of the program. *)
Definition schar (c : ascii) : Z := if (b2z c <? 128)%Z then b2z c else (b2z c - 256)%Z.

(** ** Outcomes

    What running a piece of C++ can give: a value, a thrown standard
    exception, undefined behaviour (an access outside an object, a
    dereference of an empty optional, ...), or no result within the fuel. *)

Inductive exn := invalid_argument | out_of_range | length_error | wrong_type.

Inductive outcome (A : Type) : Type :=
  | Ret (a : A)
  | Throw (e : exn)
  | Undef
  | NoFuel.
Arguments Ret {A} a.
Arguments Throw {A} e.
Arguments Undef {A}.
Arguments NoFuel {A}.

#[export] Instance outcome_ret : MRet outcome := @Ret.

#[export] Instance outcome_bind : MBind outcome := fun A B f m =>
  match m with
  | Ret a => f a
  | Throw e => Throw e
  | Undef => Undef
  | NoFuel => NoFuel
  end.

#[export] Instance outcome_fmap : FMap outcome := fun A B f m =>
  match m with
  | Ret a => Ret (f a)
  | Throw e => Throw e
  | Undef => Undef
  | NoFuel => NoFuel
  end.

(** An access that is undefined when it falls outside its object. *)
Definition deref {A} (o : option A) : outcome A :=
  match o with Some a => Ret a | None => Undef end.

(** A loop over a list whose body may fail. *)
Fixpoint foldM {A S} (f : S -> A -> outcome S) (l : list A) (s : S) : outcome S :=
  match l with
  | [] => Ret s
  | a :: l => s' ← f s a; foldM f l s'
  end.

Fixpoint mapMO {A B} (f : A -> outcome B) (l : list A) : outcome (list B) :=
  match l with
  | [] => Ret []
  | a :: l => b ← f a; bs ← mapMO f l; Ret (b :: bs)
  end.

(** ** Little-endian integers in memory *)

Fixpoint le_bytes (n : nat) (z : Z) : str :=
  match n with
  | O => []
  | S n => z2b z :: le_bytes n (z / 256)
  end.

Fixpoint le_val (l : str) : Z :=
  match l with
  | [] => 0
  | c :: l => b2z c + 256 * le_val l
  end%Z.

(** ** Decimal and hexadecimal conversions of the C library *)

Definition is_space (c : ascii) : bool :=
  let z := b2z c in ((z =? 32) || ((9 <=? z) && (z <=? 13)))%Z.

Definition is_digit (c : ascii) : bool :=
  let z := b2z c in ((48 <=? z) && (z <=? 57))%Z.

(** The value of [c] as a digit of [strtol]: letters count from ten. *)
Definition digit_val (c : ascii) : option Z :=
  let z := b2z c in
  (if (48 <=? z) && (z <=? 57) then Some (z - 48)
   else if (97 <=? z) && (z <=? 122) then Some (z - 87)
   else if (65 <=? z) && (z <=? 90) then Some (z - 55)
   else None)%Z.

Definition digit_in (base : Z) (c : ascii) : option Z :=
  match digit_val c with
  | Some d => if (d <? base)%Z then Some d else None
  | None => None
  end.

(** The digits at the front of [l] accumulated into [acc], and whether any
    was read. *)
Fixpoint scan_digits (base acc : Z) (seen : bool) (l : str) : Z * bool :=
  match l with
  | c :: l' =>
    match digit_in base c with
    | Some d => scan_digits base (acc * base + d) true l'
    | None => (acc, seen)
    end
  | [] => (acc, seen)
  end.

Fixpoint skip_space (l : str) : str :=
  match l with
  | c :: l' => if is_space c then skip_space l' else l
  | [] => []
  end.

Definition scan_sign (l : str) : bool * str :=
  match l with
  | c :: l' =>
    if (b2z c =? 45)%Z then (true, l') else if (b2z c =? 43)%Z then (false, l') else (false, l)
  | [] => (false, [])
  end.

(** In base sixteen a prefix 0x or 0X is dropped when a digit follows it. *)
Definition skip_0x (base : Z) (l : str) : str :=
  match l with
  | z :: x :: c :: l' =>
    if (base =? 16)%Z && (b2z z =? 48)%Z && ((b2z x =? 120)%Z || (b2z x =? 88)%Z)
       && (if digit_in 16 c then true else false)
    then c :: l' else l
  | _ => l
  end.

(** The number at the front of a C string in a base, if there is one. *)
Definition scan_long (base : Z) (s : str) : option Z :=
  let '(neg, l) := scan_sign (skip_space s) in
  match scan_digits base 0 false (skip_0x base l) with
  | (v, true) => Some (if neg then - v else v)%Z
  | (_, false) => None
  end.

(** The part of a buffer that a [char *] consumer sees. *)
Fixpoint c_str (l : str) : str :=
  match l with
  | [] => []
  | c :: l => if (b2z c =? 0)%Z then [] else c :: c_str l
  end.

Definition clamp_long (z : Z) : Z := Z.max (- 2 ^ 63) (Z.min (2 ^ 63 - 1) z).

Definition strtol (base : Z) (s : str) : Z :=
  match scan_long base (c_str s) with
  | Some v => clamp_long v
  | None => 0%Z
  end.

Definition stoi (s : str) : outcome Z :=
  match scan_long 10 (c_str s) with
  | None => Throw invalid_argument
  | Some v => if decide (is_i32 v) then Ret v else Throw out_of_range
  end.

Definition stol (s : str) : outcome Z :=
  match scan_long 10 (c_str s) with
  | None => Throw invalid_argument
  | Some v => if decide (- 2 ^ 63 <= v < 2 ^ 63)%Z then Ret v else Throw out_of_range
  end.

Definition digit_char (d : Z) : ascii := z2b (if (d <? 10)%Z then 48 + d else 87 + d)%Z.

(** The decimal digits of a natural number; [fuel] bounds their number. *)
Fixpoint dec_digits (fuel : nat) (n : Z) (acc : str) : str :=
  match fuel with
  | O => acc
  | S fuel =>
    let acc := digit_char (n mod 10) :: acc in
    if (n <? 10)%Z then acc else dec_digits fuel (n / 10) acc
  end.

Definition dec_nat (n : Z) : str := dec_digits (S (Z.to_nat (Z.log2 n))) n [].

(** [std::to_string] of an integer. *)
Definition to_string (z : Z) : str :=
  if (z <? 0)%Z then z2b 45 :: dec_nat (- z) else dec_nat z.

(** ** Slices of buffers *)

(** [n] bytes read from position [off]: undefined past the end. *)
Definition read_at (buf : str) (off n : Z) : outcome str :=
  if decide (0 <= off /\ 0 <= n /\ off + n <= Z.of_nat (length buf))%Z
  then Ret (take (Z.to_nat n) (drop (Z.to_nat off) buf))
  else Undef.

(** [std::string::substr]: throws past the end, clips the count. *)
Definition substr (s : str) (pos n : nat) : outcome str :=
  if decide (pos <= length s)%nat then Ret (take n (drop pos s)) else Throw out_of_range.

(** ** Tactics and hints *)

Create HintDb desearch.

Ltac byte_cases c :=
  let H := fresh "Hrange" in
  pose proof (N_ascii_bounded c) as H; unfold b2z in *.

Ltac case_bool :=
  match goal with
  | |- context [if ?b then _ else _] => destruct b eqn:?
  | H : context [if ?b then _ else _] |- _ => destruct b eqn:?
  end.

(** ** Lemmas on outcomes *)

Lemma bind_ret {A B} (a : A) (f : A -> outcome B) : (Ret a ≫= f) = f a.
Proof. done. Qed.

Lemma bind_assoc {A B C} (m : outcome A) (f : A -> outcome B) (g : B -> outcome C) :
  (m ≫= f) ≫= g = m ≫= (fun a => f a ≫= g).
Proof. by destruct m. Qed.

Lemma Ret_inj {A} (a b : A) : Ret a = Ret b -> a = b.
Proof. congruence. Qed.

Lemma bind_Ret_inv {A B} (m : outcome A) (f : A -> outcome B) b :
  m ≫= f = Ret b -> exists a, m = Ret a /\ f a = Ret b.
Proof. destruct m; naive_solver. Qed.

Lemma foldM_app {A S} (f : S -> A -> outcome S) l1 l2 s :
  foldM f (l1 ++ l2) s = foldM f l1 s ≫= foldM f l2.
Proof.
  revert s. induction l1 as [|a l1 IH]; intros s; [done|]. cbn.
  destruct (f s a); cbn; auto.
Qed.

Lemma foldM_pure {A S} (f : S -> A -> S) l s :
  foldM (fun s a => Ret (f s a)) l s = Ret (foldl f s l).
Proof. revert s. induction l as [|a l IH]; intros s; cbn; auto. Qed.

Lemma mapMO_Ret {A B} (f : A -> outcome B) (g : A -> B) l :
  (forall a, a ∈ l -> f a = Ret (g a)) -> mapMO f l = Ret (g <$> l).
Proof.
  induction l as [|a l IH]; intros H; [done|]. cbn.
  rewrite H by left. cbn. rewrite IH by (intros; apply H; by right). done.
Qed.

(** ** Lemmas on lists *)

Lemma filter_keeps {A} (P : A -> Prop) `{!forall x, Decision (P x)} l : Forall P l -> filter P l = l.
Proof. induction 1 as [|x l Hx _ IH]; [done|]. by rewrite filter_cons_True, IH. Qed.

Lemma filter_drops {A} (P : A -> Prop) `{!forall x, Decision (P x)} l : Forall (fun x => ~ P x) l -> filter P l = [].
Proof. induction 1 as [|x l Hx _ IH]; [done|]. by rewrite filter_cons_False. Qed.

Lemma Forall_weaken {A} (P Q : A -> Prop) l :
  Forall P l -> (forall x, P x -> Q x) -> Forall Q l.
Proof. induction 1; auto. Qed.

(** ** Lemmas on bytes and little-endian integers *)

Local Open Scope Z_scope.

Lemma b2z_range c : 0 <= b2z c < 256.
Proof. unfold b2z. pose proof (N_ascii_bounded c). lia. Qed.

Lemma z2b_b2z c : z2b (b2z c) = c.
Proof.
  unfold z2b. rewrite Z.mod_small by apply b2z_range.
  unfold b2z. rewrite N2Z.id. apply ascii_N_embedding.
Qed.

Lemma b2z_z2b z : b2z (z2b z) = z mod 256.
Proof.
  unfold b2z, z2b. pose proof (Z.mod_pos_bound z 256 eq_refl).
  rewrite N_ascii_embedding by lia. lia.
Qed.

Lemma b2z_inj c d : b2z c = b2z d -> c = d.
Proof. intros H. by rewrite <- (z2b_b2z c), <- (z2b_b2z d), H. Qed.

Lemma b2z_eqb c d : (b2z c =? b2z d) = bool_decide (c = d).
Proof.
  case_bool_decide as H; [subst; apply Z.eqb_refl|].
  apply Z.eqb_neq. intros E. by apply H, b2z_inj.
Qed.

Lemma length_le_bytes n z : length (le_bytes n z) = n.
Proof. revert z. induction n; intros z; cbn; auto. Qed.

Lemma le_val_range l : 0 <= le_val l < 256 ^ Z.of_nat (length l).
Proof.
  induction l as [|c l IH]; [cbn; lia|].
  cbn [le_val length]. rewrite Nat2Z.inj_succ, Z.pow_succ_r by lia.
  pose proof (b2z_range c). nia.
Qed.

Lemma le_val_bytes n z : le_val (le_bytes n z) = z mod 256 ^ Z.of_nat n.
Proof.
  revert z. induction n as [|n IH]; intros z.
  - cbn. by rewrite Z.mod_1_r.
  - cbn [le_bytes le_val]. rewrite IH, b2z_z2b, Nat2Z.inj_succ, Z.pow_succ_r by lia.
    rewrite (Z.rem_mul_r z 256 (256 ^ Z.of_nat n)) by (try apply Z.pow_nonzero; lia).
    lia.
Qed.

Lemma le_bytes_val l : le_bytes (length l) (le_val l) = l.
Proof.
  induction l as [|c l IH]; [done|]. cbn [length le_bytes le_val].
  pose proof (b2z_range c). f_equal.
  - rewrite <- (z2b_b2z c) at 2. unfold z2b. do 2 f_equal.
    rewrite <- Zplus_mod_idemp_r, Z.mul_comm, Z_mod_mult. by rewrite Z.add_0_r.
  - rewrite <- IH at 3. f_equal.
    rewrite (Z.mul_comm 256), Z.div_add, Z.div_small by lia. lia.
Qed.

Lemma le_bytes_inj n z1 z2 :
  0 <= z1 < 256 ^ Z.of_nat n -> 0 <= z2 < 256 ^ Z.of_nat n ->
  le_bytes n z1 = le_bytes n z2 -> z1 = z2.
Proof.
  intros H1 H2 E. apply (f_equal le_val) in E.
  rewrite !le_val_bytes, !Z.mod_small in E; lia.
Qed.

Lemma le_val_bytes4 z : is_u32 z -> le_val (le_bytes 4 z) = z.
Proof. intros H. rewrite le_val_bytes. apply Z.mod_small. unfold is_u32 in H. lia. Qed.

Lemma u32_range z : is_u32 (u32 z).
Proof. unfold is_u32, u32. apply Z.mod_pos_bound. lia. Qed.

Lemma u32_small z : is_u32 z -> u32 z = z.
Proof. intros. by apply Z.mod_small. Qed.

Lemma i32_small z : is_i32 z -> i32 z = z.
Proof. unfold is_i32, i32. intros. rewrite Z.mod_small; lia. Qed.

Lemma i32_u32 z : u32 (i32 z) = u32 z.
Proof.
  unfold u32, i32. rewrite Zminus_mod_idemp_l. f_equal. lia.
Qed.

Lemma u32_idemp z : u32 (u32 z) = u32 z.
Proof. apply u32_small, u32_range. Qed.

#[export] Hint Resolve u32_range b2z_range : desearch.
#[export] Hint Rewrite @length_app @length_le_bytes @length_fmap : desearch.

(** ** Lemmas on decimal conversions *)

Lemma digit_char_val d : 0 <= d < 10 -> digit_in 10 (digit_char d) = Some d.
Proof.
  intros H. unfold digit_in, digit_val, digit_char.
  rewrite b2z_z2b. destruct (Z.ltb_spec d 10); [|lia].
  rewrite Z.mod_small by lia.
  destruct (Z.leb_spec 48 (48 + d)); [|lia].
  destruct (Z.leb_spec (48 + d) 57); [|lia]. cbn.
  replace (48 + d - 48) with d by lia. destruct (Z.ltb_spec d 10); [done|lia].
Qed.

Lemma scan_digits_app base l1 : forall acc seen l2,
  Forall (fun c => is_Some (digit_in base c)) l1 ->
  scan_digits base acc seen (l1 ++ l2) =
  scan_digits base (fst (scan_digits base acc seen l1)) (snd (scan_digits base acc seen l1)) l2.
Proof.
  induction l1 as [|c l1 IH]; intros acc seen l2 H; [done|].
  inversion_clear H as [|?? [d Hd] H']. cbn. rewrite Hd. by apply IH.
Qed.

(** What [dec_digits] puts in front of its accumulator. *)
Lemma dec_digits_spec fuel : forall n acc,
  0 <= n < 2 ^ Z.of_nat fuel ->
  exists ds, dec_digits fuel n acc = ds ++ acc /\
    Forall (fun c => is_Some (digit_in 10 c)) ds /\
    (fuel <> O -> ds <> []) /\
    forall a seen, exists k, 0 <= k /\ scan_digits 10 a seen ds =
      (a * 10 ^ k + n, if decide (ds = []) then seen else true).
Proof.
  induction fuel as [|fuel IH]; intros n acc Hn.
  { exists []. split_and!; [done|by constructor|done|].
    intros a seen. exists 0. cbn. split; [lia|]. f_equal. cbn in Hn. lia. }
  rewrite Nat2Z.inj_succ, Z.pow_succ_r in Hn by lia.
  pose proof (Z.mod_pos_bound n 10 eq_refl) as Hm.
  pose proof (digit_char_val (n mod 10) Hm) as Hd. cbn [dec_digits].
  destruct (Z.ltb_spec n 10) as [Hlt|Hge].
  - exists [digit_char (n mod 10)]. split_and!; [done| |done|].
    + constructor; [|constructor]. eauto.
    + intros a seen. exists 1. split; [lia|]. cbn -[Z.pow]. rewrite Hd.
      destruct (decide _); [done|]. f_equal. rewrite Z.mod_small by lia. lia.
  - destruct (IH (n / 10) (digit_char (n mod 10) :: acc)) as (ds & E & Hall & Hne & Hs).
    { split; [apply Z.div_pos; lia|]. apply Z.div_lt_upper_bound; lia. }
    exists (ds ++ [digit_char (n mod 10)]). split_and!.
    + rewrite E, <- app_assoc. done.
    + apply Forall_app. split; [done|]. constructor; [|constructor]. eauto.
    + intros _. by destruct ds.
    + intros a seen. destruct (Hs a seen) as (k & Hk & Ek). exists (Z.succ k).
      split; [lia|]. rewrite scan_digits_app by done. rewrite Ek. cbn [fst snd scan_digits].
      rewrite Hd. destruct (decide (ds ++ _ = [])) as [E'|]; [by destruct ds|].
      f_equal. rewrite Z.pow_succ_r by lia. pose proof (Z_div_mod_eq_full n 10). lia.
Qed.

Lemma dec_nat_spec n : 0 <= n ->
  Forall (fun c => is_Some (digit_in 10 c)) (dec_nat n) /\ dec_nat n <> [] /\
  forall a seen, exists k, 0 <= k /\ scan_digits 10 a seen (dec_nat n) = (a * 10 ^ k + n, true).
Proof.
  intros Hn. unfold dec_nat.
  destruct (dec_digits_spec (S (Z.to_nat (Z.log2 n))) n []) as (ds & E & Hall & Hne & Hs).
  { rewrite Nat2Z.inj_succ, Z2Nat.id by apply Z.log2_nonneg.
    destruct (Z.eq_dec n 0) as [->|]; [cbn; lia|]. pose proof (Z.log2_spec n). lia. }
  rewrite E, app_nil_r. assert (ds <> []) by auto. split_and!; [done..|].
  intros a seen. destruct (Hs a seen) as (k & Hk & ->). exists k. split; [done|].
  by destruct (decide (ds = [])).
Qed.

Lemma digit_not_sign c : is_Some (digit_in 10 c) ->
  is_space c = false /\ b2z c <> 45 /\ b2z c <> 43 /\ b2z c <> 0.
Proof.
  unfold digit_in, digit_val, is_space. intros [d Hd].
  destruct (Z.leb_spec 48 (b2z c)); cbn in Hd.
  - destruct (Z.leb_spec (b2z c) 57); cbn in Hd; [|repeat case_bool; try done; lia].
    split; [|lia]. destruct (Z.eqb_spec (b2z c) 32), (Z.leb_spec 9 (b2z c)),
      (Z.leb_spec (b2z c) 13); cbn; try done; lia.
  - destruct (Z.leb_spec 97 (b2z c)), (Z.leb_spec 65 (b2z c)); try lia; done.
Qed.

Lemma skip_0x_10 l : skip_0x 10 l = l.
Proof. by destruct l as [|? [|? [|? ?]]]. Qed.

Lemma c_str_no_nul l : Forall (fun c => b2z c <> 0) l -> c_str l = l.
Proof.
  induction 1 as [|c l Hc _ IH]; [done|]. cbn.
  destruct (Z.eqb_spec (b2z c) 0); [done|]. by rewrite IH.
Qed.

Lemma c_str_app_nul l r : Forall (fun c => b2z c <> 0) l -> c_str (l ++ NUL :: r) = l.
Proof.
  induction 1 as [|c l Hc _ IH]; [done|]. cbn.
  destruct (Z.eqb_spec (b2z c) 0); [done|]. by rewrite IH.
Qed.

Lemma to_string_no_nul z : Forall (fun c => b2z c <> 0) (to_string z).
Proof.
  unfold to_string. destruct (Z.ltb_spec z 0).
  - constructor; [by vm_compute|].
    destruct (dec_nat_spec (- z)) as [Hall _]; [lia|].
    eapply Forall_weaken; [exact Hall|]. intros c Hc. by apply digit_not_sign.
  - destruct (dec_nat_spec z) as [Hall _]; [lia|].
    eapply Forall_weaken; [exact Hall|]. intros c Hc. by apply digit_not_sign.
Qed.

(** Reading back what [std::to_string] printed. *)
Lemma scan_long_to_string z : scan_long 10 (to_string z) = Some z.
Proof.
  unfold scan_long, to_string. destruct (Z.ltb_spec z 0) as [Hneg|Hpos].
  - destruct (dec_nat_spec (- z)) as (Hall & Hne & Hs); [lia|].
    destruct (Hs 0 false) as (k & Hk & E).
    change (skip_space (z2b 45 :: dec_nat (- z))) with (z2b 45 :: dec_nat (- z)).
    change (scan_sign (z2b 45 :: dec_nat (- z))) with (true, dec_nat (- z)).
    cbv beta iota. rewrite skip_0x_10, E. f_equal; lia.
  - destruct (dec_nat_spec z) as (Hall & Hne & Hs); [lia|].
    destruct (Hs 0 false) as (k & Hk & E).
    destruct (dec_nat z) as [|c l] eqn:Ez; [done|].
    apply Forall_cons_iff in Hall as [Hc _]. apply digit_not_sign in Hc as (H1 & H2 & H3 & _).
    cbn [skip_space]. rewrite H1. cbn [scan_sign].
    rewrite (proj2 (Z.eqb_neq _ _) H2), (proj2 (Z.eqb_neq _ _) H3).
    cbv beta iota. rewrite skip_0x_10, E. f_equal; lia.
Qed.

Lemma stoi_to_string z : is_i32 z -> stoi (to_string z) = Ret z.
Proof.
  intros H. unfold stoi. rewrite c_str_no_nul by apply to_string_no_nul.
  rewrite scan_long_to_string. by destruct (decide (is_i32 z)).
Qed.

Lemma strtol_to_string z : - 2 ^ 63 <= z < 2 ^ 63 -> strtol 10 (to_string z) = z.
Proof.
  intros H. unfold strtol. rewrite c_str_no_nul by apply to_string_no_nul.
  rewrite scan_long_to_string. unfold clamp_long. lia.
Qed.

Lemma to_string_inj z1 z2 : to_string z1 = to_string z2 -> z1 = z2.
Proof.
  intros H. pose proof (scan_long_to_string z1) as E. rewrite H in E.
  rewrite scan_long_to_string in E. by injection E.
Qed.

(** ** Reading buffers *)

Lemma read_at_mid p s r off n :
  Z.of_nat (length p) = off -> Z.of_nat (length s) = n -> read_at (p ++ s ++ r) off n = Ret s.
Proof.
  intros <- <-. unfold read_at. rewrite decide_True by (rewrite !length_app; lia).
  by rewrite !Nat2Z.id, drop_app_length, take_app_length.
Qed.

Lemma read_at_prefix s r n : Z.of_nat (length s) = n -> read_at (s ++ r) 0 n = Ret s.
Proof. intros H. by apply (read_at_mid []). Qed.

Lemma read_at_all s n : Z.of_nat (length s) = n -> read_at s 0 n = Ret s.
Proof. intros H. rewrite <- (app_nil_r s) at 1. by apply read_at_prefix. Qed.

(** ** Finite checks on integers *)

Lemma Z_check (P : Z -> bool) n :
  forallb P (map Z.of_nat (seq 0 n)) = true -> forall z, (0 <= z < Z.of_nat n)%Z -> P z = true.
Proof.
  intros H z Hz. rewrite forallb_forall in H. apply H. apply in_map_iff.
  exists (Z.to_nat z). split; [lia|]. apply in_seq. lia.
Qed.
