(* ===== verification/Json.v ===== *)
(** * The JSON library of the program

    src/executor/include/json.hpp and src/executor/App/json.cpp: values, the
    mutating accessors the executors use, [dump] and the recursive-descent
    parser behind [JSON::Load].  Every packet on Kanban (epochs, witnesses,
    documents, requests) goes through it.

    A position [offset] in a string is a cursor, the suffix from [offset] on:
    [str[size()]] is the terminating zero, and an [offset] past it is [None],
    on which every read is undefined. *)

From Stdlib Require Import String SpecFloat.
From S2P Require Import Prelude.

Module Json.

(** ** Values *)

Local Unset Elimination Schemes.
Inductive JSON : Type :=
  | Null
  | Object (m : list (str * JSON))
  | Array (l : list JSON)
  | Str (s : str)
  | Floating (f : spec_float)
  | Integral (z : Z)
  | Boolean (b : bool).
Local Set Elimination Schemes.

(** ** std::map with string keys: an association list in key order *)

Fixpoint str_ltb (a b : str) : bool :=
  match a, b with
  | _, [] => false
  | [], _ :: _ => true
  | c :: a, d :: b =>
    if (b2z c <? b2z d)%Z then true else if (b2z d <? b2z c)%Z then false else str_ltb a b
  end.

Fixpoint map_find (k : str) (m : list (str * JSON)) : option JSON :=
  match m with
  | [] => None
  | (k', v) :: m => if decide (k = k') then Some v else map_find k m
  end.

Fixpoint map_put (k : str) (v : JSON) (m : list (str * JSON)) : list (str * JSON) :=
  match m with
  | [] => [(k, v)]
  | (k', v') :: m' =>
    if decide (k = k') then (k, v) :: m'
    else if str_ltb k k' then (k, v) :: m
    else (k', v') :: map_put k v m'
  end.

(** ** Accessors *)

(** [SetType(Object)] / [SetType(Array)]: a value of another class becomes
    the empty one. *)
Definition as_object (v : JSON) : list (str * JSON) :=
  match v with Object m => m | _ => [] end.

Definition as_array (v : JSON) : list JSON :=
  match v with Array l => l | _ => [] end.

(** [v[key]] read: a missing key is inserted as null. *)
Definition at_key (v : JSON) (k : str) : JSON := default Null (map_find k (as_object v)).

(** [v[key] = x]. *)
Definition set_key (v : JSON) (k : str) (x : JSON) : JSON := Object (map_put k x (as_object v)).

(** [v[index] = x]: the deque grows with nulls up to the index. *)
Definition set_index (v : JSON) (i : nat) (x : JSON) : JSON :=
  let l := as_array v in
  let l := if decide (length l <= i) then l ++ replicate (S i - length l) Null else l in
  Array (<[i := x]> l).

Definition append (v x : JSON) : JSON := Array (as_array v ++ [x]).

Definition jlength (v : JSON) : Z :=
  match v with Array l => Z.of_nat (length l) | _ => -1 end.

Definition jsize (v : JSON) : Z :=
  match v with
  | Object m => Z.of_nat (length m)
  | Array l => Z.of_nat (length l)
  | _ => -1
  end.

Definition hasKey (v : JSON) (k : str) : bool :=
  match v with
  | Object m => match map_find k m with Some _ => true | None => false end
  | _ => false
  end.

(** ** Escaping *)

Definition BS : ascii := z2b 92.

Definition escape_char (c : ascii) : str :=
  let z := b2z c in
  if (z =? 34)%Z then [BS; DQ]
  else if (z =? 92)%Z then [BS; BS]
  else if (z =? 8)%Z then L "\b"
  else if (z =? 12)%Z then L "\f"
  else if (z =? 10)%Z then L "\n"
  else if (z =? 13)%Z then L "\r"
  else if (z =? 9)%Z then L "\t"
  else [c].

Fixpoint json_escape (s : str) : str :=
  match s with
  | [] => []
  | c :: s => escape_char c ++ json_escape s
  end.

(** [ToString] gives the escaped text of a string and nothing otherwise. *)
Definition ToString (v : JSON) : str :=
  match v with Str s => json_escape s | _ => [] end.

Definition ToBool (v : JSON) : bool := match v with Boolean b => b | _ => false end.

Definition ToInt (v : JSON) : Z := match v with Integral z => z | _ => 0%Z end.

(** Iterating over [ArrayRange()]. *)
Definition ArrayRange (v : JSON) : list JSON := as_array v.

(** ** Doubles, as far as the library touches them *)

Definition prec : Z := 53.
Definition emax : Z := 1024.

(** The double nearest to [num / den]. *)
Definition round_ratio (neg : bool) (num : Z) (den : positive) : spec_float :=
  match num with
  | Zpos n =>
    let '(q, e, l) := SFdiv_core_binary prec emax (Zpos n) 0 (Zpos den) 0 in
    binary_round_aux prec emax neg q e l
  | _ => S754_zero neg
  end.

Fixpoint frac_digits (acc : Z) (k : nat) (l : str) : Z * nat :=
  match l with
  | c :: l' =>
    match digit_in 10 c with
    | Some d => frac_digits (acc * 10 + d) (S k) l'
    | None => (acc, k)
    end
  | [] => (acc, k)
  end.

Fixpoint drop_digits (l : str) : str :=
  match l with
  | c :: l' => if digit_in 10 c then drop_digits l' else l
  | [] => []
  end.

(** Whether the double [f] is exactly [num / 10^k]. *)
Definition exact_ratio (f : spec_float) (num : Z) (k : nat) : bool :=
  match f with
  | S754_zero _ => (num =? 0)%Z
  | S754_finite _ m e =>
    (if e <? 0 then Zpos m * 10 ^ Z.of_nat k =? num * 2 ^ (- e)
     else Zpos m * 2 ^ e * 10 ^ Z.of_nat k =? num)%Z
  | _ => false
  end.

Definition subnormal (f : spec_float) : bool :=
  match f with
  | S754_zero _ => true
  | S754_finite _ m e => (Zpos (digits2_pos m) + e <? -1021)%Z
  | _ => false
  end.

(** [std::stod] of digits, signs and points: the longest decimal prefix,
    rounded; overflow and inexact underflow set ERANGE. *)
Definition stod (s : str) : outcome spec_float :=
  let '(neg, l) := scan_sign s in
  let '(ip, seen) := scan_digits 10 0 false l in
  let l' := drop_digits l in
  let '(num, k) :=
    match l' with
    | c :: l'' => if (b2z c =? 46)%Z then frac_digits ip 0 l'' else (ip, O)
    | [] => (ip, O)
    end in
  if negb seen && (k =? 0)%nat then Throw invalid_argument
  else
    let f := round_ratio neg num (Z.to_pos (10 ^ Z.of_nat k)) in
    match f with
    | S754_infinity _ | S754_nan => Throw out_of_range
    | _ => if subnormal f && negb (exact_ratio f num k) then Throw out_of_range else Ret f
    end.

(** [std::pow(10, exp)], rounded to nearest. *)
Definition pow10 (e : Z) : spec_float :=
  if (e <? 0)%Z then round_ratio false 1 (Z.to_pos (10 ^ (- e)))
  else round_ratio false (10 ^ e) 1.

Definition double_of_long (z : Z) : spec_float := round_ratio (z <? 0)%Z (Z.abs z) 1.

Definition fmul (a b : spec_float) : spec_float := SFmul prec emax a b.

(** [num * 2^e * 10^6] rounded to the nearest integer, ties to even. *)
Definition micros (m : positive) (e : Z) : Z :=
  (if 0 <=? e then Zpos m * 2 ^ e * 1000000
   else
     let n := Zpos m * 1000000 in
     let d := 2 ^ (- e) in
     let q := n / d in
     let r := n mod d in
     if 2 * r <? d then q
     else if d <? 2 * r then q + 1
     else if Z.even q then q else q + 1)%Z.

Definition pad6 (z : Z) : str :=
  let d := dec_nat z in replicate (6 - length d) (z2b 48) ++ d.

(** [std::to_string(double)], the printf conversion %f. *)
Definition to_string_double (f : spec_float) : str :=
  match f with
  | S754_zero s => (if s then L "-" else []) ++ L "0.000000"
  | S754_infinity s => (if s then L "-" else []) ++ L "inf"
  | S754_nan => L "nan"
  | S754_finite s m e =>
    let q := micros m e in
    (if s then L "-" else []) ++ dec_nat (q / 1000000) ++ L "." ++ pad6 (q mod 1000000)
  end.

(** ** dump *)

Definition pad_of (depth : nat) : str := concat (replicate depth (L "  ")).

(** The elements of [l] separated by [sep]. *)
Fixpoint join (sep : str) (l : list str) : str :=
  match l with
  | [] => []
  | [s] => s
  | s :: l => s ++ sep ++ join sep l
  end.

Definition NL : ascii := z2b 10.

Fixpoint dump (depth : nat) (v : JSON) : str :=
  match v with
  | Null => L "null"
  | Object m =>
    L "{" ++ [NL]
      ++ join (L "," ++ [NL])
           (map (fun p => pad_of depth ++ [DQ] ++ fst p ++ [DQ] ++ L " : " ++ dump (S depth) (snd p)) m)
      ++ [NL] ++ drop 2 (pad_of depth) ++ L "}"
  | Array l => L "[" ++ join (L ", ") (map (dump (S depth)) l) ++ L "]"
  | Str s => [DQ] ++ json_escape s ++ [DQ]
  | Floating f => to_string_double f
  | Integral z => to_string z
  | Boolean b => if b then L "true" else L "false"
  end.

(** ** The parser *)

Definition cursor := option str.

Definition rd (p : cursor) : outcome ascii :=
  match p with
  | Some (c :: _) => Ret c
  | Some [] => Ret NUL
  | None => Undef
  end.

Definition adv (p : cursor) : cursor :=
  match p with
  | Some (_ :: l) => Some l
  | _ => None
  end.

Fixpoint ws_suffix (l : str) : str :=
  match l with
  | c :: l' => if is_space c then ws_suffix l' else l
  | [] => []
  end.

Definition consume_ws (p : cursor) : outcome cursor :=
  match p with
  | Some l => Ret (Some (ws_suffix l))
  | None => Undef
  end.

Definition is_hex (c : ascii) : bool := if digit_in 16 c then true else false.

(** The loop of [parse_string]; [l] starts at the character [c] under
    inspection.  A malformed unicode escape gives the empty string with the
    offset left on the u. *)
Fixpoint parse_string_loop (l val : str) : outcome (JSON * cursor) :=
  match l with
  | [] => Undef
  | c :: l1 =>
    if decide (c = DQ) then Ret (Str val, Some l1)
    else if decide (c = BS) then
      match l1 with
      | [] => Undef
      | e :: l2 =>
        let z := b2z e in
        if (z =? 34)%Z then parse_string_loop l2 (val ++ [DQ])
        else if (z =? 92)%Z then parse_string_loop l2 (val ++ [BS])
        else if (z =? 47)%Z then parse_string_loop l2 (val ++ [e])
        else if (z =? 98)%Z then parse_string_loop l2 (val ++ [z2b 8])
        else if (z =? 102)%Z then parse_string_loop l2 (val ++ [z2b 12])
        else if (z =? 110)%Z then parse_string_loop l2 (val ++ [z2b 10])
        else if (z =? 114)%Z then parse_string_loop l2 (val ++ [z2b 13])
        else if (z =? 116)%Z then parse_string_loop l2 (val ++ [z2b 9])
        else if (z =? 117)%Z then
          match l2 with
          | h1 :: h2 :: h3 :: h4 :: l6 =>
            if is_hex h1 && is_hex h2 && is_hex h3 && is_hex h4
            then parse_string_loop l6 (val ++ [BS; e; h1; h2; h3; h4])
            else Ret (Str [], Some l1)
          | _ => Ret (Str [], Some l1)
          end
        else parse_string_loop l2 (val ++ [BS])
      end
    else parse_string_loop l1 (val ++ [c])
  end.

Definition parse_string (p : cursor) : outcome (JSON * cursor) :=
  match adv p with
  | Some l => parse_string_loop l []
  | None => Undef
  end.

(** The characters of a number, whether one is a point, and the suffix at
    the first other character. *)
Fixpoint num_scan (l val : str) (dbl : bool) : str * bool * str :=
  match l with
  | c :: l' =>
    if (b2z c =? 45)%Z || is_digit c then num_scan l' (val ++ [c]) dbl
    else if (b2z c =? 46)%Z then num_scan l' (val ++ [c]) true
    else (val, dbl, l)
  | [] => (val, dbl, [])
  end.

Definition num_end (c : ascii) : bool :=
  is_space c || (b2z c =? 44)%Z || (b2z c =? 93)%Z || (b2z c =? 125)%Z.

(** The exponent digits up to the first other character, left under the
    cursor; [None] on a character that cannot end a number. *)
Fixpoint exp_scan (l exp_str : str) : option (str * str) :=
  match l with
  | c :: l' =>
    if is_digit c then exp_scan l' (exp_str ++ [c])
    else if num_end c then Some (exp_str, l) else None
  | [] => None
  end.

(** The cursor after the character on which [exp_scan] gave up. *)
Fixpoint exp_stop (l : str) : cursor :=
  match l with
  | c :: l' => if is_digit c then exp_stop l' else Some l'
  | [] => None
  end.

Definition number_value (val : str) (dbl : bool) (exp_str : str) (exp : Z) : outcome JSON :=
  if dbl then f ← stod val; Ret (Floating (fmul f (pow10 exp)))
  else match exp_str with
       | [] => z ← stol val; Ret (Integral z)
       | _ => z ← stol val; Ret (Floating (fmul (double_of_long z) (pow10 exp)))
       end.

Definition parse_number (p : cursor) : outcome (JSON * cursor) :=
  match p with
  | None => Undef
  | Some l =>
    let '(val, dbl, l1) := num_scan l [] false in
    c ← rd (Some l1);
    if (b2z c =? 69)%Z || (b2z c =? 101)%Z then
      let p2 := adv (Some l1) in
      s ← rd p2;
      let '(p3, sgn) := if (b2z s =? 45)%Z then (adv (adv p2), [s]) else (adv p2, []) in
      match p3 with
      | None => Undef
      | Some l3 =>
        match exp_scan l3 sgn with
        | None => Ret (Null, exp_stop l3)
        | Some (exp_str, l4) =>
          e ← stol exp_str;
          v ← number_value val dbl exp_str e;
          Ret (v, Some l4)
        end
      end
    else if negb (num_end c) then Ret (Null, adv (Some l1))
    else v ← number_value val dbl [] 0; Ret (v, Some l1)
  end.

Definition parse_bool (l : str) : JSON * cursor :=
  if decide (take 4 l = L "true") then (Boolean true, Some (drop 4 l))
  else if decide (take 5 l = L "false") then (Boolean false, Some (drop 5 l))
  else (Null, Some l).

Definition parse_null (l : str) : JSON * cursor :=
  if decide (take 4 l = L "null") then (Null, Some (drop 4 l)) else (Null, Some l).

(** The functions of the parser call each other; each body takes the others
    as arguments and the fixpoint below ties them. *)
Definition parser := cursor -> outcome (JSON * cursor).

(** [parse_array] after the opening bracket has been found. *)
Definition parse_array (loop : list JSON -> parser) (p : cursor) : outcome (JSON * cursor) :=
  q ← consume_ws (adv p);
  d ← rd q;
  if (b2z d =? 93)%Z then Ret (Array [], adv q) else loop [] q.

(** One turn of its loop. *)
Definition parse_array_turn (next : parser) (loop : list JSON -> parser)
    (arr : list JSON) (p : cursor) : outcome (JSON * cursor) :=
  r ← next p;
  let '(v, p) := r in
  let arr := arr ++ [v] in
  p ← consume_ws p;
  c ← rd p;
  if (b2z c =? 44)%Z then loop arr (adv p)
  else if (b2z c =? 93)%Z then Ret (Array arr, adv p)
  else Ret (Array [], p).

Definition parse_object (loop : list (str * JSON) -> parser) (p : cursor)
  : outcome (JSON * cursor) :=
  q ← consume_ws (adv p);
  d ← rd q;
  if (b2z d =? 125)%Z then Ret (Object [], adv q) else loop [] q.

Definition parse_object_turn (next : parser) (loop : list (str * JSON) -> parser)
    (obj : list (str * JSON)) (p : cursor) : outcome (JSON * cursor) :=
  r ← next p;
  let '(key, p) := r in
  p ← consume_ws p;
  c ← rd p;
  if negb (b2z c =? 58)%Z then Ret (Object obj, p)
  else
    p ← consume_ws (adv p);
    r ← next p;
    let '(v, p) := r in
    let obj := map_put (ToString key) v obj in
    p ← consume_ws p;
    c ← rd p;
    if (b2z c =? 44)%Z then loop obj (adv p)
    else if (b2z c =? 125)%Z then Ret (Object obj, adv p)
    else Ret (Object obj, p).

Definition parse_value (arrays objects : parser) (p : cursor) : outcome (JSON * cursor) :=
  p ← consume_ws p;
  match p with
  | None => Undef
  | Some l =>
    c ← rd p;
    let z := b2z c in
    if (z =? 91)%Z then arrays p
    else if (z =? 123)%Z then objects p
    else if (z =? 34)%Z then parse_string p
    else if (z =? 116)%Z || (z =? 102)%Z then Ret (parse_bool l)
    else if (z =? 110)%Z then Ret (parse_null l)
    else if is_digit c || (z =? 45)%Z then parse_number p
    else Ret (Null, p)
  end.

Fixpoint parse_next (fuel : nat) (p : cursor) {struct fuel} : outcome (JSON * cursor) :=
  match fuel with
  | O => NoFuel
  | S fuel =>
    parse_value (parse_array (parse_array_loop fuel)) (parse_object (parse_object_loop fuel)) p
  end
with parse_array_loop (fuel : nat) (arr : list JSON) (p : cursor) {struct fuel}
  : outcome (JSON * cursor) :=
  match fuel with
  | O => NoFuel
  | S fuel => parse_array_turn (parse_next fuel) (parse_array_loop fuel) arr p
  end
with parse_object_loop (fuel : nat) (obj : list (str * JSON)) (p : cursor) {struct fuel}
  : outcome (JSON * cursor) :=
  match fuel with
  | O => NoFuel
  | S fuel => parse_object_turn (parse_next fuel) (parse_object_loop fuel) obj p
  end.

(** [JSON::Load]; the fuel is enough for every string ([Load_terminates]). *)
Definition Load (s : str) : outcome JSON :=
  fst <$> parse_next (2 * length s + 3) (Some s).

End Json.
