(* ===== verification/JsonFacts.v ===== *)
(** * Correctness of the JSON library

    The parser terminates on every input; [dump] followed by [Load] is the
    identity on well-formed values; objects keep their keys in order, so that
    the text of an object does not depend on the order of its assignments. *)

From Stdlib Require Import String Sorted.
From S2P Require Import Prelude Json.
Import Json.

Local Open Scope Z_scope.

(** ** Induction on values *)

Section JSON_induction.
Variable P : JSON -> Prop.
Hypothesis HNull : P Null.
Hypothesis HObject : forall m, Forall (fun p => P (snd p)) m -> P (Object m).
Hypothesis HArray : forall l, Forall P l -> P (Array l).
Hypothesis HStr : forall s, P (Str s).
Hypothesis HFloating : forall f, P (Floating f).
Hypothesis HIntegral : forall z, P (Integral z).
Hypothesis HBoolean : forall b, P (Boolean b).

Fixpoint JSON_ind (v : JSON) : P v :=
  match v with
  | Null => HNull
  | Object m =>
    HObject m ((fix go m := match m return Forall (fun p => P (snd p)) m with
                            | [] => Forall_nil_2 _
                            | p :: m => Forall_cons_2 _ p m (JSON_ind (snd p)) (go m)
                            end) m)
  | Array l =>
    HArray l ((fix go l := match l return Forall P l with
                           | [] => Forall_nil_2 _
                           | v :: l => Forall_cons_2 _ v l (JSON_ind v) (go l)
                           end) l)
  | Str s => HStr s
  | Floating f => HFloating f
  | Integral z => HIntegral z
  | Boolean b => HBoolean b
  end.
End JSON_induction.

(** ** The order on keys *)

Lemma str_ltb_irrefl a : str_ltb a a = false.
Proof. induction a as [|c a IH]; [done|]. cbn. by rewrite Z.ltb_irrefl. Qed.

Lemma str_ltb_trans a : forall b c,
  str_ltb a b = true -> str_ltb b c = true -> str_ltb a c = true.
Proof.
  induction a as [|x a IH]; intros [|y b] [|z c]; cbn; try done.
  destruct (Z.ltb_spec (b2z x) (b2z y)), (Z.ltb_spec (b2z y) (b2z x)),
    (Z.ltb_spec (b2z y) (b2z z)), (Z.ltb_spec (b2z z) (b2z y)),
    (Z.ltb_spec (b2z x) (b2z z)), (Z.ltb_spec (b2z z) (b2z x)); try done; try lia.
  apply IH.
Qed.

Lemma str_ltb_total a : forall b, str_ltb a b = false -> str_ltb b a = false -> a = b.
Proof.
  induction a as [|x a IH]; intros [|y b]; cbn; try done.
  destruct (Z.ltb_spec (b2z x) (b2z y)), (Z.ltb_spec (b2z y) (b2z x)); try done; try lia.
  intros H1 H2. f_equal; [apply b2z_inj; lia|by apply IH].
Qed.

Lemma str_ltb_asym a b : str_ltb a b = true -> str_ltb b a = false.
Proof.
  intros H. destruct (str_ltb b a) eqn:E; [|done].
  by rewrite <- (str_ltb_irrefl a), (str_ltb_trans a b a).
Qed.

Lemma str_ltb_neq a b : str_ltb a b = true -> a <> b.
Proof. intros H ->. by rewrite str_ltb_irrefl in H. Qed.

(** ** Objects keep their keys sorted *)

Definition key_lt (a b : str * JSON) : Prop := str_ltb (fst a) (fst b) = true.

Definition sorted_keys (m : list (str * JSON)) : Prop := StronglySorted key_lt m.

Lemma map_put_Forall (P : str -> Prop) k v m :
  P k -> Forall (fun p => P (fst p)) m -> Forall (fun p => P (fst p)) (map_put k v m).
Proof.
  intros Hk. induction 1 as [|[k' v'] m H1 H2 IH]; cbn.
  { by repeat constructor. }
  repeat case_decide; subst; repeat case_bool; repeat constructor; auto.
Qed.

Lemma map_put_sorted k v m : sorted_keys m -> sorted_keys (map_put k v m).
Proof.
  unfold sorted_keys. induction 1 as [|[k' v'] m Hs IH Hlt]; cbn.
  { repeat constructor. }
  case_decide as Hk; [subst; by constructor|].
  destruct (str_ltb k k') eqn:E.
  - constructor; [by constructor|]. constructor; [done|].
    eapply Forall_weaken; [exact Hlt|]. intros [k1 v1] H1. unfold key_lt in *. cbn in *.
    by eapply str_ltb_trans.
  - constructor; [done|].
    apply (map_put_Forall (fun k1 => str_ltb k' k1 = true)); [|done].
    destruct (str_ltb k' k) eqn:E'; [done|]. by destruct Hk; apply str_ltb_total.
Qed.

Lemma map_find_put k k' v m :
  map_find k (map_put k' v m) = if decide (k = k') then Some v else map_find k m.
Proof.
  induction m as [|[k1 v1] m IH]; cbn.
  { by case_decide. }
  destruct (decide (k' = k1)) as [->|Hne].
  - cbn. repeat case_decide; congruence.
  - destruct (str_ltb k' k1); cbn; [done|].
    rewrite IH. repeat case_decide; congruence.
Qed.

Lemma map_find_lt k m : Forall (fun p => str_ltb k (fst p) = true) m -> map_find k m = None.
Proof.
  induction 1 as [|[k1 v1] m H1 H2 IH]; cbn in *; [done|].
  case_decide; [subst; by rewrite str_ltb_irrefl in H1|done].
Qed.

(** Two ordered maps with the same lookups are the same list. *)
Lemma sorted_keys_ext m1 : forall m2,
  sorted_keys m1 -> sorted_keys m2 -> (forall k, map_find k m1 = map_find k m2) -> m1 = m2.
Proof.
  induction m1 as [|[k1 v1] m1 IH]; intros [|[k2 v2] m2] H1 H2 H.
  - done.
  - specialize (H k2). cbn in H. by case_decide.
  - specialize (H k1). cbn in H. by case_decide.
  - inversion_clear H1 as [|?? Hs1 Hl1]. inversion_clear H2 as [|?? Hs2 Hl2].
    assert (k1 = k2) as ->.
    { apply str_ltb_total.
      - destruct (str_ltb k1 k2) eqn:E; [|done]. pose proof (H k1) as Hk. cbn in Hk.
        rewrite decide_True in Hk by done.
        rewrite decide_False in Hk by (by apply str_ltb_neq).
        rewrite map_find_lt in Hk; [done|]. eapply Forall_weaken; [exact Hl2|].
        intros [k v] Hv. unfold key_lt in Hv. cbn in *. by eapply str_ltb_trans.
      - destruct (str_ltb k2 k1) eqn:E; [|done]. pose proof (H k2) as Hk. cbn in Hk.
        rewrite (decide_True (P:=k2 = k2)) in Hk by done.
        rewrite decide_False in Hk by (by apply str_ltb_neq).
        rewrite map_find_lt in Hk; [done|]. eapply Forall_weaken; [exact Hl1|].
        intros [k v] Hv. unfold key_lt in Hv. cbn in *. by eapply str_ltb_trans. }
    assert (v1 = v2) as ->.
    { specialize (H k2). cbn in H. rewrite !decide_True in H by done. congruence. }
    f_equal. apply IH; [done..|]. intros k. specialize (H k). cbn in H.
    case_decide; [|done]. subst. rewrite !map_find_lt; done.
Qed.

Lemma map_put_comm k1 k2 v1 v2 m : sorted_keys m -> k1 <> k2 ->
  map_put k1 v1 (map_put k2 v2 m) = map_put k2 v2 (map_put k1 v1 m).
Proof.
  intros Hm Hne. apply sorted_keys_ext; [by repeat apply map_put_sorted..|].
  intros k. rewrite !map_find_put. repeat case_decide; congruence.
Qed.

(** Appending a key above all others. *)
Lemma map_put_last k v m :
  Forall (fun p => str_ltb (fst p) k = true) m -> map_put k v m = m ++ [(k, v)].
Proof.
  induction 1 as [|[k1 v1] m H1 _ IH]; cbn in *; [done|].
  rewrite decide_False by (intros ->; by rewrite str_ltb_irrefl in H1).
  by rewrite str_ltb_asym, IH.
Qed.

(** ** Well-formed values: what the program builds and prints

    Objects are ordered maps whose keys are escaped text, integers fit a
    [long]; floating-point values are not printed exactly and are excluded. *)

Definition key_ok (k : str) : Prop := exists u, k = json_escape u.

Fixpoint wf (v : JSON) : Prop :=
  match v with
  | Object m =>
    sorted_keys m /\
    (fix all m := match m with
                  | [] => True
                  | p :: m => (key_ok (fst p) /\ wf (snd p)) /\ all m
                  end) m
  | Array l => (fix all l := match l with [] => True | v :: l => wf v /\ all l end) l
  | Integral z => - 2 ^ 63 <= z < 2 ^ 63
  | Floating _ => False
  | _ => True
  end.

Lemma wf_Object m :
  wf (Object m) <-> sorted_keys m /\ Forall (fun p => key_ok (fst p) /\ wf (snd p)) m.
Proof.
  cbn. apply and_iff_compat_l. induction m as [|p m IH]; [by split|].
  rewrite Forall_cons. by rewrite IH.
Qed.

Lemma wf_Array l : wf (Array l) <-> Forall wf l.
Proof. cbn. induction l as [|v l IH]; [by split|]. rewrite Forall_cons. by rewrite IH. Qed.

(** ** Strings *)

Lemma parse_escape_char c l val :
  parse_string_loop (escape_char c ++ l) val = parse_string_loop l (val ++ [c]).
Proof. by destruct c as [[] [] [] [] [] [] [] []]. Qed.

Lemma parse_escaped s : forall rest val,
  parse_string_loop (json_escape s ++ DQ :: rest) val = Ret (Str (val ++ s), Some rest).
Proof.
  induction s as [|c s IH]; intros rest val.
  - cbn. by rewrite app_nil_r.
  - cbn [json_escape]. rewrite <- app_assoc, parse_escape_char, IH, <- app_assoc. done.
Qed.

(** ** Numbers *)

Definition num_char (c : ascii) : bool := (b2z c =? 45) || is_digit c.

Lemma digit_in_is_digit c : is_Some (digit_in 10 c) -> is_digit c = true.
Proof.
  unfold digit_in, digit_val, is_digit. intros [d Hd].
  destruct (Z.leb_spec 48 (b2z c)), (Z.leb_spec (b2z c) 57); cbn in *; try done;
    repeat case_bool; try done; lia.
Qed.

Lemma to_string_num z : Forall (fun c => num_char c = true) (to_string z).
Proof.
  assert (Hd : forall n, 0 <= n -> Forall (fun c => num_char c = true) (dec_nat n)).
  { intros n Hn. destruct (dec_nat_spec n Hn) as [Hall _].
    eapply Forall_weaken; [exact Hall|]. intros c Hc. unfold num_char.
    by rewrite digit_in_is_digit, orb_true_r. }
  unfold to_string. destruct (Z.ltb_spec z 0); [constructor; [done|]|]; apply Hd; lia.
Qed.

Lemma to_string_nonempty z : to_string z <> [].
Proof.
  unfold to_string. destruct (Z.ltb_spec z 0); [done|]. apply dec_nat_spec. lia.
Qed.

(** A suffix on which a number may end. *)
Definition ends_number (rest : str) : Prop :=
  match rest with c :: _ => num_end c = true | [] => False end.

Lemma num_scan_app ds : forall val rest,
  Forall (fun c => num_char c = true) ds -> ends_number rest ->
  num_scan (ds ++ rest) val false = (val ++ ds, false, rest).
Proof.
  induction ds as [|c ds IH]; intros val rest H He.
  - rewrite app_nil_r. destruct rest as [|c rest]; [done|]. cbn in *.
    unfold num_end, is_digit, is_space in *.
    destruct (Z.eqb_spec (b2z c) 45) as [E|_]; [by rewrite E in He|].
    destruct (Z.eqb_spec (b2z c) 46) as [E|_]; [by rewrite E in He|].
    destruct (Z.leb_spec 48 (b2z c)), (Z.leb_spec (b2z c) 57); cbn; try done.
    exfalso. destruct (Z.eqb_spec (b2z c) 32), (Z.leb_spec 9 (b2z c)),
      (Z.leb_spec (b2z c) 13), (Z.eqb_spec (b2z c) 44), (Z.eqb_spec (b2z c) 93),
      (Z.eqb_spec (b2z c) 125); cbn in He; try done; lia.
  - apply Forall_cons_iff in H as [Hc H]. cbn. unfold num_char in Hc. rewrite Hc.
    rewrite IH by done. by rewrite <- app_assoc.
Qed.

Lemma num_end_not_exp c : num_end c = true -> (b2z c =? 69) || (b2z c =? 101) = false.
Proof.
  intros H. destruct (Z.eqb_spec (b2z c) 69) as [E|]; cbn.
  - unfold num_end, is_space in H. by rewrite E in H.
  - destruct (Z.eqb_spec (b2z c) 101) as [E|]; [|done].
    unfold num_end, is_space in H. by rewrite E in H.
Qed.

Lemma stol_to_string z : - 2 ^ 63 <= z < 2 ^ 63 -> stol (to_string z) = Ret z.
Proof.
  intros H. unfold stol. rewrite c_str_no_nul by apply to_string_no_nul.
  rewrite scan_long_to_string. by rewrite decide_True.
Qed.

Lemma parse_number_to_string z rest :
  - 2 ^ 63 <= z < 2 ^ 63 -> ends_number rest ->
  parse_number (Some (to_string z ++ rest)) = Ret (Integral z, Some rest).
Proof.
  intros Hz He. unfold parse_number.
  rewrite num_scan_app by (done || apply to_string_num). cbn [app].
  destruct rest as [|c rest]; [done|]. cbn [rd mbind outcome_bind].
  cbn in He. rewrite num_end_not_exp, He by done. cbn [negb].
  unfold number_value. by rewrite stol_to_string.
Qed.

(** ** Fuel: more of it never changes a result *)

(** [m'] is what [m] gives when it is run with more fuel. *)
Definition grows {A} (m m' : outcome A) : Prop := m <> NoFuel -> m' = m.

Lemma grows_refl {A} (m : outcome A) : grows m m.
Proof. by intros ?. Qed.

Lemma grows_bind {A B} (m m' : outcome A) (k k' : A -> outcome B) :
  grows m m' -> (forall a, grows (k a) (k' a)) -> grows (m ≫= k) (m' ≫= k').
Proof.
  unfold grows. intros Hm Hk H.
  destruct m; try done; rewrite Hm by done; cbn in *; auto.
Qed.

Ltac grows_step :=
  match goal with
  | |- grows (_ ≫= _) (_ ≫= _) => apply grows_bind; [|intros ?]
  | |- grows (if ?b then _ else _) _ => destruct b
  | |- grows (match ?x with _ => _ end) _ => destruct x
  | |- grows ?m ?m => apply grows_refl
  end.

Lemma parse_fuel_mono f :
  (forall p, grows (parse_next f p) (parse_next (S f) p)) /\
  (forall a p, grows (parse_array_loop f a p) (parse_array_loop (S f) a p)) /\
  (forall o p, grows (parse_object_loop f o p) (parse_object_loop (S f) o p)).
Proof.
  induction f as [|f (IHn & IHa & IHo)]; [split_and!; intros; intros H; by destruct H|].
  split_and!; intros.
  - change (grows (parse_value (parse_array (parse_array_loop f)) (parse_object (parse_object_loop f)) p)
      (parse_value (parse_array (parse_array_loop (S f))) (parse_object (parse_object_loop (S f))) p)).
    unfold parse_value, parse_array, parse_object. repeat grows_step; auto.
  - change (grows (parse_array_turn (parse_next f) (parse_array_loop f) a p)
      (parse_array_turn (parse_next (S f)) (parse_array_loop (S f)) a p)).
    unfold parse_array_turn. repeat grows_step; auto.
  - change (grows (parse_object_turn (parse_next f) (parse_object_loop f) o p)
      (parse_object_turn (parse_next (S f)) (parse_object_loop (S f)) o p)).
    unfold parse_object_turn. repeat grows_step; auto.
Qed.

Lemma parse_next_mono f f' p :
  (f <= f')%nat -> parse_next f p <> NoFuel -> parse_next f' p = parse_next f p.
Proof.
  induction 1 as [|f' Hle IH]; intros H; [done|].
  rewrite <- IH by done. apply parse_fuel_mono. by rewrite IH.
Qed.

(** ** Termination: the cursor never moves back and the fuel of [Load] is enough *)

(** What is left to read from a cursor. *)
Definition left_of (p : cursor) : nat := match p with Some l => length l | None => 0 end.

Definition behind (n : nat) (r : outcome (JSON * cursor)) : Prop :=
  match r with Ret (_, p) => (left_of p <= n)%nat | _ => True end.

Lemma ws_suffix_length l : (length (ws_suffix l) <= length l)%nat.
Proof. induction l as [|c l IH]; cbn; [lia|]. destruct (is_space c); cbn; lia. Qed.

Lemma adv_length p : (left_of (adv p) <= left_of p - 1)%nat.
Proof. destruct p as [[|c l]|]; cbn; lia. Qed.

Lemma adv_lt p c : rd p = Ret c -> c <> NUL -> (left_of (adv p) < left_of p)%nat.
Proof. destruct p as [[|d l]|]; cbn; intros H Hc; [congruence|lia|done]. Qed.

Lemma behind_weaken n m r : (n <= m)%nat -> behind n r -> behind m r.
Proof. unfold behind. destruct r as [[v p]| | |]; try done. lia. Qed.

(** A parse step that ends where it starts or further, within its fuel. *)
Definition settles (n : nat) (r : outcome (JSON * cursor)) : Prop := r <> NoFuel /\ behind n r.

Lemma settles_weaken n m r : (n <= m)%nat -> settles n r -> settles m r.
Proof. intros ? []. split; [done|by eapply behind_weaken]. Qed.

Lemma settles_done n v p : (left_of p <= n)%nat -> settles n (Ret (v, p)).
Proof. by split. Qed.

Lemma settles_undef n : settles n Undef.
Proof. by split. Qed.

Lemma settles_bind {A} n (m : outcome A) (k : A -> outcome (JSON * cursor)) :
  m <> NoFuel -> (forall a, settles n (k a)) -> settles n (m ≫= k).
Proof. intros Hm Hk. destruct m; cbn; [apply Hk|by split..|done]. Qed.

Lemma parse_string_loop_settles n : forall l val,
  (length l <= n)%nat -> settles (length l) (parse_string_loop l val).
Proof.
  induction n as [|n IH]; intros [|c l] val Hn; cbn [length] in *; try apply settles_undef; try lia.
  assert (IH' : forall l' v, (length l' <= length l)%nat ->
            settles (S (length l)) (parse_string_loop l' v)).
  { intros l' v Hl. eapply settles_weaken; [|apply IH]; lia. }
  cbn [parse_string_loop].
  case_decide; [apply settles_done; cbn; lia|]. case_decide; [|apply IH'; lia].
  destruct l as [|e l2]; [apply settles_undef|]. cbn [length] in *.
  repeat match goal with |- context [if ?b then _ else _] => destruct b end;
    try (apply IH'; cbn; lia).
  destruct l2 as [|h1 [|h2 [|h3 [|h4 l6]]]]; try (apply settles_done; cbn; lia).
  destruct (is_hex h1 && is_hex h2 && is_hex h3 && is_hex h4); [|apply settles_done; cbn; lia].
  apply IH'. cbn. lia.
Qed.

Lemma num_scan_length l : forall val dbl,
  (length (snd (num_scan l val dbl)) <= length l)%nat.
Proof.
  induction l as [|c l IH]; intros val dbl; cbn; [lia|].
  repeat case_bool; cbn; try (etransitivity; [apply IH|]; lia); lia.
Qed.

Lemma exp_scan_length l : forall e r l', exp_scan l e = Some (r, l') -> (length l' <= length l)%nat.
Proof.
  induction l as [|c l IH]; intros e r l'; cbn; [done|].
  repeat case_bool; [|intros [= _ <-]; cbn; lia|done].
  intros H. apply IH in H. lia.
Qed.

Lemma exp_stop_length l : (left_of (exp_stop l) <= length l)%nat.
Proof. induction l as [|c l IH]; cbn; [lia|]. case_bool; cbn; lia. Qed.

Lemma stol_fuel s : stol s <> NoFuel.
Proof. unfold stol. destruct (scan_long 10 (c_str s)); [by case_decide|done]. Qed.

Lemma stod_fuel s : stod s <> NoFuel.
Proof.
  unfold stod. destruct (scan_sign s) as [neg l], (scan_digits 10 0 false l) as [ip seen].
  destruct (match drop_digits l with [] => _ | _ => _ end) as [num k].
  destruct (_ && _); [done|].
  destruct (round_ratio _ _ _); try done; by destruct (_ && _).
Qed.

Lemma number_value_fuel val dbl es e : number_value val dbl es e <> NoFuel.
Proof.
  unfold number_value. pose proof (stod_fuel val). pose proof (stol_fuel val).
  destruct dbl; [by destruct (stod val)|]. destruct es; by destruct (stol val).
Qed.

(** The tail of [parse_number] from the first digit of an exponent. *)
Lemma exp_settles n l3 sgn val dbl : (length l3 <= n)%nat ->
  settles n
    (match exp_scan l3 sgn with
     | None => Ret (Null, exp_stop l3)
     | Some (exp_str, l4) =>
       e ← stol exp_str; v ← number_value val dbl exp_str e; Ret (v, Some l4)
     end).
Proof.
  intros Hn. destruct (exp_scan l3 sgn) as [[e l4]|] eqn:E.
  - apply exp_scan_length in E. apply settles_bind; [apply stol_fuel|]. intros a.
    apply settles_bind; [apply number_value_fuel|]. intros v. apply settles_done. cbn. lia.
  - apply settles_done. pose proof (exp_stop_length l3). lia.
Qed.

Lemma parse_number_settles l : settles (length l) (parse_number (Some l)).
Proof.
  unfold parse_number. pose proof (num_scan_length l [] false) as Hn.
  destruct (num_scan l [] false) as [[val dbl] l1]. cbn [snd] in *.
  destruct l1 as [|c l1]; cbn [rd mbind outcome_bind].
  { change ((b2z NUL =? 69) || (b2z NUL =? 101)) with false.
    change (negb (num_end NUL)) with true. apply settles_done. cbn. lia. }
  cbn [length] in Hn. destruct (_ || _).
  - cbn [adv]. destruct l1 as [|s l2]; cbn [rd mbind outcome_bind].
    + change (b2z NUL =? 45) with false. apply settles_undef.
    + cbn [length] in Hn. destruct (b2z s =? 45).
      * destruct l2 as [|x l3]; cbn [adv]; [apply settles_undef|].
        apply exp_settles. cbn in *. lia.
      * cbn [adv]. apply exp_settles. lia.
  - destruct (negb (num_end c)); [apply settles_done; cbn in *; lia|].
    apply settles_bind; [apply number_value_fuel|]. intros v. apply settles_done. cbn. lia.
Qed.

Lemma consume_ws_cases p :
  (p = None /\ consume_ws p = Undef) \/
  exists q, consume_ws p = Ret (Some q) /\ (length q <= left_of p)%nat.
Proof.
  destruct p as [l|]; [right|by left]. exists (ws_suffix l). split; [done|].
  apply ws_suffix_length.
Qed.

Lemma rd_Some l : exists c, rd (Some l) = Ret c /\ (l = [] -> c = NUL).
Proof. destruct l as [|c l]; [by exists NUL|]. by exists c. Qed.

Ltac settle_ws p q :=
  destruct (consume_ws_cases p) as [[_ ->]|(q & -> & ?)]; cbn [mbind outcome_bind];
  [apply settles_undef|].

Ltac settle_rd q c :=
  let Hc := fresh "Hc" in let Hn := fresh "Hn" in
  destruct (rd_Some q) as (c & Hc & Hn); rewrite Hc; cbn [mbind outcome_bind].

Lemma NUL_not z : z <> 0 -> (b2z NUL =? z) = false.
Proof. intros H. apply Z.eqb_neq. by intros <-. Qed.

Lemma settles_adv n q : (length q <= n)%nat -> forall v, settles n (Ret (v, adv (Some q))).
Proof. intros H v. apply settles_done. pose proof (adv_length (Some q)). cbn in *. lia. Qed.

Lemma parse_no_fuel f :
  (forall p, (2 * left_of p + 1 <= f)%nat -> settles (left_of p) (parse_next f p)) /\
  (forall a p, (2 * left_of p + 2 <= f)%nat -> settles (left_of p) (parse_array_loop f a p)) /\
  (forall o p, (2 * left_of p + 2 <= f)%nat -> settles (left_of p) (parse_object_loop f o p)).
Proof.
  induction f as [|f (IHn & IHa & IHo)]; [split_and!; intros; lia|].
  split_and!.
  - intros p Hf.
    change (settles (left_of p)
      (parse_value (parse_array (parse_array_loop f)) (parse_object (parse_object_loop f)) p)).
    unfold parse_value. settle_ws p l. settle_rd l c.
    assert (Hlt : c <> NUL -> (left_of (adv (Some l)) < length l)%nat)
      by (by apply (adv_lt (Some l))).
    destruct (Z.eqb_spec (b2z c) 91) as [E|_].
    { specialize (Hlt ltac:(by intros ->)).
      unfold parse_array. settle_ws (adv (Some l)) q. settle_rd q d.
      case_bool; [apply settles_adv; lia|].
      apply settles_weaken with (n := left_of (Some q)); [cbn; lia|]. apply IHa. cbn. lia. }
    destruct (Z.eqb_spec (b2z c) 123) as [E|_].
    { specialize (Hlt ltac:(by intros ->)).
      unfold parse_object. settle_ws (adv (Some l)) q. settle_rd q d.
      case_bool; [apply settles_adv; lia|].
      apply settles_weaken with (n := left_of (Some q)); [cbn; lia|]. apply IHo. cbn. lia. }
    case_bool.
    { destruct l as [|e l]; [discriminate Hc || (injection Hc as <-; done)|].
      unfold parse_string. cbn [adv].
      eapply settles_weaken; [|apply (parse_string_loop_settles (length l)); lia]. cbn in *. lia. }
    case_bool.
    { unfold parse_bool. repeat case_decide; apply settles_done; cbn; rewrite ?length_drop; lia. }
    case_bool.
    { unfold parse_null. repeat case_decide; apply settles_done; cbn; rewrite ?length_drop; lia. }
    case_bool; [|apply settles_done; cbn; lia].
    eapply settles_weaken; [|apply parse_number_settles]. lia.
  - intros a p Hf.
    change (settles (left_of p) (parse_array_turn (parse_next f) (parse_array_loop f) a p)).
    unfold parse_array_turn. destruct (IHn p ltac:(lia)) as [Hnf Hb].
    destruct (parse_next f p) as [[v q]| | |]; try done. cbn [mbind outcome_bind behind] in *.
    settle_ws q l. settle_rd l c.
    destruct (Z.eqb_spec (b2z c) 44) as [E|_].
    + pose proof (adv_lt (Some l) c Hc ltac:(by intros ->)) as Hlt. cbn [left_of] in Hlt.
      eapply settles_weaken; [|apply IHa]; lia.
    + case_bool; [apply settles_adv|apply settles_done; cbn]; lia.
  - intros o p Hf.
    change (settles (left_of p) (parse_object_turn (parse_next f) (parse_object_loop f) o p)).
    unfold parse_object_turn. destruct (IHn p ltac:(lia)) as [Hnf Hb].
    destruct (parse_next f p) as [[k q]| | |]; try done. cbn [mbind outcome_bind behind] in *.
    settle_ws q l. settle_rd l c.
    destruct (Z.eqb_spec (b2z c) 58) as [E|_]; cbn [negb]; [|apply settles_done; cbn; lia].
    pose proof (adv_length (Some l)) as Hadv. cbn [left_of] in Hadv.
    settle_ws (adv (Some l)) l2. destruct (IHn (Some l2) ltac:(cbn; lia)) as [Hnf2 Hb2].
    destruct (parse_next f (Some l2)) as [[v q2]| | |]; try done. cbn [mbind outcome_bind behind left_of] in *.
    settle_ws q2 l3. settle_rd l3 d.
    destruct (Z.eqb_spec (b2z d) 44) as [E2|_].
    + pose proof (adv_lt (Some l3) d ltac:(done) ltac:(by intros ->)) as Hlt. cbn [left_of] in Hlt.
      eapply settles_weaken; [|apply IHo]; lia.
    + case_bool; [apply settles_adv|apply settles_done; cbn]; lia.
Qed.

Lemma Load_fuel s : parse_next (2 * length s + 3) (Some s) <> NoFuel.
Proof. apply parse_no_fuel. cbn. lia. Qed.

(** ** Where the parser leaves its text *)

(** Whether a string literal is closed: [l] starts after the opening quote, and
    a backslash takes the next character with it. *)
Fixpoint closed (l : str) : bool :=
  match l with
  | [] => false
  | c :: l1 =>
    if decide (c = DQ) then true
    else if decide (c = BS) then match l1 with [] => false | _ :: l2 => closed l2 end
    else closed l1
  end.

(** The text ends inside a literal: some suffix of it starts with a quote that is
    never closed, or with a number that the scan follows to the end of the text,
    from where it steps behind it. *)
Definition ends_inside (s : str) : Prop :=
  exists t, t `suffix_of` s /\
    ((exists l, t = DQ :: l /\ closed l = false) \/
     (exists c l, t = c :: l /\ (is_digit c || (b2z c =? 45)) = true /\
       match parse_number (Some t) with Undef => True | Ret (_, p) => p = None | _ => False end)).

(** The outcome of a parse step on [l]: it stays in the text, or the text ends
    inside a literal. *)
Definition stays (l : str) (r : outcome (JSON * cursor)) : Prop :=
  match r with
  | Ret (_, Some l') => l' `suffix_of` l
  | Ret (_, None) | Undef => ends_inside l
  | Throw _ | NoFuel => True
  end.

Lemma ends_inside_suffix l l' : l' `suffix_of` l -> ends_inside l' -> ends_inside l.
Proof. intros Hs (t & Ht & H). exists t. split; [by etrans|done]. Qed.

Lemma stays_suffix l l' r : l' `suffix_of` l -> stays l' r -> stays l r.
Proof. intros Hs. destruct r as [[v [q|]]| | |]; cbn; try done; [intros Hq; by etrans|by apply ends_inside_suffix..]. Qed.

Lemma suffix_tail {A} (c : A) l l' : c :: l `suffix_of` l' -> l `suffix_of` l'.
Proof. intros H. etrans; [by apply suffix_cons_r|exact H]. Qed.

Lemma ws_suffix_of l : ws_suffix l `suffix_of` l.
Proof. induction l as [|c l IH]; cbn; [done|]. destruct (is_space c); [by apply suffix_cons_r|done]. Qed.

Lemma is_hex_plain h : is_hex h = true -> h <> DQ /\ h <> BS.
Proof. intros Hh. split; intros ->; by vm_compute in Hh. Qed.

(** Inside a literal: what is left of a closed one is closed. *)
Lemma parse_string_stays n : forall l val, (length l <= n)%nat ->
  match parse_string_loop l val with
  | Ret (_, Some l') => l' `suffix_of` l
  | Ret (_, None) => False
  | Undef => closed l = false
  | _ => False
  end.
Proof.
  induction n as [|n IH]; intros [|c l] val Hn; cbn [length] in Hn; try done; try lia.
  assert (IH' : forall l' v, l' `suffix_of` c :: l -> (length l' <= length l)%nat -> closed l' = closed (c :: l) ->
    match parse_string_loop l' v with
    | Ret (_, Some q) => q `suffix_of` c :: l
    | Ret (_, None) => False
    | Undef => closed (c :: l) = false
    | _ => False
    end).
  { intros l' v Hs Hl <-. specialize (IH l' v ltac:(lia)). destruct (parse_string_loop l' v) as [[x [q|]]| | |]; try done. by etrans. }
  cbn [parse_string_loop closed] in *. destruct (decide (c = DQ)) as [_|_]; [by apply suffix_cons_r|].
  destruct (decide (c = BS)) as [_|_]; [|by apply IH'; [apply suffix_cons_r|lia|]].
  destruct l as [|e l2]; [done|]. cbn [length] in *.
  assert (S2 : l2 `suffix_of` c :: e :: l2) by by do 2 apply suffix_cons_r.
  repeat match goal with |- match (if ?b then _ else _) with _ => _ end => destruct b end; try (by apply IH'; [exact S2|cbn; lia|]).
  destruct l2 as [|h1 [|h2 [|h3 [|h4 l6]]]]; try by apply suffix_cons_r.
  destruct (is_hex h1 && is_hex h2 && is_hex h3 && is_hex h4) eqn:E; [|by apply suffix_cons_r].
  rewrite !andb_true_iff in E. destruct E as (((E1 & E2) & E3) & E4).
  apply is_hex_plain in E1 as [], E2 as [], E3 as [], E4 as [].
  apply IH'; [by do 6 apply suffix_cons_r|cbn; lia|]. cbn [closed]. by rewrite !decide_False.
Qed.

Lemma num_scan_suffix l : forall val dbl, snd (num_scan l val dbl) `suffix_of` l.
Proof.
  induction l as [|c l IH]; intros val dbl; cbn; [done|].
  repeat case_bool; cbn; try done; (etrans; [apply IH|by apply suffix_cons_r]).
Qed.

Lemma exp_scan_suffix l : forall e r l', exp_scan l e = Some (r, l') -> l' `suffix_of` l.
Proof.
  induction l as [|c l IH]; intros e r l'; cbn; [done|]. repeat case_bool; [|by intros [= _ <-]|done].
  intros H. etrans; [by eapply IH|by apply suffix_cons_r].
Qed.

Lemma exp_stop_suffix l l' : exp_stop l = Some l' -> l' `suffix_of` l.
Proof.
  induction l as [|c l IH]; cbn; [done|]. case_bool; [|intros [= <-]; by apply suffix_cons_r].
  intros H. etrans; [by apply IH|by apply suffix_cons_r].
Qed.

(** A cursor that is in the text, if it is anywhere. *)
Definition in_text (l : str) (p : cursor) : Prop := match p with Some q => q `suffix_of` l | None => True end.

Lemma adv_in_text l p : in_text l p -> in_text l (adv p).
Proof. destruct p as [[|c q]|]; cbn; try done. apply suffix_tail. Qed.

Lemma exp_suffix l l3 sgn val dbl v l' : l3 `suffix_of` l ->
  match exp_scan l3 sgn with
  | None => Ret (Null, exp_stop l3)
  | Some (exp_str, l4) => e ← stol exp_str; v ← number_value val dbl exp_str e; Ret (v, Some l4)
  end = Ret (v, Some l') -> l' `suffix_of` l.
Proof.
  intros H3. destruct (exp_scan l3 sgn) as [[e l4]|] eqn:E.
  - intros H. apply bind_Ret_inv in H as (z & _ & H). apply bind_Ret_inv in H as (w & _ & [= _ <-]).
    etrans; [by eapply exp_scan_suffix|done].
  - intros [= _ H]. etrans; [by eapply exp_stop_suffix|done].
Qed.

Lemma parse_number_suffix l v l' : parse_number (Some l) = Ret (v, Some l') -> l' `suffix_of` l.
Proof.
  unfold parse_number. pose proof (num_scan_suffix l [] false) as Hn. destruct (num_scan l [] false) as [[val dbl] l1]. cbn [snd] in *.
  intros H. apply bind_Ret_inv in H as (c & Hc & H). destruct (_ || _).
  - apply bind_Ret_inv in H as (s & _ & H).
    assert (Hq : in_text l (adv (Some l1))) by by apply adv_in_text.
    destruct (b2z s =? 45).
    + pose proof (adv_in_text _ _ (adv_in_text _ _ Hq)) as H3. destruct (adv (adv (adv (Some l1)))) as [l3|]; [|done].
      eapply exp_suffix; [exact H3|exact H].
    + pose proof (adv_in_text _ _ Hq) as H3. destruct (adv (adv (Some l1))) as [l3|]; [|done]. eapply exp_suffix; [exact H3|exact H].
  - destruct (negb (num_end c)); [|apply bind_Ret_inv in H as (w & _ & [= _ <-]); done].
    destruct l1 as [|d l1]; [done|]. injection H as _ <-. by eapply suffix_tail.
Qed.

Lemma parse_number_stays c l : is_digit c || (b2z c =? 45) = true -> stays (c :: l) (parse_number (Some (c :: l))).
Proof.
  intros Hc. destruct (parse_number (Some (c :: l))) as [[v [l'|]]| | |] eqn:E; cbn; try done; [by eapply parse_number_suffix|..];
    (exists (c :: l); split; [done|]; right; exists c, l; by rewrite E).
Qed.

(** The character after white space. *)
Lemma stays_ws l p (k : cursor -> outcome (JSON * cursor)) :
  match p with Some q => q `suffix_of` l | None => ends_inside l end ->
  (forall q, q `suffix_of` l -> stays l (k (Some q))) -> stays l (p ← consume_ws p; k p).
Proof.
  intros Hp Hk. destruct p as [q|]; [|exact Hp]. apply Hk. etrans; [apply ws_suffix_of|done].
Qed.

Lemma stays_rd l q (k : ascii -> outcome (JSON * cursor)) :
  (forall c, rd (Some q) = Ret c -> stays l (k c)) -> stays l (c ← rd (Some q); k c).
Proof. intros Hk. destruct (rd_Some q) as (c & Hc & _). rewrite Hc, bind_ret. by apply Hk. Qed.

(** A character that is not the terminating zero is in the text. *)
Lemma rd_cons q c z : rd (Some q) = Ret c -> b2z c = z -> z <> 0 -> exists q', q = c :: q'.
Proof. destruct q as [|d q]; cbn; intros [= <-] Hz Hn; [by vm_compute in Hz; subst|by exists q]. Qed.

(** A parse step whose result is used. *)
Lemma stays_bind l l' m (k : JSON -> cursor -> outcome (JSON * cursor)) : l' `suffix_of` l -> stays l' m ->
  (forall v p, match p with Some q => q `suffix_of` l | None => ends_inside l end -> stays l (k v p)) ->
  stays l (r ← m; let '(v, p) := r in k v p).
Proof.
  intros Hs Hm Hk. apply (stays_suffix l l' m Hs) in Hm. destruct m as [[v [q|]]| | |]; cbn in *; try done; by apply Hk.
Qed.

Lemma parse_stays f :
  (forall l, stays l (parse_next f (Some l))) /\
  (forall a l, stays l (parse_array_loop f a (Some l))) /\
  (forall o l, stays l (parse_object_loop f o (Some l))).
Proof.
  induction f as [|f (IHn & IHa & IHo)]; [done|]. split_and!.
  - intros l. change (stays l (parse_value (parse_array (parse_array_loop f)) (parse_object (parse_object_loop f)) (Some l))).
    unfold parse_value. apply stays_ws; [done|]. intros q Hq. apply stays_rd. intros c Hc.
    destruct (Z.eqb_spec (b2z c) 91) as [E|_].
    { destruct (rd_cons q c _ Hc E) as [q' ->]; [done|]. unfold parse_array. cbn [adv]. apply stays_ws; [by eapply suffix_tail|]. intros q2 H2.
      apply stays_rd. intros d Hd. destruct (Z.eqb_spec (b2z d) 93) as [E2|_]; [|by eapply stays_suffix].
      destruct (rd_cons q2 d _ Hd E2) as [q3 ->]; [done|]. by eapply suffix_tail. }
    destruct (Z.eqb_spec (b2z c) 123) as [E|_].
    { destruct (rd_cons q c _ Hc E) as [q' ->]; [done|]. unfold parse_object. cbn [adv]. apply stays_ws; [by eapply suffix_tail|]. intros q2 H2.
      apply stays_rd. intros d Hd. destruct (Z.eqb_spec (b2z d) 125) as [E2|_]; [|by eapply stays_suffix].
      destruct (rd_cons q2 d _ Hd E2) as [q3 ->]; [done|]. by eapply suffix_tail. }
    destruct (Z.eqb_spec (b2z c) 34) as [E|_].
    { destruct (rd_cons q c _ Hc E) as [q' ->]; [done|]. assert (c = DQ) as -> by by apply b2z_inj. apply (stays_suffix _ _ _ Hq).
      unfold parse_string. cbn [adv]. pose proof (parse_string_stays (length q') q' [] ltac:(lia)) as Hp.
      destruct (parse_string_loop q' []) as [[v [q2|]]| | |]; try done; [by apply suffix_cons_r|].
      exists (DQ :: q'). split; [done|]. left. by exists q'. }
    case_bool. { unfold parse_bool. repeat case_decide; cbn; try done; (etrans; [apply suffix_drop|done]). }
    case_bool. { unfold parse_null. repeat case_decide; cbn; try done; (etrans; [apply suffix_drop|done]). }
    destruct (is_digit c || (b2z c =? 45)) eqn:Ed; [|done].
    destruct q as [|d q]; [injection Hc as <-; by vm_compute in Ed|]. injection Hc as ->.
    eapply stays_suffix; [exact Hq|by apply parse_number_stays].
  - intros a l. change (stays l (parse_array_turn (parse_next f) (parse_array_loop f) a (Some l))).
    unfold parse_array_turn. apply (stays_bind l l); [done|apply IHn|]. intros v p Hp. apply stays_ws; [done|]. intros q Hq.
    apply stays_rd. intros c Hc. destruct (Z.eqb_spec (b2z c) 44) as [E|_].
    { destruct (rd_cons q c _ Hc E) as [q' ->]; [done|]. cbn [adv]. eapply stays_suffix; [by eapply suffix_tail|apply IHa]. }
    destruct (Z.eqb_spec (b2z c) 93) as [E|_]; [|done]. destruct (rd_cons q c _ Hc E) as [q' ->]; [done|]. by eapply suffix_tail.
  - intros o l. change (stays l (parse_object_turn (parse_next f) (parse_object_loop f) o (Some l))).
    unfold parse_object_turn. apply (stays_bind l l); [done|apply IHn|]. intros key p Hp. apply stays_ws; [done|]. intros q Hq.
    apply stays_rd. intros c Hc. destruct (Z.eqb_spec (b2z c) 58) as [E|_]; cbn [negb]; [|done].
    destruct (rd_cons q c _ Hc E) as [q' ->]; [done|]. cbn [adv]. apply stays_ws; [by eapply suffix_tail|]. intros q2 H2.
    apply (stays_bind l q2); [done|apply IHn|]. intros v p2 Hp2. apply stays_ws; [done|]. intros q3 H3.
    apply stays_rd. intros d Hd. destruct (Z.eqb_spec (b2z d) 44) as [E2|_].
    { destruct (rd_cons q3 d _ Hd E2) as [q4 ->]; [done|]. cbn [adv]. eapply stays_suffix; [by eapply suffix_tail|apply IHo]. }
    destruct (Z.eqb_spec (b2z d) 125) as [E2|_]; [|done]. destruct (rd_cons q3 d _ Hd E2) as [q4 ->]; [done|]. by eapply suffix_tail.
Qed.

(** ** Reading back what [dump] printed *)

Definition eventually (f : nat -> outcome (JSON * cursor)) (r : JSON * cursor) : Prop :=
  exists n0, forall n, (n0 <= n)%nat -> f n = Ret r.

Lemma eventually_S f r : eventually (fun n => f (S n)) r -> eventually f r.
Proof.
  intros [n0 H]. exists (S n0). intros [|n] Hn; [lia|]. apply H. lia.
Qed.

Lemma eventually_at f r : (forall n, f (S n) = Ret r) -> eventually f r.
Proof. intros H. apply eventually_S. exists O. auto. Qed.

(** Whitespace in front of a value. *)
Definition blank (w : str) : Prop := Forall (fun c => is_space c = true) w.

Lemma ws_suffix_blank w l : blank w -> ws_suffix (w ++ l) = ws_suffix l.
Proof. induction 1 as [|c w Hc _ IH]; [done|]. cbn. by rewrite Hc. Qed.

Lemma ws_suffix_id c l : is_space c = false -> ws_suffix (c :: l) = c :: l.
Proof. intros H. cbn. by rewrite H. Qed.

Lemma parse_next_blank f w l : blank w -> parse_next f (Some (w ++ l)) = parse_next f (Some l).
Proof.
  intros H. destruct f as [|f]; [done|]. cbn [parse_next]. unfold parse_value.
  cbn [consume_ws]. by rewrite ws_suffix_blank.
Qed.

Lemma pad_of_blank d : blank (pad_of d).
Proof.
  induction d as [|d IH]; [constructor|]. unfold blank, pad_of. cbn [replicate concat].
  apply Forall_app. split; [repeat constructor|apply IH].
Qed.

Lemma drop_blank n w : blank w -> blank (drop n w).
Proof. apply Forall_drop. Qed.

(** The first character of a printed value. *)
Lemma num_char_head c : num_char c = true ->
  is_space c = false /\ b2z c <> 91 /\ b2z c <> 123 /\ b2z c <> 34 /\ b2z c <> 116 /\
  b2z c <> 102 /\ b2z c <> 110 /\ b2z c <> 93 /\ b2z c <> 125 /\
  is_digit c || (b2z c =? 45) = true.
Proof.
  unfold num_char, is_space, is_digit. intros H.
  destruct (Z.eqb_spec (b2z c) 45) as [E|E]; cbn in H.
  { rewrite E. repeat split; lia. }
  destruct (Z.leb_spec 48 (b2z c)), (Z.leb_spec (b2z c) 57); cbn in H; try done.
  destruct (Z.eqb_spec (b2z c) 32), (Z.leb_spec 9 (b2z c)), (Z.leb_spec (b2z c) 13);
    cbn; try lia; repeat split; lia.
Qed.

Lemma dump_head d v : wf v ->
  exists c l, dump d v = c :: l /\ is_space c = false /\ b2z c <> 93 /\ b2z c <> 125.
Proof.
  destruct v as [|m|l|s|f|z|b]; intros H; try (do 2 eexists; split; [reflexivity|done]).
  - done.
  - pose proof (to_string_num z) as Hz. pose proof (to_string_nonempty z). cbn [dump].
    destruct (to_string z) as [|c l]; [done|]. apply Forall_cons_iff in Hz as [Hc _].
    apply num_char_head in Hc as (? & ? & ? & ? & ? & ? & ? & ? & ? & ?).
    by exists c, l.
  - destruct b; do 2 eexists; split; try reflexivity; done.
Qed.

Lemma parse_next_head f c l :
  is_space c = false ->
  parse_next (S f) (Some (c :: l)) =
    let z := b2z c in
    if z =? 91 then parse_array (parse_array_loop f) (Some (c :: l))
    else if z =? 123 then parse_object (parse_object_loop f) (Some (c :: l))
    else if z =? 34 then parse_string (Some (c :: l))
    else if (z =? 116) || (z =? 102) then Ret (parse_bool (c :: l))
    else if z =? 110 then Ret (parse_null (c :: l))
    else if is_digit c || (z =? 45) then parse_number (Some (c :: l))
    else Ret (Null, Some (c :: l)).
Proof. intros H. cbn [parse_next]. unfold parse_value. cbn [consume_ws]. by rewrite ws_suffix_id. Qed.

(** A value may be followed by anything, an integer only by what ends it. *)
Definition follows (v : JSON) (rest : str) : Prop :=
  match v with Integral _ => ends_number rest | _ => True end.

Definition reads_back (v : JSON) : Prop := forall d rest, follows v rest ->
  eventually (fun f => parse_next f (Some (dump d v ++ rest))) (v, Some rest).

Lemma ends_follows v rest : ends_number rest -> follows v rest.
Proof. by destruct v. Qed.

Lemma reads_back_str s : reads_back (Str s).
Proof.
  intros d rest _. apply eventually_at. intros f.
  cbn [dump]. rewrite <- app_assoc. cbn [app]. rewrite parse_next_head by done.
  change (b2z DQ) with 34. cbn [Z.eqb Pos.eqb]. unfold parse_string. cbn [adv].
  rewrite <- app_assoc. cbn [app]. apply parse_escaped.
Qed.

Lemma parse_next_number f z rest :
  parse_next (S f) (Some (to_string z ++ rest)) = parse_number (Some (to_string z ++ rest)).
Proof.
  pose proof (to_string_num z) as Hd. pose proof (to_string_nonempty z).
  destruct (to_string z) as [|c l]; [done|]. apply Forall_cons_iff in Hd as [Hc _].
  apply num_char_head in Hc as (H0 & H1 & H2 & H3 & H4 & H5 & H6 & _ & _ & H7).
  cbn [app]. rewrite parse_next_head by done. cbv zeta.
  rewrite !(proj2 (Z.eqb_neq _ _)) by done. cbn [orb]. by rewrite H7.
Qed.

Lemma reads_back_int z : wf (Integral z) -> reads_back (Integral z).
Proof.
  intros Hz d rest He. apply eventually_at. intros f. cbn [dump].
  rewrite parse_next_number. by apply parse_number_to_string.
Qed.

Lemma reads_back_simple v : match v with Null | Boolean _ => True | _ => False end -> reads_back v.
Proof.
  destruct v as [| | | | | |b]; try done; intros _ d rest _; apply eventually_at; intros f;
    [|destruct b]; reflexivity.
Qed.

(** *** Arrays *)

Lemma blank_sp : blank (L " ").
Proof. repeat constructor. Qed.

Lemma join_cons sep s l : l <> [] -> join sep (s :: l) = s ++ sep ++ join sep l.
Proof. by destruct l. Qed.

Lemma array_loop_back l : forall d arr w rest,
  l <> [] -> Forall wf l -> Forall reads_back l -> blank w ->
  eventually (fun f => parse_array_loop f arr
    (Some (w ++ join (L ", ") (map (dump d) l) ++ L "]" ++ rest))) (Array (arr ++ l), Some rest).
Proof.
  induction l as [|v l IH]; intros d arr w rest Hne Hwf Hrb Hw; [done|].
  apply Forall_cons_iff in Hwf as [Hv Hwf]. apply Forall_cons_iff in Hrb as [Hr Hrb].
  destruct l as [|v2 l].
  - cbn [map join]. destruct (Hr d (L "]" ++ rest)) as [n0 H0]; [by apply ends_follows|].
    apply eventually_S. exists n0. intros n Hn.
    cbn [parse_array_loop]. unfold parse_array_turn.
    rewrite parse_next_blank, H0 by done. reflexivity.
  - rewrite !map_cons, join_cons, <- map_cons by done.
    set (tl := join (L ", ") (map (dump d) (v2 :: l)) ++ L "]" ++ rest) in *.
    destruct (Hr d (L ", " ++ tl)) as [n0 H0]; [by apply ends_follows|].
    destruct (IH d (arr ++ [v]) (L " ") rest) as [n1 H1]; try done; [apply blank_sp|].
    apply eventually_S. exists (max n0 n1). intros n Hn.
    cbn [parse_array_loop]. unfold parse_array_turn.
    rewrite <- !app_assoc. fold tl. rewrite parse_next_blank, H0 by (done || lia).
    cbn [mbind outcome_bind consume_ws app L list_ascii_of_string].
    change (ws_suffix _) with (L ", " ++ tl). cbn [rd L list_ascii_of_string app mbind outcome_bind].
    change (b2z ","%char =? 44) with true. cbv iota. cbn [adv].
    change (" "%char :: tl) with (L " " ++ tl). rewrite H1 by lia.
    by rewrite <- app_assoc.
Qed.

Lemma reads_back_array l : Forall wf l -> Forall reads_back l -> reads_back (Array l).
Proof.
  intros Hwf Hrb d rest _. destruct l as [|v l].
  { apply eventually_at. intros f. reflexivity. }
  destruct (array_loop_back (v :: l) (S d) [] [] rest) as [n0 H0]; try done; [constructor|].
  apply eventually_S. exists n0. intros n Hn. specialize (H0 n Hn). cbn [app] in H0.
  change (dump d (Array (v :: l))) with (L "[" ++ join (L ", ") (map (dump (S d)) (v :: l)) ++ L "]").
  rewrite <- !app_assoc. cbn [app L list_ascii_of_string].
  rewrite parse_next_head by done. change (b2z "["%char) with 91. cbn [Z.eqb Pos.eqb].
  unfold parse_array. cbn [adv consume_ws mbind outcome_bind].
  apply Forall_cons_iff in Hwf as [Hv _].
  destruct (dump_head (S d) v Hv) as (c & t & Ec & Hs & H93 & _).
  assert (Hh : exists t', join (L ", ") (map (dump (S d)) (v :: l)) ++ L "]" ++ rest = c :: t').
  { rewrite map_cons. destruct (map (dump (S d)) l) as [|x y]; cbn [join]; rewrite Ec; by eexists. }
  destruct Hh as [t' Ht]. cbn [app L list_ascii_of_string] in Ht, H0. rewrite Ht in *.
  rewrite ws_suffix_id by done. cbn [rd mbind outcome_bind].
  rewrite (proj2 (Z.eqb_neq _ _) H93). apply H0.
Qed.

(** *** Objects *)

(** One printed member. *)
Definition member (d : nat) (p : str * JSON) : str :=
  pad_of d ++ [DQ] ++ fst p ++ [DQ] ++ L " : " ++ dump (S d) (snd p).

Definition SEP : str := L "," ++ [NL].

(** The text after the last member. *)
Definition closing (d : nat) : str := [NL] ++ drop 2 (pad_of d) ++ L "}".

Lemma dump_Object d m :
  dump d (Object m) = L "{" ++ [NL] ++ join SEP (map (member d) m) ++ closing d.
Proof. done. Qed.

Lemma blank_nl : blank [NL].
Proof. repeat constructor. Qed.

Lemma closing_read d rest :
  consume_ws (Some (closing d ++ rest)) = Ret (Some (L "}" ++ rest)).
Proof.
  unfold closing. rewrite <- !app_assoc. cbn [consume_ws].
  rewrite ws_suffix_blank by apply blank_nl.
  by rewrite ws_suffix_blank by apply drop_blank, pad_of_blank.
Qed.

Lemma closing_ends d rest : ends_number (closing d ++ rest).
Proof. done. Qed.

(** Reading one member up to the character after its value. *)
Lemma member_back d w k v obj rest :
  key_ok k -> reads_back v -> wf v -> blank w -> ends_number rest ->
  exists n0, forall n, (n0 <= n)%nat -> forall loop,
    parse_object_turn (parse_next n) loop obj (Some (w ++ member d (k, v) ++ rest)) =
    (p ← consume_ws (Some rest);
     c ← rd p;
     if b2z c =? 44 then loop (map_put k v obj) (adv p)
     else if b2z c =? 125 then Ret (Object (map_put k v obj), adv p)
     else Ret (Object (map_put k v obj), p)).
Proof.
  intros [u ->] Hv Hwf Hw He.
  destruct (reads_back_str u d (L " : " ++ dump (S d) v ++ rest)) as [n0 H0]; [done|].
  destruct (Hv (S d) rest) as [n1 H1]; [by apply ends_follows|].
  exists (max n0 n1). intros n Hn loop. unfold parse_object_turn, member. cbn [fst snd].
  specialize (H0 n ltac:(lia)). cbn [dump] in H0. rewrite <- !app_assoc in H0. rewrite <- !app_assoc.
  rewrite parse_next_blank by done. rewrite parse_next_blank by apply pad_of_blank.
  rewrite H0. cbn [mbind outcome_bind consume_ws].
  change (ws_suffix (L " : " ++ dump (S d) v ++ rest)) with (L ": " ++ dump (S d) v ++ rest).
  cbn [rd L list_ascii_of_string app mbind outcome_bind].
  change (negb (b2z ":"%char =? 58)) with false. cbv iota. cbn [adv consume_ws mbind outcome_bind].
  destruct (dump_head (S d) v Hwf) as (c & t & Ec & Hs & _).
  change (ws_suffix (" "%char :: dump (S d) v ++ rest)) with (ws_suffix (dump (S d) v ++ rest)).
  specialize (H1 n ltac:(lia)). rewrite Ec in *. cbn [app] in *.
  rewrite ws_suffix_id, H1 by done. done.
Qed.

Lemma sorted_keys_snoc m0 k v m :
  sorted_keys (m0 ++ (k, v) :: m) -> Forall (fun p => str_ltb (fst p) k = true) m0.
Proof.
  unfold sorted_keys. induction m0 as [|p m0 IH]; intros H; [constructor|].
  cbn in H. inversion_clear H as [|?? Hs Hl]. constructor; [|by apply IH].
  apply Forall_app in Hl as [_ Hl]. apply Forall_cons_iff in Hl as [Hl _]. exact Hl.
Qed.

Lemma object_loop_back m : forall d obj w rest,
  m <> [] -> sorted_keys (obj ++ m) -> blank w ->
  Forall (fun p => key_ok (fst p) /\ wf (snd p)) m -> Forall (fun p => reads_back (snd p)) m ->
  eventually (fun f => parse_object_loop f obj
    (Some (w ++ join SEP (map (member d) m) ++ closing d ++ rest))) (Object (obj ++ m), Some rest).
Proof.
  induction m as [|[k v] m IH]; intros d obj w rest Hne Hs Hw Hwf Hrb; [done|].
  apply Forall_cons_iff in Hwf as [[Hk Hv] Hwf]. apply Forall_cons_iff in Hrb as [Hr Hrb].
  pose proof (map_put_last k v obj (sorted_keys_snoc _ _ _ _ Hs)) as Hput.
  destruct m as [|kv m].
  - cbn [map join].
    destruct (member_back d w k v obj (closing d ++ rest)) as [n0 H0]; try done.
    apply eventually_S. exists n0. intros n Hn. cbn [parse_object_loop].
    rewrite H0, closing_read by done. by rewrite Hput.
  - rewrite !map_cons, join_cons, <- map_cons by done.
    set (tl := join SEP (map (member d) (kv :: m)) ++ closing d ++ rest) in *.
    destruct (member_back d w k v obj (SEP ++ tl)) as [n0 H0]; try done.
    destruct (IH d (obj ++ [(k, v)]) [NL] rest) as [n1 H1]; try done;
      [by rewrite <- app_assoc|apply blank_nl|].
    apply eventually_S. exists (max n0 n1). intros n Hn. cbn [parse_object_loop].
    rewrite <- !app_assoc. fold tl. rewrite H0 by lia. cbn [consume_ws].
    change (ws_suffix (SEP ++ tl)) with (SEP ++ tl).
    cbn [SEP rd L list_ascii_of_string app mbind outcome_bind].
    change (b2z ","%char =? 44) with true. cbv iota. cbn [adv].
    change (NL :: tl) with ([NL] ++ tl). rewrite Hput, H1 by lia. by rewrite <- app_assoc.
Qed.

Lemma reads_back_object m :
  wf (Object m) -> Forall (fun p => reads_back (snd p)) m -> reads_back (Object m).
Proof.
  intros [Hs Hwf]%wf_Object Hrb d rest _. rewrite dump_Object. destruct m as [|[k v] m].
  { apply eventually_at. intros f. rewrite <- !app_assoc. cbn [map join app L list_ascii_of_string].
    rewrite parse_next_head by done. change (b2z "{"%char) with 123. cbn [Z.eqb Pos.eqb].
    unfold parse_object. cbn [adv]. change (NL :: closing d ++ rest) with ([NL] ++ closing d ++ rest).
    assert (Ec : consume_ws (Some ([NL] ++ closing d ++ rest)) = Ret (Some (L "}" ++ rest))).
    { cbn [consume_ws]. rewrite ws_suffix_blank by apply blank_nl. apply (closing_read d rest). }
    by rewrite Ec. }
  destruct (object_loop_back ((k, v) :: m) d [] [] rest) as [n0 H0]; try done; [constructor|].
  apply eventually_S. exists n0. intros n Hn. specialize (H0 n Hn). cbn [app] in H0.
  rewrite <- !app_assoc. cbn [app L list_ascii_of_string].
  rewrite parse_next_head by done. change (b2z "{"%char) with 123. cbn [Z.eqb Pos.eqb].
  unfold parse_object. cbn [adv consume_ws mbind outcome_bind].
  set (tl := join SEP (map (member d) ((k, v) :: m)) ++ closing d ++ rest) in *.
  assert (Ht : exists t, tl = pad_of d ++ DQ :: t).
  { unfold tl. rewrite map_cons. destruct (map (member d) m); cbn [join];
      unfold member at 1; rewrite <- !app_assoc; by eexists. }
  destruct Ht as [t Ht]. change (NL :: tl) with ([NL] ++ tl). rewrite ws_suffix_blank by apply blank_nl.
  assert (Hw : ws_suffix tl = DQ :: t).
  { rewrite Ht, ws_suffix_blank by apply pad_of_blank. done. }
  rewrite Hw. cbn [rd mbind outcome_bind]. change (b2z DQ =? 125) with false. cbv iota.
  rewrite <- H0, Ht. destruct n as [|n]; [done|]. cbn [parse_object_loop].
  unfold parse_object_turn. by rewrite (parse_next_blank n (pad_of d)) by apply pad_of_blank.
Qed.

Lemma wf_reads_back v : wf v -> reads_back v.
Proof.
  induction v as [|m IH|l IH|s|f|z|b] using JSON_ind; intros H.
  - by apply reads_back_simple.
  - apply reads_back_object; [done|]. apply wf_Object in H as [_ H].
    induction IH as [|p m Hp _ IHm]; [constructor|].
    apply Forall_cons_iff in H as [[_ Hw] H]. constructor; auto.
  - apply wf_Array in H. apply reads_back_array; [done|].
    induction IH as [|v l Hv _ IHl]; [constructor|].
    apply Forall_cons_iff in H as [Hw H]. constructor; auto.
  - apply reads_back_str.
  - done.
  - by apply reads_back_int.
  - by apply reads_back_simple.
Qed.

(** The parser on a printed value, at the fuel of [Load]. *)
Lemma Load_back v d s rest :
  wf v -> follows v rest -> s = dump d v ++ rest -> Load s = Ret v.
Proof.
  intros Hwf Hf ->. destruct (wf_reads_back v Hwf d rest Hf) as [n0 H0].
  unfold Load. set (n := (2 * length (dump d v ++ rest) + 3)%nat).
  pose proof (Load_fuel (dump d v ++ rest)) as Hn. fold n in Hn.
  rewrite <- (parse_next_mono n (max n n0)) by (done || lia).
  by rewrite H0 by lia.
Qed.

(** Values that are not a bare number can end a text. *)
Definition not_int (v : JSON) : Prop := match v with Integral _ => False | _ => True end.

Lemma Load_dump_eq v : wf v -> not_int v -> Load (dump 1 v) = Ret v.
Proof.
  intros Hwf Hi. apply (Load_back v 1 _ []); [done| |by rewrite app_nil_r].
  by destruct v.
Qed.

Lemma dump_inj_wf v w d : wf v -> wf w -> dump d v = dump d w -> v = w.
Proof.
  intros Hv Hw E.
  pose proof (Load_back v d _ (L ",") Hv (ends_follows v (L ",") eq_refl) eq_refl) as H1.
  pose proof (Load_back w d _ (L ",") Hw (ends_follows w (L ",") eq_refl) eq_refl) as H2.
  rewrite E in H1. congruence.
Qed.

Lemma num_scan_all ds : forall val,
  Forall (fun c => num_char c = true) ds -> num_scan ds val false = (val ++ ds, false, []).
Proof.
  induction ds as [|c ds IH]; intros val H; cbn; [by rewrite app_nil_r|].
  apply Forall_cons_iff in H as [Hc H]. unfold num_char in Hc. rewrite Hc, IH by done.
  by rewrite <- app_assoc.
Qed.

(** ** What the text of a value starts with *)

Lemma dec_nat_head n : 0 <= n -> exists c r, dec_nat n = c :: r /\ num_char c = true.
Proof.
  intros Hn. destruct (dec_nat_spec n Hn) as [Hall [Hne _]].
  destruct (dec_nat n) as [|c r]; [done|]. apply Forall_cons_iff in Hall as [Hc _].
  exists c, r. split; [done|]. unfold num_char. by rewrite digit_in_is_digit, orb_true_r.
Qed.

Lemma micros_nonneg m e : 0 <= micros m e.
Proof.
  unfold micros. destruct (Z.leb_spec 0 e).
  - pose proof (Z.pow_pos_nonneg 2 e). nia.
  - assert (0 <= Zpos m * 1000000 / 2 ^ (- e)) by (apply Z.div_pos; [lia|apply Z.pow_pos_nonneg; lia]).
    repeat case_bool; lia.
Qed.

(** The first character decides between strings, arrays and the rest. *)
Definition first_ok (v : JSON) (c : ascii) : Prop :=
  match v with
  | Str _ => b2z c = 34
  | Array _ => b2z c = 91
  | _ => b2z c <> 34 /\ b2z c <> 91 /\ b2z c <> 93 /\ b2z c <> 10
  end.

Lemma num_first c : num_char c = true -> b2z c <> 34 /\ b2z c <> 91 /\ b2z c <> 93 /\ b2z c <> 10.
Proof. intros H. repeat split; intros E; unfold num_char, is_digit in H; rewrite E in H; done. Qed.

Lemma dump_first d v : exists c r, dump d v = c :: r /\ first_ok v c.
Proof.
  destruct v as [|m|l|s|f|z|b]; cbn [dump first_ok];
    try (eexists _, _; split; [reflexivity|]; vm_compute; repeat split; done).
  - destruct f as [[]|[]| |[] m e]; cbn [to_string_double];
      try (eexists _, _; split; [reflexivity|]; vm_compute; repeat split; done).
    destruct (dec_nat_head (micros m e / 1000000)) as (c & r & E & Hc).
    { apply Z.div_pos; [apply micros_nonneg|lia]. }
    rewrite E. eexists c, _. split; [reflexivity|]. by apply num_first.
  - pose proof (to_string_num z) as Hd. pose proof (to_string_nonempty z).
    destruct (to_string z) as [|c r]; [done|]. apply Forall_cons_iff in Hd as [Hc _].
    eexists c, r. split; [done|]. by apply num_first.
  - destruct b; (eexists _, _; split; [reflexivity|]; vm_compute; repeat split; done).
Qed.

(** A text that starts with the text of a string is that of the string. *)
Lemma dump_Str_prefix d d' v s A B : dump d v ++ A = dump d' (Str s) ++ B -> v = Str s /\ A = B.
Proof.
  intros E. destruct (dump_first d v) as (c & r & Ed & Hc).
  rewrite Ed in E. cbn [dump app] in E. injection E as Ec E. rewrite Ec in Hc.
  destruct v as [| | |s'| | |]; cbn in Hc; try (by destruct Hc); try done.
  clear Hc. cbn [dump app] in Ed. injection Ed as _ Ed. rewrite <- Ed in E.
  rewrite <- !app_assoc in E. cbn [app] in E.
  pose proof (parse_escaped s' A []) as H1. pose proof (parse_escaped s B []) as H2.
  rewrite E in H1. rewrite H1 in H2. cbn in H2. by injection H2 as -> ->.
Qed.

(** The same for arrays of strings, after the opening bracket. *)
Lemma join_strings_prefix d d' ss : forall l A B,
  join (L ", ") (map (dump d) l) ++ L "]" ++ A = join (L ", ") (map (dump d') (map Str ss)) ++ L "]" ++ B ->
  l = map Str ss /\ A = B.
Proof.
  induction ss as [|s ss IH]; intros [|v l] A B E; cbn [map] in E.
  - cbn in E. by injection E as ->.
  - exfalso. destruct (dump_first d v) as (c & r & Ed & Hc).
    assert (b2z c = 93) as Hb.
    { destruct l; cbn in E; rewrite Ed in E; cbn in E; injection E as -> _; done. }
    destruct v; cbn in Hc; lia.
  - exfalso. destruct ss; cbn in E; done.
  - assert (Hj : forall A d v l, join (L ", ") (dump d v :: map (dump d) l) ++ L "]" ++ A =
      dump d v ++ match l with [] => L "]" ++ A | _ => L ", " ++ join (L ", ") (map (dump d) l) ++ L "]" ++ A end).
    { intros A0 d0 v0 [|v1 l1]; [done|]. cbn [map]. rewrite join_cons by done. by rewrite <- !app_assoc. }
    rewrite !Hj in E. apply dump_Str_prefix in E as [-> E].
    destruct l as [|v1 l1], ss as [|s1 ss1]; cbn [map] in E; try done.
    + cbn in E. by injection E as ->.
    + apply app_inv_head in E. by destruct (IH (v1 :: l1) A B E) as [-> ->].
Qed.

Lemma dump_strings_prefix d d' v ss A B :
  dump d v ++ A = dump d' (Array (map Str ss)) ++ B -> v = Array (map Str ss) /\ A = B.
Proof.
  intros E. destruct (dump_first d v) as (c & r & Ed & Hc).
  assert (Hb : b2z c = 91) by (rewrite Ed in E; cbn in E; by injection E as -> _).
  destruct v as [|m|l|s|f|z|b]; cbn in Hc; try lia. cbn [dump] in E.
  rewrite <- !app_assoc in E. apply app_inv_head in E.
  by apply join_strings_prefix in E as [-> ->].
Qed.

(** ** Properties *)

(** C37. Printing a value built from objects, arrays, strings, 64-bit integers,
    booleans and null, and loading the text, gives the value back, for every
    nesting.  The keys of an object are in order and are themselves escaped
    texts: a key is printed as it is and read back with its escapes, so a key
    with a bare quote or newline in it is not covered.  An integer that is the
    whole text is not covered either: see [Load_bare_number]. *)
Theorem Load_dump v : wf v -> not_int v -> Load (dump 1 v) = Ret v.
Proof. apply Load_dump_eq. Qed.

Definition sample : JSON :=
  set_key (set_key (Object []) (L "WITNESS") (append (Array [Integral (-7); Null]) (Str (BS :: L "x"))))
    (L "BINARY") (Object [(L "a", Boolean true)]).

Lemma Load_dump_witness : wf sample /\ Load (dump 1 sample) = Ret sample.
Proof.
  assert (H : wf sample).
  { cbn. repeat split; try lia; try (by repeat constructor);
      match goal with |- key_ok ?k => exists k; reflexivity end. }
  split; [exact H|]. apply (Load_dump sample H). exact I.
Defined.


(** A lone quote is such a text. *)
Lemma Load_unclosed : Load [DQ] = Undef.
Proof. reflexivity. Qed.

(** The printed form determines the value: two values with the same text
    are the same value, at every indentation. *)
Theorem dump_injective v w d : wf v -> wf w -> dump d v = dump d w -> v = w.
Proof. apply dump_inj_wf. Qed.

(** A text that is only an integer loads as null: the parser wants a
    delimiter after a number and the end of the text is not one. *)
Lemma Load_bare_number z : Load (dump 1 (Integral z)) = Ret Null.
Proof.
  unfold Load. rewrite Nat.add_comm. cbn [Nat.add dump].
  rewrite <- (app_nil_r (to_string z)) at 2. rewrite parse_next_number, app_nil_r.
  unfold parse_number. by rewrite num_scan_all by apply to_string_num.
Qed.

(** The order in which members of an object are assigned does not show in
    the printed text, so nodes that fill a packet in different orders print
    the same bytes. *)
Theorem set_key_order v k1 k2 x y d :
  sorted_keys (as_object v) -> k1 <> k2 ->
  dump d (set_key (set_key v k1 x) k2 y) = dump d (set_key (set_key v k2 y) k1 x).
Proof. intros Hs Hn. unfold set_key. cbn [as_object]. by rewrite map_put_comm. Qed.

