(* ===== verification/Codec.v ===== *)
(** * The binary formats shared by the executors

    src/executor/Utility.hpp: lists of documents as zero-separated text
    ([Digest2Binary], [Binary2Digest]), inverted indexes as zero-separated
    DWORDs ([Index2Binary], [Binary2Index]) and their union in one blob
    ([Merge2Binary]).  The blobs are what indexers and reducers put on Kanban
    and what reducers and queriers read back.

    An [unordered_map <DWORD, vector <DWORD> >] is a [gmap]; where the code
    iterates over one, the model takes the list of its entries in the order of
    the iteration, which the standard leaves open: the theorems hold for
    every order. *)

From Stdlib Require Import String.
From stdpp Require Import fin_maps.
From S2P Require Import Prelude.

Notation index_table := (gmap Z (list Z)).

(** ** Documents *)

(** [strncpy(dst, src, n)] with [n] the size of [src]: stops at a zero and
    fills the rest with zeros. *)
Definition strncpy (s : str) : str :=
  let t := c_str s in t ++ replicate (length s - length t) NUL.

Definition digest_sum (digest : list str) : Z :=
  foldr (fun di n => Z.of_nat (length di) + 1 + n)%Z 0%Z digest.

(** The buffer and, as its length, the size reported to the caller; a sum
    that does not fit an [int] is outside the model of the allocation. *)
Definition Digest2Binary (digest : list str) : outcome str :=
  if decide (digest_sum digest < 2 ^ 31)%Z
  then Ret (concat (map (fun di => strncpy di ++ [NUL]) digest))
  else Undef.

Definition TEMP_DIGEST_LEN : Z := 64 * 1024.

(** One turn of the scan: [c_digest] holds the text since the last zero. *)
Definition digest_turn (st : str * list str) (c : ascii) : outcome (str * list str) :=
  let '(c_digest, digest_tbl) := st in
  if (b2z c =? 0)%Z then
    if decide (Z.of_nat (length c_digest) < TEMP_DIGEST_LEN)%Z
    then Ret ([], digest_tbl ++ [c_digest])
    else Undef
  else
    if decide (Z.of_nat (length c_digest) < TEMP_DIGEST_LEN)%Z
    then Ret (c_digest ++ [c], digest_tbl)
    else Undef.

Definition Binary2Digest (digest_bin : str) (digest_size : Z) (digest_tbl : list str)
  : outcome (list str) :=
  bs ← read_at digest_bin 0 (Z.max 0 digest_size);
  snd <$> foldM digest_turn bs ([], digest_tbl).

(** ** Inverted indexes *)

Definition flatten_index (index : list (Z * list Z)) : list Z :=
  concat (map (fun i => fst i :: snd i ++ [0%Z]) index).

Definition Index2Binary (index : list (Z * list Z)) : outcome str :=
  let flat := flatten_index index in
  if decide (Z.of_nat (length flat) * 4 < 2 ^ 31)%Z
  then Ret (concat (map (le_bytes 4) flat))
  else Undef.

(** [index_tbl[key].push_back(i)]. *)
Definition push_doc (key i : Z) (index_tbl : index_table) : index_table :=
  <[key := default [] (index_tbl !! key) ++ [i]]> index_tbl.

(** The DWORDs of a buffer. *)
Fixpoint dwords_of (bs : str) : list Z :=
  match bs with
  | b0 :: b1 :: b2 :: b3 :: bs => le_val [b0; b1; b2; b3] :: dwords_of bs
  | _ => []
  end.

(** One turn of the unmarshalling loop; [None] is [is_first]. *)
Definition index_turn (st : option Z * index_table) (i : Z) : option Z * index_table :=
  match st with
  | (None, tbl) => (Some i, tbl)
  | (Some key, tbl) => if (i =? 0)%Z then (None, tbl) else (Some key, push_doc key i tbl)
  end.

Definition Binary2Index (index_bin : str) (index_size : Z) (index_tbl : index_table)
  : outcome index_table :=
  if decide (index_size < 0)%Z then Throw length_error
  else if decide (index_size mod 4 = 0)%Z then
    bs ← read_at index_bin 0 index_size;
    Ret (snd (foldl index_turn (None, index_tbl) (dwords_of bs)))
  else Undef.

(** ** One blob for both *)

Definition Merge2Binary (digest_tbl : list str) (index_tbl : list (Z * list Z)) : outcome str :=
  b_digest ← Digest2Binary digest_tbl;
  b_index ← Index2Binary index_tbl;
  if decide (4 + Z.of_nat (length b_index) + Z.of_nat (length b_digest) < 2 ^ 31)%Z
  then Ret (le_bytes 4 (Z.of_nat (length b_index)) ++ b_index ++ b_digest)
  else Undef.

(** How the reducer and the querier take a blob of size [sz] apart. *)
Definition Split_binary (index1 : str) (sz_1 : Z) : outcome (list str * index_table) :=
  hd ← read_at index1 0 4;
  let index_sz1 := i32 (le_val hd) in
  index_tbl1 ← Binary2Index (drop 4 index1) index_sz1 ∅;
  let digest_sz1 := i32 (sz_1 - (4 + index_sz1)) in
  digest_tbl1 ← Binary2Digest (drop (4 + Z.to_nat index_sz1) index1) digest_sz1 [];
  Ret (digest_tbl1, index_tbl1).

(** * Theorems *)

Local Open Scope Z_scope.

(** ** Documents *)

(** A document that survives the format: no zero inside, and shorter than
    the temporary buffer of the reader. *)
Definition digest_ok (d : str) : Prop :=
  Forall (fun c => b2z c <> 0) d /\ Z.of_nat (length d) < TEMP_DIGEST_LEN.

Lemma digest_ok_check d :
  forallb (fun c => negb (b2z c =? 0)) d && (Z.of_nat (length d) <? TEMP_DIGEST_LEN) = true -> digest_ok d.
Proof.
  intros [H1 H2]%andb_prop. split; [|lia]. apply Forall_forall. intros c Hc.
  rewrite forallb_forall in H1. specialize (H1 c (proj1 (list_elem_of_In _ _) Hc)). lia.
Qed.

Lemma strncpy_no_nul d : Forall (fun c => b2z c <> 0) d -> strncpy d = d.
Proof.
  intros H. unfold strncpy. rewrite c_str_no_nul by done.
  by rewrite Nat.sub_diag, app_nil_r.
Qed.

Lemma length_c_str s : (length (c_str s) <= length s)%nat.
Proof. induction s as [|c s IH]; cbn; [lia|]. destruct (b2z c =? 0); cbn; lia. Qed.

Lemma length_strncpy s : length (strncpy s) = length s.
Proof.
  unfold strncpy. rewrite length_app, length_replicate. pose proof (length_c_str s). lia.
Qed.

Lemma digest_turn_nul acc tbl : Z.of_nat (length acc) < TEMP_DIGEST_LEN ->
  digest_turn (acc, tbl) NUL = Ret ([], tbl ++ [acc]).
Proof. intros H. unfold digest_turn. cbn -[TEMP_DIGEST_LEN]. by rewrite decide_True. Qed.

Lemma digest_turn_char acc tbl c : b2z c <> 0 -> Z.of_nat (length acc) < TEMP_DIGEST_LEN ->
  digest_turn (acc, tbl) c = Ret (acc ++ [c], tbl).
Proof.
  intros Hc H. unfold digest_turn. by rewrite (proj2 (Z.eqb_neq _ _) Hc), decide_True.
Qed.

Lemma digest_scan d : forall acc tbl rest,
  Forall (fun c => b2z c <> 0) d -> Z.of_nat (length acc + length d) < TEMP_DIGEST_LEN ->
  foldM digest_turn (d ++ NUL :: rest) (acc, tbl) =
  foldM digest_turn rest ([], tbl ++ [acc ++ d]).
Proof.
  induction d as [|c d IH]; intros acc tbl rest Hd Hl.
  - rewrite app_nil_r. cbn in Hl. cbn [app foldM]. by rewrite digest_turn_nul by lia.
  - apply Forall_cons_iff in Hd as [Hc Hd]. cbn [app foldM length] in *.
    rewrite digest_turn_char by (done || lia).
    rewrite bind_ret, IH by (done || (rewrite length_app; cbn; lia)).
    by rewrite <- app_assoc.
Qed.

Lemma digests_scan ds : forall tbl rest,
  Forall digest_ok ds ->
  foldM digest_turn (concat (map (fun di => strncpy di ++ [NUL]) ds) ++ rest) ([], tbl) =
  foldM digest_turn rest ([], tbl ++ ds).
Proof.
  induction ds as [|d ds IH]; intros tbl rest H; cbn [map concat].
  { by rewrite app_nil_r. }
  apply Forall_cons_iff in H as [[Hd Hl] H].
  rewrite strncpy_no_nul by done. rewrite <- !app_assoc. cbn [app].
  rewrite digest_scan by (done || cbn; lia). rewrite IH by done.
  by rewrite <- app_assoc.
Qed.

Lemma digest_sum_length ds :
  Z.of_nat (length (concat (map (fun di => strncpy di ++ [NUL]) ds))) = digest_sum ds.
Proof.
  induction ds as [|d ds IH]; [done|]. cbn [map concat digest_sum foldr].
  rewrite !length_app, length_strncpy. cbn [length]. unfold digest_sum in *. lia.
Qed.

Lemma Binary2Digest_back ds bin :
  Forall digest_ok ds -> Digest2Binary ds = Ret bin ->
  Binary2Digest bin (Z.of_nat (length bin)) [] = Ret ds.
Proof.
  intros Hok Hb. unfold Digest2Binary in Hb. case_decide; [|done]. injection Hb as <-.
  unfold Binary2Digest. rewrite read_at_all by lia. rewrite bind_ret.
  pose proof (digests_scan ds [] [] Hok) as E. rewrite app_nil_r in E. rewrite E. done.
Qed.

Lemma digest_overflow d : forall acc tbl rest,
  Forall (fun c => b2z c <> 0) d -> TEMP_DIGEST_LEN <= Z.of_nat (length acc + length d) ->
  foldM digest_turn (d ++ NUL :: rest) (acc, tbl) = Undef.
Proof.
  induction d as [|c d IH]; intros acc tbl rest Hd Hl; cbn [app foldM length] in *.
  - unfold digest_turn. cbn -[TEMP_DIGEST_LEN]. by rewrite decide_False by lia.
  - apply Forall_cons_iff in Hd as [Hc Hd].
    destruct (decide (Z.of_nat (length acc) < TEMP_DIGEST_LEN)).
    + rewrite digest_turn_char by done. rewrite bind_ret. apply IH; [done|].
      rewrite length_app. cbn. lia.
    + unfold digest_turn. rewrite (proj2 (Z.eqb_neq _ _) Hc). by rewrite decide_False.
Qed.

Lemma digests_scan_inv ds : forall tbl r,
  Forall (Forall (fun c => b2z c <> 0)) ds ->
  foldM digest_turn (concat (map (fun di => strncpy di ++ [NUL]) ds)) ([], tbl) = Ret r -> r = ([], tbl ++ ds).
Proof.
  induction ds as [|d ds IH]; intros tbl r Hd Hr; cbn [map concat] in Hr.
  { apply Ret_inj in Hr as <-. by rewrite app_nil_r. }
  apply Forall_cons_iff in Hd as [Hd Hds]. rewrite strncpy_no_nul in Hr by done.
  rewrite <- !app_assoc in Hr. cbn [app] in Hr.
  destruct (decide (Z.of_nat (length d) < TEMP_DIGEST_LEN)).
  - rewrite digest_scan in Hr by (done || cbn; lia). apply IH in Hr; [|done]. by rewrite <- app_assoc in Hr.
  - by rewrite digest_overflow in Hr by (done || cbn; lia).
Qed.

(** Whatever comes back from the format is what went in. *)
Lemma Binary2Digest_inv ds bin ds' :
  Forall (Forall (fun c => b2z c <> 0)) ds -> Digest2Binary ds = Ret bin ->
  Binary2Digest bin (Z.of_nat (length bin)) [] = Ret ds' -> ds' = ds.
Proof.
  intros Hok Hb Hr. unfold Digest2Binary in Hb. case_decide; [|done]. injection Hb as <-.
  unfold Binary2Digest in Hr. rewrite read_at_all, bind_ret in Hr by lia.
  destruct (foldM _ _ _) as [r| | |] eqn:E; try done. apply digests_scan_inv in E; [|done].
  apply Ret_inj in Hr as <-. by rewrite E.
Qed.

(** ** Indexes *)

(** Document numbers are non-zero DWORDs: zero is the delimiter. *)
Definition posting_ok (l : list Z) : Prop := Forall (fun i => 0 < i < 2 ^ 32) l.

Definition index_ok (m : index_table) : Prop :=
  map_Forall (fun w l => is_u32 w /\ posting_ok l /\ l <> []) m.

Lemma dwords_of_bytes zs : Forall is_u32 zs -> dwords_of (concat (map (le_bytes 4) zs)) = zs.
Proof.
  induction 1 as [|z zs Hz _ IH]; [done|]. cbn [map concat].
  pose proof (length_le_bytes 4 z) as Hl. pose proof (le_val_bytes4 z Hz) as Hv.
  destruct (le_bytes 4 z) as [|b0 [|b1 [|b2 [|b3 [|? ?]]]]]; try done.
  cbn [app dwords_of]. by rewrite Hv, IH.
Qed.

Lemma length_dword_bytes zs : length (concat (map (le_bytes 4) zs)) = (4 * length zs)%nat.
Proof.
  induction zs as [|z zs IH]; [done|]. cbn [map concat].
  rewrite length_app, length_le_bytes, IH. cbn. lia.
Qed.

Lemma index_scan_docs l : forall key tbl rest,
  posting_ok l ->
  foldl index_turn (Some key, tbl) (l ++ 0 :: rest) =
  foldl index_turn (None, foldl (fun t i => push_doc key i t) tbl l) rest.
Proof.
  induction l as [|i l IH]; intros key tbl rest H; [done|].
  apply Forall_cons_iff in H as [Hi H]. cbn [app foldl index_turn].
  destruct (Z.eqb_spec i 0); [lia|]. by apply IH.
Qed.

Lemma push_docs l : forall key (tbl : index_table), l <> [] ->
  foldl (fun t i => push_doc key i t) tbl l = <[key := default [] (tbl !! key) ++ l]> tbl.
Proof.
  induction l as [|i l IH]; intros key tbl H; [done|]. cbn [foldl]. destruct l as [|j l].
  - done.
  - rewrite IH by done. unfold push_doc. rewrite lookup_insert_eq, insert_insert_eq. cbn [default from_option id].
    by rewrite <- app_assoc.
Qed.

Lemma index_scan l : forall tbl,
  Forall (fun e => is_u32 (fst e) /\ posting_ok (snd e) /\ snd e <> []) l ->
  NoDup (fst <$> l) -> (forall k, k ∈ (fst <$> l) -> tbl !! k = None) ->
  foldl index_turn (None, tbl) (flatten_index l) = (None, list_to_map l ∪ tbl).
Proof.
  induction l as [|[k vs] l IH]; intros tbl Hok Hnd Hfresh.
  { cbn. by rewrite (left_id_L ∅ (∪)). }
  apply Forall_cons_iff in Hok as [(Hk & Hvs & Hne) Hok]. cbn in Hk, Hvs, Hne.
  rewrite fmap_cons in *. apply NoDup_cons in Hnd as [Hnotin Hnd]. cbn in Hnotin.
  unfold flatten_index. cbn [map concat fst snd app foldl index_turn].
  rewrite <- app_assoc. cbn [app]. rewrite index_scan_docs, push_docs by done.
  rewrite Hfresh by (cbn; left). cbn [default from_option app].
  fold (flatten_index l). rewrite IH; [|done..|].
  - f_equal. cbn [list_to_map foldr uncurry fst snd].
    rewrite <- insert_union_r by (by apply not_elem_of_list_to_map_1).
    by rewrite insert_union_l.
  - intros k' Hk'. rewrite lookup_insert_ne by (intros ->; done).
    apply Hfresh. cbn. by right.
Qed.

Lemma flatten_index_u32 l :
  Forall (fun e => is_u32 (fst e) /\ posting_ok (snd e) /\ snd e <> []) l ->
  Forall is_u32 (flatten_index l).
Proof.
  induction 1 as [|[k vs] l (Hk & Hvs & _) _ IH]; [constructor|].
  unfold flatten_index. cbn. constructor; [done|]. rewrite !Forall_app. split_and!; [|by repeat constructor|done].
  eapply Forall_weaken; [exact Hvs|]. unfold is_u32. lia.
Qed.

(** The entries of a table, in any order. *)
Lemma index_ok_entries m l : index_ok m -> l ≡ₚ map_to_list m ->
  Forall (fun e => is_u32 (fst e) /\ posting_ok (snd e) /\ snd e <> []) l /\
  NoDup (fst <$> l) /\ list_to_map l = m.
Proof.
  intros Hm Hl. assert (Hnd : NoDup (fst <$> l)).
  { rewrite Hl. apply NoDup_fst_map_to_list. }
  split_and!; [|done|].
  - rewrite Hl. apply map_Forall_to_list in Hm.
    eapply Forall_weaken; [exact Hm|]. by intros [w vs].
  - rewrite <- (list_to_map_to_list m). by apply list_to_map_proper.
Qed.

Lemma Binary2Index_back m l bin rest :
  index_ok m -> l ≡ₚ map_to_list m -> Index2Binary l = Ret bin ->
  Binary2Index (bin ++ rest) (Z.of_nat (length bin)) ∅ = Ret m.
Proof.
  intros Hm Hl Hb. destruct (index_ok_entries m l Hm Hl) as (Hok & Hnd & <-).
  unfold Index2Binary in Hb. case_decide; [|done]. injection Hb as <-.
  unfold Binary2Index. rewrite decide_False by lia. rewrite length_dword_bytes.
  rewrite decide_True by (rewrite Nat2Z.inj_mul, Z.mul_comm; apply Z_mod_mult).
  rewrite read_at_prefix by (by rewrite length_dword_bytes). rewrite bind_ret.
  rewrite dwords_of_bytes by (by apply flatten_index_u32).
  rewrite index_scan by done. cbn [snd]. by rewrite (right_id_L ∅ (∪)).
Qed.

(** ** Blobs *)

Lemma Split_Merge ds m l bin :
  Forall digest_ok ds -> index_ok m -> l ≡ₚ map_to_list m ->
  Merge2Binary ds l = Ret bin ->
  Split_binary bin (Z.of_nat (length bin)) = Ret (ds, m).
Proof.
  intros Hds Hm Hl H. unfold Merge2Binary in H.
  apply bind_Ret_inv in H as (b_digest & Hd & H).
  apply bind_Ret_inv in H as (b_index & Hi & H). case_decide as Hsz; [|done].
  apply Ret_inj in H as <-. unfold Split_binary.
  assert (Hli : i32 (Z.of_nat (length b_index)) = Z.of_nat (length b_index)).
  { apply i32_small. unfold is_i32. lia. }
  rewrite read_at_prefix by (by rewrite length_le_bytes). rewrite bind_ret.
  rewrite le_val_bytes4 by (unfold is_u32; lia). rewrite Hli.
  rewrite (drop_app_length' (le_bytes 4 _) _ 4) by (by rewrite length_le_bytes).
  rewrite (Binary2Index_back m l) by done. rewrite bind_ret, Nat2Z.id.
  rewrite app_assoc, drop_app_length' by (rewrite length_app, length_le_bytes; done).
  replace (i32 _) with (Z.of_nat (length b_digest)).
  - by rewrite (Binary2Digest_back ds b_digest).
  - rewrite !length_app, length_le_bytes. rewrite i32_small; unfold is_i32; lia.
Qed.

Lemma Merge2Binary_total ds l :
  4 + 4 * Z.of_nat (length (flatten_index l)) + digest_sum ds < 2 ^ 31 ->
  exists bin, Merge2Binary ds l = Ret bin.
Proof.
  intros H. assert (Hd : 0 <= digest_sum ds) by (rewrite <- digest_sum_length; lia).
  assert (E1 : Digest2Binary ds = Ret (concat (map (fun di => strncpy di ++ [NUL]) ds)))
    by (unfold Digest2Binary; by rewrite decide_True by lia).
  assert (E2 : Index2Binary l = Ret (concat (map (le_bytes 4) (flatten_index l))))
    by (unfold Index2Binary; by rewrite decide_True by lia).
  unfold Merge2Binary. rewrite E1, bind_ret, E2, bind_ret. rewrite decide_True; [eauto|].
  rewrite length_dword_bytes, digest_sum_length. lia.
Qed.

(** ** Sizes *)

(** The DWORDs the entries of a table take in a blob. *)
Definition entries_weight (l : list (Z * list Z)) : nat :=
  foldr (fun e n => 2 + length (snd e) + n)%nat 0%nat l.

Definition weight (m : index_table) : nat := entries_weight (map_to_list m).

Lemma entries_weight_perm l l' : l ≡ₚ l' -> entries_weight l = entries_weight l'.
Proof. unfold entries_weight. induction 1; cbn [foldr]; lia. Qed.

Lemma flatten_length l : length (flatten_index l) = entries_weight l.
Proof.
  unfold flatten_index, entries_weight. induction l as [|[k vs] l IH]; [done|].
  cbn [map concat foldr fst snd length app]. rewrite !length_app, IH. cbn [length]. lia.
Qed.

Lemma weight_insert m k v : weight (<[k := v]> m) = (2 + length v + weight (delete k m))%nat.
Proof.
  unfold weight. rewrite <- insert_delete_eq.
  rewrite (entries_weight_perm _ _ (map_to_list_insert (delete k m) k v (lookup_delete_eq m k))). done.
Qed.

Lemma weight_delete m k : weight m = (match m !! k with Some v => 2 + length v | None => 0 end + weight (delete k m))%nat.
Proof.
  destruct (m !! k) as [v|] eqn:E.
  - rewrite <- (insert_id m k v E) at 1. apply weight_insert.
  - by rewrite delete_id.
Qed.

Lemma blob_length ds l blob : Merge2Binary ds l = Ret blob ->
  Z.of_nat (length blob) = 4 + 4 * Z.of_nat (entries_weight l) + digest_sum ds.
Proof.
  intros H. unfold Merge2Binary in H. apply bind_Ret_inv in H as (b1 & H1 & H).
  apply bind_Ret_inv in H as (b2 & H2 & H). case_decide; [|done]. apply Ret_inj in H as <-.
  unfold Digest2Binary in H1. case_decide; [|done]. apply Ret_inj in H1 as <-.
  unfold Index2Binary in H2. case_decide; [|done]. apply Ret_inj in H2 as <-.
  rewrite !length_app, length_le_bytes, !Nat2Z.inj_add, digest_sum_length, length_dword_bytes, flatten_length. lia.
Qed.

Lemma digest_sum_app a b : digest_sum (a ++ b) = digest_sum a + digest_sum b.
Proof. unfold digest_sum. induction a as [|d a IH]; cbn [foldr app]; lia. Qed.

(** ** Properties *)

(** C39. An index blob written by [Merge2Binary] (an indexer or reducer) and
    taken apart by a reducer or querier gives back the documents and the
    inverted index, whatever order the hash table was iterated in; and
    [Merge2Binary] does write one whenever the blob fits an [int]. *)
Theorem Merge2Binary_roundtrip ds m l :
  Forall digest_ok ds -> index_ok m -> l ≡ₚ map_to_list m ->
  4 + 4 * Z.of_nat (length (flatten_index l)) + digest_sum ds < 2 ^ 31 ->
  exists bin, Merge2Binary ds l = Ret bin /\
    Split_binary bin (Z.of_nat (length bin)) = Ret (ds, m).
Proof.
  intros Hds Hm Hl Hsz. destruct (Merge2Binary_total ds l Hsz) as [bin Hb].
  exists bin. split; [done|]. by apply (Split_Merge ds m l).
Qed.

Lemma Merge2Binary_roundtrip_witness :
  let m : index_table := {[ 7 := [1; 3] ]} in
  exists bin, Merge2Binary [L "doc one"; L "doc two"] [(7, [1; 3])] = Ret bin /\
    Split_binary bin (Z.of_nat (length bin)) = Ret ([L "doc one"; L "doc two"], m).
Proof.
  intros m. apply (Merge2Binary_roundtrip _ m).
  - repeat constructor; vm_compute; done.
  - apply map_Forall_singleton. split_and!; [|repeat constructor|]; done.
  - unfold m. by rewrite map_to_list_singleton.
  - done.
Defined.

(** A document of 64 KiB or more makes the reader of a blob write past its
    temporary buffer. *)
Lemma Binary2Digest_overflow d :
  Forall (fun c => b2z c <> 0) d -> TEMP_DIGEST_LEN <= Z.of_nat (length d) ->
  Binary2Digest (d ++ [NUL]) (Z.of_nat (length (d ++ [NUL]))) [] = Undef.
Proof.
  intros Hd Hl. unfold Binary2Digest. rewrite Z.max_r, read_at_all by lia.
  rewrite bind_ret. by rewrite digest_overflow by (done || cbn; lia).
Qed.

