(* ===== verification/Vlb.v ===== *)
(** * Variable-length byte encoding of posting lists

    The VLB coder of src/sgx-executor/Enclave2/enclave_common.hpp: seven bits
    per byte, low group first, on the differences of successive document
    numbers.  The ORAM querier keeps every posting list in this form and
    marshalls it into ORAM blocks. *)

From S2P Require Import Prelude.

Module Vlb.

Local Open Scope Z_scope.

(** ** One DWORD *)

(** The do-while loop of [ZipDword]; a DWORD has at most five groups. *)
Fixpoint zip_loop (fuel : nat) (uValue : Z) : str :=
  match fuel with
  | O => []
  | S fuel =>
    let bOut := Z.land uValue 127 in
    let uValue := Z.shiftr uValue 7 in
    if uValue =? 0 then [z2b bOut] else z2b (Z.lor bOut 128) :: zip_loop fuel uValue
  end.

Definition ZipDword (pOut : str) (uValue : Z) : str := pOut ++ zip_loop 5 uValue.

(** [UnzipDword] on the bytes from [pIn] on; a shift by 32 or more and a read
    past the buffer are undefined. *)
Fixpoint unzip_loop (pIn : str) (uValue iOff : Z) : outcome (Z * str) :=
  match pIn with
  | [] => Undef
  | bIn :: pIn =>
    if 32 <=? iOff then Undef
    else
      let uValue := u32 (uValue + u32 (Z.shiftl (Z.land (b2z bIn) 127) iOff)) in
      if Z.land (b2z bIn) 128 =? 0 then Ret (uValue, pIn)
      else unzip_loop pIn uValue (iOff + 7)
  end.

Definition UnzipDword (pIn : str) : outcome (Z * str) := unzip_loop pIn 0 0.

(** ** The coder *)

(** A [const BYTE *] into [m_pHits]: the bytes from it on, or a value that
    must not be dereferenced (null, indeterminate, or left behind by a
    reallocation). *)
Inductive cursor := Wild | Into (l : str).

Record VLB_coder := mk_VLB {
  m_pHits : str;
  m_uLastHit : Z;
  m_iLeft : Z;
  m_uLast : Z;
  m_pCur : cursor;
  m_bInit : bool
}.

Definition new_VLB : VLB_coder := mk_VLB [] 0 0 0 Wild false.

(** The copy constructor initialises neither [m_pCur] nor [m_bInit]: the copy
    holds whatever [garbage] was in their place. *)
Definition copy_VLB (garbage : cursor * bool) (src : VLB_coder) : VLB_coder :=
  mk_VLB (m_pHits src) (m_uLastHit src) (m_iLeft src) (m_uLast src) (fst garbage) (snd garbage).

(** [Zip]: a repeated value is skipped; a pointer taken earlier does not
    survive the growth of the vector. *)
Definition Zip (c : VLB_coder) (uValue : Z) : VLB_coder :=
  let delta := u32 (uValue - m_uLastHit c) in
  if delta =? 0 then c
  else
    let hits := ZipDword (m_pHits c) delta in
    mk_VLB hits uValue (u32 (m_iLeft c + 1)) (m_uLast c)
      (if m_bInit c then Wild else Into hits) true.

Definition Unzip (c : VLB_coder) : outcome (Z * VLB_coder) :=
  if m_iLeft c =? 0 then Ret (0, c)
  else
    match (if m_bInit c then m_pCur c else Into (m_pHits c)) with
    | Wild => Undef
    | Into l =>
      r ← UnzipDword l;
      let '(uValue, l) := r in
      let last := u32 (m_uLast c + uValue) in
      Ret (last, mk_VLB (m_pHits c) (m_uLastHit c) (u32 (m_iLeft c - 1)) last (Into l) true)
    end.

Definition Length (c : VLB_coder) : Z := m_iLeft c.

(** The loop of [Dump_VLB]: until a zero comes out. *)
Fixpoint dump_loop (fuel : nat) (tmp : VLB_coder) (dest : list Z) : outcome (list Z) :=
  match fuel with
  | O => NoFuel
  | S fuel =>
    r ← Unzip tmp;
    let '(uValue, tmp) := r in
    if uValue =? 0 then Ret dest else dump_loop fuel tmp (dest ++ [uValue])
  end.

Definition Dump_VLB (garbage : cursor * bool) (src : VLB_coder) : outcome (list Z) :=
  dump_loop (S (Z.to_nat (m_iLeft src))) (copy_VLB garbage src) [].

Definition Load_VLB (src : list Z) (dest : VLB_coder) : VLB_coder := foldl Zip dest src.

(** The linear scan that hides which entry of the table was asked for. *)
Definition ConstantTime_Dump_VLB (garbage : cursor * bool) (wordID : Z)
    (table : list (Z * VLB_coder)) : outcome (list Z) :=
  Dump_VLB garbage
    (foldl (fun src i => if wordID =? fst i then snd i else src) new_VLB table).

(** ** Marshalling *)

Definition marshall_VLB_to_buffer (src : VLB_coder) : str :=
  m_pHits src ++ le_bytes 4 (m_uLastHit src) ++ le_bytes 4 (m_iLeft src)
    ++ le_bytes 4 (m_uLast src) ++ le_bytes 4 (if m_bInit src then 1 else 0).

(** [buffer] may be longer than [size]: the blob sits in ORAM blocks. *)
Definition unmarshall_buffer_VLB (buffer : str) (size : Z) (src : VLB_coder) : outcome VLB_coder :=
  let vec_size := i32 (size - 16) in
  if decide (vec_size < 0) then Throw length_error
  else
    hits ← read_at buffer 0 vec_size;
    p0 ← read_at buffer vec_size 4;
    p1 ← read_at buffer (vec_size + 4) 4;
    p2 ← read_at buffer (vec_size + 8) 4;
    p3 ← read_at buffer (vec_size + 12) 4;
    Ret (mk_VLB hits (le_val p0) (le_val p1) (le_val p2) (m_pCur src) (negb (le_val p3 =? 0))).

(** * Theorems *)

(** ** One DWORD *)

Lemma land_127 z : 0 <= z -> Z.land z 127 = z mod 128.
Proof. intros H. change 127 with (Z.ones 7). by rewrite Z.land_ones. Qed.

Lemma byte_high c : (Z.land (b2z c) 128 =? 0) = (b2z c <? 128) /\ Z.land (b2z c) 127 = b2z c mod 128.
Proof. destruct c as [[] [] [] [] [] [] [] []]; by vm_compute. Qed.

Lemma lor_128 b : 0 <= b < 128 -> Z.lor b 128 = b + 128.
Proof.
  intros H.
  assert (E : b = b2z (z2b b)) by (rewrite b2z_z2b, Z.mod_small; lia).
  revert H. rewrite E. generalize (z2b b). clear. intros c.
  destruct c as [[] [] [] [] [] [] [] []]; vm_compute; intros [? ?]; done.
Qed.

Lemma unzip_zip_loop fuel : forall u acc iOff rest,
  0 <= u < 128 ^ Z.of_nat fuel -> (fuel <> O) -> 0 <= acc -> 0 <= iOff ->
  iOff + 7 * (Z.of_nat fuel - 1) < 32 -> acc + u * 2 ^ iOff < 2 ^ 32 ->
  unzip_loop (zip_loop fuel u ++ rest) acc iOff = Ret (acc + u * 2 ^ iOff, rest).
Proof.
  induction fuel as [|fuel IH]; intros u acc iOff rest Hu Hf Ha Hi Hoff Hb; [done|].
  cbn [zip_loop]. rewrite land_127, Z.shiftr_div_pow2 by lia. change (2 ^ 7) with 128.
  pose proof (Z.mod_pos_bound u 128 eq_refl) as Hm. pose proof (Z_div_mod_eq_full u 128) as Hdm.
  pose proof (Z.pow_pos_nonneg 2 iOff eq_refl Hi) as Hp.
  assert (Hq : 0 <= u / 128) by (apply Z.div_pos; lia).
  destruct (Z.eqb_spec (u / 128) 0) as [E|E]; cbn [app unzip_loop].
  - destruct (Z.leb_spec 32 iOff); [lia|]. destruct (byte_high (z2b (u mod 128))) as [-> ->].
    rewrite b2z_z2b, (Z.mod_small (u mod 128)) by lia.
    destruct (Z.ltb_spec (u mod 128) 128); [|lia]. rewrite Z.mod_small, Z.shiftl_mul_pow2 by lia.
    replace (u mod 128) with u by lia.
    rewrite !u32_small by (unfold is_u32; try rewrite u32_small; unfold is_u32; nia). done.
  - destruct fuel as [|fuel]; [cbn in Hu; lia|].
    rewrite lor_128 by lia. destruct (Z.leb_spec 32 iOff); [lia|].
    destruct (byte_high (z2b (u mod 128 + 128))) as [-> ->].
    rewrite b2z_z2b, (Z.mod_small (u mod 128 + 128)) by lia.
    destruct (Z.ltb_spec (u mod 128 + 128) 128); [lia|].
    replace ((u mod 128 + 128) mod 128) with (u mod 128)
      by (rewrite <- Zplus_mod_idemp_r; cbn; rewrite Z.add_0_r, Zmod_mod; done).
    rewrite Z.shiftl_mul_pow2 by lia.
    rewrite (u32_small (_ * _)) by (unfold is_u32; nia).
    rewrite u32_small by (unfold is_u32; nia).
    rewrite IH; [f_equal; f_equal| | | | | |]; rewrite ?Z.pow_add_r by lia;
      change (2 ^ 7) with 128; try lia; try nia.
    rewrite Nat2Z.inj_succ, Z.pow_succ_r in Hu by lia. split; [lia|].
    apply Z.div_lt_upper_bound; lia.
Qed.

Lemma unzip_zip u rest : is_u32 u -> UnzipDword (zip_loop 5 u ++ rest) = Ret (u, rest).
Proof.
  intros [H0 H1]. unfold UnzipDword. rewrite unzip_zip_loop; try (cbn; lia).
  do 2 f_equal. lia.
Qed.

(** ** Posting lists *)

(** What the coder keeps of a list: a value equal to the one before it (to 0
    for the first) is dropped. *)
Fixpoint dedup (prev : Z) (l : list Z) : list Z :=
  match l with
  | [] => []
  | x :: l => if x =? prev then dedup prev l else x :: dedup x l
  end.

(** The bytes of the deltas of a list without adjacent repetitions. *)
Fixpoint deltas (prev : Z) (l : list Z) : str :=
  match l with
  | [] => []
  | x :: l => zip_loop 5 (u32 (x - prev)) ++ deltas x l
  end.

Lemma delta_zero x y : is_u32 x -> is_u32 y -> (u32 (x - y) =? 0) = (x =? y).
Proof.
  unfold is_u32, u32. intros Hx Hy. destruct (Z.eqb_spec x y) as [->|N].
  - by rewrite Z.sub_diag.
  - apply Z.eqb_neq. intros E. apply Z.mod_divide in E; [|done]. destruct E as [k E]. nia.
Qed.

Lemma dedup_Forall (P : Z -> Prop) l : forall prev, Forall P l -> Forall P (dedup prev l).
Proof.
  induction l as [|x l IH]; intros prev H; [done|]. apply Forall_cons_iff in H as [Hx Hl].
  cbn. destruct (x =? prev); auto.
Qed.

Lemma dedup_length l : forall prev, (length (dedup prev l) <= length l)%nat.
Proof.
  induction l as [|x l IH]; intros prev; cbn; [lia|].
  destruct (x =? prev); cbn; [specialize (IH prev)|specialize (IH x)]; lia.
Qed.

Lemma dedup_increasing l : forall prev, Sorted.StronglySorted Z.lt (prev :: l) -> dedup prev l = l.
Proof.
  induction l as [|x l IH]; intros prev H; [done|]. apply Sorted.StronglySorted_inv in H as [H Hp].
  apply Forall_cons_iff in Hp as [Hx _]. cbn. destruct (Z.eqb_spec x prev); [lia|]. by rewrite IH.
Qed.

(** The coder after a value that is not a repetition. *)
Definition zipped (c : VLB_coder) (x : Z) : VLB_coder :=
  let hits := ZipDword (m_pHits c) (u32 (x - m_uLastHit c)) in
  mk_VLB hits x (u32 (m_iLeft c + 1)) (m_uLast c) (if m_bInit c then Wild else Into hits) true.

Lemma Zip_eq c x : is_u32 x -> is_u32 (m_uLastHit c) ->
  Zip c x = if x =? m_uLastHit c then c else zipped c x.
Proof. intros Hx Hc. unfold Zip. by rewrite delta_zero. Qed.

(** The coder after [Load_VLB]. *)
Lemma Load_VLB_state l : forall c,
  is_u32 (m_uLastHit c) -> Forall is_u32 l -> 0 <= m_iLeft c ->
  m_iLeft c + Z.of_nat (length l) < 2 ^ 32 ->
  let d := dedup (m_uLastHit c) l in
  let c' := Load_VLB l c in
  m_pHits c' = m_pHits c ++ deltas (m_uLastHit c) d /\
  m_iLeft c' = m_iLeft c + Z.of_nat (length d) /\ m_uLast c' = m_uLast c /\
  m_uLastHit c' = List.last d (m_uLastHit c) /\ (m_bInit c' = m_bInit c || negb (length d =? 0)%nat).
Proof.
  induction l as [|x l IH]; intros c Hc Hl H0 Hlen; cbn.
  { rewrite app_nil_r, Z.add_0_r, orb_false_r. done. }
  apply Forall_cons_iff in Hl as [Hx Hl]. cbn [length] in Hlen.
  rewrite Zip_eq by done. destruct (Z.eqb_spec x (m_uLastHit c)) as [E|E].
  - apply IH; auto. lia.
  - assert (Hi : u32 (m_iLeft c + 1) = m_iLeft c + 1) by (apply u32_small; unfold is_u32; lia).
    destruct (IH (zipped c x)) as (E1 & E2 & E3 & E4 & E5); auto; cbn; try lia.
    unfold Load_VLB in *. rewrite E1, E2, E3, E4, E5. cbn. unfold ZipDword.
    rewrite Hi, <- app_assoc, orb_true_r. repeat split; try lia.
    destruct (dedup x l) as [|y d]; [done|]. clear. revert y. induction d as [|z d IHd]; [done|].
    intros y. exact (IHd z).
Qed.

Lemma Unzip_delta c x l rest :
  is_u32 (m_uLast c) -> is_u32 x -> m_iLeft c = Z.of_nat (S (length l)) -> is_u32 (m_iLeft c) ->
  (if m_bInit c then m_pCur c else Into (m_pHits c)) = Into (deltas (m_uLast c) (x :: l) ++ rest) ->
  Unzip c = Ret (x, mk_VLB (m_pHits c) (m_uLastHit c) (Z.of_nat (length l)) x
                     (Into (deltas x l ++ rest)) true).
Proof.
  intros Hu Hx Hn Hi Hcur. unfold Unzip. destruct (Z.eqb_spec (m_iLeft c) 0); [lia|].
  rewrite Hcur. cbn [deltas]. rewrite <- app_assoc, unzip_zip by (apply u32_range). cbn.
  assert (E : u32 (m_uLast c + u32 (x - m_uLast c)) = x).
  { unfold u32. rewrite Zplus_mod_idemp_r, Z.mod_small; [lia|]. unfold is_u32 in Hx. lia. }
  rewrite E, (u32_small (m_iLeft c - 1)) by (unfold is_u32 in *; lia).
  do 3 f_equal. lia.
Qed.

Lemma dump_deltas l : forall c dest rest,
  is_u32 (m_uLast c) -> Forall is_u32 l -> Forall (fun x => x <> 0) l ->
  m_iLeft c = Z.of_nat (length l) -> is_u32 (m_iLeft c) ->
  (if m_bInit c then m_pCur c else Into (m_pHits c)) = Into (deltas (m_uLast c) l ++ rest) ->
  dump_loop (S (length l)) c dest = Ret (dest ++ l).
Proof.
  induction l as [|x l IH]; intros c dest rest Hu Hl Hnz Hn Hi Hcur.
  { cbn. unfold Unzip. rewrite Hn. cbn. by rewrite app_nil_r. }
  apply Forall_cons_iff in Hl as [Hx Hl]. apply Forall_cons_iff in Hnz as [Nx Hnz].
  cbn [length]. cbn [dump_loop].
  rewrite (Unzip_delta c x l rest) by (cbn in *; auto). cbn [mbind outcome_bind].
  cbn. destruct (Z.eqb_spec x 0); [done|].
  change (dump_loop (S (length l)) (mk_VLB (m_pHits c) (m_uLastHit c) (Z.of_nat (length l)) x
    (Into (deltas x l ++ rest)) true) (dest ++ [x]) = Ret (dest ++ x :: l)).
  erewrite IH; try done; cbn.
  - by rewrite <- app_assoc.
  - unfold is_u32 in *. cbn in Hn. lia.
Qed.

(** A coder that a posting list was loaded into. *)
Lemma Dump_Load_eq cur l :
  Forall is_u32 l -> Forall (fun x => x <> 0) l -> Z.of_nat (length l) < 2 ^ 32 ->
  Dump_VLB (cur, false) (Load_VLB l new_VLB) = Ret (dedup 0 l).
Proof.
  intros Hl Hnz Hlen. edestruct (Load_VLB_state l new_VLB) as (E1 & E2 & E3 & E4 & _); auto;
    [unfold is_u32; cbn; lia|cbn; lia|].
  cbn [new_VLB m_iLeft m_pHits m_uLast m_uLastHit app] in E1, E2, E3, E4. rewrite Z.add_0_l in E2.
  unfold Dump_VLB. rewrite E2, Nat2Z.id. pose proof (dedup_length l 0).
  rewrite (dump_deltas _ _ _ []); cbn; rewrite ?E1, ?E2, ?E3, ?app_nil_r;
    auto using dedup_Forall; unfold is_u32; lia.
Qed.

(** ** Marshalling *)

Definition reset_cur (c : VLB_coder) (p : cursor) : VLB_coder :=
  mk_VLB (m_pHits c) (m_uLastHit c) (m_iLeft c) (m_uLast c) p (m_bInit c).

Definition coder_ok (c : VLB_coder) : Prop :=
  is_u32 (m_uLastHit c) /\ is_u32 (m_iLeft c) /\ is_u32 (m_uLast c).

Lemma length_marshall c : length (marshall_VLB_to_buffer c) = (length (m_pHits c) + 16)%nat.
Proof. unfold marshall_VLB_to_buffer. rewrite !length_app, !length_le_bytes. lia. Qed.

Lemma read_off buf p s r off n : buf = p ++ s ++ r ->
  Z.of_nat (length p) = off -> Z.of_nat (length s) = n -> read_at buf off n = Ret s.
Proof. intros ->. apply read_at_mid. Qed.

Ltac marshalled c :=
  unfold marshall_VLB_to_buffer; rewrite ?length_app, ?length_le_bytes, <- ?app_assoc;
  first [reflexivity | lia].

Lemma unmarshall_marshall c pad d :
  coder_ok c -> Z.of_nat (length (marshall_VLB_to_buffer c)) < 2 ^ 31 ->
  unmarshall_buffer_VLB (marshall_VLB_to_buffer c ++ pad)
    (Z.of_nat (length (marshall_VLB_to_buffer c))) d = Ret (reset_cur c (m_pCur d)).
Proof.
  intros (H1 & H2 & H3) Hlen. rewrite length_marshall in *. unfold unmarshall_buffer_VLB.
  rewrite i32_small by (unfold is_i32; lia). rewrite decide_False by lia.
  replace (Z.of_nat (length (m_pHits c) + 16) - 16) with (Z.of_nat (length (m_pHits c))) by lia.
  set (n := Z.of_nat (length (m_pHits c))).
  erewrite (read_off _ [] (m_pHits c) _ 0 n), bind_ret by (marshalled c).
  erewrite (read_off _ (m_pHits c) (le_bytes 4 (m_uLastHit c)) _ n 4), bind_ret by (marshalled c).
  erewrite (read_off _ (m_pHits c ++ le_bytes 4 (m_uLastHit c)) (le_bytes 4 (m_iLeft c)) _ (n + 4) 4),
    bind_ret by (marshalled c).
  erewrite (read_off _ (m_pHits c ++ le_bytes 4 (m_uLastHit c) ++ le_bytes 4 (m_iLeft c))
    (le_bytes 4 (m_uLast c)) _ (n + 8) 4), bind_ret by (marshalled c).
  erewrite (read_off _ (m_pHits c ++ le_bytes 4 (m_uLastHit c) ++ le_bytes 4 (m_iLeft c)
    ++ le_bytes 4 (m_uLast c)) (le_bytes 4 (if m_bInit c then 1 else 0)) pad (n + 12) 4), bind_ret
    by (marshalled c).
  rewrite !le_val_bytes4 by (done || by destruct (m_bInit c)).
  unfold reset_cur. by destruct (m_bInit c).
Qed.

Lemma Dump_reset g c p : Dump_VLB g (reset_cur c p) = Dump_VLB g c.
Proof. done. Qed.

Lemma last_Forall (P : Z -> Prop) l d : Forall P l -> P d -> P (List.last l d).
Proof.
  intros Hl Hd. induction Hl as [|x l Hx Hl IH]; [done|]. destruct l; [done|exact IH].
Qed.

Lemma Load_coder_ok l : Forall is_u32 l -> Z.of_nat (length l) < 2 ^ 32 ->
  coder_ok (Load_VLB l new_VLB).
Proof.
  intros Hl Hlen. edestruct (Load_VLB_state l new_VLB) as (_ & E2 & E3 & E4 & _); auto;
    [unfold is_u32; cbn; lia|cbn; lia|].
  unfold coder_ok. rewrite E2, E3, E4. pose proof (dedup_length l 0).
  split; [|split]; [|unfold is_u32; cbn in *; lia|unfold is_u32; cbn; lia].
  apply last_Forall; [by apply dedup_Forall|unfold is_u32; cbn; lia].
Qed.

(** ** Properties *)

(** A posting list (increasing, positive document numbers) that is loaded
    into a coder, marshalled, stored in a larger buffer, unmarshalled and
    dumped comes back unchanged, provided the flag the copy constructor
    leaves uninitialised happens to be false. *)
Lemma VLB_roundtrip l pad cur :
  Sorted.StronglySorted Z.lt (0 :: l) -> Forall is_u32 l -> Z.of_nat (length l) < 2 ^ 32 ->
  let c := Load_VLB l new_VLB in
  let blob := marshall_VLB_to_buffer c in
  Z.of_nat (length blob) < 2 ^ 31 ->
  exists c', unmarshall_buffer_VLB (blob ++ pad) (Z.of_nat (length blob)) new_VLB = Ret c' /\
    Dump_VLB (cur, false) c' = Ret l.
Proof.
  intros Hs Hl Hlen c blob Hsz. exists (reset_cur c (m_pCur new_VLB)). split.
  - apply unmarshall_marshall; [by apply Load_coder_ok|done].
  - rewrite Dump_reset. unfold c. rewrite Dump_Load_eq, dedup_increasing; auto.
    apply Sorted.StronglySorted_inv in Hs as [_ H0]. eapply Forall_weaken; [exact H0|]. lia.
Qed.

(** [Dump_VLB] works on a copy whose flag and pointer are uninitialised:
    when the flag reads as true, dumping any non-empty coder follows a wild
    pointer. *)
Lemma Dump_VLB_uninitialised c : m_iLeft c <> 0 -> Dump_VLB (Wild, true) c = Undef.
Proof.
  intros H. unfold Dump_VLB. cbn [dump_loop]. unfold Unzip. cbn [copy_VLB m_iLeft m_bInit snd fst m_pCur].
  by rewrite (proj2 (Z.eqb_neq _ _) H).
Qed.

End Vlb.
