(* ===== verification/Crypto.v ===== *)
(** * Keys, signatures and digests

    The wrappers of src/executor/Enclave/enclave_key.cpp and
    src/client/utility.hpp around the two cryptographic primitives of the
    program, and the hexadecimal text in which signatures and digests travel.

    The primitives themselves are an interface: [Crypto] names the SHA-256 of
    OpenSSL, which is not part of the sources, and the Ed25519 functions the
    wrappers call.  [CryptoLaws] states what the callers rely on: the sizes of
    the outputs, and that a signature made with the program's secret key
    verifies under its public key. *)

From Stdlib Require Import String.
From S2P Require Import Prelude.

(** ** The interface *)

Class Crypto := {
  SHA256 : str -> str;
  (** secret key, message *)
  Hacl_Ed25519_sign : str -> str -> str;
  (** public key, message, signature *)
  Hacl_Ed25519_verify : str -> str -> str -> bool
}.

(** ** Hard-coded keys *)

Definition skey : str := map z2b [
  0x9d; 0x61; 0xb1; 0x9d; 0xef; 0xfd; 0x5a; 0x60;
  0xba; 0x84; 0x4a; 0xf4; 0x92; 0xec; 0x2c; 0xc4;
  0x44; 0x49; 0xc5; 0x69; 0x7b; 0x32; 0x69; 0x19;
  0x70; 0x3b; 0xac; 0x03; 0x1c; 0xae; 0x7f; 0x60]%Z.

Definition pkey : str := map z2b [
  0xd7; 0x5a; 0x98; 0x01; 0x82; 0xb1; 0x0a; 0xb7;
  0xd5; 0x4b; 0xfe; 0xd3; 0xc9; 0x64; 0x07; 0x3a;
  0x0e; 0xe1; 0x72; 0xf3; 0xda; 0xa6; 0x23; 0x25;
  0xaf; 0x02; 0x1a; 0x68; 0xf7; 0x07; 0x51; 0x1a]%Z.

Class CryptoLaws `{Crypto} : Prop := {
  SHA256_length m : length (SHA256 m) = 32%nat;
  sign_length m : length (Hacl_Ed25519_sign skey m) = 64%nat;
  verify_sign m : Hacl_Ed25519_verify pkey m (Hacl_Ed25519_sign skey m) = true
}.

(** ** Hexadecimal text *)

Definition hex_digit (n : Z) : ascii := (if n <? 10 then z2b (48 + n) else z2b (87 + n))%Z.

(** The conversion %02x of a byte. *)
Definition print_02x (c : ascii) : str := [hex_digit (b2z c / 16); hex_digit (b2z c mod 16)].

Definition print_hex (bytes : str) : str := concat (map print_02x bytes).

(** [n] turns of the loop that reads two characters into [temp] and stores
    [strtol(temp, 0, 16)] in a [uint8_t]; the characters are read from a
    [char *], past whose terminating zero every read is undefined. *)
Fixpoint scan_hex (n : nat) (inputBuffer : str) : outcome str :=
  match n with
  | O => Ret []
  | S n =>
    match inputBuffer with
    | t0 :: t1 :: rest =>
      bytes ← scan_hex n rest;
      Ret (z2b (strtol 16 [t0; t1]) :: bytes)
    | _ => Undef
    end
  end.

Definition ed25519_sig_to_string (sig : str) : str := print_hex (take 64 sig).

Definition ed25519_string_to_sig (inputBuffer : str) : outcome str :=
  scan_hex 64 (inputBuffer ++ [NUL]).

Definition ed25519_key_to_string (key : str) : str := print_hex (take 32 key).

Definition ed25519_string_to_key (inputBuffer : str) : outcome str :=
  scan_hex 32 (inputBuffer ++ [NUL]).

Section Wrappers.
Context `{Crypto}.

Definition ed25519_sign (secret msg : str) : str := Hacl_Ed25519_sign secret msg.

Definition ed25519_verify (public msg signature : str) : bool :=
  Hacl_Ed25519_verify public msg signature.

Definition sha256_string (m : str) : str := print_hex (SHA256 m).

End Wrappers.

(** * Theorems *)

Lemma scan_print_byte c : z2b (strtol 16 (print_02x c)) = c.
Proof. destruct c as [[] [] [] [] [] [] [] []]; vm_compute; reflexivity. Qed.

Lemma scan_print_hex bs rest : scan_hex (length bs) (print_hex bs ++ rest) = Ret bs.
Proof.
  induction bs as [|c bs IH]; [done|].
  change (scan_hex (length (c :: bs)) (print_hex (c :: bs) ++ rest)) with
    (bytes ← scan_hex (length bs) (print_hex bs ++ rest); Ret (z2b (strtol 16 (print_02x c)) :: bytes)).
  by rewrite IH, scan_print_byte.
Qed.

Lemma length_print_hex bs : length (print_hex bs) = (2 * length bs)%nat.
Proof.
  induction bs as [|c bs IH]; [done|].
  change (length (print_hex (c :: bs))) with (S (S (length (print_hex bs)))). rewrite IH. cbn. lia.
Qed.

Lemma sig_text_back sig rest : length sig = 64%nat ->
  ed25519_string_to_sig (ed25519_sig_to_string sig ++ rest) = Ret sig.
Proof.
  intros H. unfold ed25519_string_to_sig, ed25519_sig_to_string.
  rewrite take_ge, <- app_assoc by lia. rewrite <- H. apply scan_print_hex.
Qed.

Lemma sig_text_back0 sig : length sig = 64%nat ->
  ed25519_string_to_sig (ed25519_sig_to_string sig) = Ret sig.
Proof. intros H. rewrite <- (app_nil_r (ed25519_sig_to_string sig)). by apply sig_text_back. Qed.

Lemma key_text_back key rest : length key = 32%nat ->
  ed25519_string_to_key (ed25519_key_to_string key ++ rest) = Ret key.
Proof.
  intros H. unfold ed25519_string_to_key, ed25519_key_to_string.
  rewrite take_ge, <- app_assoc by lia. rewrite <- H. apply scan_print_hex.
Qed.

Lemma scan_hex_short n : forall buf, (length buf < 2 * n)%nat -> scan_hex n buf = Undef.
Proof.
  induction n as [|n IH]; intros buf Hl; [lia|]. destruct buf as [|a [|b buf]]; cbn; try done.
  cbn in Hl. by rewrite IH by lia.
Qed.

(** Hexadecimal text has lower-case letters and digits only. *)
Definition hex_char (c : ascii) : bool :=
  (((48 <=? b2z c) && (b2z c <=? 57)) || ((97 <=? b2z c) && (b2z c <=? 102)))%Z.

Lemma print_hex_chars bs : Forall (fun c => hex_char c = true) (print_hex bs).
Proof.
  induction bs as [|c bs IH]; [constructor|].
  apply Forall_app. split; [|exact IH].
  destruct c as [[] [] [] [] [] [] [] []]; repeat constructor.
Qed.

Lemma print_hex_inj a b : print_hex a = print_hex b -> a = b.
Proof.
  intros E. assert (length a = length b) as Hl.
  { pose proof (f_equal length E) as F. rewrite !length_print_hex in F. lia. }
  pose proof (scan_print_hex a []) as Ha. pose proof (scan_print_hex b []) as Hb.
  rewrite E, Hl in Ha. congruence.
Qed.

Lemma hex_not_nul c : hex_char c = true -> b2z c <> 0%Z.
Proof. unfold hex_char. intros Hc E. by rewrite E in Hc. Qed.

(** ** A concrete instance

    Not a signature scheme, only functions of the right sizes that satisfy
    the laws; the examples instantiate the interface with it. *)

Definition checksum (n : nat) (m : str) : str := le_bytes n (le_val m + Z.of_nat (length m)).

Definition toy_verify (m sig : str) : bool := bool_decide (sig = checksum 64 m).

Definition toy_crypto : Crypto := {|
  SHA256 := checksum 32;
  Hacl_Ed25519_sign _ m := checksum 64 m;
  Hacl_Ed25519_verify _ m sig := toy_verify m sig
|}.

Lemma toy_laws : @CryptoLaws toy_crypto.
Proof.
  split; intros m; [apply length_le_bytes|apply length_le_bytes|].
  apply bool_decide_eq_true. reflexivity.
Qed.

(** ** Properties *)

(** The hexadecimal text of a signature or of a key reads back as the same
    bytes, whatever follows it. *)
Lemma hex_text_roundtrip sig key rest : length sig = 64%nat -> length key = 32%nat ->
  ed25519_string_to_sig (ed25519_sig_to_string sig ++ rest) = Ret sig /\
  ed25519_string_to_key (ed25519_key_to_string key ++ rest) = Ret key.
Proof. split; [by apply sig_text_back|by apply key_text_back]. Qed.

