(* ===== verification/Word.v ===== *)
(** * Machine words of the cryptographic library

    The integer operations of contrib/ed25519/kremlib.h and kremlib_base.h on
    64-bit and 128-bit words, kept as integers with their wrap-around, the
    constant-time comparison masks, and loads and stores of byte arrays. *)

From S2P Require Import Prelude.

Local Open Scope Z_scope.

Definition u64 (z : Z) : Z := z mod 2 ^ 64.
Definition u128 (z : Z) : Z := z mod 2 ^ 128.

(** [x << n] and [~x] on 64 bits. *)
Definition shl64 (x n : Z) : Z := u64 (Z.shiftl x n).
Definition lnot64 (x : Z) : Z := u64 (Z.lnot x).

(** The value of a word as an [int64_t]. *)
Definition s64 (x : Z) : Z := if x <? 2 ^ 63 then x else x - 2 ^ 64.

(** [FStar_UInt128_mul_wide]: both factors are 64 bits wide. *)
Definition mul_wide (x y : Z) : Z := u128 (x * y).
Definition add128 (x y : Z) : Z := u128 (x + y).

Definition FStar_UInt64_eq_mask (x y : Z) : Z :=
  let x := lnot64 (Z.lxor x y) in
  let x := Z.land x (shl64 x 32) in
  let x := Z.land x (shl64 x 16) in
  let x := Z.land x (shl64 x 8) in
  let x := Z.land x (shl64 x 4) in
  let x := Z.land x (shl64 x 2) in
  let x := Z.land x (shl64 x 1) in
  u64 (Z.shiftr (s64 x) 63).

(** The differences are of [int64_t] type; they do not overflow unless the top
    bit is set in [y] alone, and it never is in the constants compared with. *)
Definition FStar_UInt64_gte_mask (x y : Z) : Z :=
  let low63 := lnot64 (u64 (Z.shiftr (s64 (Z.land x (2 ^ 63 - 1)) - s64 (Z.land y (2 ^ 63 - 1))) 63)) in
  let high_bit := lnot64 (u64 (Z.shiftr (s64 (Z.land x (2 ^ 63)) - s64 (Z.land y (2 ^ 63))) 63)) in
  Z.land low63 high_bit.

(** Loads at an offset; bytes behind the array do not occur. *)
Definition load64_le (b : str) (off : nat) : Z := le_val (take 8 (drop off b)).
Definition load32_le (b : str) (off : nat) : Z := le_val (take 4 (drop off b)).
Definition load64_be (b : str) (off : nat) : Z := le_val (rev (take 8 (drop off b))).

Definition store64_le (z : Z) : str := le_bytes 8 z.
Definition store32_le (z : Z) : str := le_bytes 4 z.
Definition store64_be (z : Z) : str := rev (le_bytes 8 z).
Definition store128_be (z : Z) : str := store64_be (u64 (Z.shiftr z 64)) ++ store64_be (u64 z).

(** A store overwrites what is there. *)
Definition put (b : str) (off : nat) (s : str) : str := take off b ++ s ++ drop (off + length s) b.

(** * Theorems *)

Lemma u64_small x : 0 <= x < 2 ^ 64 -> u64 x = x.
Proof. apply Z.mod_small. Qed.

Lemma u128_small x : 0 <= x < 2 ^ 128 -> u128 x = x.
Proof. apply Z.mod_small. Qed.

Lemma u64_range x : 0 <= u64 x < 2 ^ 64.
Proof. apply Z.mod_pos_bound. lia. Qed.

Lemma land_mask x n : 0 <= n -> Z.land x (2 ^ n - 1) = x mod 2 ^ n.
Proof. intros Hn. replace (2 ^ n - 1) with (Z.ones n) by (rewrite Z.ones_equiv; lia). by apply Z.land_ones. Qed.

Lemma testbit_u64 x n : 0 <= n < 64 -> Z.testbit (u64 x) n = Z.testbit x n.
Proof. intros Hn. unfold u64. by rewrite Z.mod_pow2_bits_low by lia. Qed.

Lemma testbit_lnot64 x n : 0 <= n < 64 -> Z.testbit (lnot64 x) n = negb (Z.testbit x n).
Proof. intros Hn. unfold lnot64. by rewrite testbit_u64, Z.lnot_spec by lia. Qed.

(** One round of the mask: bit [n] is the conjunction of two bits. *)
Lemma smear x k n : 0 <= k <= n -> n < 64 ->
  Z.testbit (Z.land x (shl64 x k)) n = Z.testbit x n && Z.testbit x (n - k).
Proof.
  intros Hk Hn. rewrite Z.land_spec. f_equal. unfold shl64. rewrite testbit_u64 by lia.
  by rewrite Z.shiftl_spec by lia.
Qed.

Lemma shl64_range x k : 0 <= shl64 x k < 2 ^ 64.
Proof. apply u64_range. Qed.

Lemma land_range x y n : 0 <= n -> 0 <= y < 2 ^ n -> 0 <= Z.land x y < 2 ^ n.
Proof.
  intros Hn Hy. replace (Z.land x y) with (Z.land x y mod 2 ^ n).
  - apply Z.mod_pos_bound. apply Z.pow_pos_nonneg; lia.
  - rewrite <- Z.land_ones, <- Z.land_assoc by done. f_equal. rewrite Z.land_ones by done. by apply Z.mod_small.
Qed.

Lemma lxor_range x y : 0 <= x < 2 ^ 64 -> 0 <= y < 2 ^ 64 -> 0 <= Z.lxor x y < 2 ^ 64.
Proof.
  intros Hx Hy. assert (0 <= Z.lxor x y) by (apply Z.lxor_nonneg; lia). split; [done|].
  destruct (decide (Z.lxor x y = 0)) as [->|Hn]; [lia|]. apply Z.log2_lt_pow2; [lia|].
  assert (L : forall z, 0 <= z < 2 ^ 64 -> Z.log2 z < 64).
  { intros z Hz. destruct (decide (z = 0)) as [->|]; [done|]. apply Z.log2_lt_pow2; lia. }
  eapply Z.le_lt_trans; [apply Z.log2_lxor; lia|]. apply Z.max_lub_lt; by apply L.
Qed.

(** A word is [~0] when its top bit comes out of the shift, else 0. *)
Lemma sign_mask x : 0 <= x < 2 ^ 64 -> u64 (Z.shiftr (s64 x) 63) = if Z.testbit x 63 then 2 ^ 64 - 1 else 0.
Proof.
  intros Hx. rewrite Z.shiftr_div_pow2, Z.testbit_odd, Z.shiftr_div_pow2 by lia. unfold s64.
  destruct (Z.ltb_spec x (2 ^ 63)) as [Hl|Hl].
  - by rewrite Z.div_small by lia.
  - replace (x / 2 ^ 63) with 1 by (apply (Z.div_unique _ _ _ (x - 2 ^ 63)); lia).
    replace ((x - 2 ^ 64) / 2 ^ 63) with (-1) by (apply (Z.div_unique _ _ _ (x - 2 ^ 63)); lia). done.
Qed.

Lemma all_bits_eq x y : 0 <= x < 2 ^ 64 -> 0 <= y < 2 ^ 64 ->
  (forall n, 0 <= n < 64 -> Z.testbit x n = Z.testbit y n) -> x = y.
Proof.
  intros Hx Hy Hb. rewrite <- (u64_small x), <- (u64_small y) by done. apply Z.bits_inj'. intros n Hn.
  destruct (decide (n < 64)) as [Hl|Hl].
  - rewrite !testbit_u64 by lia. by apply Hb.
  - unfold u64. by rewrite !Z.mod_pow2_bits_high by lia.
Qed.

(** After some rounds a bit of [y] stands for [m] bits of [x], [k] apart. *)
Definition smeared (x k m y : Z) : Prop := forall n, 64 - k <= n < 64 ->
  Z.testbit y n = true <-> forall i, 0 <= i < m -> Z.testbit x (n - i * k) = true.

Lemma smeared_step x k m y : 0 < k <= 32 -> 0 <= m -> smeared x (2 * k) m y ->
  smeared x k (2 * m) (Z.land y (shl64 y k)).
Proof.
  intros Hk Hm Hy n Hn. rewrite smear, andb_true_iff, (Hy n), (Hy (n - k)) by lia. split.
  - intros [H0 H1] i Hi. pose proof (Z.div_mod i 2 ltac:(lia)) as E. pose proof (Z.mod_pos_bound i 2 ltac:(lia)).
    assert (i mod 2 = 0 \/ i mod 2 = 1) as [E1|E1] by lia; rewrite E1 in E.
    + replace (n - i * k) with (n - i / 2 * (2 * k)) by nia. apply H0. lia.
    + replace (n - i * k) with (n - k - i / 2 * (2 * k)) by nia. apply H1. lia.
  - intros H0. split; intros i Hi.
    + replace (n - i * (2 * k)) with (n - 2 * i * k) by lia. apply H0. lia.
    + replace (n - k - i * (2 * k)) with (n - (2 * i + 1) * k) by lia. apply H0. lia.
Qed.

Lemma eq_mask_spec x y : 0 <= x < 2 ^ 64 -> 0 <= y < 2 ^ 64 ->
  FStar_UInt64_eq_mask x y = if decide (x = y) then 2 ^ 64 - 1 else 0.
Proof.
  intros Hx Hy. unfold FStar_UInt64_eq_mask. set (w := lnot64 (Z.lxor x y)). cbv zeta.
  assert (H0 : smeared w 64 1 w).
  { intros n Hn. split; [intros E i Hi; by replace (n - i * 64) with n by lia|].
    intros E. rewrite <- (Z.sub_0_r n). by apply (E 0). }
  apply (smeared_step w 32 1), (smeared_step w 16 2), (smeared_step w 8 4), (smeared_step w 4 8),
    (smeared_step w 2 16), (smeared_step w 1 32) in H0; try lia.
  rewrite sign_mask by (apply land_range; [lia|apply shl64_range]).
  assert (Hw : forall n, 0 <= n < 64 -> Z.testbit w n = eqb (Z.testbit x n) (Z.testbit y n)).
  { intros n Hn. unfold w. rewrite testbit_lnot64, Z.lxor_spec by lia. by do 2 destruct (Z.testbit _ n). }
  destruct (Z.testbit _ 63) eqn:E; case_decide as Heq; try done; exfalso.
  - apply Heq, all_bits_eq; [done|done|]. intros n Hn. apply (H0 63) with (i := 63 - n) in E; [|lia|lia].
    replace (63 - (63 - n) * 1) with n in E by lia. rewrite Hw in E by done. by apply eqb_prop.
  - apply not_true_iff_false in E. apply E, (H0 63); [lia|]. intros i Hi. rewrite Hw by lia. subst y. apply eqb_reflx.
Qed.

Lemma gte_mask_spec x y : 0 <= x < 2 ^ 63 -> 0 <= y < 2 ^ 63 ->
  FStar_UInt64_gte_mask x y = if decide (y <= x) then 2 ^ 64 - 1 else 0.
Proof.
  intros Hx Hy. unfold FStar_UInt64_gte_mask.
  assert (Hl : forall z, 0 <= z < 2 ^ 63 -> s64 (Z.land z (2 ^ 63 - 1)) = z /\ s64 (Z.land z (2 ^ 63)) = 0).
  { intros z Hz. rewrite land_mask, Z.mod_small by lia. unfold s64. rewrite (proj2 (Z.ltb_lt _ _)) by lia. split; [done|].
    replace (Z.land z (2 ^ 63)) with 0; [done|]. symmetry. apply Z.bits_inj'. intros n Hn.
    rewrite Z.land_spec, Z.pow2_bits_eqb, Z.bits_0 by lia. destruct (Z.eqb_spec 63 n) as [<-|]; [|by rewrite andb_false_r].
    rewrite <- (Z.mod_small z (2 ^ 63)), Z.mod_pow2_bits_high by lia. done. }
  destruct (Hl x Hx) as [-> ->], (Hl y Hy) as [-> ->]. change (lnot64 (u64 (Z.shiftr (0 - 0) 63))) with (2 ^ 64 - 1).
  rewrite land_mask by lia. rewrite Z.shiftr_div_pow2 by lia. case_decide.
  - rewrite Z.div_small by lia. done.
  - replace ((x - y) / 2 ^ 63) with (-1) by (apply (Z.div_unique _ _ _ (x - y + 2 ^ 63)); lia). done.
Qed.

(** ** Bytes *)

Lemma le_val_app a b : le_val (a ++ b) = le_val a + 256 ^ Z.of_nat (length a) * le_val b.
Proof.
  induction a as [|c a IH]; [cbn [app le_val length Z.of_nat]; lia|]. cbn [app le_val length].
  rewrite IH, Nat2Z.inj_succ, Z.pow_succ_r by lia. lia.
Qed.

Lemma le_val_split n s : (n <= length s)%nat -> le_val s = le_val (take n s) + 256 ^ Z.of_nat n * le_val (drop n s).
Proof.
  intros Hn. rewrite <- (take_drop n s) at 1. rewrite le_val_app, length_take_le by done. done.
Qed.

Lemma le_val_drop n s : (n <= length s)%nat -> le_val (drop n s) = le_val s / 256 ^ Z.of_nat n.
Proof.
  intros Hn. pose proof (le_val_range (take n s)) as Hr. rewrite length_take_le in Hr by done.
  apply (Z.div_unique_pos _ _ _ (le_val (take n s))); [done|]. rewrite (le_val_split n s Hn) at 1. lia.
Qed.

Lemma le_val_take n s : (n <= length s)%nat -> le_val (take n s) = le_val s mod 256 ^ Z.of_nat n.
Proof.
  intros Hn. pose proof (le_val_range (take n s)) as Hr. rewrite length_take_le in Hr by done.
  apply (Z.mod_unique_pos _ _ (le_val (drop n s))); [done|]. rewrite (le_val_split n s Hn) at 1. lia.
Qed.

Lemma nth_le_val k n : (n < length k)%nat -> b2z (nth n k NUL) = le_val k / 256 ^ Z.of_nat n mod 256.
Proof.
  intros Hn. rewrite <- le_val_drop by lia. destruct (drop n k) as [|c l] eqn:E.
  - apply (f_equal length) in E. rewrite length_drop in E. cbn in E. lia.
  - rewrite <- (take_drop n k), E, app_nth2 by (rewrite length_take; lia). rewrite length_take_le by lia.
    rewrite Nat.sub_diag. cbn [nth le_val]. rewrite Z.mul_comm, Z_mod_plus_full, Z.mod_small; [done|apply b2z_range].
Qed.

Lemma load64_le_spec s off : (off + 8 <= length s)%nat -> load64_le s off = le_val s / 256 ^ Z.of_nat off mod 2 ^ 64.
Proof.
  intros Hl. unfold load64_le. rewrite le_val_take by (rewrite length_drop; lia). by rewrite le_val_drop by lia.
Qed.

Lemma load32_le_spec s off : (off + 4 <= length s)%nat -> load32_le s off = le_val s / 256 ^ Z.of_nat off mod 2 ^ 32.
Proof.
  intros Hl. unfold load32_le. rewrite le_val_take by (rewrite length_drop; lia). by rewrite le_val_drop by lia.
Qed.

Lemma store64_le_val z : 0 <= z < 2 ^ 64 -> le_val (store64_le z) = z.
Proof. intros Hz. unfold store64_le. rewrite le_val_bytes. by apply Z.mod_small. Qed.

(** The [b] bits from bit [a] on, out of a window of [w] bits that starts at
    bit [o]. *)
Lemma window v o w s a b : 0 <= o -> 0 <= s -> 0 <= b -> s + b <= w -> a = o + s ->
  (v / 2 ^ o mod 2 ^ w) / 2 ^ s mod 2 ^ b = v / 2 ^ a mod 2 ^ b.
Proof.
  intros Ho Hs Hb Hw ->. apply Z.bits_inj'. intros n Hn.
  destruct (decide (n < b)) as [Hl|Hl]; [|by rewrite !Z.mod_pow2_bits_high by lia].
  rewrite !Z.mod_pow2_bits_low by lia. rewrite <- !Z.shiftr_div_pow2, !Z.shiftr_spec by lia.
  rewrite Z.mod_pow2_bits_low, Z.shiftr_spec by lia. f_equal. lia.
Qed.

(** [x << n | y] with [y] below [2^n]. *)
Lemma shl_lor x y n : 0 <= n <= 64 -> 0 <= y < 2 ^ n -> Z.lor (shl64 x n) y = 2 ^ n * (x mod 2 ^ (64 - n)) + y.
Proof.
  intros Hn Hy. unfold shl64, u64. rewrite Z.shiftl_mul_pow2 by lia.
  replace (2 ^ 64) with (2 ^ (64 - n) * 2 ^ n) by (rewrite <- Z.pow_add_r by lia; f_equal; lia).
  rewrite Z.mul_mod_distr_r by (apply Z.pow_nonzero; lia). rewrite (Z.mul_comm (x mod _)), Z.mul_comm.
  rewrite <- Z.add_lor_land. replace (Z.land _ y) with 0; [lia|]. symmetry. apply Z.bits_inj'. intros k Hk.
  rewrite Z.land_spec, Z.bits_0, Z.mul_comm. destruct (decide (k < n)).
  - by rewrite Z.mul_comm, Z.mul_pow2_bits_low by lia.
  - rewrite <- (Z.mod_small y (2 ^ n)), (Z.mod_pow2_bits_high y) by lia. apply andb_false_r.
Qed.
