(* ===== verification/Fe25519.v ===== *)
(** * Arithmetic of the field of curve 25519

    contrib/ed25519/Hacl_Ed25519.cpp, Hacl_Bignum_* and Hacl_EC_Format_*: an
    element is five limbs of 51 bits, with room for carries in 64-bit words;
    products are in 128-bit words.  An array that a function updates in place
    is an argument and the result of its definition. *)

From S2P Require Import Prelude Word.

Local Open Scope Z_scope.

Record felem := h64_5 { l0 : Z; l1 : Z; l2 : Z; l3 : Z; l4 : Z }.

Definition M51 : Z := 0x7ffffffffffff.

Definition Hacl_Bignum_Modulo_carry_top (b : felem) : felem :=
  let b4 := l4 b in
  let b0 := l0 b in
  let b4_ := Z.land b4 M51 in
  let b0_ := u64 (b0 + u64 (19 * Z.shiftr b4 51)) in
  h64_5 b0_ (l1 b) (l2 b) (l3 b) b4_.

Definition Hacl_Bignum_Fproduct_copy_from_wide_ (input : felem) : felem :=
  h64_5 (u64 (l0 input)) (u64 (l1 input)) (u64 (l2 input)) (u64 (l3 input)) (u64 (l4 input)).

Definition Hacl_Bignum_Fproduct_sum_scalar_multiplication_ (output input : felem) (s : Z) : felem :=
  h64_5 (add128 (l0 output) (mul_wide (l0 input) s)) (add128 (l1 output) (mul_wide (l1 input) s))
    (add128 (l2 output) (mul_wide (l2 input) s)) (add128 (l3 output) (mul_wide (l3 input) s))
    (add128 (l4 output) (mul_wide (l4 input) s)).

(** One turn of the unrolled loop: the reduced word and the next one. *)
Definition carry_wide_turn (tctr tctrp1 : Z) : Z * Z :=
  let r0 := Z.land (u64 tctr) M51 in
  let c := Z.shiftr tctr 51 in
  (r0, add128 tctrp1 c).

Definition Hacl_Bignum_Fproduct_carry_wide_ (tmp : felem) : felem :=
  let '(t0, t1) := carry_wide_turn (l0 tmp) (l1 tmp) in
  let '(t1, t2) := carry_wide_turn t1 (l2 tmp) in
  let '(t2, t3) := carry_wide_turn t2 (l3 tmp) in
  let '(t3, t4) := carry_wide_turn t3 (l4 tmp) in
  h64_5 t0 t1 t2 t3 t4.

Definition Hacl_Bignum_Fmul_shift_reduce (output : felem) : felem :=
  let tmp := l4 output in
  h64_5 (u64 (19 * tmp)) (l0 output) (l1 output) (l2 output) (l3 output).

Definition Hacl_Bignum_Fmul_mul_shift_reduce_ (output input input21 : felem) : felem :=
  let output := Hacl_Bignum_Fproduct_sum_scalar_multiplication_ output input (l0 input21) in
  let input := Hacl_Bignum_Fmul_shift_reduce input in
  let output := Hacl_Bignum_Fproduct_sum_scalar_multiplication_ output input (l1 input21) in
  let input := Hacl_Bignum_Fmul_shift_reduce input in
  let output := Hacl_Bignum_Fproduct_sum_scalar_multiplication_ output input (l2 input21) in
  let input := Hacl_Bignum_Fmul_shift_reduce input in
  let output := Hacl_Bignum_Fproduct_sum_scalar_multiplication_ output input (l3 input21) in
  let input := Hacl_Bignum_Fmul_shift_reduce input in
  Hacl_Bignum_Fproduct_sum_scalar_multiplication_ output input (l4 input21).

(** The carry out of the top word and the copy back to 64-bit words, which
    both products end with. *)
Definition carry_wide_top (t : felem) : felem :=
  let b4 := l4 t in
  let b0 := l0 t in
  let b4_ := Z.land b4 M51 in
  let b0_ := add128 b0 (mul_wide 19 (u64 (Z.shiftr b4 51))) in
  h64_5 b0_ (l1 t) (l2 t) (l3 t) b4_.

Definition carry_0_to_1 (output : felem) : felem :=
  let i0 := l0 output in
  let i1 := l1 output in
  h64_5 (Z.land i0 M51) (u64 (i1 + Z.shiftr i0 51)) (l2 output) (l3 output) (l4 output).

Definition Hacl_Bignum_Fmul_fmul (input input21 : felem) : felem :=
  let t := Hacl_Bignum_Fmul_mul_shift_reduce_ (h64_5 0 0 0 0 0) input input21 in
  let t := Hacl_Bignum_Fproduct_carry_wide_ t in
  let t := carry_wide_top t in
  carry_0_to_1 (Hacl_Bignum_Fproduct_copy_from_wide_ t).

Definition Hacl_Bignum_Fsquare_fsquare__ (output : felem) : felem :=
  let '(h64_5 r0 r1 r2 r3 r4) := output in
  let d0 := u64 (r0 * 2) in
  let d1 := u64 (r1 * 2) in
  let d2 := u64 (u64 (r2 * 2) * 19) in
  let d419 := u64 (r4 * 19) in
  let d4 := u64 (d419 * 2) in
  let s0 := add128 (add128 (mul_wide r0 r0) (mul_wide d4 r1)) (mul_wide d2 r3) in
  let s1 := add128 (add128 (mul_wide d0 r1) (mul_wide d4 r2)) (mul_wide (u64 (r3 * 19)) r3) in
  let s2 := add128 (add128 (mul_wide d0 r2) (mul_wide r1 r1)) (mul_wide d4 r3) in
  let s3 := add128 (add128 (mul_wide d0 r3) (mul_wide d1 r2)) (mul_wide r4 d419) in
  let s4 := add128 (add128 (mul_wide d0 r4) (mul_wide d1 r3)) (mul_wide r2 r2) in
  h64_5 s0 s1 s2 s3 s4.

Definition Hacl_Bignum_Fsquare_fsquare_ (output : felem) : felem :=
  let tmp := Hacl_Bignum_Fsquare_fsquare__ output in
  let tmp := Hacl_Bignum_Fproduct_carry_wide_ tmp in
  let tmp := carry_wide_top tmp in
  carry_0_to_1 (Hacl_Bignum_Fproduct_copy_from_wide_ tmp).

(** [count1] squarings, at least one. *)
Fixpoint fsquare_loop (n : nat) (input : felem) : felem :=
  match n with O => input | S n => fsquare_loop n (Hacl_Bignum_Fsquare_fsquare_ input) end.

Definition Hacl_Bignum_Fsquare_fsquare_times (input : felem) (count1 : nat) : felem :=
  fsquare_loop (count1 - 1) (Hacl_Bignum_Fsquare_fsquare_ input).

(** The common part of the two powers: [(t0, b, a)] before the last lines, with
    [t0 = z^(2^250 - 2^50)] and the like. *)
Definition crecip_chain (z : felem) : felem * felem * felem :=
  let a := Hacl_Bignum_Fsquare_fsquare_times z 1 in
  let t0 := Hacl_Bignum_Fsquare_fsquare_times a 2 in
  let b := Hacl_Bignum_Fmul_fmul t0 z in
  let a := Hacl_Bignum_Fmul_fmul b a in
  let t0 := Hacl_Bignum_Fsquare_fsquare_times a 1 in
  let b := Hacl_Bignum_Fmul_fmul t0 b in
  let t0 := Hacl_Bignum_Fsquare_fsquare_times b 5 in
  let b := Hacl_Bignum_Fmul_fmul t0 b in
  let t0 := Hacl_Bignum_Fsquare_fsquare_times b 10 in
  let c := Hacl_Bignum_Fmul_fmul t0 b in
  let t0 := Hacl_Bignum_Fsquare_fsquare_times c 20 in
  let t0 := Hacl_Bignum_Fmul_fmul t0 c in
  let t0 := Hacl_Bignum_Fsquare_fsquare_times t0 10 in
  let b := Hacl_Bignum_Fmul_fmul t0 b in
  let t0 := Hacl_Bignum_Fsquare_fsquare_times b 50 in
  (t0, b, a).

Definition crecip_end (t0 b : felem) : felem :=
  let c := Hacl_Bignum_Fmul_fmul t0 b in
  let t0 := Hacl_Bignum_Fsquare_fsquare_times c 100 in
  let t0 := Hacl_Bignum_Fmul_fmul t0 c in
  let t0 := Hacl_Bignum_Fsquare_fsquare_times t0 50 in
  Hacl_Bignum_Fmul_fmul t0 b.

Definition Hacl_Bignum_Crecip_crecip (z : felem) : felem :=
  let '(t0, b, a) := crecip_chain z in
  let t0 := crecip_end t0 b in
  let t0 := Hacl_Bignum_Fsquare_fsquare_times t0 5 in
  Hacl_Bignum_Fmul_fmul t0 a.

Definition Hacl_Bignum_Crecip_crecip_ (z : felem) : felem :=
  let '(t0, b, _) := crecip_chain z in
  let a := Hacl_Bignum_Fsquare_fsquare_times z 1 in
  let t0 := crecip_end t0 b in
  let t0 := Hacl_Bignum_Fsquare_fsquare_times t0 2 in
  Hacl_Bignum_Fmul_fmul t0 a.

(** [a] receives [a + b]. *)
Definition Hacl_Bignum_fsum (a b : felem) : felem :=
  h64_5 (u64 (l0 a + l0 b)) (u64 (l1 a + l1 b)) (u64 (l2 a + l2 b)) (u64 (l3 a + l3 b)) (u64 (l4 a + l4 b)).

(** [a] receives [b - a], computed as [b + 8 p - a]. *)
Definition Hacl_Bignum_fdifference (a b : felem) : felem :=
  let tmp := h64_5 (u64 (l0 b + 0x3fffffffffff68)) (u64 (l1 b + 0x3ffffffffffff8)) (u64 (l2 b + 0x3ffffffffffff8))
    (u64 (l3 b + 0x3ffffffffffff8)) (u64 (l4 b + 0x3ffffffffffff8)) in
  h64_5 (u64 (l0 tmp - l0 a)) (u64 (l1 tmp - l1 a)) (u64 (l2 tmp - l2 a)) (u64 (l3 tmp - l3 a)) (u64 (l4 tmp - l4 a)).

Definition Hacl_EC_Format_fexpand (input : str) : felem :=
  let i0 := load64_le input 0 in
  let i1 := load64_le input 6 in
  let i2 := load64_le input 12 in
  let i3 := load64_le input 19 in
  let i4 := load64_le input 24 in
  h64_5 (Z.land i0 M51) (Z.land (Z.shiftr i1 3) M51) (Z.land (Z.shiftr i2 6) M51) (Z.land (Z.shiftr i3 1) M51)
    (Z.land (Z.shiftr i4 12) M51).

(** The body of both carry passes and the beginning of [reduce_513]. *)
Definition fcontract_carry_pass (input : felem) : felem :=
  let '(h64_5 t0 t1 t2 t3 t4) := input in
  let t1_ := u64 (t1 + Z.shiftr t0 51) in
  let t0_ := Z.land t0 M51 in
  let t2_ := u64 (t2 + Z.shiftr t1_ 51) in
  let t1__ := Z.land t1_ M51 in
  let t3_ := u64 (t3 + Z.shiftr t2_ 51) in
  let t2__ := Z.land t2_ M51 in
  let t4_ := u64 (t4 + Z.shiftr t3_ 51) in
  let t3__ := Z.land t3_ M51 in
  h64_5 t0_ t1__ t2__ t3__ t4_.

Definition Hacl_EC_Format_fcontract_first_carry_pass (input : felem) : felem := fcontract_carry_pass input.

Definition Hacl_EC_Format_fcontract_first_carry_full (input : felem) : felem :=
  Hacl_Bignum_Modulo_carry_top (Hacl_EC_Format_fcontract_first_carry_pass input).

Definition Hacl_EC_Format_fcontract_second_carry_pass (input : felem) : felem := fcontract_carry_pass input.

Definition Hacl_EC_Format_fcontract_second_carry_full (input : felem) : felem :=
  carry_0_to_1 (Hacl_Bignum_Modulo_carry_top (Hacl_EC_Format_fcontract_second_carry_pass input)).

Definition Hacl_EC_Format_fcontract_trim (input : felem) : felem :=
  let '(h64_5 a0 a1 a2 a3 a4) := input in
  let mask0 := FStar_UInt64_gte_mask a0 0x7ffffffffffed in
  let mask1 := FStar_UInt64_eq_mask a1 M51 in
  let mask2 := FStar_UInt64_eq_mask a2 M51 in
  let mask3 := FStar_UInt64_eq_mask a3 M51 in
  let mask4 := FStar_UInt64_eq_mask a4 M51 in
  let mask := Z.land (Z.land (Z.land (Z.land mask0 mask1) mask2) mask3) mask4 in
  h64_5 (u64 (a0 - Z.land 0x7ffffffffffed mask)) (u64 (a1 - Z.land M51 mask)) (u64 (a2 - Z.land M51 mask))
    (u64 (a3 - Z.land M51 mask)) (u64 (a4 - Z.land M51 mask)).

Definition Hacl_EC_Format_reduce (out : felem) : felem :=
  Hacl_EC_Format_fcontract_trim (Hacl_EC_Format_fcontract_second_carry_full (Hacl_EC_Format_fcontract_first_carry_full out)).

Definition Hacl_Bignum25519_reduce_513 (a : felem) : felem :=
  carry_0_to_1 (Hacl_Bignum_Modulo_carry_top (fcontract_carry_pass a)).

Definition Hacl_Bignum25519_fdifference_reduced (a b : felem) : felem :=
  Hacl_Bignum25519_reduce_513 (Hacl_Bignum_fdifference a b).

Definition Hacl_Bignum25519_times_2 (a : felem) : felem :=
  h64_5 (u64 (2 * l0 a)) (u64 (2 * l1 a)) (u64 (2 * l2 a)) (u64 (2 * l3 a)) (u64 (2 * l4 a)).

Definition d1 : felem :=
  h64_5 0x00034dca135978a3 0x0001a8283b156ebd 0x0005e7a26001c029 0x000739c663a03cbb 0x00052036cee2b6ff.

Definition Hacl_Bignum25519_times_d (a : felem) : felem := Hacl_Bignum_Fmul_fmul d1 a.

Definition d2 : felem :=
  h64_5 0x00069b9426b2f159 0x00035050762add7a 0x0003cf44c0038052 0x0006738cc7407977 0x0002406d9dc56dff.

Definition Hacl_Bignum25519_times_2d (a : felem) : felem := Hacl_Bignum_Fmul_fmul a d2.

Definition Hacl_Impl_Store51_store_51_ (input : felem) : str :=
  let '(h64_5 t0 t1 t2 t3 t4) := input in
  let o0 := Z.lor (shl64 t1 51) t0 in
  let o1 := Z.lor (shl64 t2 38) (Z.shiftr t1 13) in
  let o2 := Z.lor (shl64 t3 25) (Z.shiftr t2 26) in
  let o3 := Z.lor (shl64 t4 12) (Z.shiftr t3 39) in
  store64_le o0 ++ store64_le o1 ++ store64_le o2 ++ store64_le o3.

(** * Theorems *)

Definition p25519 : Z := 2 ^ 255 - 19.

(** ** Congruence modulo the prime *)

Definition eqp (x y : Z) : Prop := (p25519 | x - y).
Infix "≡p" := eqp (at level 70, no associativity) : Z_scope.

Lemma eqp_of_multiple x y k : x = y + k * p25519 -> x ≡p y.
Proof. intros ->. exists k. lia. Qed.

Lemma eqp_mod x y : x ≡p y <-> x mod p25519 = y mod p25519.
Proof.
  split.
  - intros [k E]. replace x with (y + k * p25519) by lia. apply Z_mod_plus_full.
  - intros E. exists (x / p25519 - y / p25519).
    rewrite (Z.div_mod x p25519), (Z.div_mod y p25519) at 1 by done. lia.
Qed.

#[export] Instance eqp_equiv : Equivalence eqp.
Proof.
  split.
  - intros x. exists 0. lia.
  - intros x y [k E]. exists (- k). lia.
  - intros x y z [k E] [k' E']. exists (k + k'). lia.
Qed.

#[export] Instance eqp_add : Proper (eqp ==> eqp ==> eqp) Z.add.
Proof. intros x x' [k Hx] y y' [k' Hy]. exists (k + k'). lia. Qed.

#[export] Instance eqp_sub : Proper (eqp ==> eqp ==> eqp) Z.sub.
Proof. intros x x' [k Hx] y y' [k' Hy]. exists (k - k'). lia. Qed.

#[export] Instance eqp_opp : Proper (eqp ==> eqp) Z.opp.
Proof. intros x x' [k Hx]. exists (- k). lia. Qed.

#[export] Instance eqp_mul : Proper (eqp ==> eqp ==> eqp) Z.mul.
Proof.
  intros x x' [k Hx] y y' [k' Hy]. exists (k * y + x' * k').
  replace (x * y - x' * y') with ((x - x') * y + x' * (y - y')) by lia. rewrite Hx, Hy. lia.
Qed.

#[export] Instance eqp_pow : Proper (eqp ==> eq ==> eqp) Z.pow.
Proof.
  intros x x' Hx n ? <-. destruct (Z.neg_nonneg_cases n) as [Hn|Hn]; [by rewrite !Z.pow_neg_r|].
  revert n Hn. apply natlike_ind; [reflexivity|]. intros n Hn IH. rewrite !Z.pow_succ_r by done. by rewrite IH, Hx.
Qed.

(** ** Limbs *)

Definition fval (f : felem) : Z := l0 f + 2 ^ 51 * l1 f + 2 ^ 102 * l2 f + 2 ^ 153 * l3 f + 2 ^ 204 * l4 f.

(** Every limb is below [B]. *)
Definition below (B : Z) (f : felem) : Prop :=
  0 <= l0 f < B /\ 0 <= l1 f < B /\ 0 <= l2 f < B /\ 0 <= l3 f < B /\ 0 <= l4 f < B.

Lemma below_mono A B f : A <= B -> below A f -> below B f.
Proof. unfold below. lia. Qed.

(** What a product leaves: the limbs are reduced but for a carry. *)
Definition B513 : Z := 2 ^ 51 + 2 ^ 13.

Lemma land_M51 x : Z.land x M51 = x mod 2 ^ 51.
Proof. change M51 with (2 ^ 51 - 1). by apply land_mask. Qed.

Lemma shiftr_51 x : Z.shiftr x 51 = x / 2 ^ 51.
Proof. by apply Z.shiftr_div_pow2. Qed.

Lemma div_mod_51 x : x = 2 ^ 51 * (x / 2 ^ 51) + x mod 2 ^ 51 /\ 0 <= x mod 2 ^ 51 < 2 ^ 51.
Proof. split; [by apply Z.div_mod|by apply Z.mod_pos_bound]. Qed.

(** Quotient and remainder by [2^51] as variables with their linear facts. *)
Ltac split_51 x :=
  let q := fresh "q" in let r := fresh "r" in let E := fresh "E" in let R := fresh "R" in
  destruct (div_mod_51 x) as [E R]; set (q := x / 2 ^ 51) in *; set (r := x mod 2 ^ 51) in *; clearbody q r.

Lemma u64_mod_51 x : u64 x mod 2 ^ 51 = x mod 2 ^ 51.
Proof. unfold u64. rewrite <- Znumtheory.Zmod_div_mod; [done|done|done|]. by exists (2 ^ 13). Qed.

Lemma carry_wide_turn_eq x y : 0 <= x < 2 ^ 127 -> 0 <= y < 2 ^ 127 ->
  carry_wide_turn x y = (x mod 2 ^ 51, y + x / 2 ^ 51).
Proof.
  intros Hx Hy. unfold carry_wide_turn, add128. rewrite land_M51, u64_mod_51, shiftr_51, u128_small; [done|].
  split_51 x. lia.
Qed.

(** ** Products *)

(** From the sums of products to reduced limbs. *)
Definition wide_finish (t : felem) : felem :=
  carry_0_to_1 (Hacl_Bignum_Fproduct_copy_from_wide_ (carry_wide_top (Hacl_Bignum_Fproduct_carry_wide_ t))).

Definition wide_ok (t : felem) : Prop :=
  0 <= l0 t < 2 ^ 116 /\ 0 <= l1 t < 2 ^ 116 /\ 0 <= l2 t < 2 ^ 116 /\ 0 <= l3 t < 2 ^ 116 /\ 0 <= l4 t < 5 * 2 ^ 108.

Lemma carry_wide_spec t : wide_ok t ->
  exists r0 r1 r2 r3 t4, Hacl_Bignum_Fproduct_carry_wide_ t = h64_5 r0 r1 r2 r3 t4 /\
    0 <= r0 < 2 ^ 51 /\ 0 <= r1 < 2 ^ 51 /\ 0 <= r2 < 2 ^ 51 /\ 0 <= r3 < 2 ^ 51 /\ 0 <= t4 < 5 * 2 ^ 108 + 2 ^ 66 /\
    fval (h64_5 r0 r1 r2 r3 t4) = fval t.
Proof.
  destruct t as [t0 t1 t2 t3 t4]. intros Ht. unfold wide_ok in Ht. cbn [l0 l1 l2 l3 l4] in Ht.
  destruct Ht as (H0 & H1 & H2 & H3 & H4). unfold Hacl_Bignum_Fproduct_carry_wide_. cbn [l0 l1 l2 l3 l4].
  rewrite (carry_wide_turn_eq t0) by lia. split_51 t0.
  rewrite (carry_wide_turn_eq (t1 + _)) by lia. split_51 (t1 + q).
  rewrite (carry_wide_turn_eq (t2 + _)) by lia. split_51 (t2 + q0).
  rewrite (carry_wide_turn_eq (t3 + _)) by lia. split_51 (t3 + q1).
  eexists _, _, _, _, _. split; [reflexivity|]. unfold fval. cbn [l0 l1 l2 l3 l4]. lia.
Qed.

Lemma wide_finish_spec t : wide_ok t -> fval (wide_finish t) ≡p fval t /\ below B513 (wide_finish t).
Proof.
  intros Ht. unfold wide_finish. destruct (carry_wide_spec t Ht) as (r0 & r1 & r2 & r3 & t4 & -> & H0 & H1 & H2 & H3 & H4 & <-).
  unfold carry_wide_top, Hacl_Bignum_Fproduct_copy_from_wide_, carry_0_to_1, add128, mul_wide. cbn [l0 l1 l2 l3 l4].
  rewrite (land_M51 t4), (shiftr_51 t4). split_51 t4.
  rewrite (u64_small q), (u128_small (19 * q)), (u128_small (r0 + 19 * q)) by lia.
  rewrite (u64_small (r0 + 19 * q)), (u64_small r1), (u64_small r2), (u64_small r3), (u64_small r) by lia.
  rewrite land_M51, shiftr_51. split_51 (r0 + 19 * q). rewrite u64_small by lia. split.
  - apply (eqp_of_multiple _ _ (- q)). unfold fval, p25519. cbn [l0 l1 l2 l3 l4]. lia.
  - unfold below, B513. cbn [l0 l1 l2 l3 l4]. lia.
Qed.

Lemma prod_bound x y A B M : 0 <= x < A -> 0 <= y < B -> A * B <= M -> 0 <= x * y < M.
Proof. intros Hx Hy HM. split; [nia|]. eapply Z.lt_le_trans; [|exact HM]. apply Z.mul_lt_mono_nonneg; lia. Qed.

(** The columns of the product, folded at [2^255 = 19]. *)
Definition columns (a b : felem) : felem :=
  let '(h64_5 a0 a1 a2 a3 a4) := a in
  let '(h64_5 b0 b1 b2 b3 b4) := b in
  h64_5 (a0 * b0 + 19 * (a4 * b1 + a3 * b2 + a2 * b3 + a1 * b4)) (a1 * b0 + a0 * b1 + 19 * (a4 * b2 + a3 * b3 + a2 * b4))
    (a2 * b0 + a1 * b1 + a0 * b2 + 19 * (a4 * b3 + a3 * b4)) (a3 * b0 + a2 * b1 + a1 * b2 + a0 * b3 + 19 * (a4 * b4))
    (a4 * b0 + a3 * b1 + a2 * b2 + a1 * b3 + a0 * b4).

Lemma columns_value a b : fval (columns a b) ≡p fval a * fval b.
Proof.
  destruct a as [a0 a1 a2 a3 a4], b as [b0 b1 b2 b3 b4]. unfold fval, columns. cbn [l0 l1 l2 l3 l4].
  eapply (eqp_of_multiple _ _ (- (a4 * b1 + a3 * b2 + a2 * b3 + a1 * b4 + 2 ^ 51 * (a4 * b2 + a3 * b3 + a2 * b4)
    + 2 ^ 102 * (a4 * b3 + a3 * b4) + 2 ^ 153 * (a4 * b4)))). unfold p25519. ring.
Qed.

(** A column is a sum of five products, some of them times 19. *)
Lemma col0 p q r s t : 0 <= p < 2 ^ 108 -> 0 <= q < 2 ^ 108 -> 0 <= r < 2 ^ 108 -> 0 <= s < 2 ^ 108 -> 0 <= t < 2 ^ 108 ->
  0 <= p + 19 * (q + r + s + t) < 2 ^ 116 /\ 0 <= p + q + 19 * (r + s + t) < 2 ^ 116 /\
  0 <= p + q + r + 19 * (s + t) < 2 ^ 116 /\ 0 <= p + q + r + s + 19 * t < 2 ^ 116 /\ 0 <= p + q + r + s + t < 5 * 2 ^ 108.
Proof. lia. Qed.

Lemma columns_bound a b A B : below A a -> below B b -> A * B <= 2 ^ 108 -> wide_ok (columns a b).
Proof.
  destruct a as [a0 a1 a2 a3 a4], b as [b0 b1 b2 b3 b4]. unfold below, wide_ok, columns. cbn [l0 l1 l2 l3 l4].
  intros (A0 & A1 & A2 & A3 & A4) (B0 & B1 & B2 & B3 & B4) HM.
  assert (P : forall x y, 0 <= x < A -> 0 <= y < B -> 0 <= x * y < 2 ^ 108) by (intros; by eapply prod_bound).
  split; [|split; [|split; [|split]]].
  - refine (proj1 (col0 _ _ _ _ _ _ _ _ _ _)); by apply P.
  - refine (proj1 (proj2 (col0 _ _ _ _ _ _ _ _ _ _))); by apply P.
  - refine (proj1 (proj2 (proj2 (col0 _ _ _ _ _ _ _ _ _ _)))); by apply P.
  - refine (proj1 (proj2 (proj2 (proj2 (col0 _ _ _ _ _ _ _ _ _ _))))); by apply P.
  - refine (proj2 (proj2 (proj2 (proj2 (col0 _ _ _ _ _ _ _ _ _ _))))); by apply P.
Qed.

(** One scalar multiplication that does not overflow. *)
Lemma sum_scalar_eq K t x s : below K t -> K <= 2 ^ 120 ->
  0 <= l0 x * s < 19 * 2 ^ 108 -> 0 <= l1 x * s < 19 * 2 ^ 108 -> 0 <= l2 x * s < 19 * 2 ^ 108 ->
  0 <= l3 x * s < 19 * 2 ^ 108 -> 0 <= l4 x * s < 19 * 2 ^ 108 ->
  let t' := h64_5 (l0 t + l0 x * s) (l1 t + l1 x * s) (l2 t + l2 x * s) (l3 t + l3 x * s) (l4 t + l4 x * s) in
  Hacl_Bignum_Fproduct_sum_scalar_multiplication_ t x s = t' /\ below (K + 19 * 2 ^ 108) t'.
Proof.
  destruct t as [t0 t1 t2 t3 t4], x as [x0 x1 x2 x3 x4]. unfold below. cbn [l0 l1 l2 l3 l4].
  intros (T0 & T1 & T2 & T3 & T4) HK X0 X1 X2 X3 X4.
  unfold Hacl_Bignum_Fproduct_sum_scalar_multiplication_, add128, mul_wide. cbn [l0 l1 l2 l3 l4].
  revert X0 X1 X2 X3 X4. generalize (x0 * s) (x1 * s) (x2 * s) (x3 * s) (x4 * s). intros y0 y1 y2 y3 y4 X0 X1 X2 X3 X4.
  rewrite (u128_small y0), (u128_small y1), (u128_small y2), (u128_small y3), (u128_small y4) by lia.
  rewrite !(u128_small (_ + _)) by lia. split; [done|lia].
Qed.

Lemma shift_reduce_eq x : 0 <= l4 x < 2 ^ 59 ->
  Hacl_Bignum_Fmul_shift_reduce x = h64_5 (19 * l4 x) (l0 x) (l1 x) (l2 x) (l3 x).
Proof. intros Hx. unfold Hacl_Bignum_Fmul_shift_reduce. by rewrite u64_small by lia. Qed.

Lemma mul_shift_reduce_eq a b A B : below A a -> below B b -> A <= 2 ^ 59 -> A * B <= 2 ^ 108 ->
  Hacl_Bignum_Fmul_mul_shift_reduce_ (h64_5 0 0 0 0 0) a b = columns a b.
Proof.
  destruct a as [a0 a1 a2 a3 a4], b as [b0 b1 b2 b3 b4]. unfold below. cbn [l0 l1 l2 l3 l4].
  intros (A0 & A1 & A2 & A3 & A4) (B0 & B1 & B2 & B3 & B4) HA HM.
  assert (P : forall x y, 0 <= x < A -> 0 <= y < B -> 0 <= x * y < 2 ^ 108) by (intros; by eapply prod_bound).
  assert (P1 : forall x y, 0 <= x < A -> 0 <= y < B -> 0 <= x * y < 19 * 2 ^ 108)
    by (intros x y Hx Hy; specialize (P x y Hx Hy); lia).
  assert (Q : forall x y, 0 <= x < A -> 0 <= y < B -> 0 <= 19 * x * y < 19 * 2 ^ 108).
  { intros x y Hx Hy. specialize (P x y Hx Hy). rewrite <- Z.mul_assoc. lia. }
  unfold Hacl_Bignum_Fmul_mul_shift_reduce_. cbn [l0 l1 l2 l3 l4].
  rewrite (shift_reduce_eq (h64_5 a0 a1 a2 a3 a4)) by (cbn [l4]; lia). cbn [l0 l1 l2 l3 l4].
  rewrite (shift_reduce_eq (h64_5 _ a0 a1 a2 a3)) by (cbn [l4]; lia). cbn [l0 l1 l2 l3 l4].
  rewrite (shift_reduce_eq (h64_5 _ _ a0 a1 a2)) by (cbn [l4]; lia). cbn [l0 l1 l2 l3 l4].
  rewrite (shift_reduce_eq (h64_5 _ _ _ a0 a1)) by (cbn [l4]; lia). cbn [l0 l1 l2 l3 l4].
  assert (H0 : below 1 (h64_5 0 0 0 0 0)) by (unfold below; cbn; lia).
  do 5 (let E := fresh in match goal with Hb : below ?K ?t |- context [Hacl_Bignum_Fproduct_sum_scalar_multiplication_ ?t ?x ?s] =>
    destruct (sum_scalar_eq K t x s Hb) as [E ?]; [lia|cbn [l0 l1 l2 l3 l4]; first [by apply P1|by apply Q]..|];
    rewrite E; clear E Hb end).
  cbn [l0 l1 l2 l3 l4 columns]. f_equal; ring.
Qed.

(** The product of two elements, and its bound. *)
Lemma fmul_spec a b A B : below A a -> below B b -> A <= 2 ^ 59 -> A * B <= 2 ^ 108 ->
  fval (Hacl_Bignum_Fmul_fmul a b) ≡p fval a * fval b /\ below B513 (Hacl_Bignum_Fmul_fmul a b).
Proof.
  intros Ha Hb HA HM. unfold Hacl_Bignum_Fmul_fmul. rewrite (mul_shift_reduce_eq a b A B) by done.
  fold (wide_finish (columns a b)). destruct (wide_finish_spec (columns a b)) as [E Hl]; [by eapply columns_bound|].
  split; [|done]. by rewrite E, columns_value.
Qed.

(** Sums of three products in 128 bits. *)
Lemma add3_eq x y z : 0 <= x < 2 ^ 120 -> 0 <= y < 2 ^ 120 -> 0 <= z < 2 ^ 120 ->
  add128 (add128 (u128 x) (u128 y)) (u128 z) = x + y + z.
Proof. intros Hx Hy Hz. unfold add128. rewrite (u128_small x), (u128_small y), (u128_small z), (u128_small (x + y)) by lia. apply u128_small. lia. Qed.

Lemma fsquare_columns r : below (2 ^ 54) r -> Hacl_Bignum_Fsquare_fsquare__ r = columns r r.
Proof.
  destruct r as [r0 r1 r2 r3 r4]. unfold below. cbn [l0 l1 l2 l3 l4]. intros (R0 & R1 & R2 & R3 & R4).
  unfold Hacl_Bignum_Fsquare_fsquare__, mul_wide.
  rewrite !(u64_small (_ * 2)), !(u64_small (_ * 19)) by (rewrite ?u64_small; lia).
  assert (P : forall x y, 0 <= x < 2 ^ 54 -> 0 <= y < 2 ^ 54 -> 0 <= x * y < 2 ^ 120 /\ 0 <= x * 2 * y < 2 ^ 120 /\
    0 <= x * 19 * y < 2 ^ 120 /\ 0 <= x * 19 * 2 * y < 2 ^ 120 /\ 0 <= x * 2 * 19 * y < 2 ^ 120 /\ 0 <= x * (y * 19) < 2 ^ 120).
  { intros x y Hx Hy. pose proof (prod_bound x y _ _ (2 ^ 108) Hx Hy ltac:(lia)).
    replace (x * 2 * y) with (2 * (x * y)) by ring. replace (x * 19 * y) with (19 * (x * y)) by ring.
    replace (x * 19 * 2 * y) with (38 * (x * y)) by ring. replace (x * 2 * 19 * y) with (38 * (x * y)) by ring.
    replace (x * (y * 19)) with (19 * (x * y)) by ring. generalize dependent (x * y). lia. }
  rewrite !add3_eq by (apply P; done). cbn [columns]. f_equal; ring.
Qed.

Lemma fsquare_spec a : below (2 ^ 54) a ->
  fval (Hacl_Bignum_Fsquare_fsquare_ a) ≡p fval a * fval a /\ below B513 (Hacl_Bignum_Fsquare_fsquare_ a).
Proof.
  intros Ha. unfold Hacl_Bignum_Fsquare_fsquare_. rewrite fsquare_columns by done.
  fold (wide_finish (columns a a)). destruct (wide_finish_spec (columns a a)) as [E Hl]; [by eapply columns_bound|].
  split; [|done]. by rewrite E, columns_value.
Qed.

(** ** Powers *)

(** [f] holds [x^e]. *)
Definition holds_power (x e : Z) (f : felem) : Prop := fval f ≡p x ^ e /\ below B513 f.

Lemma power_mul x e e' f g : 0 <= e -> 0 <= e' -> holds_power x e f -> holds_power x e' g ->
  holds_power x (e + e') (Hacl_Bignum_Fmul_fmul f g).
Proof.
  intros He He' [Ef Bf] [Eg Bg]. destruct (fmul_spec f g _ _ Bf Bg) as [E Hb]; [done|done|]. split; [|done].
  by rewrite E, Ef, Eg, Z.pow_add_r.
Qed.

Lemma power_square x e f : 0 <= e -> fval f ≡p x ^ e -> below (2 ^ 54) f -> holds_power x (2 * e) (Hacl_Bignum_Fsquare_fsquare_ f).
Proof.
  intros He Ef Bf. destruct (fsquare_spec f Bf) as [E Hb]. split; [|done].
  rewrite E, Ef, <- Z.pow_add_r by done. by replace (2 * e) with (e + e) by lia.
Qed.

Lemma B513_small f : below B513 f -> below (2 ^ 54) f.
Proof. by apply below_mono. Qed.

Lemma power_square_loop x n : forall e f, 0 <= e -> holds_power x e f ->
  holds_power x (2 ^ Z.of_nat n * e) (fsquare_loop n f).
Proof.
  induction n as [|n IH]; intros e f He Hf; [by rewrite Z.mul_1_l|]. cbn [fsquare_loop].
  rewrite Nat2Z.inj_succ, Z.pow_succ_r by lia. replace (2 * 2 ^ Z.of_nat n * e) with (2 ^ Z.of_nat n * (2 * e)) by lia.
  apply IH; [lia|]. destruct Hf as [Ef Bf]. apply power_square; [done|done|]. by apply B513_small.
Qed.

Lemma power_square_times x e f n : (0 < n)%nat -> 0 <= e -> fval f ≡p x ^ e -> below (2 ^ 54) f ->
  holds_power x (2 ^ Z.of_nat n * e) (Hacl_Bignum_Fsquare_fsquare_times f n).
Proof.
  intros Hn He Ef Bf. unfold Hacl_Bignum_Fsquare_fsquare_times.
  replace (2 ^ Z.of_nat n * e) with (2 ^ Z.of_nat (n - 1) * (2 * e)).
  - apply power_square_loop; [lia|]. by apply power_square.
  - replace (Z.of_nat n) with (Z.succ (Z.of_nat (n - 1))) by lia. rewrite Z.pow_succ_r by lia. lia.
Qed.

Lemma power_times x e f n : (0 < n)%nat -> 0 <= e -> holds_power x e f ->
  holds_power x (2 ^ Z.of_nat n * e) (Hacl_Bignum_Fsquare_fsquare_times f n).
Proof. intros Hn He [Ef Bf]. apply power_square_times; auto using B513_small. Qed.

Lemma power_mul_z z e f : 0 <= e -> below (2 ^ 54) z -> holds_power (fval z) e f ->
  holds_power (fval z) (e + 1) (Hacl_Bignum_Fmul_fmul f z).
Proof.
  intros He Hz [Ef Bf]. destruct (fmul_spec f z _ _ Bf Hz) as [E Hb]; [done|done|]. split; [|done].
  rewrite E, Ef, Z.pow_add_r, Z.pow_1_r by lia. done.
Qed.

(** The lines of the chains, with the exponents as numbers. *)
Ltac sq_times x e f n := exact (power_times x e f n ltac:(lia) ltac:(lia) ltac:(assumption)).
Ltac times x e e' f g := exact (power_mul x e e' f g ltac:(lia) ltac:(lia) ltac:(assumption) ltac:(assumption)).

Lemma crecip_chain_spec z : below (2 ^ 54) z -> let '(t0, b, a) := crecip_chain z in
  holds_power (fval z) (2 ^ 100 - 2 ^ 50) t0 /\ holds_power (fval z) (2 ^ 50 - 1) b /\ holds_power (fval z) 11 a.
Proof.
  intros Hz. unfold crecip_chain.
  assert (Z1 : fval z ≡p fval z ^ 1) by (by rewrite Z.pow_1_r).
  set (a1 := Hacl_Bignum_Fsquare_fsquare_times z 1).
  assert (holds_power (fval z) 2 a1) by exact (power_square_times (fval z) 1 z 1 ltac:(lia) ltac:(lia) Z1 Hz).
  set (t1 := Hacl_Bignum_Fsquare_fsquare_times a1 2). assert (holds_power (fval z) 8 t1) by sq_times (fval z) 2 a1 2%nat.
  set (b1 := Hacl_Bignum_Fmul_fmul t1 z).
  assert (holds_power (fval z) 9 b1) by exact (power_mul_z z 8 t1 ltac:(lia) Hz ltac:(assumption)).
  set (a2 := Hacl_Bignum_Fmul_fmul b1 a1). assert (holds_power (fval z) 11 a2) by times (fval z) 9 2 b1 a1.
  set (t2 := Hacl_Bignum_Fsquare_fsquare_times a2 1). assert (holds_power (fval z) 22 t2) by sq_times (fval z) 11 a2 1%nat.
  set (b2 := Hacl_Bignum_Fmul_fmul t2 b1). assert (holds_power (fval z) (2 ^ 5 - 1) b2) by times (fval z) 22 9 t2 b1.
  set (t3 := Hacl_Bignum_Fsquare_fsquare_times b2 5).
  assert (holds_power (fval z) (2 ^ 10 - 2 ^ 5) t3) by sq_times (fval z) (2 ^ 5 - 1) b2 5%nat.
  set (b3 := Hacl_Bignum_Fmul_fmul t3 b2).
  assert (holds_power (fval z) (2 ^ 10 - 1) b3) by times (fval z) (2 ^ 10 - 2 ^ 5) (2 ^ 5 - 1) t3 b2.
  set (t4 := Hacl_Bignum_Fsquare_fsquare_times b3 10).
  assert (holds_power (fval z) (2 ^ 20 - 2 ^ 10) t4) by sq_times (fval z) (2 ^ 10 - 1) b3 10%nat.
  set (c := Hacl_Bignum_Fmul_fmul t4 b3).
  assert (holds_power (fval z) (2 ^ 20 - 1) c) by times (fval z) (2 ^ 20 - 2 ^ 10) (2 ^ 10 - 1) t4 b3.
  set (t5 := Hacl_Bignum_Fsquare_fsquare_times c 20).
  assert (holds_power (fval z) (2 ^ 40 - 2 ^ 20) t5) by sq_times (fval z) (2 ^ 20 - 1) c 20%nat.
  set (t6 := Hacl_Bignum_Fmul_fmul t5 c).
  assert (holds_power (fval z) (2 ^ 40 - 1) t6) by times (fval z) (2 ^ 40 - 2 ^ 20) (2 ^ 20 - 1) t5 c.
  set (t7 := Hacl_Bignum_Fsquare_fsquare_times t6 10).
  assert (holds_power (fval z) (2 ^ 50 - 2 ^ 10) t7) by sq_times (fval z) (2 ^ 40 - 1) t6 10%nat.
  set (b4 := Hacl_Bignum_Fmul_fmul t7 b3).
  assert (holds_power (fval z) (2 ^ 50 - 1) b4) by times (fval z) (2 ^ 50 - 2 ^ 10) (2 ^ 10 - 1) t7 b3.
  split_and!; [|assumption..]. sq_times (fval z) (2 ^ 50 - 1) b4 50%nat.
Qed.

Lemma crecip_end_spec x t0 b : holds_power x (2 ^ 100 - 2 ^ 50) t0 -> holds_power x (2 ^ 50 - 1) b ->
  holds_power x (2 ^ 250 - 1) (crecip_end t0 b).
Proof.
  intros H0 Hb. unfold crecip_end. set (c := Hacl_Bignum_Fmul_fmul t0 b).
  assert (holds_power x (2 ^ 100 - 1) c) by times x (2 ^ 100 - 2 ^ 50) (2 ^ 50 - 1) t0 b.
  set (t1 := Hacl_Bignum_Fsquare_fsquare_times c 100).
  assert (holds_power x (2 ^ 200 - 2 ^ 100) t1) by sq_times x (2 ^ 100 - 1) c 100%nat.
  set (t2 := Hacl_Bignum_Fmul_fmul t1 c). assert (holds_power x (2 ^ 200 - 1) t2) by times x (2 ^ 200 - 2 ^ 100) (2 ^ 100 - 1) t1 c.
  set (t3 := Hacl_Bignum_Fsquare_fsquare_times t2 50).
  assert (holds_power x (2 ^ 250 - 2 ^ 50) t3) by sq_times x (2 ^ 200 - 1) t2 50%nat.
  times x (2 ^ 250 - 2 ^ 50) (2 ^ 50 - 1) t3 b.
Qed.

(** The inverse, [z^(p - 2)], and the power for square roots,
    [z^((p + 3) / 8)]. *)
Lemma crecip_spec z : below (2 ^ 54) z -> holds_power (fval z) (p25519 - 2) (Hacl_Bignum_Crecip_crecip z).
Proof.
  intros Hz. unfold Hacl_Bignum_Crecip_crecip. pose proof (crecip_chain_spec z Hz) as Hc.
  destruct (crecip_chain z) as [[t0 b] a]. destruct Hc as (Ht & Hb & Ha).
  pose proof (crecip_end_spec _ _ _ Ht Hb). set (t1 := crecip_end t0 b) in *.
  set (t2 := Hacl_Bignum_Fsquare_fsquare_times t1 5).
  assert (holds_power (fval z) (2 ^ 255 - 2 ^ 5) t2) by sq_times (fval z) (2 ^ 250 - 1) t1 5%nat.
  times (fval z) (2 ^ 255 - 2 ^ 5) 11 t2 a.
Qed.

Lemma crecip__spec z : below (2 ^ 54) z -> holds_power (fval z) ((p25519 + 3) / 8) (Hacl_Bignum_Crecip_crecip_ z).
Proof.
  intros Hz. unfold Hacl_Bignum_Crecip_crecip_. pose proof (crecip_chain_spec z Hz) as Hc.
  destruct (crecip_chain z) as [[t0 b] a]. destruct Hc as (Ht & Hb & _).
  set (a1 := Hacl_Bignum_Fsquare_fsquare_times z 1).
  assert (holds_power (fval z) 2 a1).
  { exact (power_square_times (fval z) 1 z 1 ltac:(lia) ltac:(lia) ltac:(by rewrite Z.pow_1_r) Hz). }
  pose proof (crecip_end_spec _ _ _ Ht Hb). set (t1 := crecip_end t0 b) in *.
  set (t2 := Hacl_Bignum_Fsquare_fsquare_times t1 2).
  assert (holds_power (fval z) (2 ^ 252 - 2 ^ 2) t2) by sq_times (fval z) (2 ^ 250 - 1) t1 2%nat.
  times (fval z) (2 ^ 252 - 2 ^ 2) 2 t2 a1.
Qed.

(** ** Sums, differences and carries *)

Ltac limbs := cbn [l0 l1 l2 l3 l4] in *.

Lemma fsum_spec a b A B : below A a -> below B b -> A + B <= 2 ^ 64 ->
  fval (Hacl_Bignum_fsum a b) = fval a + fval b /\ below (A + B) (Hacl_Bignum_fsum a b).
Proof.
  destruct a as [a0 a1 a2 a3 a4], b as [b0 b1 b2 b3 b4]. unfold below, Hacl_Bignum_fsum, fval. limbs. intros Ha Hb HB.
  rewrite !u64_small by lia. lia.
Qed.

Lemma times_2_spec a A : below A a -> A <= 2 ^ 63 ->
  fval (Hacl_Bignum25519_times_2 a) = 2 * fval a /\ below (2 * A) (Hacl_Bignum25519_times_2 a).
Proof.
  destruct a as [a0 a1 a2 a3 a4]. unfold below, Hacl_Bignum25519_times_2, fval. limbs. intros Ha HA.
  rewrite !u64_small by lia. lia.
Qed.

Lemma fdifference_spec a b A B : below A a -> below B b -> A <= 2 ^ 54 - 152 -> B <= 2 ^ 63 ->
  fval (Hacl_Bignum_fdifference a b) ≡p fval b - fval a /\ below (2 ^ 54 + B) (Hacl_Bignum_fdifference a b).
Proof.
  destruct a as [a0 a1 a2 a3 a4], b as [b0 b1 b2 b3 b4]. unfold below, Hacl_Bignum_fdifference, fval. limbs. intros Ha Hb HA HB.
  rewrite !(u64_small (_ + _)) by lia. rewrite !(u64_small (_ - _)) by lia. split; [|lia].
  apply (eqp_of_multiple _ _ 8). unfold p25519. lia.
Qed.

(** The carries from limb 0 to limb 4. *)
Lemma carry_pass_spec a : below (2 ^ 63) a ->
  exists r0 r1 r2 r3 t4, fcontract_carry_pass a = h64_5 r0 r1 r2 r3 t4 /\
    0 <= r0 < 2 ^ 51 /\ 0 <= r1 < 2 ^ 51 /\ 0 <= r2 < 2 ^ 51 /\ 0 <= r3 < 2 ^ 51 /\ l4 a <= t4 < 2 ^ 63 + 2 ^ 13 /\
    fval (h64_5 r0 r1 r2 r3 t4) = fval a.
Proof.
  destruct a as [a0 a1 a2 a3 a4]. unfold below. limbs. intros (H0 & H1 & H2 & H3 & H4). unfold fcontract_carry_pass.
  rewrite (land_M51 a0), (shiftr_51 a0). split_51 a0. rewrite (u64_small (a1 + q)) by lia.
  rewrite (land_M51 (a1 + q)), (shiftr_51 (a1 + q)). split_51 (a1 + q). rewrite (u64_small (a2 + q0)) by lia.
  rewrite (land_M51 (a2 + q0)), (shiftr_51 (a2 + q0)). split_51 (a2 + q0). rewrite (u64_small (a3 + q1)) by lia.
  rewrite (land_M51 (a3 + q1)), (shiftr_51 (a3 + q1)). split_51 (a3 + q1). rewrite (u64_small (a4 + q2)) by lia.
  eexists _, _, _, _, _. split; [reflexivity|]. unfold fval. limbs. lia.
Qed.

Lemma carry_top_spec r0 r1 r2 r3 t4 : 0 <= r0 < 2 ^ 52 -> 0 <= t4 < 2 ^ 64 ->
  Hacl_Bignum_Modulo_carry_top (h64_5 r0 r1 r2 r3 t4) = h64_5 (r0 + 19 * (t4 / 2 ^ 51)) r1 r2 r3 (t4 mod 2 ^ 51).
Proof.
  intros H0 H4. unfold Hacl_Bignum_Modulo_carry_top. limbs. rewrite land_M51, shiftr_51. split_51 t4.
  by rewrite !u64_small by (rewrite ?u64_small; lia).
Qed.

Lemma reduce_513_spec a : below (2 ^ 63) a ->
  fval (Hacl_Bignum25519_reduce_513 a) ≡p fval a /\ below B513 (Hacl_Bignum25519_reduce_513 a).
Proof.
  intros Ha. unfold Hacl_Bignum25519_reduce_513.
  destruct (carry_pass_spec a Ha) as (r0 & r1 & r2 & r3 & t4 & -> & H0 & H1 & H2 & H3 & H4 & <-).
  assert (0 <= l4 a) by (by destruct Ha as (_ & _ & _ & _ & ? & _)).
  rewrite carry_top_spec by lia. unfold carry_0_to_1. limbs. split_51 t4.
  rewrite land_M51, shiftr_51. split_51 (r0 + 19 * q). rewrite u64_small by lia. split.
  - apply (eqp_of_multiple _ _ (- q)). unfold fval, p25519. limbs. lia.
  - unfold below, B513. limbs. lia.
Qed.

Lemma fdifference_reduced_spec a b A B : below A a -> below B b -> A <= 2 ^ 54 - 152 -> B <= 2 ^ 62 ->
  fval (Hacl_Bignum25519_fdifference_reduced a b) ≡p fval b - fval a /\ below B513 (Hacl_Bignum25519_fdifference_reduced a b).
Proof.
  intros Ha Hb HA HB. destruct (fdifference_spec a b A B Ha Hb HA ltac:(lia)) as [E Hd].
  destruct (reduce_513_spec (Hacl_Bignum_fdifference a b)) as [E' Hr]; [eapply below_mono; [|exact Hd]; lia|].
  split; [|done]. unfold Hacl_Bignum25519_fdifference_reduced. by rewrite E', E.
Qed.

(** ** The canonical form *)

(** All limbs reduced. *)
Definition tight (f : felem) : Prop := below (2 ^ 51) f.

Lemma tight_value f : tight f -> 0 <= fval f < 2 ^ 255.
Proof. destruct f. unfold tight, below, fval. limbs. lia. Qed.

Lemma first_carry_full_spec a : below (2 ^ 63) a ->
  exists r0 r1 r2 r3 r4, Hacl_EC_Format_fcontract_first_carry_full a = h64_5 r0 r1 r2 r3 r4 /\
    0 <= r0 < 2 ^ 51 + 2 ^ 18 /\ 0 <= r1 < 2 ^ 51 /\ 0 <= r2 < 2 ^ 51 /\ 0 <= r3 < 2 ^ 51 /\ 0 <= r4 < 2 ^ 51 /\
    fval (h64_5 r0 r1 r2 r3 r4) ≡p fval a.
Proof.
  intros Ha. unfold Hacl_EC_Format_fcontract_first_carry_full, Hacl_EC_Format_fcontract_first_carry_pass.
  destruct (carry_pass_spec a Ha) as (r0 & r1 & r2 & r3 & t4 & -> & H0 & H1 & H2 & H3 & H4 & <-).
  assert (0 <= l4 a) by (by destruct Ha as (_ & _ & _ & _ & ? & _)).
  rewrite carry_top_spec by lia. split_51 t4. eexists _, _, _, _, _. split; [reflexivity|].
  split_and!; try lia. apply (eqp_of_multiple _ _ (- q)). unfold fval, p25519. limbs. lia.
Qed.

(** After the second pass no limb has a carry left: had one reached the top,
    the low limbs would be almost zero. *)
Lemma second_carry_full_spec r0 r1 r2 r3 r4 :
  0 <= r0 < 2 ^ 51 + 2 ^ 18 -> 0 <= r1 < 2 ^ 51 -> 0 <= r2 < 2 ^ 51 -> 0 <= r3 < 2 ^ 51 -> 0 <= r4 < 2 ^ 51 ->
  let f := Hacl_EC_Format_fcontract_second_carry_full (h64_5 r0 r1 r2 r3 r4) in
  tight f /\ fval f ≡p fval (h64_5 r0 r1 r2 r3 r4).
Proof.
  intros H0 H1 H2 H3 H4. unfold Hacl_EC_Format_fcontract_second_carry_full, Hacl_EC_Format_fcontract_second_carry_pass.
  destruct (carry_pass_spec (h64_5 r0 r1 r2 r3 r4)) as (s0 & s1 & s2 & s3 & t4 & -> & S0 & S1 & S2 & S3 & S4 & E).
  { unfold below. limbs. lia. }
  unfold fval in E. limbs. rewrite carry_top_spec by lia. unfold carry_0_to_1. limbs.
  assert (Ht : t4 < 2 ^ 51 \/ t4 = 2 ^ 51 /\ s0 < 2 ^ 18) by lia.
  assert (Hq : t4 / 2 ^ 51 = 0 /\ t4 mod 2 ^ 51 = t4 /\ t4 < 2 ^ 51 \/ t4 / 2 ^ 51 = 1 /\ t4 mod 2 ^ 51 = 0 /\ s0 < 2 ^ 18).
  { destruct Ht as [Ht|[-> Hs]]; [left|by right]. split; [apply Z.div_small; lia|]. split; [apply Z.mod_small; lia|done]. }
  set (q := t4 / 2 ^ 51) in *. set (r := t4 mod 2 ^ 51) in *. assert (Eq : t4 = 2 ^ 51 * q + r) by (by apply Z.div_mod).
  clearbody q r. rewrite land_M51, shiftr_51, (Z.mod_small (s0 + _)), (Z.div_small (s0 + _)), Z.add_0_r, u64_small by lia.
  split; [unfold tight, below; limbs; lia|]. apply (eqp_of_multiple _ _ (- q)). unfold fval, p25519. limbs. lia.
Qed.

Lemma trim_spec f : tight f -> tight (Hacl_EC_Format_fcontract_trim f) /\
  fval (Hacl_EC_Format_fcontract_trim f) = fval f mod p25519.
Proof.
  destruct f as [a0 a1 a2 a3 a4]. unfold tight, below. limbs. intros (A0 & A1 & A2 & A3 & A4).
  unfold Hacl_EC_Format_fcontract_trim. rewrite gte_mask_spec, !eq_mask_spec by (unfold M51; lia).
  set (full := 2 ^ 64 - 1).
  set (mask := Z.land _ (if decide (a4 = M51) then full else 0)).
  assert (Hm : mask = if decide (0x7ffffffffffed <= a0 /\ a1 = M51 /\ a2 = M51 /\ a3 = M51 /\ a4 = M51) then full else 0).
  { unfold mask. destruct (decide (0x7ffffffffffed <= a0)), (decide (a1 = M51)), (decide (a2 = M51)), (decide (a3 = M51)),
      (decide (a4 = M51)), (decide (_ /\ _)); try reflexivity; tauto. }
  rewrite Hm. clearbody mask. clear Hm mask. case_decide as Hc.
  - change (Z.land 0x7ffffffffffed full) with 0x7ffffffffffed. change (Z.land M51 full) with M51.
    destruct Hc as (H0 & -> & -> & -> & ->). rewrite !u64_small by (unfold M51; lia). unfold fval, M51 in *. limbs. split; [lia|].
    apply (Z.mod_unique_pos _ _ 1); unfold p25519; lia.
  - change (Z.land 0x7ffffffffffed 0) with 0. change (Z.land M51 0) with 0. rewrite !Z.sub_0_r, !u64_small by lia.
    split; [by limbs|]. symmetry. apply Z.mod_small. unfold fval, p25519, M51 in *. limbs. lia.
Qed.

(** [reduce] yields the canonical limbs of the value modulo the prime. *)
Lemma reduce_spec a : below (2 ^ 63) a ->
  tight (Hacl_EC_Format_reduce a) /\ fval (Hacl_EC_Format_reduce a) = fval a mod p25519.
Proof.
  intros Ha. unfold Hacl_EC_Format_reduce.
  destruct (first_carry_full_spec a Ha) as (r0 & r1 & r2 & r3 & r4 & -> & H0 & H1 & H2 & H3 & H4 & E).
  destruct (second_carry_full_spec r0 r1 r2 r3 r4 H0 H1 H2 H3 H4) as [Ht E'].
  destruct (trim_spec _ Ht) as [Ht' E'']. split; [done|]. rewrite E''. apply eqp_mod. by rewrite E'.
Qed.

Lemma split_inj r s x y : 0 <= r < 2 ^ 51 -> 0 <= s < 2 ^ 51 -> r + 2 ^ 51 * x = s + 2 ^ 51 * y -> r = s /\ x = y.
Proof. lia. Qed.

(** Canonical limbs are determined by their value. *)
Lemma tight_inj f g : tight f -> tight g -> fval f = fval g -> f = g.
Proof.
  destruct f as [a0 a1 a2 a3 a4], g as [b0 b1 b2 b3 b4]. unfold tight, below, fval. limbs.
  intros (A0 & A1 & A2 & A3 & A4) (B0 & B1 & B2 & B3 & B4) E.
  assert (E' : a0 + 2 ^ 51 * (a1 + 2 ^ 51 * (a2 + 2 ^ 51 * (a3 + 2 ^ 51 * a4))) =
    b0 + 2 ^ 51 * (b1 + 2 ^ 51 * (b2 + 2 ^ 51 * (b3 + 2 ^ 51 * b4)))) by lia.
  clear E. do 3 (apply split_inj in E' as [-> E']; [|done|done]). by apply split_inj in E' as [-> ->].
Qed.

(** ** Bytes *)

Lemma digits_51 v : let d i := v / 2 ^ i mod 2 ^ 51 in
  v mod 2 ^ 255 = d 0 + 2 ^ 51 * d 51 + 2 ^ 102 * d 102 + 2 ^ 153 * d 153 + 2 ^ 204 * d 204.
Proof.
  cbv zeta. assert (S : forall k n k' n', 0 <= k -> 0 <= n -> k' = k + 51 -> n' = 51 + n ->
    v / 2 ^ k mod 2 ^ n' = v / 2 ^ k mod 2 ^ 51 + 2 ^ 51 * (v / 2 ^ k' mod 2 ^ n)).
  { intros k n k' n' Hk Hn -> ->. rewrite Z.pow_add_r, Z.rem_mul_r by (lia || (apply Z.pow_pos_nonneg; lia)).
    rewrite Z.div_div by lia. by rewrite <- Z.pow_add_r by lia. }
  rewrite <- (Z.div_1_r v) at 1. change (v / 1) with (v / 2 ^ 0).
  rewrite (S 0 204 51 255), (S 51 153 102 204), (S 102 102 153 153), (S 153 51 204 102) by lia. lia.
Qed.

Lemma fexpand_spec s : length s = 32%nat ->
  tight (Hacl_EC_Format_fexpand s) /\ fval (Hacl_EC_Format_fexpand s) = le_val s mod 2 ^ 255.
Proof.
  intros Hs. unfold Hacl_EC_Format_fexpand. rewrite !load64_le_spec by lia. set (v := le_val s).
  rewrite !land_M51, !Z.shiftr_div_pow2 by lia.
  replace ((v / 256 ^ Z.of_nat 0 mod 2 ^ 64) mod 2 ^ 51) with (v / 2 ^ 0 mod 2 ^ 51)
    by (rewrite <- (window v 0 64 0 0 51) by lia; by rewrite Z.div_1_r).
  change (256 ^ Z.of_nat 6) with (2 ^ 48). rewrite (window v 48 64 3 51 51) by lia.
  change (256 ^ Z.of_nat 12) with (2 ^ 96). rewrite (window v 96 64 6 102 51) by lia.
  change (256 ^ Z.of_nat 19) with (2 ^ 152). rewrite (window v 152 64 1 153 51) by lia.
  change (256 ^ Z.of_nat 24) with (2 ^ 192). rewrite (window v 192 64 12 204 51) by lia. split.
  - unfold tight, below. limbs. split_and!; apply Z.mod_pos_bound; lia.
  - rewrite digits_51. reflexivity.
Qed.

Lemma store_51_spec f : tight f -> length (Hacl_Impl_Store51_store_51_ f) = 32%nat /\ le_val (Hacl_Impl_Store51_store_51_ f) = fval f.
Proof.
  destruct f as [t0 t1 t2 t3 t4]. unfold tight, below. limbs. intros (T0 & T1 & T2 & T3 & T4).
  unfold Hacl_Impl_Store51_store_51_. split; [done|]. rewrite !Z.shiftr_div_pow2 by lia.
  assert (Q : forall t n, 0 <= t < 2 ^ 51 -> 0 <= n <= 51 -> 0 <= t / 2 ^ n < 2 ^ (51 - n)).
  { intros t n Ht Hn. assert (0 < 2 ^ n) by (apply Z.pow_pos_nonneg; lia).
    split; [apply Z.div_pos; lia|]. apply Z.div_lt_upper_bound; [done|].
    rewrite <- Z.pow_add_r by lia. replace (n + (51 - n)) with 51 by lia. lia. }
  pose proof (Q t1 13 T1 ltac:(lia)). pose proof (Q t2 26 T2 ltac:(lia)). pose proof (Q t3 39 T3 ltac:(lia)).
  rewrite (shl_lor t1 t0 51), (shl_lor t2 (t1 / 2 ^ 13) 38), (shl_lor t3 (t2 / 2 ^ 26) 25), (shl_lor t4 (t3 / 2 ^ 39) 12) by lia.
  change (64 - 51) with 13. change (64 - 38) with 26. change (64 - 25) with 39. rewrite (Z.mod_small t4) by lia.
  pose proof (Z.div_mod t1 (2 ^ 13) ltac:(lia)). pose proof (Z.div_mod t2 (2 ^ 26) ltac:(lia)).
  pose proof (Z.div_mod t3 (2 ^ 39) ltac:(lia)). pose proof (Z.mod_pos_bound t1 (2 ^ 13) ltac:(lia)).
  pose proof (Z.mod_pos_bound t2 (2 ^ 26) ltac:(lia)). pose proof (Z.mod_pos_bound t3 (2 ^ 39) ltac:(lia)).
  rewrite !le_val_app, !store64_le_val by lia. change (256 ^ Z.of_nat (length (store64_le _))) with (2 ^ 64).
  unfold fval. limbs. lia.
Qed.
