(* ===== verification/Edwards.v ===== *)
(** * The group of a twisted Edwards curve

    The mathematics under contrib/ed25519: over a field in which -1 is a square
    and [d] is not, the points of [y^2 - x^2 = 1 + d x^2 y^2] form a commutative
    group under the complete addition law.  Points are pairs of coordinates;
    the laws ask for their arguments to be on the curve.  Multiples and their
    laws, and the uniqueness of the abscissa up to sign, follow. *)

From Stdlib Require Import Field_theory Field_tac Ring Arith Lia.
From Stdlib Require Import NsatzTactic Cring Integral_domain.

Declare Scope curve_scope.

Section Edwards.
Context {F : Type} (F0 F1 : F) (add mul sub : F -> F -> F) (opp : F -> F) (div : F -> F -> F) (inv : F -> F).

Local Notation "0" := F0 : curve_scope.
Local Notation "1" := F1 : curve_scope.
Local Infix "+" := add : curve_scope.
Local Infix "*" := mul : curve_scope.
Local Infix "-" := sub : curve_scope.
Local Infix "/" := div : curve_scope.
Local Notation "- x" := (opp x) : curve_scope.
Local Open Scope curve_scope.

Hypothesis Fth : field_theory 0 1 add mul sub opp div inv (@eq F).
Hypothesis Fdec : forall x y : F, {x = y} + {x <> y}.
Variable d i : F.
Hypothesis i_square : i * i = - (1).
Hypothesis d_nonsquare : forall s, s * s <> d.
Hypothesis two_nonzero : 1 + 1 <> 0.

Definition on_curve (P : F * F) : Prop :=
  let (x, y) := P in y * y - x * x = 1 + d * x * x * y * y.

Definition ed_zero : F * F := (0, 1).

Definition ed_opp (P : F * F) : F * F := (- fst P, snd P).

Definition ed_add (P Q : F * F) : F * F :=
  let (x1, y1) := P in
  let (x2, y2) := Q in
  ((x1 * y2 + x2 * y1) / (1 + d * x1 * x2 * y1 * y2), (y1 * y2 + x1 * x2) / (1 - d * x1 * x2 * y1 * y2)).

Fixpoint ed_mul (n : nat) (P : F * F) : F * F :=
  match n with O => ed_zero | S n => ed_add P (ed_mul n P) end.

(** Extended coordinates [(X : Y : Z : T)] of the point [(x, y)]. *)
Definition represents (X Y Z T : F) (P : F * F) : Prop :=
  Z <> 0 /\ X = fst P * Z /\ Y = snd P * Z /\ T = fst P * snd P * Z.

(** * Theorems *)

Add Field curve_field : Fth.

Instance curve_ops : @Ring_ops F 0 1 add mul sub opp (@eq F) := {}.

Instance curve_ring : Ring (Ro := curve_ops).
Proof.
  constructor; try (intros; cbv; ring); try (intros x y E x' y' E'; cbv in *; congruence).
  - exact _.
  - intros x y E. cbv in *. congruence.
Defined.

Instance curve_cring : Cring (Rr := curve_ring).
Proof. intros x y. cbv. ring. Defined.

Lemma ed_zero_divisors x y : x * y = 0 -> x = 0 \/ y = 0.
Proof.
  destruct (Fdec x 0) as [|n]; [now left|]. intros E. right.
  replace y with (inv x * (x * y)) by (now field). rewrite E. ring.
Qed.

Instance curve_domain : Integral_domain (Rcr := curve_cring).
Proof.
  constructor; [exact ed_zero_divisors|]. cbv. exact (F_1_neq_0 Fth).
Defined.

Lemma ed_zero_on : on_curve ed_zero.
Proof. unfold on_curve, ed_zero. ring. Qed.

Lemma ed_opp_on P : on_curve P -> on_curve (ed_opp P).
Proof. destruct P as [x y]. unfold on_curve, ed_opp. cbn. intros E. nsatz. Qed.

Lemma ed_square_zero x : x * x = 0 -> x = 0.
Proof. intros E. now destruct (ed_zero_divisors _ _ E). Qed.

(** Were the product of the denominators zero, [d] would be a square. *)
Lemma denominators x1 y1 x2 y2 : on_curve (x1, y1) -> on_curve (x2, y2) ->
  d * x1 * x2 * y1 * y2 * (d * x1 * x2 * y1 * y2) <> 1.
Proof.
  unfold on_curve. intros E1 E2. set (k := d * x1 * x2 * y1 * y2). intros Ek.
  assert (Hn : k <> 0) by (intros Hk; rewrite Hk in Ek; apply (F_1_neq_0 Fth); rewrite <- Ek; ring).
  assert (Q : forall e, e * e = 1 -> i * x2 + e * y2 <> 0 -> False).
  { intros e He Hz. set (s := i * x1 + e * k * y1). set (t := (i * x2 + e * y2) * x1 * y1).
    assert (Est : s * s = d * (t * t)).
    { unfold s, t. subst k. nsatz. }
    assert (Ht : t <> 0).
    { unfold t. intros Et. apply ed_zero_divisors in Et as [Et|Et]; [apply ed_zero_divisors in Et as [Et|Et]|];
        [now apply Hz|apply Hn; unfold k; rewrite Et; ring|apply Hn; unfold k; rewrite Et; ring]. }
    apply (d_nonsquare (s / t)). transitivity (s * s / (t * t)); [now field|]. rewrite Est. now field. }
  destruct (Fdec (i * x2 + 1 * y2) 0) as [Ha|Ha]; [|apply (Q 1); [ring|easy]].
  destruct (Fdec (i * x2 + - (1) * y2) 0) as [Hb|Hb]; [|apply (Q (- (1))); [ring|easy]].
  assert (Hy : (1 + 1) * y2 = 0) by nsatz.
  apply ed_zero_divisors in Hy as [Hy|Hy]; [now apply two_nonzero|]. apply Hn. unfold k. rewrite Hy. ring.
Qed.

Lemma denominators_nonzero x1 y1 x2 y2 : on_curve (x1, y1) -> on_curve (x2, y2) ->
  1 + d * x1 * x2 * y1 * y2 <> 0 /\ 1 - d * x1 * x2 * y1 * y2 <> 0.
Proof.
  intros E1 E2. pose proof (denominators x1 y1 x2 y2 E1 E2) as Hk.
  split; intros E; apply Hk; nsatz.
Qed.

Ltac nonzero_denominators E1 E2 :=
  let A := fresh "A" in let B := fresh "B" in
  destruct (denominators_nonzero _ _ _ _ E1 E2) as [A B].

Lemma ed_add_on P Q : on_curve P -> on_curve Q -> on_curve (ed_add P Q).
Proof.
  destruct P as [x1 y1], Q as [x2 y2]. intros E1 E2. nonzero_denominators E1 E2. unfold on_curve, ed_add in *.
  field_simplify_eq; [nsatz|easy].
Qed.

Lemma ed_add_comm P Q : ed_add P Q = ed_add Q P.
Proof.
  destruct P as [x1 y1], Q as [x2 y2]. unfold ed_add.
  replace (d * x2 * x1 * y2 * y1) with (d * x1 * x2 * y1 * y2) by ring. f_equal; f_equal; ring.
Qed.

Lemma ed_add_zero P : ed_add ed_zero P = P.
Proof.
  destruct P as [x y]. unfold ed_add, ed_zero. f_equal; field; intros E; apply (F_1_neq_0 Fth); rewrite <- E; ring.
Qed.

Lemma ed_add_opp P : on_curve P -> ed_add P (ed_opp P) = ed_zero.
Proof.
  destruct P as [x y]. intros E. pose proof (ed_opp_on _ E) as E'. unfold ed_opp in *. cbn [fst snd] in *.
  nonzero_denominators E E'. unfold on_curve, ed_add, ed_zero in *. f_equal; field_simplify_eq; try easy; nsatz.
Qed.

Lemma ed_div_eq a b c e : b <> 0 -> e <> 0 -> a * e = c * b -> a / b = c / e.
Proof. intros Hb He E. transitivity (a * e / (b * e)); [now field|]. rewrite E. now field. Qed.

Lemma ed_add_assoc P Q R : on_curve P -> on_curve Q -> on_curve R ->
  ed_add (ed_add P Q) R = ed_add P (ed_add Q R).
Proof.
  intros HP HQ HR. pose proof (ed_add_on _ _ HP HQ) as HPQ. pose proof (ed_add_on _ _ HQ HR) as HQR.
  destruct P as [x1 y1], Q as [x2 y2], R as [x3 y3]. nonzero_denominators HP HQ. nonzero_denominators HQ HR.
  unfold ed_add in HPQ, HQR |- *. nonzero_denominators HPQ HR. nonzero_denominators HP HQR.
  unfold on_curve in HP, HQ, HR.
  set (k := 1 + d * x1 * x2 * y1 * y2) in *. set (l := 1 - d * x1 * x2 * y1 * y2) in *.
  set (m := 1 + d * x2 * x3 * y2 * y3) in *. set (n := 1 - d * x2 * x3 * y2 * y3) in *.
  f_equal; apply ed_div_eq; try easy; field_simplify_eq; try easy; subst k l m n; nsatz.
Qed.

Lemma ed_mul_on n P : on_curve P -> on_curve (ed_mul n P).
Proof. intros HP. induction n as [|n IH]; cbn [ed_mul]; [apply ed_zero_on|now apply ed_add_on]. Qed.

Lemma ed_mul_add m n P : on_curve P -> ed_mul (m + n) P = ed_add (ed_mul m P) (ed_mul n P).
Proof.
  intros HP. induction m as [|m IH]; cbn [ed_mul Nat.add]; [now rewrite ed_add_zero|].
  rewrite IH, ed_add_assoc; auto using ed_mul_on.
Qed.

Lemma ed_mul_mul m n P : on_curve P -> ed_mul (m * n) P = ed_mul m (ed_mul n P).
Proof.
  intros HP. induction m as [|m IH]; cbn [ed_mul Nat.mul]; [easy|]. now rewrite ed_mul_add, IH by easy.
Qed.

Lemma ed_mul_zero m : ed_mul m ed_zero = ed_zero.
Proof. induction m as [|m IH]; [easy|]. cbn [ed_mul]. now rewrite IH, ed_add_zero. Qed.

(** A multiple depends on the factor modulo the order. *)
Lemma ed_mul_mod q n P : on_curve P -> q <> 0%nat -> ed_mul q P = ed_zero -> ed_mul n P = ed_mul (n mod q) P.
Proof.
  intros HP Hq E. rewrite (Nat.div_mod n q Hq) at 1. rewrite Nat.mul_comm, ed_mul_add, ed_mul_mul by easy.
  now rewrite E, ed_mul_zero, ed_add_zero.
Qed.

Lemma ordinate_factor y : 1 + d * y * y <> 0.
Proof.
  intros Hd. assert (Hy : y <> 0) by (intros ->; apply (F_1_neq_0 Fth); rewrite <- Hd; ring).
  apply (d_nonsquare (i / y)). transitivity (i * i / (y * y)); [now field|]. rewrite i_square.
  field_simplify_eq; [nsatz|easy].
Qed.

(** The ordinate and one bit determine a point. *)
Lemma abscissa_up_to_sign x x' y : on_curve (x, y) -> on_curve (x', y) -> x = x' \/ x = - x'.
Proof.
  unfold on_curve. intros E E'.
  assert (Hs : (1 + d * y * y) * ((x - x') * (x + x')) = 0) by nsatz.
  apply ed_zero_divisors in Hs as [Hs|Hs]; [now apply ordinate_factor in Hs|].
  apply ed_zero_divisors in Hs as [Hs|Hs]; [left|right]; nsatz.
Qed.

(** A point is on the curve when the square of its abscissa is this quotient. *)
Lemma on_curve_abscissa x y : on_curve (x, y) <-> x * x = (y * y - 1) / (1 + d * y * y).
Proof.
  pose proof (ordinate_factor y) as Hd. unfold on_curve. split; intros E.
  - field_simplify_eq; [nsatz|easy].
  - assert (E' : x * x * (1 + d * y * y) = y * y - 1) by (rewrite E; now field). nsatz.
Qed.

(** ** Extended coordinates *)

Lemma represents_zero : represents 0 1 1 0 ed_zero.
Proof. unfold represents, ed_zero. cbn. repeat split; try ring. apply (F_1_neq_0 Fth). Qed.

(** The unified addition. *)
Lemma represents_add X1 Y1 Z1 T1 X2 Y2 Z2 T2 P Q : on_curve P -> on_curve Q ->
  represents X1 Y1 Z1 T1 P -> represents X2 Y2 Z2 T2 Q ->
  let A := (Y1 - X1) * (Y2 - X2) in
  let B := (Y1 + X1) * (Y2 + X2) in
  let C := (1 + 1) * d * T1 * T2 in
  let D := (1 + 1) * Z1 * Z2 in
  represents ((B - A) * (D - C)) ((D + C) * (B + A)) ((D + C) * (D - C)) ((B - A) * (B + A)) (ed_add P Q).
Proof.
  destruct P as [x1 y1], Q as [x2 y2]. intros HP HQ (N1 & -> & -> & ->) (N2 & -> & -> & ->).
  nonzero_denominators HP HQ. unfold represents, ed_add. cbn [fst snd]. cbv zeta.
  split; [|repeat split; field_simplify_eq; try easy; try ring].
  assert (Hz : (1 + 1) * Z1 * Z2 <> 0).
  { intros Hz. apply ed_zero_divisors in Hz as [Hz|Hz]; [|easy]. now apply ed_zero_divisors in Hz as [Hz|Hz]. }
  set (k := 1 + d * x1 * x2 * y1 * y2) in *. set (l := 1 - d * x1 * x2 * y1 * y2) in *.
  intros E. assert (E' : (1 + 1) * Z1 * Z2 * k * ((1 + 1) * Z1 * Z2 * l) = 0) by (rewrite <- E; unfold k, l; ring).
  apply ed_zero_divisors in E' as [E'|E']; apply ed_zero_divisors in E' as [E'|E']; easy.
Qed.

(** The doubling, which does without the fourth coordinate and the constant. *)
Lemma represents_double X Y Z T P : on_curve P -> represents X Y Z T P ->
  let A := X * X in
  let B := Y * Y in
  let C := (1 + 1) * (Z * Z) in
  let H := A + B in
  let E := H - (X + Y) * (X + Y) in
  let G := A - B in
  let D := C + G in
  represents (D * E) (G * H) (D * G) (H * E) (ed_add P P).
Proof.
  destruct P as [x y]. intros HP (N & -> & -> & ->). nonzero_denominators HP HP. unfold represents, ed_add. cbn [fst snd]. cbv zeta.
  assert (Eg : x * Z * (x * Z) - y * Z * (y * Z) = - (Z * Z * (1 + d * x * x * y * y))) by (unfold on_curve in HP; nsatz).
  assert (Ed : (1 + 1) * (Z * Z) + (x * Z * (x * Z) - y * Z * (y * Z)) = Z * Z * (1 - d * x * x * y * y)) by (unfold on_curve in HP; nsatz).
  rewrite Ed, Eg. unfold on_curve in HP.
  set (k := 1 + d * x * x * y * y) in *. set (l := 1 - d * x * x * y * y) in *. split.
  - intros E. assert (E' : (Z * Z) * k * (Z * Z * l) = 0) by nsatz.
    apply ed_zero_divisors in E' as [E'|E']; apply ed_zero_divisors in E' as [E'|E']; try easy; now apply N, ed_square_zero.
  - repeat split; field_simplify_eq; try easy; subst k l; nsatz.
Qed.

(** Two represented points are compared without division. *)
Lemma represents_equal X1 Y1 Z1 T1 X2 Y2 Z2 T2 P Q : represents X1 Y1 Z1 T1 P -> represents X2 Y2 Z2 T2 Q ->
  (X1 * Z2 = X2 * Z1 /\ Y1 * Z2 = Y2 * Z1) <-> P = Q.
Proof.
  destruct P as [x1 y1], Q as [x2 y2]. intros (N1 & -> & -> & ->) (N2 & -> & -> & ->). cbn [fst snd]. split.
  - intros [Ex Ey]. f_equal.
    + transitivity (x1 * Z1 * Z2 / (Z1 * Z2)); [now field|]. rewrite Ex. now field.
    + transitivity (y1 * Z1 * Z2 / (Z1 * Z2)); [now field|]. rewrite Ey. now field.
  - intros [= -> ->]. split; ring.
Qed.
End Edwards.
