(* ===== verification/Prime25519.v ===== *)
(** * The prime of the field

    [2^255 - 19] is a prime number, by Pocklington's criterion and a chain of
    certificates, whose powers are computed with machine integers; and what
    the curve needs of the prime: the little theorem of Fermat, square roots,
    and that the constant [d] of the curve is not a square. *)

From Stdlib Require Import Zmod Field_theory Field_tac Ring.
From Bignums Require Import BigZ.
From S2P Require Import Prelude Word Fe25519.

Local Open Scope Z_scope.

(** ** Modular powers *)

Fixpoint big_powmod (a n : bigZ) (e : positive) : bigZ :=
  match e with
  | xH => BigZ.modulo a n
  | xO e => let s := big_powmod a n e in BigZ.modulo (BigZ.mul s s) n
  | xI e => let s := big_powmod a n e in BigZ.modulo (BigZ.mul a (BigZ.modulo (BigZ.mul s s) n)) n
  end.

Definition powmod (a n : Z) (e : positive) : Z := BigZ.to_Z (big_powmod (BigZ.of_Z a) (BigZ.of_Z n) e).

(** ** Certificates *)

Definition divides_b (a b : Z) : bool := b mod a =? 0.

(** [a] shows that every prime factor of [n] is 1 modulo [q]. *)
Definition pocklington_base (n a q : Z) : bool :=
  divides_b q (n - 1) && (powmod a n (Z.to_pos (n - 1)) =? 1)
  && (Z.gcd (powmod a n (Z.to_pos ((n - 1) / q)) - 1) n =? 1).

Definition small_prime (n : Z) : bool :=
  (1 <? n) && forallb (fun k => negb (divides_b (Z.of_nat k) n)) (seq 2 (Z.to_nat n - 2)).

(** * Theorems *)

Lemma big_powmod_spec a n e : 0 < BigZ.to_Z n -> BigZ.to_Z (big_powmod a n e) = BigZ.to_Z a ^ Zpos e mod BigZ.to_Z n.
Proof.
  intros Hn. induction e as [e IH|e IH|]; cbn [big_powmod].
  - rewrite BigZ.spec_modulo, BigZ.spec_mul, BigZ.spec_modulo, BigZ.spec_mul, IH.
    rewrite <- Z.mul_mod, Z.mul_mod_idemp_r by lia. f_equal. rewrite Pos2Z.inj_xI, Z.pow_add_r, Z.pow_mul_r by lia.
    rewrite Z.pow_2_r, Z.pow_mul_l. lia.
  - rewrite BigZ.spec_modulo, BigZ.spec_mul, IH, <- Z.mul_mod by lia. f_equal.
    rewrite Pos2Z.inj_xO, (Z.mul_comm 2), Z.pow_mul_r by lia. by rewrite Z.pow_2_r.
  - by rewrite BigZ.spec_modulo, Z.pow_1_r.
Qed.

Lemma powmod_spec a n e : 0 < n -> powmod a n e = a ^ Zpos e mod n.
Proof. intros Hn. unfold powmod. by rewrite big_powmod_spec, !BigZ.spec_of_Z by (by rewrite BigZ.spec_of_Z). Qed.

(** ** Pocklington's criterion *)

Lemma divides_b_spec a b : a <> 0 -> divides_b a b = true <-> (a | b).
Proof. intros Ha. unfold divides_b. rewrite Z.eqb_eq. by apply Z.mod_divide. Qed.

(** A power whose exponent is prime to the order is not one. *)
Lemma root_of_one r q b : Z.prime r -> Z.prime q -> (r | b ^ q - 1) -> ~ (r | b - 1) -> (q | r - 1).
Proof.
  intros Hr Hq Hb H1. pose proof (Z.prime_ge_2 r Hr). pose proof (Z.prime_ge_2 q Hq).
  destruct (decide ((r - 1) mod q = 0)) as [E|E]; [apply Z.mod_divide; [lia|done]|exfalso].
  assert (Hc : Z.coprime q (r - 1)) by (apply Z.coprime_prime_l; [done|]; intros D; by apply E, Z.mod_divide; [lia|]).
  apply Z.Bezout_coprime in Hc as (u & v & Euv). set (x := Zmod.of_Z r b).
  assert (One : forall z, (r | z - 1) -> Zmod.of_Z r z = Zmod.one).
  { intros z D. rewrite <- Zmod.of_Z_1. apply Zmod.of_Z_inj. apply Z.mod_divide in D; [|lia].
    replace z with (z - 1 + 1) by lia. by rewrite Zplus_mod, D, Z.add_0_l, Z.mod_mod by lia. }
  assert (Xq : Zmod.pow x q = Zmod.one).
  { rewrite <- (One _ Hb). apply Zmod.unsigned_inj. unfold x. rewrite Zmod.unsigned_pow_nonneg_r, !Zmod.unsigned_of_Z by lia. by rewrite Z.mod_pow_l. }
  assert (Xn : x <> Zmod.zero).
  { intros Ex. rewrite Ex, Zmod.pow_0_l in Xq by lia. symmetry in Xq. revert Xq. apply Zmod.one_neq_zero. lia. }
  assert (Xc : Z.gcd (Zmod.unsigned x) r = 1).
  { pose proof (Zmod.unsigned_pos_bound x ltac:(lia)). apply Zmod.unsigned_nz in Xn. rewrite Z.gcd_comm.
    apply Z.coprime_prime_small; [done|lia]. }
  assert (Ex : x = Zmod.one).
  { rewrite <- (Zmod.pow_1_r x). rewrite <- Euv, Zmod.pow_add_r_coprime, (Z.mul_comm u), (Z.mul_comm v), !Zmod.pow_mul_r_coprime by done.
    replace (r - 1) with (Z.pred r) by lia. by rewrite Xq, Zmod.fermat_nz, !Zmod.pow_1_l, Zmod.mul_1_l. }
  apply H1. unfold x in Ex. rewrite <- Zmod.of_Z_1 in Ex. apply Zmod.of_Z_inj in Ex.
  apply Z.mod_divide; [lia|]. by rewrite Zminus_mod, Ex, Z.sub_diag, Z.mod_0_l by lia.
Qed.

Lemma small_prime_spec n : small_prime n = true -> Z.prime n.
Proof.
  unfold small_prime. rewrite andb_true_iff, Z.ltb_lt, forallb_forall. intros [Hn Hd]. split; [done|]. intros k Hk D.
  specialize (Hd (Z.to_nat k)). rewrite in_seq, Z2Nat.id in Hd by lia.
  assert (Hf : negb (divides_b k n) = true) by (apply Hd; lia). apply negb_true_iff, not_true_iff_false in Hf. apply Hf, divides_b_spec; [lia|done].
Qed.

Lemma prime_factor n : 1 < n -> exists r, Z.prime r /\ (r | n).
Proof.
  induction (Z.lt_wf 1 n) as [n _ IH] using Acc_ind. intros Hn.
  destruct (decide (Forall (fun k => divides_b (Z.of_nat k) n = false) (seq 2 (Z.to_nat n - 2)))) as [Hf|Hf].
  - exists n. split; [|done]. split; [done|]. intros k Hk D. rewrite Forall_forall in Hf. specialize (Hf (Z.to_nat k)).
    rewrite Z2Nat.id in Hf by lia. apply divides_b_spec in D; [|lia]. rewrite Hf in D; [done|]. apply elem_of_seq. lia.
  - apply not_Forall_Exists, Exists_exists in Hf as (k & Hk%elem_of_seq & Hd); [|apply _].
    cbn in Hd. apply not_false_iff_true, divides_b_spec in Hd; [|lia].
    destruct (IH (Z.of_nat k)) as (r & Hr & Dr); [lia|lia|]. exists r. split; [done|]. by etrans.
Qed.

Lemma pocklington_base_spec n a q r : 1 < n -> Z.prime q -> pocklington_base n a q = true ->
  Z.prime r -> (r | n) -> (q | r - 1).
Proof.
  intros Hn Hq. unfold pocklington_base. rewrite !andb_true_iff, !Z.eqb_eq. pose proof (Z.prime_ge_2 q Hq).
  rewrite divides_b_spec by lia. intros [[[k Ek] Hp] Hg] Hr Dr. pose proof (Z.prime_ge_2 r Hr).
  assert (Hk : 0 < k) by nia. assert (Edk : (n - 1) / q = k) by (rewrite Ek; apply Z.div_mul; lia).
  rewrite Edk in Hg. rewrite powmod_spec, Z2Pos.id in Hp, Hg by lia. apply (root_of_one r q (a ^ k)); [done|done| |].
  - rewrite <- Z.pow_mul_r, <- Ek by lia. etrans; [exact Dr|]. apply Z.mod_divide; [lia|].
    rewrite Zminus_mod, Hp, (Z.mod_small 1) by lia. done.
  - intros D. assert (D1 : (r | 1)); [|apply Z.divide_1_r_nonneg in D1; lia].
    rewrite <- Hg. apply Z.gcd_greatest; [|done]. replace (a ^ k mod n - 1) with (a ^ k - 1 - n * (a ^ k / n)).
    + apply Z.divide_sub_r; [done|]. by apply Z.divide_mul_l.
    + rewrite (Z.mod_eq (a ^ k)) by lia. lia.
Qed.

Lemma primes_divide l x : NoDup l -> Forall (fun q => Z.prime q /\ (q | x)) l -> (foldr Z.mul 1 l | x).
Proof.
  intros Hn. revert x. induction Hn as [|q l Hq _ IH]; intros x Hl; cbn; [apply Z.divide_1_l|].
  apply Forall_cons in Hl as [[Pq [y ->]] Hl]. rewrite (Z.mul_comm y). apply Z.mul_divide_mono_l, IH.
  rewrite Forall_forall in Hl |- *. intros q' Hq'. destruct (Hl q' Hq') as [Pq' D]. split; [done|].
  apply Z.divide_prime_mul in D as [D|D]; [done| |done]. apply Z.divide_prime_prime in D; [|done|done]. by subst.
Qed.

Lemma pocklington n l : 1 < n -> NoDup (map fst l) -> Forall (fun qa => Z.prime (fst qa)) l ->
  forallb (fun qa => pocklington_base n (snd qa) (fst qa)) l = true -> n < foldr Z.mul 1 (map fst l) ^ 2 -> Z.prime n.
Proof.
  intros Hn Hd Hp Hb HF. set (F := foldr Z.mul 1 (map fst l)) in *.
  assert (Hr : forall r, Z.prime r -> (r | n) -> n < r * r).
  { intros r Pr Dr. pose proof (Z.prime_ge_2 r Pr).
    assert (D : (F | r - 1)).
    { apply primes_divide; [done|]. apply Forall_fmap. rewrite forallb_forall in Hb. rewrite Forall_forall in Hp |- *.
      intros [q a] Hin. cbn. split; [by apply (Hp _ Hin)|].
      apply (pocklington_base_spec n a q r); [done|by apply (Hp _ Hin)|by apply (Hb (q, a)), list_elem_of_In|done|done]. }
    apply Z.divide_pos_le in D; [|lia]. assert (0 <= F); [|rewrite Z.pow_2_r in HF; nia].
    unfold F. clear -Hp. induction Hp as [|q l Pq _ IH]; cbn; [lia|]. pose proof (Z.prime_ge_2 _ Pq). nia. }
  split; [done|]. intros k Hk [m Em].
  assert (Hm : 1 < m < n) by nia.
  destruct (prime_factor (Z.min k m)) as (r & Pr & Dr); [lia|]. assert (r <= Z.min k m) by (apply Z.divide_pos_le; [lia|done]).
  specialize (Hr r Pr). pose proof (Z.prime_ge_2 r Pr). assert (n < r * r); [|nia]. apply Hr. etrans; [exact Dr|].
  destruct (Z.min_dec k m) as [ -> | -> ]; [by exists m|exists k; lia].
Qed.

(** ** The certificates *)

(** Discharges [Z.prime n] with the factors [q] of [n - 1] and the base 2. *)
Ltac certify l :=
  apply (pocklington _ (map (fun q => (q, 2)) l));
    [done|apply (bool_decide_unpack _); vm_compute; exact I
    |repeat (apply Forall_cons; split; [first [assumption|by apply small_prime_spec]|]); apply Forall_nil; exact I
    |vm_compute; reflexivity|done].

Lemma prime_cert_1 : Z.prime 991.
Proof. certify [11; 5]. Qed.

Lemma prime_cert_2 : Z.prime 8574133.
Proof. pose proof prime_cert_1. certify [991; 103]. Qed.

Lemma prime_cert_3 : Z.prime 1919519569386763.
Proof. pose proof prime_cert_2. certify [8574133; 127]. Qed.

Lemma prime_cert_4 : Z.prime 419.
Proof. certify [19; 11]. Qed.

Lemma prime_cert_5 : Z.prime 569003.
Proof. pose proof prime_cert_4. certify [419; 97]. Qed.

Lemma prime_cert_6 : Z.prime 2773320623.
Proof. pose proof prime_cert_5. certify [569003]. Qed.

Lemma prime_cert_7 : Z.prime 72106336199.
Proof. pose proof prime_cert_6. certify [2773320623]. Qed.

Lemma prime_cert_8 : Z.prime 75445702479781427272750846543864801.
Proof. pose proof prime_cert_3. pose proof prime_cert_7. certify [1919519569386763; 72106336199]. Qed.

Lemma prime_cert_9 : Z.prime 1723.
Proof. certify [41; 7]. Qed.

Lemma prime_cert_10 : Z.prime 430751.
Proof. pose proof prime_cert_9. certify [1723]. Qed.

Lemma prime_cert_11 : Z.prime 4153.
Proof. certify [173]. Qed.

Lemma prime_cert_12 : Z.prime 31757755568855353.
Proof. pose proof prime_cert_10. pose proof prime_cert_11. certify [430751; 4153]. Qed.

Lemma prime_cert_13 : Z.prime 74058212732561358302231226437062788676166966415465897661863160754340907.
Proof. pose proof prime_cert_8. pose proof prime_cert_12. certify [75445702479781427272750846543864801; 31757755568855353]. Qed.

Lemma p25519_prime : Z.prime p25519.
Proof. pose proof prime_cert_13. certify [74058212732561358302231226437062788676166966415465897661863160754340907]. Qed.

(** ** The field *)

Notation Fp := (Zmod p25519).

(** The residue of an integer. *)
Definition fe (z : Z) : Fp := Zmod.of_Z p25519 z.

Declare Scope fp_scope.
Delimit Scope fp_scope with fp.
Notation "0" := (@Zmod.zero p25519) : fp_scope.
Notation "1" := (@Zmod.one p25519) : fp_scope.
Infix "+" := (@Zmod.add p25519) : fp_scope.
Infix "-" := (@Zmod.sub p25519) : fp_scope.
Infix "*" := (@Zmod.mul p25519) : fp_scope.
Infix "/" := (@Zmod.mdiv p25519) : fp_scope.
Infix "^" := (@Zmod.pow p25519) : fp_scope.
Notation "- x" := (@Zmod.opp p25519 x) : fp_scope.

Lemma Fp_field : field_theory 0%fp 1%fp Zmod.add Zmod.mul Zmod.sub Zmod.opp Zmod.mdiv Zmod.inv (@eq Fp).
Proof. exact (Zmod.field_theory p25519 p25519_prime). Qed.

Add Field Fp_ring : Fp_field.

Lemma fe_eq x y : fe x = fe y <-> x ≡p y.
Proof. unfold fe. by rewrite Zmod.of_Z_inj, eqp_mod. Qed.

Lemma fe_add x y : fe (x + y) = (fe x + fe y)%fp.
Proof. apply Zmod.of_Z_add. Qed.

Lemma fe_sub x y : fe (x - y) = (fe x - fe y)%fp.
Proof. apply Zmod.of_Z_sub. Qed.

Lemma fe_mul x y : fe (x * y) = (fe x * fe y)%fp.
Proof. apply Zmod.of_Z_mul. Qed.

Lemma fe_0 : fe 0 = 0%fp.
Proof. reflexivity. Qed.

Lemma fe_1 : fe 1 = 1%fp.
Proof. reflexivity. Qed.

Lemma fe_pow x n : 0 <= n -> fe (x ^ n) = (fe x ^ n)%fp.
Proof.
  intros Hn. apply Zmod.unsigned_inj. unfold fe. rewrite Zmod.unsigned_pow_nonneg_r, !Zmod.unsigned_of_Z by done.
  by rewrite Z.mod_pow_l.
Qed.

(** The canonical representative. *)
Lemma fe_unsigned x : Zmod.unsigned (fe x) = x mod p25519.
Proof. apply Zmod.unsigned_of_Z. Qed.

#[export] Instance Fp_dec : EqDecision Fp.
Proof. intros x y. destruct (Zmod.eqb x y) eqn:E; [left; by apply Zmod.eqb_eq|right; intros ->; by rewrite Zmod.eqb_refl in E]. Defined.

Lemma Fp_zero_divisors (x y : Fp) : (x * y)%fp = 0%fp -> x = 0%fp \/ y = 0%fp.
Proof. intros E. by apply (Zmod.mul_0_iff_prime p25519_prime). Qed.

Lemma Fp_pow_add (x : Fp) m n : 0 <= m -> 0 <= n -> (x ^ (m + n) = x ^ m * x ^ n)%fp.
Proof. apply Zmod.pow_add_r_nonneg. Qed.

Lemma Fp_fermat (x : Fp) : x <> 0%fp -> (x ^ (p25519 - 1) = 1)%fp.
Proof. intros Hx. apply (Zmod.fermat_nz x Hx p25519_prime). Qed.

(** Inversion as the code computes it; zero is its own inverse. *)
Lemma Fp_inverse (x : Fp) : (x ^ (p25519 - 2))%fp = Zmod.inv x.
Proof.
  destruct (decide (x = 0%fp)) as [->|Hx]; [by rewrite Zmod.pow_0_l, Zmod.inv_0|].
  by apply Zmod.fermat_inv; [|apply p25519_prime].
Qed.

Lemma Fp_square_one (x : Fp) : (x * x = 1)%fp -> x = 1%fp \/ x = (- (1))%fp.
Proof. rewrite <- Zmod.pow_2_r. apply (Zmod.square_roots_1_prime p25519_prime). Qed.

Lemma Fp_square_power (r : Fp) n : 0 <= n -> ((r * r) ^ n = r ^ (2 * n))%fp.
Proof. intros Hn. by rewrite <- Zmod.pow_2_r, <- Zmod.pow_mul_r_nonneg by lia. Qed.

(** Closed inequalities between numbers. *)
Ltac positive := vm_compute; discriminate || reflexivity.

(** Half of the exponent of Fermat's theorem gives a sign. *)
Lemma Fp_half_power (r : Fp) : r <> 0%fp -> (r ^ ((p25519 - 1) / 2) = 1)%fp \/ (r ^ ((p25519 - 1) / 2) = - (1))%fp.
Proof. intros Hr. apply Fp_square_one. rewrite <- Fp_pow_add by positive. exact (Fp_fermat r Hr). Qed.

(** The candidate root of a square, of which the code takes the right multiple. *)
Lemma Fp_root_candidate (x r : Fp) : (r * r = x)%fp -> x <> 0%fp ->
  let c := (x ^ ((p25519 + 3) / 8))%fp in (c * c = x)%fp \/ (c * c = - x)%fp.
Proof.
  intros E Hx c. unfold c. rewrite <- Fp_pow_add by positive.
  assert (Hr : r <> 0%fp) by (intros ->; apply Hx; rewrite <- E; by rewrite Zmod.mul_0_l).
  change ((p25519 + 3) / 8 + (p25519 + 3) / 8) with (1 + (p25519 - 1) / 4). rewrite Fp_pow_add, Zmod.pow_1_r by positive.
  assert (Ex : (x ^ ((p25519 - 1) / 4) = r ^ ((p25519 - 1) / 2))%fp) by (rewrite <- E; apply (Fp_square_power r ((p25519 - 1) / 4)); positive).
  rewrite Ex. destruct (Fp_half_power r Hr) as [-> | ->]; [left|right]; ring.
Qed.

(** Euler's criterion, for a non-square. *)
Lemma Fp_nonsquare z : powmod z p25519 (Z.to_pos ((p25519 - 1) / 2)) = p25519 - 1 -> forall s : Fp, (s * s)%fp <> fe z.
Proof.
  intros Hz s E. rewrite powmod_spec in Hz by done.
  assert (Ep : (fe z ^ ((p25519 - 1) / 2) = - (1))%fp).
  { rewrite <- fe_pow by positive. apply Zmod.unsigned_inj. rewrite fe_unsigned. rewrite Zmod.unsigned_m1_pos by positive. exact Hz. }
  destruct (decide (s = 0%fp)) as [->|Hs].
  - rewrite Zmod.mul_0_l in E. rewrite <- E, Zmod.pow_0_l in Ep by positive. apply (f_equal Zmod.unsigned) in Ep.
    by rewrite Zmod.unsigned_m1_pos in Ep.
  - rewrite <- E, Fp_square_power in Ep by positive. change (2 * ((p25519 - 1) / 2)) with (p25519 - 1) in Ep.
    rewrite (Fp_fermat s Hs) in Ep. apply (f_equal Zmod.unsigned) in Ep. by rewrite Zmod.unsigned_m1_pos, Zmod.unsigned_1_pos in Ep.
Qed.
