(* ===== verification/EdPoint.v ===== *)
(** * Points of the curve Ed25519

    contrib/ed25519/Hacl_Ed25519.cpp, Hacl_Impl_Ed25519_*: points in extended
    coordinates, addition, doubling, the ladder, equality, compression and
    decompression.  A point is an array of four field elements. *)

From S2P Require Import Prelude Word Fe25519.

Local Open Scope Z_scope.

Record point := mk_point { getx : felem; gety : felem; getz : felem; gett : felem }.

Definition zero_fe : felem := h64_5 0 0 0 0 0.
Definition one_fe : felem := h64_5 1 0 0 0 0.

Definition Hacl_Impl_Ed25519_G_make_g : point :=
  mk_point
    (h64_5 0x00062d608f25d51a 0x000412a4b4f6592a 0x00075b7171a4b31d 0x0001ff60527118fe 0x000216936d3cd6e5)
    (h64_5 0x0006666666666658 0x0004cccccccccccc 0x0001999999999999 0x0003333333333333 0x0006666666666666)
    one_fe
    (h64_5 0x00068ab3a5b7dda3 0x00000eea2a5eadbb 0x0002af8df483c27e 0x000332b375274732 0x00067875f0fd78b7).

Definition Hacl_Impl_Ed25519_Ladder_make_point_inf : point := mk_point zero_fe one_fe one_fe zero_fe.

Definition Hacl_Impl_Ed25519_PointAdd_point_add (p q1 : point) : point :=
  let tmp1 := Hacl_Bignum25519_fdifference_reduced (getx p) (gety p) in
  let tmp2 := Hacl_Bignum_fdifference (getx q1) (gety q1) in
  let tmp3 := Hacl_Bignum_Fmul_fmul tmp1 tmp2 in
  let tmp1 := Hacl_Bignum_fsum (gety p) (getx p) in
  let tmp2 := Hacl_Bignum_fsum (gety q1) (getx q1) in
  let tmp4 := Hacl_Bignum_Fmul_fmul tmp1 tmp2 in
  let tmp1 := Hacl_Bignum25519_times_2d (gett p) in
  let tmp2 := Hacl_Bignum_Fmul_fmul tmp1 (gett q1) in
  let tmp1 := Hacl_Bignum25519_times_2 (getz p) in
  let tmp5 := Hacl_Bignum_Fmul_fmul tmp1 (getz q1) in
  let tmp1 := tmp3 in
  let tmp6 := tmp2 in
  let tmp1 := Hacl_Bignum25519_fdifference_reduced tmp1 tmp4 in
  let tmp6 := Hacl_Bignum_fdifference tmp6 tmp5 in
  let tmp5 := Hacl_Bignum_fsum tmp5 tmp2 in
  let tmp4 := Hacl_Bignum_fsum tmp4 tmp3 in
  mk_point (Hacl_Bignum_Fmul_fmul tmp1 tmp6) (Hacl_Bignum_Fmul_fmul tmp5 tmp4)
    (Hacl_Bignum_Fmul_fmul tmp5 tmp6) (Hacl_Bignum_Fmul_fmul tmp1 tmp4).

(** The scratch array of the doubling after its first step: [tmp1] to [tmp4]. *)
Definition Hacl_Impl_Ed25519_PointDouble_point_double_step_1 (p : point) : felem * felem * felem * felem :=
  let tmp1 := Hacl_Bignum_Fsquare_fsquare_ (getx p) in
  let tmp2 := Hacl_Bignum_Fsquare_fsquare_ (gety p) in
  let tmp3 := Hacl_Bignum_Fsquare_fsquare_ (getz p) in
  let tmp4 := Hacl_Bignum25519_times_2 tmp3 in
  let tmp3 := tmp1 in
  let tmp3 := Hacl_Bignum_fsum tmp3 tmp2 in
  let tmp3 := Hacl_Bignum25519_reduce_513 tmp3 in
  (tmp1, tmp2, tmp3, tmp4).

(** The second step: [tmp2], [tmp4] and [tmp6]. *)
Definition Hacl_Impl_Ed25519_PointDouble_point_double_step_2 (p : point) (tmp1 tmp2 tmp3 tmp4 : felem)
  : felem * felem * felem :=
  let tmp5 := getx p in
  let tmp5 := Hacl_Bignum_fsum tmp5 (gety p) in
  let tmp6 := Hacl_Bignum_Fsquare_fsquare_ tmp5 in
  let tmp5 := tmp3 in
  let tmp6 := Hacl_Bignum_fdifference tmp6 tmp5 in
  let tmp2 := Hacl_Bignum25519_fdifference_reduced tmp2 tmp1 in
  let tmp4 := Hacl_Bignum25519_reduce_513 tmp4 in
  let tmp4 := Hacl_Bignum_fsum tmp4 tmp2 in
  (tmp2, tmp4, tmp6).

Definition Hacl_Impl_Ed25519_PointDouble_point_double (p : point) : point :=
  let '(tmp1, tmp2, tmp3, tmp4) := Hacl_Impl_Ed25519_PointDouble_point_double_step_1 p in
  let '(tmp2, tmp4, tmp6) := Hacl_Impl_Ed25519_PointDouble_point_double_step_2 p tmp1 tmp2 tmp3 tmp4 in
  mk_point (Hacl_Bignum_Fmul_fmul tmp4 tmp6) (Hacl_Bignum_Fmul_fmul tmp2 tmp3)
    (Hacl_Bignum_Fmul_fmul tmp4 tmp2) (Hacl_Bignum_Fmul_fmul tmp3 tmp6).

(** ** The ladder *)

(** A limb of each element, exchanged when [swap1] is all ones. *)
Definition swap_limb (a b swap1 : Z) : Z * Z :=
  let x := Z.land swap1 (Z.lxor a b) in (Z.lxor a x, Z.lxor b x).

Definition Hacl_Impl_Ed25519_SwapConditional_swap_conditional_step (a b : felem) (swap1 : Z) : felem * felem :=
  let '(a0, b0) := swap_limb (l0 a) (l0 b) swap1 in
  let '(a1, b1) := swap_limb (l1 a) (l1 b) swap1 in
  let '(a2, b2) := swap_limb (l2 a) (l2 b) swap1 in
  let '(a3, b3) := swap_limb (l3 a) (l3 b) swap1 in
  let '(a4, b4) := swap_limb (l4 a) (l4 b) swap1 in
  (h64_5 a0 a1 a2 a3 a4, h64_5 b0 b1 b2 b3 b4).

Definition Hacl_Impl_Ed25519_SwapConditional_swap_conditional (a b : point) (iswap : Z) : point * point :=
  let swap1 := u64 (0 - iswap) in
  let '(ax, bx) := Hacl_Impl_Ed25519_SwapConditional_swap_conditional_step (getx a) (getx b) swap1 in
  let '(ay, by_) := Hacl_Impl_Ed25519_SwapConditional_swap_conditional_step (gety a) (gety b) swap1 in
  let '(az, bz) := Hacl_Impl_Ed25519_SwapConditional_swap_conditional_step (getz a) (getz b) swap1 in
  let '(at_, bt) := Hacl_Impl_Ed25519_SwapConditional_swap_conditional_step (gett a) (gett b) swap1 in
  (mk_point ax ay az at_, mk_point bx by_ bz bt).

(** Bit [i] of the scalar; an index behind the array does not occur. *)
Definition Hacl_Impl_Ed25519_Ladder_Step_ith_bit (k1 : str) (i : Z) : Z :=
  let q1 := Z.shiftr i 3 in
  let r := Z.land i 7 in
  let kq := b2z (nth (Z.to_nat q1) k1 NUL) in
  Z.land (Z.shiftr kq r) 1.

(** The four points of the buffer, of which the last two are scratch. *)
Definition Hacl_Impl_Ed25519_Ladder_Step_loop_step (nq nqpq : point) (k1 : str) (ctr : Z) : point * point :=
  let bit := Hacl_Impl_Ed25519_Ladder_Step_ith_bit k1 ctr in
  let '(nq, nqpq) := Hacl_Impl_Ed25519_SwapConditional_swap_conditional nq nqpq bit in
  let nq2 := Hacl_Impl_Ed25519_PointDouble_point_double nq in
  let nqpq2 := Hacl_Impl_Ed25519_PointAdd_point_add nq nqpq in
  Hacl_Impl_Ed25519_SwapConditional_swap_conditional nq2 nqpq2 bit.

(** The last [n] of the 256 turns. *)
Fixpoint ladder_loop (n : nat) (k1 : str) (nq nqpq : point) : point * point :=
  match n with
  | O => (nq, nqpq)
  | S n =>
    let '(nq, nqpq) := Hacl_Impl_Ed25519_Ladder_Step_loop_step nq nqpq k1 (Z.of_nat n) in
    ladder_loop n k1 nq nqpq
  end.

Definition Hacl_Impl_Ed25519_Ladder_point_mul (scalar : str) (q1 : point) : point :=
  fst (ladder_loop 256 scalar Hacl_Impl_Ed25519_Ladder_make_point_inf q1).

(** ** Compression *)

Definition Hacl_Impl_Ed25519_PointCompress_x_mod_2 (x : felem) : Z := Z.land (l0 x) 1.

Definition Hacl_Impl_Ed25519_PointCompress_point_compress (p : point) : str :=
  let zinv := Hacl_Bignum_Crecip_crecip (getz p) in
  let x := Hacl_EC_Format_reduce (Hacl_Bignum_Fmul_fmul (getx p) zinv) in
  let out := Hacl_EC_Format_reduce (Hacl_Bignum_Fmul_fmul (gety p) zinv) in
  let b := Hacl_Impl_Ed25519_PointCompress_x_mod_2 x in
  let z := Hacl_Impl_Store51_store_51_ out in
  let o31 := b2z (nth 31 z NUL) in
  put z 31 [z2b (o31 + Z.shiftl b 7)].

(** ** Equality *)

Definition Hacl_Impl_Ed25519_PointEqual_eq (a b : felem) : bool :=
  (l0 a =? l0 b) && (l1 a =? l1 b) && (l2 a =? l2 b) && (l3 a =? l3 b) && (l4 a =? l4 b).

Definition Hacl_Impl_Ed25519_PointEqual_point_equal_1 (p q1 : point) : bool :=
  let pxqz := Hacl_EC_Format_reduce (Hacl_Bignum_Fmul_fmul (getx p) (getz q1)) in
  let qxpz := Hacl_EC_Format_reduce (Hacl_Bignum_Fmul_fmul (getx q1) (getz p)) in
  Hacl_Impl_Ed25519_PointEqual_eq pxqz qxpz.

Definition Hacl_Impl_Ed25519_PointEqual_point_equal_2 (p q1 : point) : bool :=
  let pyqz := Hacl_EC_Format_reduce (Hacl_Bignum_Fmul_fmul (gety p) (getz q1)) in
  let qypz := Hacl_EC_Format_reduce (Hacl_Bignum_Fmul_fmul (gety q1) (getz p)) in
  Hacl_Impl_Ed25519_PointEqual_eq pyqz qypz.

Definition Hacl_Impl_Ed25519_PointEqual_point_equal (p q1 : point) : bool :=
  if Hacl_Impl_Ed25519_PointEqual_point_equal_1 p q1 then Hacl_Impl_Ed25519_PointEqual_point_equal_2 p q1 else false.

(** ** Decompression *)

Definition Hacl_Impl_Ed25519_RecoverX_is_0 (x : felem) : bool :=
  (l0 x =? 0) && (l1 x =? 0) && (l2 x =? 0) && (l3 x =? 0) && (l4 x =? 0).

(** The coordinate is not below the prime. *)
Definition y_too_large (y : felem) : bool :=
  (0x7ffffffffffed <=? l0 y) && (l1 y =? M51) && (l2 y =? M51) && (l3 y =? M51) && (l4 y =? M51).

(** [(y^2 - 1) / (d y^2 + 1)], canonical. *)
Definition recover_x2 (y : felem) : felem :=
  let one10 := one_fe in
  let y2 := Hacl_Bignum_Fsquare_fsquare_ y in
  let dyy := Hacl_Bignum25519_times_d y2 in
  let dyy := Hacl_Bignum_fsum dyy one10 in
  let dyy := Hacl_Bignum25519_reduce_513 dyy in
  let dyyi := Hacl_Bignum_Crecip_crecip dyy in
  let one10 := Hacl_Bignum_fdifference one10 y2 in
  Hacl_EC_Format_reduce (Hacl_Bignum_Fmul_fmul dyyi one10).

Definition sqrt_m1 : felem :=
  h64_5 0x00061b274a0ea0b0 0x0000d5a5fc8f189d 0x0007ef5e9cbd0c60 0x00078595a6804c9e 0x0002b8324804fc1d.

(** [x2 - x^2], canonical: what is tested against zero. *)
Definition square_defect (x2 x3 : felem) : felem :=
  let t0 := Hacl_Bignum_Fsquare_fsquare_ x3 in
  let t1 := Hacl_Bignum_fdifference x2 t0 in
  Hacl_EC_Format_reduce (Hacl_Bignum25519_reduce_513 t1).

(** The candidate root. *)
Definition recover_root (x2 : felem) : felem :=
  let x30 := Hacl_Bignum_Crecip_crecip_ x2 in
  let t1_is_0 := Hacl_Impl_Ed25519_RecoverX_is_0 (square_defect x2 x30) in
  let x30 := if t1_is_0 then x30 else Hacl_Bignum_Fmul_fmul x30 sqrt_m1 in
  Hacl_EC_Format_reduce x30.

Definition Hacl_Impl_Ed25519_RecoverX_recover_x_step_5 (x3 : felem) (sign1 : Z) : felem :=
  let x0 := Z.land (l0 x3) 1 in
  if x0 =? sign1 then x3
  else Hacl_EC_Format_reduce (Hacl_Bignum25519_reduce_513 (Hacl_Bignum_fdifference x3 zero_fe)).

(** The coordinate written to [x], or none where the function returns false. *)
Definition Hacl_Impl_Ed25519_RecoverX_recover_x (y : felem) (sign1 : Z) : option felem :=
  if y_too_large y then None
  else
    let x2 := recover_x2 y in
    if Hacl_Impl_Ed25519_RecoverX_is_0 x2 then
      if sign1 =? 0 then Some zero_fe else None
    else
      let x3 := recover_root x2 in
      if Hacl_Impl_Ed25519_RecoverX_is_0 (square_defect x2 x3)
      then Some (Hacl_Impl_Ed25519_RecoverX_recover_x_step_5 x3 sign1)
      else None.

Definition Hacl_Impl_Ed25519_PointDecompress_point_decompress (s : str) : option point :=
  let s31 := b2z (nth 31 s NUL) in
  let sign1 := Z.shiftr s31 7 in
  let y0 := Hacl_EC_Format_fexpand s in
  match Hacl_Impl_Ed25519_RecoverX_recover_x y0 sign1 with
  | None => None
  | Some x0 => Some (mk_point x0 y0 one_fe (Hacl_Bignum_Fmul_fmul x0 y0))
  end.

