(* ===== verification/ModQ.v ===== *)
(** * Scalars modulo the order of the base point

    contrib/ed25519/Hacl_Ed25519.cpp, Hacl_Impl_BignumQ_Mul_*, Load56, Store56 and
    gte_q: numbers of five limbs of 56 bits, Barrett reduction, multiplication and
    addition modulo [q].  Every operation wraps at its width; the theorems show
    that no intermediate value does where it matters. *)

From S2P Require Import Prelude Word Fe25519.

Local Open Scope Z_scope.

(** The order of the base point. *)
Definition q25519 : Z := 2 ^ 252 + 27742317777372353535851937790883648493.

Definition M56 : Z := 0xffffffffffffff.
Definition M40 : Z := 0xffffffffff.
Definition M24 : Z := 0xffffff.

Record limbs10 := h64_10 {
  t0 : Z; t1 : Z; t2 : Z; t3 : Z; t4 : Z; t5 : Z; t6 : Z; t7 : Z; t8 : Z; t9 : Z }.

Record wide9 := h128_9 {
  w0 : Z; w1 : Z; w2 : Z; w3 : Z; w4 : Z; w5 : Z; w6 : Z; w7 : Z; w8 : Z }.

Definition Hacl_Impl_Ed25519_PointEqual_gte_q (s : felem) : bool :=
  let '(h64_5 s0 s1 s2 s3 s4) := s in
  if 0x00000010000000 <? s4 then true
  else if s4 <? 0x00000010000000 then false
  else if 0x00000000000000 <? s3 then true
  else if 0x000000000014de <? s2 then true
  else if s2 <? 0x000000000014de then false
  else if 0xf9dea2f79cd658 <? s1 then true
  else if s1 <? 0xf9dea2f79cd658 then false
  else if 0x12631a5cf5d3ed <=? s0 then true
  else false.

Definition Hacl_Impl_Load56_load_64_bytes (b : str) : limbs10 :=
  let limb off := Z.land (load64_le b off) M56 in
  h64_10 (limb 0%nat) (limb 7%nat) (limb 14%nat) (limb 21%nat) (limb 28%nat) (limb 35%nat) (limb 42%nat) (limb 49%nat)
    (limb 56%nat) (b2z (nth 63 b NUL)).

Definition Hacl_Impl_Load56_load_32_bytes (b : str) : felem :=
  let limb off := Z.land (load64_le b off) M56 in
  h64_5 (limb 0%nat) (limb 7%nat) (limb 14%nat) (limb 21%nat) (load32_le b 28).

(** The stores overlap: each overwrites the last byte of the one before. *)
Definition Hacl_Impl_Store56_store_56 (out : str) (b : felem) : str :=
  let '(h64_5 b0 b1 b2 b3 b4) := b in
  let b41 := b4 mod 2 ^ 32 in
  let out := put out 0 (store64_le b0) in
  let out := put out 7 (store64_le b1) in
  let out := put out 14 (store64_le b2) in
  let out := put out 21 (store64_le b3) in
  put out 28 (store32_le b41).

Definition Hacl_Impl_BignumQ_Mul_make_m : felem :=
  h64_5 0x12631a5cf5d3ed 0xf9dea2f79cd658 0x000000000014de 0x00000000000000 0x00000010000000.

Definition Hacl_Impl_BignumQ_Mul_make_mu : felem :=
  h64_5 0x9ce5a30a2c131b 0x215d086329a7ed 0xffffffffeb2106 0xffffffffffffff 0x00000fffffffff.

Definition Hacl_Impl_BignumQ_Mul_choose (x y : felem) (b : Z) : felem :=
  let mask := u64 (b - 1) in
  let pick x y := Z.lxor (Z.land (Z.lxor y x) mask) x in
  h64_5 (pick (l0 x) (l0 y)) (pick (l1 x) (l1 y)) (pick (l2 x) (l2 y)) (pick (l3 x) (l3 y)) (pick (l4 x) (l4 y)).

Definition Hacl_Impl_BignumQ_Mul_lt (a b : Z) : Z := Z.shiftr (u64 (a - b)) 63.

Definition Hacl_Impl_BignumQ_Mul_shiftl_56 (b : Z) : Z := shl64 b 56.

(** One limb of a subtraction: the borrow [b] and [(b << 56) + x - y]. *)
Definition sub_limb (x y : Z) : Z * Z :=
  let b := Hacl_Impl_BignumQ_Mul_lt x y in
  (b, u64 (u64 (Hacl_Impl_BignumQ_Mul_shiftl_56 b + x) - y)).

(** The four low limbs of a subtraction and the subtrahend of the last. *)
Definition sub_limbs (x y : felem) : Z * Z * Z * Z * Z :=
  let '(b, t0) := sub_limb (l0 x) (l0 y) in
  let y11 := u64 (l1 y + b) in
  let '(b1, t1) := sub_limb (l1 x) y11 in
  let y21 := u64 (l2 y + b1) in
  let '(b2, t2) := sub_limb (l2 x) y21 in
  let y31 := u64 (l3 y + b2) in
  let '(b3, t3) := sub_limb (l3 x) y31 in
  let y41 := u64 (l4 y + b3) in
  (t0, t1, t2, t3, y41).

Definition Hacl_Impl_BignumQ_Mul_sub_mod_264 (x y : felem) : felem :=
  let '(t0, t1, t2, t3, y41) := sub_limbs x y in
  let b4 := Hacl_Impl_BignumQ_Mul_lt (l4 x) y41 in
  let t4 := u64 (u64 (shl64 b4 40 + l4 x) - y41) in
  h64_5 t0 t1 t2 t3 t4.

Definition Hacl_Impl_BignumQ_Mul_subm_conditional (x : felem) : felem :=
  let '(t0, t1, t2, t3, y41) := sub_limbs x Hacl_Impl_BignumQ_Mul_make_m in
  let '(b4, t4) := sub_limb (l4 x) y41 in
  Hacl_Impl_BignumQ_Mul_choose x (h64_5 t0 t1 t2 t3 t4) b4.

(** A column of the product: its low 56 bits and the carry. *)
Definition column_56 (x : Z) : Z * Z := (Z.land (u64 x) M56, Z.shiftr x 56).

(** The carries through the five low columns; of the last, 40 bits are kept. *)
Definition low_carry (c0 c1 c2 c3 c4 : Z) : felem :=
  let '(t0, carry1) := column_56 c0 in
  let '(t1, carry2) := column_56 (add128 c1 carry1) in
  let '(t2, carry3) := column_56 (add128 c2 carry2) in
  let '(t3, carry4) := column_56 (add128 c3 carry3) in
  let t4 := Z.land (u64 (add128 c4 carry4)) M40 in
  h64_5 t0 t1 t2 t3 t4.

Definition Hacl_Impl_BignumQ_Mul_low_mul_5 (x y : felem) : felem :=
  let '(h64_5 x0 x1 x2 x3 x4) := x in
  let '(h64_5 y0 y1 y2 y3 y4) := y in
  low_carry (mul_wide x0 y0) (add128 (mul_wide x0 y1) (mul_wide x1 y0))
    (add128 (add128 (mul_wide x0 y2) (mul_wide x1 y1)) (mul_wide x2 y0))
    (add128 (add128 (add128 (mul_wide x0 y3) (mul_wide x1 y2)) (mul_wide x2 y1)) (mul_wide x3 y0))
    (add128 (add128 (add128 (add128 (mul_wide x0 y4) (mul_wide x1 y3)) (mul_wide x2 y2)) (mul_wide x3 y1)) (mul_wide x4 y0)).

Definition Hacl_Impl_BignumQ_Mul_mul_5 (x y : felem) : wide9 :=
  let '(h64_5 x0 x1 x2 x3 x4) := x in
  let '(h64_5 y0 y1 y2 y3 y4) := y in
  h128_9 (mul_wide x0 y0) (add128 (mul_wide x0 y1) (mul_wide x1 y0))
    (add128 (add128 (mul_wide x0 y2) (mul_wide x1 y1)) (mul_wide x2 y0))
    (add128 (add128 (add128 (mul_wide x0 y3) (mul_wide x1 y2)) (mul_wide x2 y1)) (mul_wide x3 y0))
    (add128 (add128 (add128 (add128 (mul_wide x0 y4) (mul_wide x1 y3)) (mul_wide x2 y2)) (mul_wide x3 y1)) (mul_wide x4 y0))
    (add128 (add128 (add128 (mul_wide x1 y4) (mul_wide x2 y3)) (mul_wide x3 y2)) (mul_wide x4 y1))
    (add128 (add128 (mul_wide x2 y4) (mul_wide x3 y3)) (mul_wide x4 y2))
    (add128 (mul_wide x3 y4) (mul_wide x4 y3)) (mul_wide x4 y4).

Definition Hacl_Impl_BignumQ_Mul_carry (z : wide9) : limbs10 :=
  let '(x0, carry1) := column_56 (w0 z) in
  let '(x1, carry2) := column_56 (add128 (w1 z) carry1) in
  let '(x2, carry3) := column_56 (add128 (w2 z) carry2) in
  let '(x3, carry4) := column_56 (add128 (w3 z) carry3) in
  let '(x4, carry5) := column_56 (add128 (w4 z) carry4) in
  let '(x5, carry6) := column_56 (add128 (w5 z) carry5) in
  let '(x6, carry7) := column_56 (add128 (w6 z) carry6) in
  let '(x7, carry8) := column_56 (add128 (w7 z) carry7) in
  let '(x8, carry9) := column_56 (add128 (w8 z) carry8) in
  h64_10 x0 x1 x2 x3 x4 x5 x6 x7 x8 (u64 (add128 0 carry9)).

Definition Hacl_Impl_BignumQ_Mul_mod_264 (t : limbs10) : felem :=
  h64_5 (t0 t) (t1 t) (t2 t) (t3 t) (Z.land (t4 t) M40).

Definition Hacl_Impl_BignumQ_Mul_div_248 (t : limbs10) : felem :=
  let z hi lo := Z.lor (shl64 (Z.land hi M24) 32) (Z.shiftr lo 24) in
  h64_5 (z (t5 t) (t4 t)) (z (t6 t) (t5 t)) (z (t7 t) (t6 t)) (z (t8 t) (t7 t)) (z (t9 t) (t8 t)).

Definition Hacl_Impl_BignumQ_Mul_div_264 (t : limbs10) : felem :=
  let z hi lo := Z.lor (shl64 (Z.land hi M40) 16) (Z.shiftr lo 40) in
  h64_5 (z (t5 t) (t4 t)) (z (t6 t) (t5 t)) (z (t7 t) (t6 t)) (z (t8 t) (t7 t)) (z (t9 t) (t8 t)).

(** The estimate of the quotient. *)
Definition Hacl_Impl_BignumQ_Mul_barrett_reduction__1 (t : limbs10) (mu1 : felem) : felem :=
  let q1 := Hacl_Impl_BignumQ_Mul_div_248 t in
  let qmu := Hacl_Impl_BignumQ_Mul_mul_5 q1 mu1 in
  let qmu_ := Hacl_Impl_BignumQ_Mul_carry qmu in
  Hacl_Impl_BignumQ_Mul_div_264 qmu_.

(** The remainder it leaves. *)
Definition Hacl_Impl_BignumQ_Mul_barrett_reduction__2 (t : limbs10) (m1 qmu_264 : felem) : felem :=
  let r := Hacl_Impl_BignumQ_Mul_mod_264 t in
  let qmul := Hacl_Impl_BignumQ_Mul_low_mul_5 qmu_264 m1 in
  Hacl_Impl_BignumQ_Mul_sub_mod_264 r qmul.

Definition Hacl_Impl_BignumQ_Mul_barrett_reduction (t : limbs10) : felem :=
  let m1 := Hacl_Impl_BignumQ_Mul_make_m in
  let mu1 := Hacl_Impl_BignumQ_Mul_make_mu in
  let qmu_264 := Hacl_Impl_BignumQ_Mul_barrett_reduction__1 t mu1 in
  let s := Hacl_Impl_BignumQ_Mul_barrett_reduction__2 t m1 qmu_264 in
  Hacl_Impl_BignumQ_Mul_subm_conditional s.

Definition Hacl_Impl_BignumQ_Mul_mul_modq (x y : felem) : felem :=
  let z := Hacl_Impl_BignumQ_Mul_mul_5 x y in
  let z_ := Hacl_Impl_BignumQ_Mul_carry z in
  Hacl_Impl_BignumQ_Mul_barrett_reduction z_.

Definition Hacl_Impl_BignumQ_Mul_add_modq (x y : felem) : felem :=
  let z0 := u64 (l0 x + l0 y) in
  let z1 := u64 (l1 x + l1 y) in
  let z2 := u64 (l2 x + l2 y) in
  let z3 := u64 (l3 x + l3 y) in
  let z4 := u64 (l4 x + l4 y) in
  let '(x01, carry1) := (Z.land z0 M56, Z.shiftr z0 56) in
  let z1_ := u64 (z1 + carry1) in
  let '(x11, carry2) := (Z.land z1_ M56, Z.shiftr z1_ 56) in
  let z2_ := u64 (z2 + carry2) in
  let '(x21, carry3) := (Z.land z2_ M56, Z.shiftr z2_ 56) in
  let z3_ := u64 (z3 + carry3) in
  let '(x31, carry4) := (Z.land z3_ M56, Z.shiftr z3_ 56) in
  Hacl_Impl_BignumQ_Mul_subm_conditional (h64_5 x01 x11 x21 x31 (u64 (z4 + carry4))).

(** * Theorems *)

Ltac limbs56 := cbn [l0 l1 l2 l3 l4 t0 t1 t2 t3 t4 t5 t6 t7 t8 t9 w0 w1 w2 w3 w4 w5 w6 w7 w8] in *.

(** ** Values *)

Definition val56 (f : felem) : Z := l0 f + 2 ^ 56 * l1 f + 2 ^ 112 * l2 f + 2 ^ 168 * l3 f + 2 ^ 224 * l4 f.

Definition val10 (t : limbs10) : Z :=
  t0 t + 2 ^ 56 * t1 t + 2 ^ 112 * t2 t + 2 ^ 168 * t3 t + 2 ^ 224 * t4 t
  + 2 ^ 280 * t5 t + 2 ^ 336 * t6 t + 2 ^ 392 * t7 t + 2 ^ 448 * t8 t + 2 ^ 504 * t9 t.

Definition ok10 (t : limbs10) : Prop :=
  0 <= t0 t < 2 ^ 56 /\ 0 <= t1 t < 2 ^ 56 /\ 0 <= t2 t < 2 ^ 56 /\ 0 <= t3 t < 2 ^ 56 /\ 0 <= t4 t < 2 ^ 56 /\
  0 <= t5 t < 2 ^ 56 /\ 0 <= t6 t < 2 ^ 56 /\ 0 <= t7 t < 2 ^ 56 /\ 0 <= t8 t < 2 ^ 56 /\ 0 <= t9 t < 2 ^ 56.

Definition val9 (z : wide9) : Z :=
  w0 z + 2 ^ 56 * w1 z + 2 ^ 112 * w2 z + 2 ^ 168 * w3 z + 2 ^ 224 * w4 z
  + 2 ^ 280 * w5 z + 2 ^ 336 * w6 z + 2 ^ 392 * w7 z + 2 ^ 448 * w8 z.

Definition ok9 (z : wide9) : Prop :=
  0 <= w0 z < 2 ^ 115 /\ 0 <= w1 z < 2 ^ 115 /\ 0 <= w2 z < 2 ^ 115 /\ 0 <= w3 z < 2 ^ 115 /\ 0 <= w4 z < 2 ^ 115 /\
  0 <= w5 z < 2 ^ 115 /\ 0 <= w6 z < 2 ^ 115 /\ 0 <= w7 z < 2 ^ 115 /\ 0 <= w8 z < 2 ^ 115.

(** ** Carries *)

Lemma land_M56 x : Z.land x M56 = x mod 2 ^ 56.
Proof. change M56 with (2 ^ 56 - 1). by apply land_mask. Qed.

Lemma div_mod_56 x : x = 2 ^ 56 * (x / 2 ^ 56) + x mod 2 ^ 56 /\ 0 <= x mod 2 ^ 56 < 2 ^ 56.
Proof. split; [by apply Z.div_mod|by apply Z.mod_pos_bound]. Qed.

Ltac split_56 x :=
  let q := fresh "q" in let r := fresh "r" in let E := fresh "E" in let R := fresh "R" in
  destruct (div_mod_56 x) as [E R]; set (q := x / 2 ^ 56) in *; set (r := x mod 2 ^ 56) in *; clearbody q r.

Lemma u64_mod_56 x : u64 x mod 2 ^ 56 = x mod 2 ^ 56.
Proof. unfold u64. rewrite <- Znumtheory.Zmod_div_mod; [done|done|done|]. by exists (2 ^ 8). Qed.

Lemma column_56_eq x : column_56 x = (x mod 2 ^ 56, x / 2 ^ 56).
Proof. unfold column_56. by rewrite land_M56, u64_mod_56, Z.shiftr_div_pow2. Qed.

(** A carry into the next column. *)
Lemma add128_small x y : 0 <= x < 2 ^ 127 -> 0 <= y < 2 ^ 127 -> add128 x y = x + y.
Proof. intros Hx Hy. unfold add128. apply u128_small. lia. Qed.

Ltac carry_56 := rewrite add128_small by lia; match goal with |- context[(?x / 2 ^ 56)] => split_56 x end.

Lemma carry_spec z : ok9 z -> val9 z < 2 ^ 560 -> ok10 (Hacl_Impl_BignumQ_Mul_carry z) /\ val10 (Hacl_Impl_BignumQ_Mul_carry z) = val9 z.
Proof.
  destruct z as [a0 a1 a2 a3 a4 a5 a6 a7 a8]. unfold ok9, ok10, val10, val9, Hacl_Impl_BignumQ_Mul_carry. limbs56.
  intros (H0 & H1 & H2 & H3 & H4 & H5 & H6 & H7 & H8) Hv. rewrite !column_56_eq. split_56 a0.
  do 8 carry_56. limbs56. rewrite add128_small, u64_small by lia. lia.
Qed.

(** ** Products *)

Lemma mul_wide_56 x y : 0 <= x < 2 ^ 56 -> 0 <= y < 2 ^ 56 -> mul_wide x y = x * y /\ 0 <= x * y < 2 ^ 112.
Proof.
  intros Hx Hy. pose proof (prod_bound x y (2 ^ 56) (2 ^ 56) (2 ^ 112) Hx Hy ltac:(lia)) as Hp. split; [|exact Hp].
  unfold mul_wide. apply u128_small. clear -Hp. set (p := x * y) in *. clearbody p. lia.
Qed.

(** The sums of a column do not wrap. *)
Lemma columns_56 a b c d e : 0 <= a < 2 ^ 112 -> 0 <= b < 2 ^ 112 -> 0 <= c < 2 ^ 112 -> 0 <= d < 2 ^ 112 -> 0 <= e < 2 ^ 112 ->
  add128 a b = a + b /\ add128 (a + b) c = a + b + c /\ add128 (a + b + c) d = a + b + c + d /\
  add128 (a + b + c + d) e = a + b + c + d + e /\
  0 <= a + b < 2 ^ 115 /\ 0 <= a + b + c < 2 ^ 115 /\ 0 <= a + b + c + d < 2 ^ 115 /\ 0 <= a + b + c + d + e < 2 ^ 115.
Proof. intros Ha Hb Hc Hd He. rewrite !add128_small by lia. lia. Qed.

Ltac column a b c d e :=
  let E1 := fresh in let E2 := fresh in let E3 := fresh in let E4 := fresh in
  destruct (columns_56 a b c d e) as (E1 & E2 & E3 & E4 & ? & ? & ? & ?); [assumption..|rewrite ?E1, ?E2, ?E3, ?E4; clear E1 E2 E3 E4].

Lemma mul_5_spec x y : below (2 ^ 56) x -> below (2 ^ 56) y ->
  ok9 (Hacl_Impl_BignumQ_Mul_mul_5 x y) /\ val9 (Hacl_Impl_BignumQ_Mul_mul_5 x y) = val56 x * val56 y.
Proof.
  destruct x as [a0 a1 a2 a3 a4], y as [b0 b1 b2 b3 b4]. unfold below. limbs56.
  intros (A0 & A1 & A2 & A3 & A4) (B0 & B1 & B2 & B3 & B4). unfold Hacl_Impl_BignumQ_Mul_mul_5.
  assert (M : forall x y, 0 <= x < 2 ^ 56 -> 0 <= y < 2 ^ 56 -> mul_wide x y = x * y) by (intros; by apply mul_wide_56).
  rewrite !M by assumption.
  assert (P : forall x y, 0 <= x < 2 ^ 56 -> 0 <= y < 2 ^ 56 -> 0 <= x * y < 2 ^ 112) by (intros; by apply mul_wide_56). clear M.
  pose proof (P a0 b0 A0 B0) as P00. pose proof (P a0 b1 A0 B1). pose proof (P a0 b2 A0 B2). pose proof (P a0 b3 A0 B3). pose proof (P a0 b4 A0 B4).
  pose proof (P a1 b0 A1 B0). pose proof (P a1 b1 A1 B1). pose proof (P a1 b2 A1 B2). pose proof (P a1 b3 A1 B3). pose proof (P a1 b4 A1 B4).
  pose proof (P a2 b0 A2 B0). pose proof (P a2 b1 A2 B1). pose proof (P a2 b2 A2 B2). pose proof (P a2 b3 A2 B3). pose proof (P a2 b4 A2 B4).
  pose proof (P a3 b0 A3 B0). pose proof (P a3 b1 A3 B1). pose proof (P a3 b2 A3 B2). pose proof (P a3 b3 A3 B3). pose proof (P a3 b4 A3 B4).
  pose proof (P a4 b0 A4 B0). pose proof (P a4 b1 A4 B1). pose proof (P a4 b2 A4 B2). pose proof (P a4 b3 A4 B3). pose proof (P a4 b4 A4 B4) as P44.
  clear P A0 A1 A2 A3 A4 B0 B1 B2 B3 B4.
  column (a0 * b4) (a1 * b3) (a2 * b2) (a3 * b1) (a4 * b0).
  column (a0 * b3) (a1 * b2) (a2 * b1) (a3 * b0) (a4 * b4). column (a1 * b4) (a2 * b3) (a3 * b2) (a4 * b1) (a0 * b0).
  column (a0 * b2) (a1 * b1) (a2 * b0) (a0 * b0) (a4 * b4). column (a2 * b4) (a3 * b3) (a4 * b2) (a0 * b0) (a4 * b4).
  column (a0 * b1) (a1 * b0) (a2 * b0) (a0 * b0) (a4 * b4). column (a3 * b4) (a4 * b3) (a2 * b0) (a0 * b0) (a4 * b4).
  split; [|unfold val9, val56; limbs56; ring]. unfold ok9. limbs56. split_and!; tauto || (eapply Z.lt_trans; [apply P00|done]) || (eapply Z.lt_trans; [apply P44|done]).
Qed.

(** The carries of the low columns, on numbers. *)
Lemma low_carry_spec c0 c1 c2 c3 c4 : 0 <= c0 < 2 ^ 115 -> 0 <= c1 < 2 ^ 115 -> 0 <= c2 < 2 ^ 115 -> 0 <= c3 < 2 ^ 115 -> 0 <= c4 < 2 ^ 115 ->
  let r := low_carry c0 c1 c2 c3 c4 in
  below (2 ^ 56) r /\ l4 r < 2 ^ 40 /\
  val56 r = (c0 + 2 ^ 56 * c1 + 2 ^ 112 * c2 + 2 ^ 168 * c3 + 2 ^ 224 * c4) mod 2 ^ 264.
Proof.
  intros H0 H1 H2 H3 H4. unfold low_carry. rewrite !column_56_eq. split_56 c0. do 3 carry_56. rewrite add128_small by lia.
  change M40 with (2 ^ 40 - 1). rewrite land_mask by lia.
  assert (E40 : forall x, u64 x mod 2 ^ 40 = x mod 2 ^ 40).
  { intros x. unfold u64. rewrite <- Znumtheory.Zmod_div_mod; [done|done|done|]. by exists (2 ^ 24). }
  rewrite E40. set (u := c4 + _). pose proof (Z.div_mod u (2 ^ 40) ltac:(lia)) as Eu. pose proof (Z.mod_pos_bound u (2 ^ 40) ltac:(lia)) as Hu.
  set (v := u mod 2 ^ 40) in *. set (k := u / 2 ^ 40) in *. clearbody v k. unfold below, val56. limbs56. split; [lia|]. split; [lia|].
  apply (Z.mod_unique_pos _ _ k); [lia|]. subst u. lia.
Qed.

Lemma low_mul_5_spec x y : below (2 ^ 56) x -> below (2 ^ 56) y ->
  let r := Hacl_Impl_BignumQ_Mul_low_mul_5 x y in
  below (2 ^ 56) r /\ l4 r < 2 ^ 40 /\ val56 r = (val56 x * val56 y) mod 2 ^ 264.
Proof.
  intros Hx Hy. destruct (mul_5_spec x y Hx Hy) as [(K0 & K1 & K2 & K3 & K4 & K5 & K6 & K7 & K8) Ev].
  pose proof (low_carry_spec _ _ _ _ _ K0 K1 K2 K3 K4) as L. rewrite <- Ev. clear Ev.
  set (z := Hacl_Impl_BignumQ_Mul_mul_5 x y) in *.
  assert (Em : val9 z mod 2 ^ 264 = (w0 z + 2 ^ 56 * w1 z + 2 ^ 112 * w2 z + 2 ^ 168 * w3 z + 2 ^ 224 * w4 z) mod 2 ^ 264).
  { unfold val9. rewrite <- (Z_mod_plus_full (w0 z + _ + _ + _ + _) (2 ^ 16 * w5 z + 2 ^ 72 * w6 z + 2 ^ 128 * w7 z + 2 ^ 184 * w8 z)).
    f_equal. lia. }
  rewrite Em. clear Em. subst z. destruct x as [a0 a1 a2 a3 a4], y as [b0 b1 b2 b3 b4]. exact L.
Qed.

(** ** Subtraction *)

Lemma lt_spec a b : 0 <= a < 2 ^ 63 -> 0 <= b < 2 ^ 63 -> Hacl_Impl_BignumQ_Mul_lt a b = Z.b2z (a <? b).
Proof.
  intros Ha Hb. unfold Hacl_Impl_BignumQ_Mul_lt. rewrite Z.shiftr_div_pow2 by lia. destruct (Z.ltb_spec a b).
  - replace (u64 (a - b)) with (a - b + 2 ^ 64) by (apply (Z.mod_unique_pos _ _ (-1)); lia).
    symmetry. apply (Z.div_unique_pos _ _ _ (a - b + 2 ^ 63)); cbn [Z.b2z]; lia.
  - rewrite u64_small, Z.div_small by lia. done.
Qed.

Lemma sub_limb_spec x y : 0 <= x < 2 ^ 57 -> 0 <= y <= 2 ^ 56 ->
  exists b, sub_limb x y = (b, x - y + 2 ^ 56 * b) /\ (b = 0 /\ y <= x \/ b = 1 /\ x < y).
Proof.
  intros Hx Hy. unfold sub_limb, Hacl_Impl_BignumQ_Mul_shiftl_56. rewrite lt_spec by lia. exists (Z.b2z (x <? y)).
  destruct (Z.ltb_spec x y); cbn [Z.b2z].
  - change (shl64 1 56) with (2 ^ 56). rewrite !u64_small by (rewrite ?u64_small; lia). split; [f_equal; lia|lia].
  - change (shl64 0 56) with 0. rewrite !u64_small by (rewrite ?u64_small; lia). split; [f_equal; lia|lia].
Qed.

Lemma sub_limbs_spec x y : below (2 ^ 56) x -> below (2 ^ 56) y ->
  exists s0 s1 s2 s3 b, sub_limbs x y = (s0, s1, s2, s3, l4 y + b) /\ 0 <= b <= 1 /\
    0 <= s0 < 2 ^ 56 /\ 0 <= s1 < 2 ^ 56 /\ 0 <= s2 < 2 ^ 56 /\ 0 <= s3 < 2 ^ 56 /\
    val56 (h64_5 s0 s1 s2 s3 (l4 x - l4 y - b)) = val56 x - val56 y.
Proof.
  destruct x as [a0 a1 a2 a3 a4], y as [b0 b1 b2 b3 b4]. unfold below. limbs56.
  intros (A0 & A1 & A2 & A3 & A4) (B0 & B1 & B2 & B3 & B4). unfold sub_limbs. limbs56.
  destruct (sub_limb_spec a0 b0) as (k0 & -> & K0); [lia|lia|]. rewrite (u64_small (b1 + k0)) by lia.
  destruct (sub_limb_spec a1 (b1 + k0)) as (k1 & -> & K1); [lia|lia|]. rewrite (u64_small (b2 + k1)) by lia.
  destruct (sub_limb_spec a2 (b2 + k1)) as (k2 & -> & K2); [lia|lia|]. rewrite (u64_small (b3 + k2)) by lia.
  destruct (sub_limb_spec a3 (b3 + k2)) as (k3 & -> & K3); [lia|lia|]. rewrite (u64_small (b4 + k3)) by lia.
  eexists _, _, _, _, k3. split; [reflexivity|]. unfold val56. limbs56. lia.
Qed.

Lemma sub_mod_264_spec x y : below (2 ^ 56) x -> below (2 ^ 56) y -> l4 x < 2 ^ 40 -> l4 y < 2 ^ 40 ->
  let r := Hacl_Impl_BignumQ_Mul_sub_mod_264 x y in
  below (2 ^ 56) r /\ l4 r < 2 ^ 40 /\ val56 r = (val56 x - val56 y) mod 2 ^ 264.
Proof.
  intros Hx Hy X4 Y4. unfold Hacl_Impl_BignumQ_Mul_sub_mod_264. destruct (sub_limbs_spec x y Hx Hy) as (s0 & s1 & s2 & s3 & b & -> & Hb & S0 & S1 & S2 & S3 & <-).
  assert (0 <= l4 x /\ 0 <= l4 y) as [? ?] by (split; [apply Hx|apply Hy]).
  rewrite lt_spec by lia. unfold below, val56. limbs56. destruct (Z.ltb_spec (l4 x) (l4 y + b)); cbn [Z.b2z].
  - change (shl64 1 40) with (2 ^ 40). rewrite !u64_small by (rewrite ?u64_small; lia). split; [lia|]. split; [lia|].
    apply (Z.mod_unique_pos _ _ (-1)); lia.
  - change (shl64 0 40) with 0. rewrite !u64_small by (rewrite ?u64_small; lia). split; [lia|]. split; [lia|].
    apply (Z.mod_unique_pos _ _ 0); lia.
Qed.

Lemma choose_spec x y (c : bool) : below (2 ^ 64) x -> below (2 ^ 64) y ->
  Hacl_Impl_BignumQ_Mul_choose x y (Z.b2z c) = if c then x else y.
Proof.
  destruct x as [a0 a1 a2 a3 a4], y as [b0 b1 b2 b3 b4]. unfold below. limbs56.
  intros (A0 & A1 & A2 & A3 & A4) (B0 & B1 & B2 & B3 & B4). unfold Hacl_Impl_BignumQ_Mul_choose. limbs56. destruct c.
  - change (u64 (Z.b2z true - 1)) with 0. by rewrite !Z.land_0_r, !Z.lxor_0_l.
  - change (u64 (Z.b2z false - 1)) with (2 ^ 64 - 1).
    assert (Pick : forall x y, 0 <= x < 2 ^ 64 -> 0 <= y < 2 ^ 64 -> Z.lxor (Z.land (Z.lxor y x) (2 ^ 64 - 1)) x = y).
    { intros x y Hx Hy. rewrite land_mask, Z.mod_small, Z.lxor_assoc, Z.lxor_nilpotent, Z.lxor_0_r by (lia || by apply lxor_range). done. }
    by rewrite !Pick.
Qed.

Lemma make_m_value : val56 Hacl_Impl_BignumQ_Mul_make_m = q25519 /\ below (2 ^ 56) Hacl_Impl_BignumQ_Mul_make_m.
Proof. split; [done|]. unfold below, Hacl_Impl_BignumQ_Mul_make_m. limbs56. lia. Qed.

Lemma subm_conditional_spec x : below (2 ^ 56) x -> val56 x < 2 * q25519 ->
  let r := Hacl_Impl_BignumQ_Mul_subm_conditional x in
  below (2 ^ 56) r /\ val56 r = val56 x mod q25519.
Proof.
  intros Hx Hv. unfold Hacl_Impl_BignumQ_Mul_subm_conditional. destruct make_m_value as [Em Hm].
  destruct (sub_limbs_spec x _ Hx Hm) as (s0 & s1 & s2 & s3 & b & -> & Hb & S0 & S1 & S2 & S3 & E). rewrite Em in E.
  change (l4 Hacl_Impl_BignumQ_Mul_make_m) with 0x10000000 in *. assert (0 <= l4 x < 2 ^ 56) by apply Hx.
  destruct (sub_limb_spec (l4 x) (0x10000000 + b)) as (k & -> & K); [lia|lia|].
  assert (Ht : below (2 ^ 56) (h64_5 s0 s1 s2 s3 (l4 x - (0x10000000 + b) + 2 ^ 56 * k))) by (unfold below; limbs56; lia).
  assert (W : forall f, below (2 ^ 56) f -> below (2 ^ 64) f) by (intros f; by apply below_mono).
  assert (0 <= val56 x) by (destruct Hx as (?&?&?&?&?); unfold val56; lia).
  unfold val56 in E at 1. limbs56. unfold q25519 in *.
  destruct K as [[-> K]|[-> K]].
  - rewrite (choose_spec x _ false) by (by apply W). split; [done|]. apply (Z.mod_unique_pos _ _ 1); unfold val56; limbs56; unfold val56 in *; lia.
  - rewrite (choose_spec x _ true) by (by apply W). split; [done|]. symmetry. apply Z.mod_small. lia.
Qed.

(** ** Barrett reduction *)

(** Two neighbouring limbs, shifted right by [n] bits. *)
Lemma shifted_limb hi lo n : 0 <= n <= 40 -> 16 <= 56 - n -> 0 <= hi < 2 ^ 56 -> 0 <= lo < 2 ^ 56 ->
  Z.lor (shl64 (Z.land hi (2 ^ n - 1)) (56 - n)) (Z.shiftr lo n) = 2 ^ (56 - n) * (hi mod 2 ^ n) + lo / 2 ^ n.
Proof.
  intros Hn Hm Hhi Hlo. rewrite land_mask, Z.shiftr_div_pow2 by lia. assert (0 < 2 ^ n) by (apply Z.pow_pos_nonneg; lia).
  rewrite shl_lor; [|lia|].
  - rewrite (Z.mod_small (hi mod _)); [done|]. pose proof (Z.mod_pos_bound hi (2 ^ n) ltac:(lia)). split; [lia|].
    eapply Z.lt_le_trans; [apply H0|]. apply Z.pow_le_mono_r; lia.
  - split; [apply Z.div_pos; lia|]. apply Z.div_lt_upper_bound; [lia|]. rewrite <- Z.pow_add_r by lia. replace (n + (56 - n)) with 56 by lia. lia.
Qed.

Ltac split_pow n x :=
  let q := fresh "q" in let r := fresh "r" in let E := fresh "E" in let R := fresh "R" in
  pose proof (Z.div_mod x (2 ^ n) ltac:(lia)) as E; pose proof (Z.mod_pos_bound x (2 ^ n) ltac:(lia)) as R;
  set (q := x / 2 ^ n) in *; set (r := x mod 2 ^ n) in *; clearbody q r.

Lemma div_248_spec t : ok10 t -> t9 t < 2 ^ 24 ->
  below (2 ^ 56) (Hacl_Impl_BignumQ_Mul_div_248 t) /\ val56 (Hacl_Impl_BignumQ_Mul_div_248 t) = val10 t / 2 ^ 248.
Proof.
  destruct t as [a0 a1 a2 a3 a4 a5 a6 a7 a8 a9]. unfold ok10, Hacl_Impl_BignumQ_Mul_div_248, val10. limbs56.
  intros (H0 & H1 & H2 & H3 & H4 & H5 & H6 & H7 & H8 & H9) L9. change M24 with (2 ^ 24 - 1). change 32 with (56 - 24).
  rewrite !shifted_limb by lia. change (56 - 24) with 32. rewrite (Z.mod_small a9) by lia.
  split_pow 24 a4. split_pow 24 a5. split_pow 24 a6. split_pow 24 a7. split_pow 24 a8.
  unfold below, val56. limbs56. split; [lia|].
  apply (Z.div_unique_pos _ _ _ (a0 + 2 ^ 56 * a1 + 2 ^ 112 * a2 + 2 ^ 168 * a3 + 2 ^ 224 * r)); lia.
Qed.

Lemma div_264_spec t : ok10 t -> t9 t < 2 ^ 40 ->
  below (2 ^ 56) (Hacl_Impl_BignumQ_Mul_div_264 t) /\ val56 (Hacl_Impl_BignumQ_Mul_div_264 t) = val10 t / 2 ^ 264.
Proof.
  destruct t as [a0 a1 a2 a3 a4 a5 a6 a7 a8 a9]. unfold ok10, Hacl_Impl_BignumQ_Mul_div_264, val10. limbs56.
  intros (H0 & H1 & H2 & H3 & H4 & H5 & H6 & H7 & H8 & H9) L9. change M40 with (2 ^ 40 - 1). change 16 with (56 - 40).
  rewrite !shifted_limb by lia. change (56 - 40) with 16. rewrite (Z.mod_small a9) by lia.
  split_pow 40 a4. split_pow 40 a5. split_pow 40 a6. split_pow 40 a7. split_pow 40 a8.
  unfold below, val56. limbs56. split; [lia|].
  apply (Z.div_unique_pos _ _ _ (a0 + 2 ^ 56 * a1 + 2 ^ 112 * a2 + 2 ^ 168 * a3 + 2 ^ 224 * r)); lia.
Qed.

Lemma mod_264_spec t : ok10 t ->
  let r := Hacl_Impl_BignumQ_Mul_mod_264 t in below (2 ^ 56) r /\ l4 r < 2 ^ 40 /\ val56 r = val10 t mod 2 ^ 264.
Proof.
  destruct t as [a0 a1 a2 a3 a4 a5 a6 a7 a8 a9]. unfold ok10, Hacl_Impl_BignumQ_Mul_mod_264, val10. limbs56.
  intros (H0 & H1 & H2 & H3 & H4 & H5 & H6 & H7 & H8 & H9). change M40 with (2 ^ 40 - 1). rewrite land_mask by lia.
  split_pow 40 a4. unfold below, val56. limbs56. split; [lia|]. split; [lia|].
  apply (Z.mod_unique_pos _ _ (q + 2 ^ 16 * a5 + 2 ^ 72 * a6 + 2 ^ 128 * a7 + 2 ^ 184 * a8 + 2 ^ 240 * a9)); lia.
Qed.

(** [2^512 / q], and the remainder of the division. *)
Definition mu25519 : Z := 1852673427797059126777135760139006525645217721299241702126143248052143860224795.
Definition mu_rest : Z := 1627715501170711445284395025044413883736156588369414752970002579683115011841.

Lemma make_mu_value : val56 Hacl_Impl_BignumQ_Mul_make_mu = mu25519 /\ below (2 ^ 56) Hacl_Impl_BignumQ_Mul_make_mu.
Proof. split; [reflexivity|]. unfold below, Hacl_Impl_BignumQ_Mul_make_mu. limbs56. lia. Qed.

(** The error of the estimated quotient [e], with [m q = B C - g]. *)
Lemma quotient_error B C q m g t a ra e re : 0 < C -> t = B * a + ra -> 0 <= ra < B -> a * m = C * e + re -> 0 <= re < C ->
  0 <= a < C -> m * q = B * C - g -> 0 <= g -> 0 < q -> g + B <= q -> 0 <= t - e * q < 2 * q.
Proof.
  intros HC Et Hra Ee Hre Ha Em Hg Hq Hgb.
  assert (E : C * (t - e * q) = C * ra + a * g + re * q).
  { assert (a * m * q = (C * e + re) * q) by (by rewrite Ee). rewrite <- Z.mul_assoc, Em in H. rewrite Et. lia. }
  assert (0 <= C * ra + a * g + re * q) by nia. assert (C * ra + a * g + re * q < C * (2 * q)) by nia.
  rewrite <- E in *. split; [|apply (Z.mul_lt_mono_pos_l C); lia]. apply (Z.mul_le_mono_pos_l _ _ C); lia.
Qed.

(** The estimate is at most one too small. *)
Lemma quotient_estimate t : 0 <= t < 2 ^ 512 ->
  let e := t / 2 ^ 248 * mu25519 / 2 ^ 264 in 0 <= t - e * q25519 < 2 * q25519.
Proof.
  intros Ht. eapply (quotient_error (2 ^ 248) (2 ^ 264) q25519 mu25519 mu_rest).
  - done.
  - by apply Z.div_mod.
  - by apply Z.mod_pos_bound.
  - by apply Z.div_mod.
  - by apply Z.mod_pos_bound.
  - split; [apply Z.div_pos; [apply Ht|done]|apply Z.div_lt_upper_bound; [done|apply Ht]].
  - reflexivity.
  - done.
  - done.
  - by vm_compute.
Qed.

Lemma barrett_reduction_spec t : ok10 t -> t9 t < 2 ^ 8 ->
  let r := Hacl_Impl_BignumQ_Mul_barrett_reduction t in
  below (2 ^ 56) r /\ val56 r = val10 t mod q25519.
Proof.
  intros Ht L9. unfold Hacl_Impl_BignumQ_Mul_barrett_reduction, Hacl_Impl_BignumQ_Mul_barrett_reduction__1, Hacl_Impl_BignumQ_Mul_barrett_reduction__2. cbv zeta.
  assert (Hv : 0 <= val10 t < 2 ^ 512) by (destruct t; unfold ok10, val10 in *; limbs56; lia).
  destruct make_mu_value as [Vmu Bmu], make_m_value as [Vm Bm].
  destruct (div_248_spec t Ht ltac:(lia)) as [B1 V1]. set (q1 := Hacl_Impl_BignumQ_Mul_div_248 t) in *. clearbody q1.
  destruct (mul_5_spec q1 _ B1 Bmu) as [O2 V2]. set (z := Hacl_Impl_BignumQ_Mul_mul_5 q1 _) in *. clearbody z. rewrite Vmu, V1 in V2.
  assert (Hz : 0 <= val9 z < 2 ^ 264 * 2 ^ 261).
  { rewrite V2. assert (0 <= val10 t / 2 ^ 248 < 2 ^ 264) by (split; [apply Z.div_pos; lia|apply Z.div_lt_upper_bound; lia]).
    apply (prod_bound _ _ (2 ^ 264) (2 ^ 261)); [done|done|done]. }
  destruct (carry_spec z O2 ltac:(lia)) as [O3 V3]. set (c := Hacl_Impl_BignumQ_Mul_carry z) in *. clearbody c.
  assert (L : t9 c < 2 ^ 40) by (destruct c; unfold ok10, val10 in *; limbs56; lia).
  destruct (div_264_spec c O3 L) as [B4 V4]. set (e := Hacl_Impl_BignumQ_Mul_div_264 c) in *. clearbody e. rewrite V3, V2 in V4.
  destruct (low_mul_5_spec e _ B4 Bm) as (B5 & L5 & V5). set (m := Hacl_Impl_BignumQ_Mul_low_mul_5 e _) in *. clearbody m. rewrite Vm in V5.
  destruct (mod_264_spec t Ht) as (B6 & L6 & V6). set (r := Hacl_Impl_BignumQ_Mul_mod_264 t) in *. clearbody r.
  destruct (sub_mod_264_spec r m B6 B5 L6 L5) as (B7 & L7 & V7). set (s := Hacl_Impl_BignumQ_Mul_sub_mod_264 r m) in *. clearbody s.
  rewrite V6, V5, <- Zminus_mod in V7. pose proof (quotient_estimate (val10 t) Hv) as Q. cbv zeta in Q. rewrite <- V4 in Q.
  assert (H2q : 2 * q25519 < 2 ^ 264) by done. rewrite Z.mod_small in V7 by (split; [apply Q|eapply Z.lt_trans; [apply Q|exact H2q]]).
  destruct (subm_conditional_spec s B7) as [B8 V8]; [rewrite V7; apply Q|]. split; [exact B8|]. rewrite V8, V7.
  rewrite <- (Z_mod_plus_full _ (val56 e)). f_equal. lia.
Qed.

Lemma mul_modq_spec x y : below (2 ^ 56) x -> below (2 ^ 56) y -> val56 x * val56 y < 2 ^ 512 ->
  let r := Hacl_Impl_BignumQ_Mul_mul_modq x y in
  below (2 ^ 56) r /\ val56 r = (val56 x * val56 y) mod q25519.
Proof.
  intros Hx Hy Hv. unfold Hacl_Impl_BignumQ_Mul_mul_modq. cbv zeta. destruct (mul_5_spec x y Hx Hy) as [O1 V1].
  destruct (carry_spec _ O1 ltac:(lia)) as [O2 V2]. rewrite <- V1, <- V2. apply barrett_reduction_spec; [done|].
  set (c := Hacl_Impl_BignumQ_Mul_carry _) in *. clearbody c. rewrite <- V1, <- V2 in Hv.
  clear -O2 Hv. destruct c. unfold ok10, val10 in *. limbs56. lia.
Qed.

Lemma add_modq_spec x y : below (2 ^ 56) x -> below (2 ^ 56) y -> val56 x < q25519 -> val56 y < q25519 ->
  let r := Hacl_Impl_BignumQ_Mul_add_modq x y in
  below (2 ^ 56) r /\ val56 r = (val56 x + val56 y) mod q25519.
Proof.
  destruct x as [a0 a1 a2 a3 a4], y as [b0 b1 b2 b3 b4]. unfold below. limbs56.
  intros (A0 & A1 & A2 & A3 & A4) (B0 & B1 & B2 & B3 & B4) Hx Hy. unfold Hacl_Impl_BignumQ_Mul_add_modq. limbs56. cbv zeta.
  rewrite (u64_small (a0 + b0)), (u64_small (a1 + b1)), (u64_small (a2 + b2)), (u64_small (a3 + b3)), (u64_small (a4 + b4)) by lia.
  rewrite !land_M56, !Z.shiftr_div_pow2 by lia. split_56 (a0 + b0). rewrite (u64_small (a1 + b1 + q)) by lia. split_56 (a1 + b1 + q).
  rewrite (u64_small (a2 + b2 + q0)) by lia. split_56 (a2 + b2 + q0). rewrite (u64_small (a3 + b3 + q1)) by lia. split_56 (a3 + b3 + q1).
  rewrite (u64_small (a4 + b4 + q2)) by lia.
  assert (Ev : val56 (h64_5 r r0 r1 r2 (a4 + b4 + q2)) = val56 (h64_5 a0 a1 a2 a3 a4) + val56 (h64_5 b0 b1 b2 b3 b4)) by (unfold val56; limbs56; lia).
  rewrite <- Ev. apply subm_conditional_spec; [|lia]. unfold below, val56, q25519 in *. limbs56. lia.
Qed.

(** ** Bytes *)

Lemma digits_56 v : let d i := v / 2 ^ i mod 2 ^ 56 in
  v mod 2 ^ 504 = d 0 + 2 ^ 56 * d 56 + 2 ^ 112 * d 112 + 2 ^ 168 * d 168 + 2 ^ 224 * d 224
    + 2 ^ 280 * d 280 + 2 ^ 336 * d 336 + 2 ^ 392 * d 392 + 2 ^ 448 * d 448.
Proof.
  cbv zeta. assert (S : forall k n k' n', 0 <= k -> 0 <= n -> k' = k + 56 -> n' = 56 + n ->
    v / 2 ^ k mod 2 ^ n' = v / 2 ^ k mod 2 ^ 56 + 2 ^ 56 * (v / 2 ^ k' mod 2 ^ n)).
  { intros k n k' n' Hk Hn -> ->. rewrite Z.pow_add_r, Z.rem_mul_r by (lia || (apply Z.pow_pos_nonneg; lia)).
    rewrite Z.div_div by lia. by rewrite <- Z.pow_add_r by lia. }
  rewrite <- (Z.div_1_r v) at 1. change (v / 1) with (v / 2 ^ 0).
  rewrite (S 0 448 56 504), (S 56 392 112 448), (S 112 336 168 392), (S 168 280 224 336), (S 224 224 280 280), (S 280 168 336 224),
    (S 336 112 392 168), (S 392 56 448 112) by lia. lia.
Qed.

(** A limb is a window of seven bytes out of eight. *)
Lemma load_limb s off : (off + 8 <= length s)%nat -> Z.land (load64_le s off) M56 = le_val s / 2 ^ (8 * Z.of_nat off) mod 2 ^ 56.
Proof.
  intros Hl. rewrite land_M56, load64_le_spec by done. change 256 with (2 ^ 8). rewrite <- Z.pow_mul_r by lia.
  rewrite <- (window (le_val s) (8 * Z.of_nat off) 64 0 (8 * Z.of_nat off) 56) by lia. by rewrite Z.div_1_r.
Qed.

Lemma load_64_bytes_spec s : length s = 64%nat ->
  let t := Hacl_Impl_Load56_load_64_bytes s in ok10 t /\ t9 t < 2 ^ 8 /\ val10 t = le_val s.
Proof.
  intros Hs. unfold Hacl_Impl_Load56_load_64_bytes. cbv zeta. rewrite !load_limb by lia. rewrite nth_le_val by lia.
  pose proof (le_val_range s) as Hr. rewrite Hs in Hr. change (256 ^ Z.of_nat 64) with (2 ^ 512) in Hr. set (v := le_val s) in *. clearbody v.
  change (256 ^ Z.of_nat 63) with (2 ^ 504). assert (0 <= v / 2 ^ 504 < 2 ^ 8) by (split; [apply Z.div_pos; lia|apply Z.div_lt_upper_bound; lia]).
  rewrite (Z.mod_small _ 256) by lia. unfold ok10, val10. limbs56. split; [split_and!; try (apply Z.mod_pos_bound; lia); lia|]. split; [lia|].
  rewrite (Z.div_mod v (2 ^ 504)) at 11 by lia. rewrite (digits_56 v). exact (Z.add_comm _ _).
Qed.

Lemma load_32_bytes_spec s : length s = 32%nat ->
  let f := Hacl_Impl_Load56_load_32_bytes s in below (2 ^ 56) f /\ l4 f < 2 ^ 32 /\ val56 f = le_val s.
Proof.
  intros Hs. unfold Hacl_Impl_Load56_load_32_bytes. cbv zeta. rewrite !load_limb by lia. rewrite load32_le_spec by lia.
  pose proof (le_val_range s) as Hr. rewrite Hs in Hr. change (256 ^ Z.of_nat 32) with (2 ^ 256) in Hr. set (v := le_val s) in *. clearbody v.
  change (256 ^ Z.of_nat 28) with (2 ^ 224). assert (Hh : 0 <= v / 2 ^ 224 < 2 ^ 32) by (split; [apply Z.div_pos; lia|apply Z.div_lt_upper_bound; lia]).
  rewrite (Z.mod_small _ (2 ^ 32)) by lia. unfold below, val56. limbs56. split; [split_and!; try (apply Z.mod_pos_bound; lia); lia|]. split; [lia|].
  pose proof (digits_56 v) as D. cbv beta zeta in D.
  assert (Z0 : forall k, 256 <= k -> v / 2 ^ k = 0).
  { intros k Hk. apply Z.div_small. split; [lia|]. eapply Z.lt_le_trans; [apply Hr|]. apply Z.pow_le_mono_r; lia. }
  rewrite (Z0 280), (Z0 336), (Z0 392), (Z0 448), (Z.mod_small v), (Z.mod_small (v / 2 ^ 224)) in D by lia.
  change (8 * Z.of_nat 0) with 0. change (8 * Z.of_nat 7) with 56. change (8 * Z.of_nat 14) with 112. change (8 * Z.of_nat 21) with 168.
  change (0 mod 2 ^ 56) with 0 in D. lia.
Qed.

Lemma length_put b off s : (off + length s <= length b)%nat -> length (put b off s) = length b.
Proof. intros Hl. unfold put. rewrite !length_app, length_take, length_drop. lia. Qed.

(** A store that overwrites the last byte, which is zero, of a number stored
    before it appends its own number. *)
Lemma put_next s n x : (n <= length s)%nat -> le_val (take n (put s n x)) = le_val (take n s) /\
  take (n + length x) (put s n x) = take n s ++ x.
Proof.
  intros Hn. unfold put. split; [by rewrite take_app_le, take_take, Nat.min_id by (rewrite length_take; lia)|].
  rewrite app_assoc, take_app_le by (rewrite length_app, length_take; lia). apply take_ge. rewrite length_app, length_take. lia.
Qed.

Lemma store64_low b : 0 <= b < 2 ^ 56 -> le_val (take 7 (store64_le b)) = b.
Proof. intros Hb. rewrite le_val_take by (unfold store64_le; rewrite length_le_bytes; lia). rewrite store64_le_val by lia. by apply Z.mod_small. Qed.

(** One step of the overlapping stores. *)
Lemma store_step s n b : (n + 8 <= length s)%nat -> 0 <= b < 2 ^ 56 ->
  length (put s n (store64_le b)) = length s /\
  le_val (take (n + 7) (put s n (store64_le b))) = le_val (take n s) + 256 ^ Z.of_nat n * b.
Proof.
  intros Hn Hb. assert (L : length (store64_le b) = 8%nat) by apply length_le_bytes. split; [apply length_put; lia|].
  destruct (put_next s n (store64_le b)) as [_ E]; [lia|]. rewrite L in E.
  assert (Et : take (n + 7) (put s n (store64_le b)) = take n s ++ take 7 (store64_le b)).
  { rewrite <- (Nat.min_l (n + 7) (n + 8)) by lia. rewrite <- take_take, E, take_app_ge by (rewrite length_take; lia).
    f_equal. f_equal. rewrite length_take. lia. }
  rewrite Et, le_val_app, store64_low by done. by rewrite length_take_le by lia.
Qed.

Lemma store_56_spec out f : length out = 32%nat -> below (2 ^ 56) f -> l4 f < 2 ^ 32 ->
  length (Hacl_Impl_Store56_store_56 out f) = 32%nat /\ le_val (Hacl_Impl_Store56_store_56 out f) = val56 f.
Proof.
  destruct f as [b0 b1 b2 b3 b4]. unfold below, val56. limbs56. intros Hl (B0 & B1 & B2 & B3 & B4) L4.
  unfold Hacl_Impl_Store56_store_56. rewrite (Z.mod_small b4) by lia.
  destruct (store_step out 0 b0) as [M0 V0]; [lia|done|]. set (o0 := put out 0 _) in *.
  destruct (store_step o0 7 b1) as [M1 V1]; [lia|done|]. set (o1 := put o0 7 _) in *.
  destruct (store_step o1 14 b2) as [M2 V2]; [lia|done|]. set (o2 := put o1 14 _) in *.
  destruct (store_step o2 21 b3) as [M3 V3]; [lia|done|]. set (o3 := put o2 21 _) in *. clearbody o0 o1 o2 o3.
  assert (L : length (store32_le b4) = 4%nat) by apply length_le_bytes.
  assert (Lp : length (put o3 28 (store32_le b4)) = 32%nat) by (rewrite length_put; lia). split; [exact Lp|].
  destruct (put_next o3 28 (store32_le b4)) as [_ E]; [lia|]. rewrite L, take_ge in E by lia. rewrite E.
  rewrite le_val_app, length_take_le by lia. change 28%nat with (21 + 7)%nat at 1. rewrite V3. change 21%nat with (14 + 7)%nat at 1. rewrite V2.
  change 14%nat with (7 + 7)%nat at 1. rewrite V1. change 7%nat with (0 + 7)%nat at 1. rewrite V0. cbn [take le_val].
  unfold store32_le. rewrite le_val_bytes. change (256 ^ Z.of_nat 4) with (2 ^ 32). rewrite Z.mod_small by lia.
  change (256 ^ Z.of_nat 28) with (2 ^ 224). change (256 ^ Z.of_nat 21) with (2 ^ 168). change (256 ^ Z.of_nat 14) with (2 ^ 112).
  change (256 ^ Z.of_nat 7) with (2 ^ 56). change (256 ^ Z.of_nat 0) with 1. change (le_val (take 0 out)) with 0. lia.
Qed.

Lemma gte_q_spec s : below (2 ^ 56) s -> Hacl_Impl_Ed25519_PointEqual_gte_q s = (q25519 <=? val56 s).
Proof.
  destruct s as [s0 s1 s2 s3 s4]. unfold below, Hacl_Impl_Ed25519_PointEqual_gte_q, val56, q25519. limbs56. intros (S0 & S1 & S2 & S3 & S4).
  repeat match goal with |- context[if ?b then _ else _] => let E := fresh "E" in destruct b eqn:E end;
    rewrite ?Z.ltb_lt, ?Z.ltb_ge, ?Z.leb_le, ?Z.leb_gt in *; symmetry; rewrite ?Z.leb_le, ?Z.leb_gt; lia.
Qed.

(** C22. The arithmetic of scalars in five limbs of 56 bits is that of the integers
    modulo the order [q]: the Barrett reduction of 64 bytes is the remainder by [q],
    with no final correction left out; products and sums are those modulo [q]; the
    comparison is with [q]; and the 32 bytes that are stored hold the scalar. *)
Theorem scalar_arithmetic h x y : length h = 64%nat -> below (2 ^ 56) x -> below (2 ^ 56) y -> val56 x < q25519 -> val56 y < 2 ^ 256 ->
  val56 (Hacl_Impl_BignumQ_Mul_barrett_reduction (Hacl_Impl_Load56_load_64_bytes h)) = le_val h mod q25519 /\
  val56 (Hacl_Impl_BignumQ_Mul_mul_modq x y) = (val56 x * val56 y) mod q25519 /\
  (val56 y < q25519 -> val56 (Hacl_Impl_BignumQ_Mul_add_modq x y) = (val56 x + val56 y) mod q25519) /\
  Hacl_Impl_Ed25519_PointEqual_gte_q y = (q25519 <=? val56 y) /\
  le_val (Hacl_Impl_Store56_store_56 (replicate 32 NUL) x) = val56 x.
Proof.
  intros Hh Hx Hy Lx Ly. assert (0 <= val56 x /\ 0 <= val56 y) as [Px Py] by (destruct x, y; unfold below, val56 in *; limbs56; lia).
  destruct (load_64_bytes_spec h Hh) as (O & T & <-). split; [exact (proj2 (barrett_reduction_spec _ O T))|].
  split; [apply mul_modq_spec; try assumption; unfold q25519 in Lx; nia|]. split; [intros L; exact (proj2 (add_modq_spec x y Hx Hy Lx L))|].
  split; [exact (gte_q_spec y Hy)|]. apply store_56_spec; [reflexivity|exact Hx|].
  clear - Hx Lx. destruct x as [a0 a1 a2 a3 a4]. unfold below, val56, q25519 in *. limbs56. lia.
Qed.

Lemma scalar_arithmetic_witness : val56 (Hacl_Impl_BignumQ_Mul_mul_modq (h64_5 7 0 0 0 1) (h64_5 5 0 0 0 2))
  = (val56 (h64_5 7 0 0 0 1) * val56 (h64_5 5 0 0 0 2)) mod q25519.
Proof.
  refine (proj1 (proj2 (scalar_arithmetic (replicate 64 NUL) (h64_5 7 0 0 0 1) (h64_5 5 0 0 0 2) eq_refl _ _ eq_refl eq_refl)));
    unfold below; cbn [l0 l1 l2 l3 l4]; lia.
Defined.
