(* ===== verification/Curve25519.v ===== *)
(** * The curve Ed25519

    The group of Edwards.v over the field of Prime25519.v with the constants of
    contrib/ed25519: [d] is not a square and -1 is one, the base point is on the
    curve, and [q] times the base point is the neutral element.  The last is
    computed in extended coordinates with machine integers. *)

From Stdlib Require Import Zmod Field_tac Ring.
From Bignums Require Import BigZ.
From S2P Require Import Prelude Word Fe25519 Prime25519 Edwards EdPoint ModQ.

Local Open Scope Z_scope.

Definition c_d : Fp := fe (fval d1).
Definition c_i : Fp := fe (fval sqrt_m1).

Definition on_c (P : Fp * Fp) : Prop := on_curve 1%fp Zmod.add Zmod.mul Zmod.sub c_d P.
Definition c_zero : Fp * Fp := ed_zero 0%fp 1%fp.
Definition c_add (P Q : Fp * Fp) : Fp * Fp := ed_add 1%fp Zmod.add Zmod.mul Zmod.sub Zmod.mdiv c_d P Q.
Definition c_mul (n : nat) (P : Fp * Fp) : Fp * Fp := ed_mul 0%fp 1%fp Zmod.add Zmod.mul Zmod.sub Zmod.mdiv c_d n P.
Definition c_rep (X Y Z T : Fp) (P : Fp * Fp) : Prop := represents 0%fp Zmod.mul X Y Z T P.

(** The base point. *)
Definition base_x : Fp := fe (fval (getx Hacl_Impl_Ed25519_G_make_g)).
Definition base_y : Fp := fe (fval (gety Hacl_Impl_Ed25519_G_make_g)).
Definition base : Fp * Fp := (base_x, base_y).

(** ** Multiples with machine integers *)

Record big_ext := mk_big { bX : bigZ; bY : bigZ; bZ : bigZ; bT : bigZ }.

Definition big_p : bigZ := BigZ.of_Z p25519.
Definition big_d2 : bigZ := BigZ.of_Z (2 * fval d1).
Definition mulp (x y : bigZ) : bigZ := BigZ.modulo (BigZ.mul x y) big_p.

Definition big_add (P Q : big_ext) : big_ext :=
  let A := mulp (BigZ.sub (bY P) (bX P)) (BigZ.sub (bY Q) (bX Q)) in
  let B := mulp (BigZ.add (bY P) (bX P)) (BigZ.add (bY Q) (bX Q)) in
  let C := mulp (mulp big_d2 (bT P)) (bT Q) in
  let D := mulp (BigZ.mul BigZ.two (bZ P)) (bZ Q) in
  let E := BigZ.sub B A in
  let F := BigZ.sub D C in
  let G := BigZ.add D C in
  let H := BigZ.add B A in
  mk_big (mulp E F) (mulp G H) (mulp G F) (mulp E H).

Definition big_of (x y : Z) : big_ext :=
  mk_big (BigZ.of_Z x) (BigZ.of_Z y) BigZ.one (BigZ.of_Z (x * y)).

Fixpoint big_mul (n : positive) (P : big_ext) : big_ext :=
  match n with
  | xH => P
  | xO n => let Q := big_mul n P in big_add Q Q
  | xI n => let Q := big_mul n P in big_add P (big_add Q Q)
  end.

(** The quotients by [Z], when the computed multiple has these coordinates. *)
Definition big_is (P : big_ext) (x y : Z) : bool :=
  BigZ.eqb (mulp (bX P) BigZ.one) (mulp (BigZ.of_Z x) (bZ P)) && BigZ.eqb (mulp (bY P) BigZ.one) (mulp (BigZ.of_Z y) (bZ P)).

(** * Theorems *)

Lemma c_i_square : (c_i * c_i = - (1))%fp.
Proof. by apply Zmod.unsigned_inj; vm_compute. Qed.

Lemma c_d_nonsquare (s : Fp) : (s * s)%fp <> c_d.
Proof. apply Fp_nonsquare. by vm_compute. Qed.

Lemma c_two_nonzero : (1 + 1)%fp <> 0%fp.
Proof. intros E. apply (f_equal Zmod.unsigned) in E. by vm_compute in E. Qed.

(** [d = -121665 / 121666]. *)
Lemma c_d_value : fval d1 * 121666 ≡p - 121665.
Proof. apply eqp_mod. by vm_compute. Qed.

(** ** The group *)

(** A lemma of Edwards.v at this curve. *)
Local Ltac at_25519 L := exact (L 0%fp 1%fp Zmod.add Zmod.mul Zmod.sub Zmod.opp Zmod.mdiv Zmod.inv Fp_field Fp_dec
  c_d c_i c_i_square c_d_nonsquare c_two_nonzero).

Lemma c_zero_on : on_c c_zero.
Proof. exact (ed_zero_on _ _ _ _ _ _ _ _ Fp_field c_d). Qed.

Lemma c_add_on P Q : on_c P -> on_c Q -> on_c (c_add P Q).
Proof. revert P Q. at_25519 (@ed_add_on Fp). Qed.

Lemma c_add_comm P Q : c_add P Q = c_add Q P.
Proof. exact (ed_add_comm _ _ _ _ _ _ _ _ Fp_field c_d P Q). Qed.

Lemma c_add_zero P : c_add c_zero P = P.
Proof. exact (ed_add_zero _ _ _ _ _ _ _ _ Fp_field c_d P). Qed.

Lemma c_add_assoc P Q R : on_c P -> on_c Q -> on_c R -> c_add (c_add P Q) R = c_add P (c_add Q R).
Proof. revert P Q R. at_25519 (@ed_add_assoc Fp). Qed.

Lemma c_mul_on n P : on_c P -> on_c (c_mul n P).
Proof. revert n P. at_25519 (@ed_mul_on Fp). Qed.

Lemma c_mul_add m n P : on_c P -> c_mul (m + n) P = c_add (c_mul m P) (c_mul n P).
Proof. revert m n P. at_25519 (@ed_mul_add Fp). Qed.

Lemma c_mul_mul m n P : on_c P -> c_mul (m * n) P = c_mul m (c_mul n P).
Proof. revert m n P. at_25519 (@ed_mul_mul Fp). Qed.

Lemma c_mul_mod q n P : on_c P -> q <> 0%nat -> c_mul q P = c_zero -> c_mul n P = c_mul (n mod q) P.
Proof. revert q n P. at_25519 (@ed_mul_mod Fp). Qed.

Lemma c_abscissa_sign x x' y : on_c (x, y) -> on_c (x', y) -> x = x' \/ x = (- x')%fp.
Proof. exact (abscissa_up_to_sign _ _ _ _ _ _ _ _ Fp_field Fp_dec c_d c_i c_i_square c_d_nonsquare x x' y). Qed.

Lemma on_c_abscissa x y : on_c (x, y) <-> (x * x = (y * y - 1) / (1 + c_d * y * y))%fp.
Proof. exact (on_curve_abscissa _ _ _ _ _ _ _ _ Fp_field Fp_dec c_d c_i c_i_square c_d_nonsquare x y). Qed.

Lemma c_rep_zero : c_rep 0%fp 1%fp 1%fp 0%fp c_zero.
Proof. exact (represents_zero _ _ _ _ _ _ _ _ Fp_field). Qed.

Lemma c_rep_add X1 Y1 Z1 T1 X2 Y2 Z2 T2 P Q : on_c P -> on_c Q -> c_rep X1 Y1 Z1 T1 P -> c_rep X2 Y2 Z2 T2 Q ->
  let A := ((Y1 - X1) * (Y2 - X2))%fp in
  let B := ((Y1 + X1) * (Y2 + X2))%fp in
  let C := ((1 + 1) * c_d * T1 * T2)%fp in
  let D := ((1 + 1) * Z1 * Z2)%fp in
  c_rep ((B - A) * (D - C))%fp ((D + C) * (B + A))%fp ((D + C) * (D - C))%fp ((B - A) * (B + A))%fp (c_add P Q).
Proof. revert X1 Y1 Z1 T1 X2 Y2 Z2 T2 P Q. at_25519 (@represents_add Fp). Qed.

Lemma c_rep_double X Y Z T P : on_c P -> c_rep X Y Z T P ->
  let A := (X * X)%fp in
  let B := (Y * Y)%fp in
  let C := ((1 + 1) * (Z * Z))%fp in
  let H := (A + B)%fp in
  let E := (H - (X + Y) * (X + Y))%fp in
  let G := (A - B)%fp in
  let D := (C + G)%fp in
  c_rep (D * E)%fp (G * H)%fp (D * G)%fp (H * E)%fp (c_add P P).
Proof. revert X Y Z T P. at_25519 (@represents_double Fp). Qed.

Lemma c_rep_equal X1 Y1 Z1 T1 X2 Y2 Z2 T2 P Q : c_rep X1 Y1 Z1 T1 P -> c_rep X2 Y2 Z2 T2 Q ->
  (X1 * Z2 = X2 * Z1 /\ Y1 * Z2 = Y2 * Z1)%fp <-> P = Q.
Proof. exact (represents_equal _ _ _ _ _ _ _ _ Fp_field X1 Y1 Z1 T1 X2 Y2 Z2 T2 P Q). Qed.

(** ** The base point *)

Lemma base_on : on_c base.
Proof. unfold on_c, base, on_curve. by apply Zmod.unsigned_inj; vm_compute. Qed.

(** [T = x y] for the base point as the code has it. *)
Lemma base_rep : c_rep base_x base_y 1%fp (fe (fval (gett Hacl_Impl_Ed25519_G_make_g))) base.
Proof.
  unfold c_rep, represents, base. cbn [fst snd]. split_and!.
  - intros E. apply (f_equal Zmod.unsigned) in E. by vm_compute in E.
  - by rewrite Zmod.mul_1_r.
  - by rewrite Zmod.mul_1_r.
  - by apply Zmod.unsigned_inj; vm_compute.
Qed.

Definition big_rep (B : big_ext) (P : Fp * Fp) : Prop :=
  on_c P /\ c_rep (fe (BigZ.to_Z (bX B))) (fe (BigZ.to_Z (bY B))) (fe (BigZ.to_Z (bZ B))) (fe (BigZ.to_Z (bT B))) P.

Lemma fe_mulp x y : fe (BigZ.to_Z (mulp x y)) = (fe (BigZ.to_Z x) * fe (BigZ.to_Z y))%fp.
Proof.
  unfold mulp, big_p. rewrite BigZ.spec_modulo, BigZ.spec_mul, BigZ.spec_of_Z, <- fe_mul. apply fe_eq, eqp_mod. by rewrite Z.mod_mod.
Qed.

Lemma big_add_rep B C P Q : big_rep B P -> big_rep C Q -> big_rep (big_add B C) (c_add P Q).
Proof.
  intros [HP RP] [HQ RQ]. split; [by apply c_add_on|]. pose proof (c_rep_add _ _ _ _ _ _ _ _ _ _ HP HQ RP RQ) as R. cbv zeta in R.
  assert (E2 : fe (BigZ.to_Z big_d2) = ((1 + 1) * c_d)%fp).
  { unfold big_d2. by rewrite BigZ.spec_of_Z, fe_mul. }
  unfold big_add. cbn [bX bY bZ bT]. rewrite !fe_mulp. rewrite !BigZ.spec_sub, !BigZ.spec_add, !fe_sub, !fe_add, !fe_mulp, E2.
  rewrite !BigZ.spec_sub, !BigZ.spec_add, !BigZ.spec_mul, !fe_sub, !fe_add, !fe_mul.
  change (fe (BigZ.to_Z BigZ.two)) with (1 + 1)%fp. exact R.
Qed.

Lemma big_mul_rep n B P : big_rep B P -> big_rep (big_mul n B) (c_mul (Pos.to_nat n) P).
Proof.
  intros HB. pose proof (proj1 HB) as HP. induction n as [n IH|n IH|]; cbn [big_mul].
  - rewrite Pos2Nat.inj_xI. replace (S (2 * Pos.to_nat n)) with (1 + (Pos.to_nat n + Pos.to_nat n))%nat by lia.
    rewrite !c_mul_add by done. apply big_add_rep; [|by apply big_add_rep].
    replace (c_mul 1 P) with P; [done|]. unfold c_mul. cbn [ed_mul]. symmetry. etrans; [apply c_add_comm|apply c_add_zero].
  - rewrite Pos2Nat.inj_xO. replace (2 * Pos.to_nat n)%nat with (Pos.to_nat n + Pos.to_nat n)%nat by lia.
    rewrite c_mul_add by done. by apply big_add_rep.
  - replace (c_mul (Pos.to_nat 1) P) with P; [done|]. unfold c_mul. cbn [ed_mul]. symmetry. etrans; [apply c_add_comm|apply c_add_zero].
Qed.

Lemma big_is_spec B P x y : big_rep B P -> big_is B x y = true -> P = (fe x, fe y).
Proof.
  intros [_ (Hz & Ex & Ey & _)]. unfold big_is. rewrite andb_true_iff, !BigZ.eqb_eq. intros [Hx Hy]. destruct P as [u v]. cbn [fst snd] in *.
  assert (Q : forall a b c : Fp, (a * b = c * b)%fp -> b <> 0%fp -> a = c).
  { intros a b c E Hb. by apply (Zmod.mul_cancel_r_prime b a c p25519_prime). }
  f_equal.
  - apply (Q _ (fe (BigZ.to_Z (bZ B)))); [|done]. rewrite <- Ex. apply (f_equal fe) in Hx. rewrite !fe_mulp, BigZ.spec_of_Z in Hx.
    rewrite <- Hx. change (fe (BigZ.to_Z BigZ.one)) with 1%fp. by rewrite Zmod.mul_1_r.
  - apply (Q _ (fe (BigZ.to_Z (bZ B)))); [|done]. rewrite <- Ey. apply (f_equal fe) in Hy. rewrite !fe_mulp, BigZ.spec_of_Z in Hy.
    rewrite <- Hy. change (fe (BigZ.to_Z BigZ.one)) with 1%fp. by rewrite Zmod.mul_1_r.
Qed.

Definition big_base : big_ext := big_of (fval (getx Hacl_Impl_Ed25519_G_make_g)) (fval (gety Hacl_Impl_Ed25519_G_make_g)).

Lemma big_base_rep : big_rep big_base base.
Proof.
  split; [exact base_on|]. unfold big_base, big_of, c_rep, represents. cbn [bX bY bZ bT]. rewrite !BigZ.spec_of_Z, fe_mul.
  change (fe (BigZ.to_Z BigZ.one)) with 1%fp. rewrite !Zmod.mul_1_r. split_and!; try done.
Qed.

(** The order of the base point divides [q]. *)
Lemma base_order : c_mul (Z.to_nat q25519) base = c_zero.
Proof.
  change (Z.to_nat q25519) with (Pos.to_nat (Z.to_pos q25519)).
  change c_zero with (fe 0, fe 1). apply (big_is_spec (big_mul (Z.to_pos q25519) big_base)).
  - apply big_mul_rep, big_base_rep.
  - vm_compute. reflexivity.
Qed.
