(* ===== verification/EdPointFacts.v ===== *)
(** * Points of the curve: theorems

    The operations of EdPoint.v on arrays of limbs implement the group of
    Curve25519.v: addition, doubling and the ladder with their bounds, and
    equality. *)

From Stdlib Require Import Zmod Field_tac Ring.
From S2P Require Import Prelude Word Fe25519 Prime25519 Edwards EdPoint Curve25519.

Local Open Scope Z_scope.

(** The element of the field that an array of limbs stands for. *)
Definition fv (f : felem) : Fp := fe (fval f).

(** The limbs of the coordinates are reduced but for a carry. *)
Definition point_ok (p : point) : Prop :=
  below B513 (getx p) /\ below B513 (gety p) /\ below B513 (getz p) /\ below B513 (gett p).

(** [p] holds extended coordinates of the point [P] of the curve. *)
Definition is_point (p : point) (P : Fp * Fp) : Prop :=
  point_ok p /\ on_c P /\ c_rep (fv (getx p)) (fv (gety p)) (fv (getz p)) (fv (gett p)) P.

(** * Theorems *)

Lemma fv_mul a b A B : below A a -> below B b -> A <= 2 ^ 59 -> A * B <= 2 ^ 108 ->
  fv (Hacl_Bignum_Fmul_fmul a b) = (fv a * fv b)%fp /\ below B513 (Hacl_Bignum_Fmul_fmul a b).
Proof. intros Ha Hb HA HM. destruct (fmul_spec a b A B Ha Hb HA HM) as [E Hm]. split; [|done]. unfold fv. rewrite <- fe_mul. by apply fe_eq. Qed.

Lemma fv_square a : below (2 ^ 54) a ->
  fv (Hacl_Bignum_Fsquare_fsquare_ a) = (fv a * fv a)%fp /\ below B513 (Hacl_Bignum_Fsquare_fsquare_ a).
Proof. intros Ha. destruct (fsquare_spec a Ha) as [E Hm]. split; [|done]. unfold fv. rewrite <- fe_mul. by apply fe_eq. Qed.

Lemma fv_sum a b A B : below A a -> below B b -> A + B <= 2 ^ 64 ->
  fv (Hacl_Bignum_fsum a b) = (fv a + fv b)%fp /\ below (A + B) (Hacl_Bignum_fsum a b).
Proof. intros Ha Hb HA. destruct (fsum_spec a b A B Ha Hb HA) as [E Hm]. split; [|done]. unfold fv. by rewrite E, fe_add. Qed.

Lemma fv_double a A : below A a -> A <= 2 ^ 63 ->
  fv (Hacl_Bignum25519_times_2 a) = ((1 + 1) * fv a)%fp /\ below (2 * A) (Hacl_Bignum25519_times_2 a).
Proof. intros Ha HA. destruct (times_2_spec a A Ha HA) as [E Hm]. split; [|done]. unfold fv. by rewrite E, fe_mul. Qed.

Lemma fv_difference a b A B : below A a -> below B b -> A <= 2 ^ 54 - 152 -> B <= 2 ^ 63 ->
  fv (Hacl_Bignum_fdifference a b) = (fv b - fv a)%fp /\ below (2 ^ 54 + B) (Hacl_Bignum_fdifference a b).
Proof. intros Ha Hb HA HB. destruct (fdifference_spec a b A B Ha Hb HA HB) as [E Hm]. split; [|done]. unfold fv. rewrite <- fe_sub. by apply fe_eq. Qed.

Lemma fv_difference_reduced a b A B : below A a -> below B b -> A <= 2 ^ 54 - 152 -> B <= 2 ^ 62 ->
  fv (Hacl_Bignum25519_fdifference_reduced a b) = (fv b - fv a)%fp /\ below B513 (Hacl_Bignum25519_fdifference_reduced a b).
Proof. intros Ha Hb HA HB. destruct (fdifference_reduced_spec a b A B Ha Hb HA HB) as [E Hm]. split; [|done]. unfold fv. rewrite <- fe_sub. by apply fe_eq. Qed.

Lemma fv_reduce_513 a : below (2 ^ 63) a -> fv (Hacl_Bignum25519_reduce_513 a) = fv a /\ below B513 (Hacl_Bignum25519_reduce_513 a).
Proof. intros Ha. destruct (reduce_513_spec a Ha) as [E Hm]. split; [|done]. by apply fe_eq. Qed.

Lemma fv_reduce a : below (2 ^ 63) a ->
  tight (Hacl_EC_Format_reduce a) /\ fval (Hacl_EC_Format_reduce a) = Zmod.unsigned (fv a) /\ fv (Hacl_EC_Format_reduce a) = fv a.
Proof.
  intros Ha. destruct (reduce_spec a Ha) as [Ht E]. split; [done|]. unfold fv. rewrite fe_unsigned, E. split; [done|].
  apply fe_eq, eqp_mod. by apply Z.mod_mod.
Qed.

Lemma fv_crecip a : below (2 ^ 54) a -> fv (Hacl_Bignum_Crecip_crecip a) = Zmod.inv (fv a) /\ below B513 (Hacl_Bignum_Crecip_crecip a).
Proof.
  intros Ha. destruct (crecip_spec a Ha) as [E Hm]. split; [|done]. unfold fv. rewrite <- Fp_inverse, <- fe_pow by positive.
  by apply fe_eq.
Qed.

Lemma fv_root a : below (2 ^ 54) a ->
  fv (Hacl_Bignum_Crecip_crecip_ a) = (fv a ^ ((p25519 + 3) / 8))%fp /\ below B513 (Hacl_Bignum_Crecip_crecip_ a).
Proof.
  intros Ha. destruct (crecip__spec a Ha) as [E Hm]. split; [|done]. unfold fv. rewrite <- fe_pow by positive.
  by apply fe_eq.
Qed.

Lemma d2_value : fv d2 = ((1 + 1) * c_d)%fp.
Proof. by apply Zmod.unsigned_inj; vm_compute. Qed.

Lemma d2_below : below (2 ^ 51) d2.
Proof. unfold below, d2. cbn [l0 l1 l2 l3 l4]. lia. Qed.

Lemma tight_B513 f : tight f -> below B513 f.
Proof. by apply below_mono. Qed.

(** ** Addition and doubling *)

(** Names the result of an operation on limbs, with its value and bound. *)
Ltac step H x E B := destruct H as [E B]; [assumption..|positive|positive|]; match type of B with below _ ?t => set (x := t) in * end; clearbody x.
Ltac step1 H x E B := destruct H as [E B]; [assumption..|positive|]; match type of B with below _ ?t => set (x := t) in * end; clearbody x.

(** The bounds need no point of the curve; the coordinates are those of the sum
    when there is one. *)
Lemma point_add_full p q1 : point_ok p -> point_ok q1 ->
  point_ok (Hacl_Impl_Ed25519_PointAdd_point_add p q1) /\
  forall P Q, is_point p P -> is_point q1 Q -> is_point (Hacl_Impl_Ed25519_PointAdd_point_add p q1) (c_add P Q).
Proof.
  intros (X1 & Y1 & Z1 & T1) (X2 & Y2 & Z2 & T2). pose proof d2_below as Bd.
  unfold is_point, point_ok, Hacl_Impl_Ed25519_PointAdd_point_add, Hacl_Bignum25519_times_2d. cbn [getx gety getz gett]. cbv zeta.
  step (fv_difference_reduced (getx p) (gety p) B513 B513) t1 E1 B1.
  step (fv_difference (getx q1) (gety q1) B513 B513) t2 E2 B2.
  step (fv_mul t1 t2 B513 (2 ^ 54 + B513)) t3 E3 B3.
  step1 (fv_sum (gety p) (getx p) B513 B513) s1 F1 C1.
  step1 (fv_sum (gety q1) (getx q1) B513 B513) s2 F2 C2.
  step (fv_mul s1 s2 (B513 + B513) (B513 + B513)) t4 E4 B4.
  step (fv_mul (gett p) d2 B513 (2 ^ 51)) u1 G1 D1.
  step (fv_mul u1 (gett q1) B513 B513) u2 G2 D2.
  step1 (fv_double (getz p) B513) v1 H1 I1.
  step (fv_mul v1 (getz q1) (2 * B513) B513) t5 E5 B5.
  step (fv_difference_reduced t3 t4 B513 B513) e Ee Be.
  step (fv_difference u2 t5 B513 B513) f Ef Bf.
  step1 (fv_sum t5 u2 B513 B513) g Eg Bg.
  step1 (fv_sum t4 t3 B513 B513) h Eh Bh.
  step (fv_mul e f B513 (2 ^ 54 + B513)) x3 Ex Bx. step (fv_mul g h (B513 + B513) (B513 + B513)) y3 Ey By.
  step (fv_mul g f (B513 + B513) (2 ^ 54 + B513)) z3 Ez Bz. step (fv_mul e h B513 (B513 + B513)) w3 Et Bt.
  split; [done|]. intros P Q (_ & HP & RP) (_ & HQ & RQ). pose proof (c_rep_add _ _ _ _ _ _ _ _ _ _ HP HQ RP RQ) as R. cbv zeta in R.
  split; [done|]. split; [by apply c_add_on|]. rewrite Ex, Ey, Ez, Et, Ee, Ef, Eg, Eh, E5, E4, E3, G2, G1, H1, F1, F2, E1, E2, d2_value.
  replace (fv (gett p) * ((1 + 1) * c_d) * fv (gett q1))%fp with ((1 + 1) * c_d * fv (gett p) * fv (gett q1))%fp by ring. exact R.
Qed.

Lemma point_add_spec p q1 P Q : is_point p P -> is_point q1 Q ->
  is_point (Hacl_Impl_Ed25519_PointAdd_point_add p q1) (c_add P Q).
Proof. intros HP HQ. exact (proj2 (point_add_full p q1 (proj1 HP) (proj1 HQ)) P Q HP HQ). Qed.

Lemma point_double_full p : point_ok p ->
  point_ok (Hacl_Impl_Ed25519_PointDouble_point_double p) /\
  forall P, is_point p P -> is_point (Hacl_Impl_Ed25519_PointDouble_point_double p) (c_add P P).
Proof.
  intros (X & Y & Z & T).
  assert (Bs : forall f, below B513 f -> below (2 ^ 54) f) by exact B513_small.
  unfold is_point, point_ok, Hacl_Impl_Ed25519_PointDouble_point_double, Hacl_Impl_Ed25519_PointDouble_point_double_step_1,
    Hacl_Impl_Ed25519_PointDouble_point_double_step_2. cbv zeta. cbn [getx gety getz gett].
  destruct (fv_square (getx p) (Bs _ X)) as [E1 B1]. set (t1 := Hacl_Bignum_Fsquare_fsquare_ (getx p)) in *. clearbody t1.
  destruct (fv_square (gety p) (Bs _ Y)) as [E2 B2]. set (t2 := Hacl_Bignum_Fsquare_fsquare_ (gety p)) in *. clearbody t2.
  destruct (fv_square (getz p) (Bs _ Z)) as [E3 B3]. set (t3 := Hacl_Bignum_Fsquare_fsquare_ (getz p)) in *. clearbody t3.
  step1 (fv_double t3 B513) c0 Ec0 Bc0.
  step1 (fv_sum t1 t2 B513 B513) h0 Eh0 Bh0.
  destruct (fv_reduce_513 h0) as [Eh Bh]; [by eapply below_mono; [|exact Bh0]|]. set (h := Hacl_Bignum25519_reduce_513 h0) in *. clearbody h.
  step1 (fv_sum (getx p) (gety p) B513 B513) s0 Es0 Bs0.
  destruct (fv_square s0) as [Es Bq]; [by eapply below_mono; [|exact Bs0]|]. set (s := Hacl_Bignum_Fsquare_fsquare_ s0) in *. clearbody s.
  step (fv_difference s h B513 B513) e Ee Be.
  step (fv_difference_reduced t2 t1 B513 B513) g Eg Bg.
  destruct (fv_reduce_513 c0) as [Ec Bc]; [by eapply below_mono; [|exact Bc0]|]. set (c := Hacl_Bignum25519_reduce_513 c0) in *. clearbody c.
  step1 (fv_sum c g B513 B513) f Ef Bf.
  step (fv_mul f e (B513 + B513) (2 ^ 54 + B513)) x3 Ex Bx. step (fv_mul g h B513 B513) y3 Ey By.
  step (fv_mul f g (B513 + B513) B513) z3 Ez Bz. step (fv_mul h e B513 (2 ^ 54 + B513)) w3 Et Bt.
  split; [done|]. intros P (_ & HP & RP). pose proof (c_rep_double _ _ _ _ _ HP RP) as R. cbv zeta in R.
  split; [done|]. split; [by apply c_add_on|].
  rewrite Ex, Ey, Ez, Et, Ef, Ee, Eg, Ec, Ec0, Es, Es0, Eh, Eh0, E1, E2, E3. exact R.
Qed.

Lemma point_double_spec p P : is_point p P -> is_point (Hacl_Impl_Ed25519_PointDouble_point_double p) (c_add P P).
Proof. intros HP. exact (proj2 (point_double_full p (proj1 HP)) P HP). Qed.

(** ** The ladder *)

Lemma swap_limb_spec a b (c : bool) : 0 <= a < 2 ^ 64 -> 0 <= b < 2 ^ 64 ->
  swap_limb a b (u64 (0 - Z.b2z c)) = if c then (b, a) else (a, b).
Proof.
  intros Ha Hb. unfold swap_limb. destruct c.
  - change (u64 (0 - Z.b2z true)) with (2 ^ 64 - 1). rewrite Z.land_comm, land_mask by lia.
    pose proof (lxor_range a b Ha Hb).
    rewrite Z.mod_small by done. f_equal.
    + by rewrite <- Z.lxor_assoc, Z.lxor_nilpotent, Z.lxor_0_l.
    + by rewrite (Z.lxor_comm a), <- Z.lxor_assoc, Z.lxor_nilpotent, Z.lxor_0_l.
  - change (u64 (0 - Z.b2z false)) with 0. by rewrite Z.land_0_l, !Z.lxor_0_r.
Qed.

Lemma swap_step_spec f g (c : bool) : below (2 ^ 64) f -> below (2 ^ 64) g ->
  Hacl_Impl_Ed25519_SwapConditional_swap_conditional_step f g (u64 (0 - Z.b2z c)) = if c then (g, f) else (f, g).
Proof.
  destruct f as [f0 f1 f2 f3 f4], g as [g0 g1 g2 g3 g4]. intros (F0 & F1 & F2 & F3 & F4) (G0 & G1 & G2 & G3 & G4).
  cbn [l0 l1 l2 l3 l4] in *. unfold Hacl_Impl_Ed25519_SwapConditional_swap_conditional_step. cbn [l0 l1 l2 l3 l4].
  rewrite !swap_limb_spec by done. by destruct c.
Qed.

Lemma swap_conditional_spec a b (c : bool) : point_ok a -> point_ok b ->
  Hacl_Impl_Ed25519_SwapConditional_swap_conditional a b (Z.b2z c) = if c then (b, a) else (a, b).
Proof.
  intros Ha Hb. unfold Hacl_Impl_Ed25519_SwapConditional_swap_conditional.
  assert (W : forall f, below B513 f -> below (2 ^ 64) f) by (intros f; by apply below_mono).
  destruct a as [ax ay az aw], b as [bx by_ bz bt], Ha as (?&?&?&?), Hb as (?&?&?&?). cbn [getx gety getz gett] in *.
  rewrite !swap_step_spec by (by apply W). by destruct c.
Qed.

Lemma ith_bit_spec k i : length k = 32%nat -> 0 <= i < 256 ->
  Hacl_Impl_Ed25519_Ladder_Step_ith_bit k i = Z.b2z (Z.testbit (le_val k) i).
Proof.
  intros Hk Hi. unfold Hacl_Impl_Ed25519_Ladder_Step_ith_bit. rewrite (Z.shiftr_div_pow2 i 3) by lia.
  change 7 with (2 ^ 3 - 1). rewrite land_mask by lia. pose proof (Z.div_mod i 8 ltac:(lia)). pose proof (Z.mod_pos_bound i 8 ltac:(lia)).
  change (2 ^ 3) with 8. rewrite nth_le_val by lia. rewrite Z2Nat.id by lia. change 256 with (2 ^ 8) at 1. rewrite <- Z.pow_mul_r by lia.
  change 1 with (2 ^ 1 - 1). rewrite land_mask, Z.shiftr_div_pow2 by lia. change 256 with (2 ^ 8).
  rewrite (window (le_val k) (8 * (i / 8)) 8 (i mod 8) i 1) by lia.
  by rewrite Z.testbit_spec' by lia.
Qed.

(** The two accumulators hold consecutive multiples, by the bits read so far. *)
Lemma ladder_loop_spec k Q n : length k = 32%nat -> on_c Q -> (n <= 256)%nat -> forall nq nqpq,
  let m := Z.to_nat (le_val k / 2 ^ Z.of_nat n) in
  is_point nq (c_mul m Q) -> is_point nqpq (c_mul (S m) Q) ->
  is_point (fst (ladder_loop n k nq nqpq)) (c_mul (Z.to_nat (le_val k)) Q).
Proof.
  intros Hk HQ. induction n as [|n IH]; intros Hn nq nqpq m Hq Hq1; [by unfold m in Hq; rewrite Z.div_1_r in Hq|].
  cbn [ladder_loop]. unfold Hacl_Impl_Ed25519_Ladder_Step_loop_step. rewrite ith_bit_spec by lia.
  set (c := Z.testbit (le_val k) (Z.of_nat n)). rewrite (swap_conditional_spec nq nqpq c) by (apply Hq || apply Hq1).
  pose proof (le_val_range k) as Hr. set (v := le_val k) in *.
  assert (Em : Z.to_nat (v / 2 ^ Z.of_nat n) = (2 * m + (if c then 1 else 0))%nat).
  { assert (0 < 2 ^ Z.of_nat n) by (apply Z.pow_pos_nonneg; lia). unfold m. rewrite Nat2Z.inj_succ, Z.pow_succ_r, (Z.mul_comm 2), <- Z.div_div by lia. set (w := v / 2 ^ Z.of_nat n) in *.
    assert (0 <= w) by (apply Z.div_pos; lia). pose proof (Z.div_mod w 2 ltac:(lia)).
    assert (Ec : w mod 2 = Z.b2z c) by (unfold c, w; by rewrite Z.testbit_spec' by lia).
    assert (0 <= w / 2) by (apply Z.div_pos; lia). destruct c; cbn [Z.b2z] in Ec; lia. }
  set (m' := Z.to_nat (v / 2 ^ Z.of_nat n)) in *.
  assert (Dbl : forall j, c_add (c_mul j Q) (c_mul j Q) = c_mul (2 * j) Q) by (intros j; rewrite <- c_mul_add by done; f_equal; lia).
  destruct c.
  - pose proof (point_double_spec _ _ Hq1) as D. pose proof (point_add_spec _ _ _ _ Hq1 Hq) as A.
    rewrite Dbl in D. rewrite <- c_mul_add in A by done.
    rewrite (swap_conditional_spec _ _ true) by (apply D || apply A). apply (IH ltac:(lia)).
    + fold v m'. rewrite Em. by replace (2 * m + 1)%nat with (S m + m)%nat by lia.
    + fold v m'. rewrite Em. by replace (S (2 * m + 1)) with (2 * S m)%nat by lia.
  - pose proof (point_double_spec _ _ Hq) as D. pose proof (point_add_spec _ _ _ _ Hq Hq1) as A.
    rewrite Dbl in D. rewrite <- c_mul_add in A by done.
    rewrite (swap_conditional_spec _ _ false) by (apply D || apply A). apply (IH ltac:(lia)).
    + fold v m'. rewrite Em. by rewrite Nat.add_0_r.
    + fold v m'. rewrite Em. by replace (S (2 * m + 0)) with (m + S m)%nat by lia.
Qed.

Lemma point_inf_spec : is_point Hacl_Impl_Ed25519_Ladder_make_point_inf c_zero.
Proof.
  split; [|split; [apply c_zero_on|exact c_rep_zero]].
  unfold point_ok, Hacl_Impl_Ed25519_Ladder_make_point_inf, below, B513. cbn [getx gety getz gett l0 l1 l2 l3 l4 zero_fe one_fe]. lia.
Qed.

Lemma make_g_spec : is_point Hacl_Impl_Ed25519_G_make_g base.
Proof.
  split; [|split; [apply base_on|exact base_rep]].
  unfold point_ok, Hacl_Impl_Ed25519_G_make_g, below, B513. cbn [getx gety getz gett l0 l1 l2 l3 l4 one_fe]. lia.
Qed.

Lemma c_mul_1 P : c_mul 1 P = P.
Proof. unfold c_mul. cbn [ed_mul]. etrans; [apply c_add_comm|apply c_add_zero]. Qed.

Lemma point_mul_spec k q1 Q : length k = 32%nat -> is_point q1 Q ->
  is_point (Hacl_Impl_Ed25519_Ladder_point_mul k q1) (c_mul (Z.to_nat (le_val k)) Q).
Proof.
  intros Hk HQ. unfold Hacl_Impl_Ed25519_Ladder_point_mul. apply ladder_loop_spec; [done|apply HQ|done| |].
  - rewrite Z.div_small by (pose proof (le_val_range k); rewrite Hk in *; done). apply point_inf_spec.
  - rewrite Z.div_small by (pose proof (le_val_range k); rewrite Hk in *; done). by rewrite c_mul_1.
Qed.

(** ** Equality *)

Lemma eq_spec a b : Hacl_Impl_Ed25519_PointEqual_eq a b = true <-> a = b.
Proof.
  destruct a as [a0 a1 a2 a3 a4], b as [b0 b1 b2 b3 b4]. unfold Hacl_Impl_Ed25519_PointEqual_eq. cbn [l0 l1 l2 l3 l4].
  rewrite !andb_true_iff, !Z.eqb_eq. split; [intros [[[[-> ->] ->] ->] ->]; done|by intros [= -> -> -> -> ->]].
Qed.

(** Canonical limbs are compared as elements of the field. *)
Lemma eq_reduced a b : below (2 ^ 63) a -> below (2 ^ 63) b ->
  Hacl_Impl_Ed25519_PointEqual_eq (Hacl_EC_Format_reduce a) (Hacl_EC_Format_reduce b) = true <-> fv a = fv b.
Proof.
  intros Ha Hb. destruct (fv_reduce a Ha) as (Ta & Va & Fa), (fv_reduce b Hb) as (Tb & Vb & Fb). rewrite eq_spec. split.
  - intros E. by rewrite <- Fa, E, Fb.
  - intros E. apply tight_inj; [done|done|]. by rewrite Va, Vb, E.
Qed.

Lemma B513_wide f : below B513 f -> below (2 ^ 63) f.
Proof. by apply below_mono. Qed.

Lemma fv_mul_B513 a b : below B513 a -> below B513 b ->
  fv (Hacl_Bignum_Fmul_fmul a b) = (fv a * fv b)%fp /\ below B513 (Hacl_Bignum_Fmul_fmul a b).
Proof. intros Ha Hb. apply (fv_mul a b B513 B513); [done|done|positive|positive]. Qed.

Lemma point_equal_spec p q1 P Q : is_point p P -> is_point q1 Q ->
  Hacl_Impl_Ed25519_PointEqual_point_equal p q1 = bool_decide (P = Q).
Proof.
  intros ((X1 & Y1 & Z1 & T1) & HP & RP) ((X2 & Y2 & Z2 & T2) & HQ & RQ).
  pose proof (c_rep_equal _ _ _ _ _ _ _ _ _ _ RP RQ) as E.
  assert (M : forall a b c d, below B513 a -> below B513 b -> below B513 c -> below B513 d ->
    Hacl_Impl_Ed25519_PointEqual_eq (Hacl_EC_Format_reduce (Hacl_Bignum_Fmul_fmul a b)) (Hacl_EC_Format_reduce (Hacl_Bignum_Fmul_fmul c d)) = true
    <-> (fv a * fv b = fv c * fv d)%fp).
  { intros a b c d Ha Hb Hc Hd. destruct (fv_mul_B513 a b) as [Eab Bab], (fv_mul_B513 c d) as [Ecd Bcd]; [done..|].
    rewrite eq_reduced by (by apply B513_wide). by rewrite Eab, Ecd. }
  assert (M1 : Hacl_Impl_Ed25519_PointEqual_point_equal_1 p q1 = true <-> (fv (getx p) * fv (getz q1) = fv (getx q1) * fv (getz p))%fp) by (by apply M).
  assert (M2 : Hacl_Impl_Ed25519_PointEqual_point_equal_2 p q1 = true <-> (fv (gety p) * fv (getz q1) = fv (gety q1) * fv (getz p))%fp) by (by apply M).
  rewrite <- M1, <- M2 in E. unfold Hacl_Impl_Ed25519_PointEqual_point_equal.
  clear -E. set (b1 := Hacl_Impl_Ed25519_PointEqual_point_equal_1 p q1) in *. set (b2 := Hacl_Impl_Ed25519_PointEqual_point_equal_2 p q1) in *.
  clearbody b1 b2. symmetry. destruct b1; [destruct b2|]; [apply bool_decide_eq_true_2, E; easy|..];
    (apply bool_decide_eq_false_2; intros [? ?]%E; discriminate).
Qed.

(** ** The operations keep the bounds *)

Lemma ith_bit_bool k i : exists c : bool, Hacl_Impl_Ed25519_Ladder_Step_ith_bit k i = Z.b2z c.
Proof.
  unfold Hacl_Impl_Ed25519_Ladder_Step_ith_bit. set (z := Z.shiftr _ _). exists (Z.odd z). change 1 with (2 ^ 1 - 1).
  by rewrite land_mask, Zmod_odd by lia; destruct (Z.odd z).
Qed.

Lemma loop_step_ok nq nqpq k i : point_ok nq -> point_ok nqpq ->
  point_ok (fst (Hacl_Impl_Ed25519_Ladder_Step_loop_step nq nqpq k i)) /\ point_ok (snd (Hacl_Impl_Ed25519_Ladder_Step_loop_step nq nqpq k i)).
Proof.
  intros H1 H2. unfold Hacl_Impl_Ed25519_Ladder_Step_loop_step. destruct (ith_bit_bool k i) as [c ->]. cbv zeta. rewrite swap_conditional_spec by assumption.
  pose proof (proj1 (point_double_full _ H1)). pose proof (proj1 (point_double_full _ H2)).
  pose proof (proj1 (point_add_full _ _ H1 H2)). pose proof (proj1 (point_add_full _ _ H2 H1)).
  destruct c; rewrite (swap_conditional_spec _ _ _) by assumption; split; assumption.
Qed.

Lemma ladder_loop_ok n k : forall nq nqpq, point_ok nq -> point_ok nqpq -> point_ok (fst (ladder_loop n k nq nqpq)).
Proof.
  induction n as [|n IH]; intros nq nqpq H1 H2; [exact H1|]. cbn [ladder_loop]. pose proof (loop_step_ok nq nqpq k (Z.of_nat n) H1 H2) as Hs.
  destruct (Hacl_Impl_Ed25519_Ladder_Step_loop_step nq nqpq k (Z.of_nat n)) as [a b]. exact (IH _ _ (proj1 Hs) (proj2 Hs)).
Qed.

(** C29. Points are well formed: the constant points have limbs below [2^51 + 2^13],
    and addition, doubling, both results of the conditional swap and multiplication
    by any scalar have such limbs when their arguments have.  This asks nothing of
    the coordinates: it holds also off the curve. *)
Theorem point_operations_ok p q1 k (swap : bool) : point_ok p -> point_ok q1 ->
  point_ok Hacl_Impl_Ed25519_Ladder_make_point_inf /\
  point_ok Hacl_Impl_Ed25519_G_make_g /\
  point_ok (Hacl_Impl_Ed25519_PointAdd_point_add p q1) /\
  point_ok (Hacl_Impl_Ed25519_PointDouble_point_double p) /\
  point_ok (fst (Hacl_Impl_Ed25519_SwapConditional_swap_conditional p q1 (Z.b2z swap))) /\
  point_ok (snd (Hacl_Impl_Ed25519_SwapConditional_swap_conditional p q1 (Z.b2z swap))) /\
  point_ok (Hacl_Impl_Ed25519_Ladder_point_mul k p).
Proof.
  intros Hp Hq. rewrite swap_conditional_spec by assumption.
  split; [exact (proj1 point_inf_spec)|]. split; [exact (proj1 make_g_spec)|]. split; [exact (proj1 (point_add_full _ _ Hp Hq))|].
  split; [exact (proj1 (point_double_full _ Hp))|]. split; [destruct swap; assumption|]. split; [destruct swap; assumption|].
  unfold Hacl_Impl_Ed25519_Ladder_point_mul. exact (ladder_loop_ok 256 k _ _ (proj1 point_inf_spec) Hp).
Qed.

Lemma point_operations_ok_witness :
  point_ok (Hacl_Impl_Ed25519_PointAdd_point_add Hacl_Impl_Ed25519_G_make_g Hacl_Impl_Ed25519_Ladder_make_point_inf).
Proof.
  exact (proj1 (proj2 (proj2 (point_operations_ok Hacl_Impl_Ed25519_G_make_g Hacl_Impl_Ed25519_Ladder_make_point_inf [] true
    (proj1 make_g_spec) (proj1 point_inf_spec))))).
Defined.

(** C28. On limbs below [2^54 - 152] no 64-bit or 128-bit word of the field
    arithmetic overflows: product, square, inverse, sum and difference are those of
    the field of [2^255 - 19] elements, and the results of all but the bare sum have
    limbs below [2^51 + 2^13] again. *)
Theorem field_arithmetic a b : below (2 ^ 54 - 152) a -> below (2 ^ 54 - 152) b ->
  (fv (Hacl_Bignum_Fmul_fmul a b) = (fv a * fv b)%fp /\ below B513 (Hacl_Bignum_Fmul_fmul a b)) /\
  (fv (Hacl_Bignum_Fsquare_fsquare_ a) = (fv a * fv a)%fp /\ below B513 (Hacl_Bignum_Fsquare_fsquare_ a)) /\
  (fv (Hacl_Bignum_Crecip_crecip a) = Zmod.inv (fv a) /\ below B513 (Hacl_Bignum_Crecip_crecip a)) /\
  (fv (Hacl_Bignum_fsum a b) = (fv a + fv b)%fp /\ below (2 ^ 55) (Hacl_Bignum_fsum a b)) /\
  (fv (Hacl_Bignum25519_fdifference_reduced a b) = (fv b - fv a)%fp /\ below B513 (Hacl_Bignum25519_fdifference_reduced a b)) /\
  (fv (Hacl_Bignum25519_reduce_513 a) = fv a /\ below B513 (Hacl_Bignum25519_reduce_513 a)).
Proof.
  intros Ha Hb. assert (Ha' : below (2 ^ 54) a) by (apply (below_mono (2 ^ 54 - 152)); [lia|exact Ha]).
  split; [apply (fv_mul a b _ _ Ha Hb); lia|]. split; [exact (fv_square a Ha')|]. split; [exact (fv_crecip a Ha')|].
  split; [|split; [apply (fv_difference_reduced a b _ _ Ha Hb); lia|]].
  - destruct (fv_sum a b _ _ Ha Hb ltac:(lia)) as [E B]. split; [exact E|]. apply (below_mono (2 ^ 54 - 152 + (2 ^ 54 - 152))); [lia|exact B].
  - apply fv_reduce_513. apply (below_mono (2 ^ 54 - 152)); [lia|exact Ha].
Qed.

Lemma field_arithmetic_witness :
  fv (Hacl_Bignum_Fmul_fmul d2 (getx Hacl_Impl_Ed25519_G_make_g)) = (fv d2 * fv (getx Hacl_Impl_Ed25519_G_make_g))%fp.
Proof.
  refine (proj1 (proj1 (field_arithmetic d2 (getx Hacl_Impl_Ed25519_G_make_g) _ _))).
  - apply (below_mono (2 ^ 51)); [lia|exact d2_below].
  - apply (below_mono B513); [unfold B513; lia|exact (proj1 (proj1 make_g_spec))].
Defined.

(** C15. The ladder multiplies: on a point of the curve in extended coordinates and a
    scalar of 32 bytes it returns, with its bounds, coordinates of that multiple in
    the group of the curve. *)
Theorem ladder_multiplies k q1 Q : length k = 32%nat -> is_point q1 Q ->
  is_point (Hacl_Impl_Ed25519_Ladder_point_mul k q1) (c_mul (Z.to_nat (le_val k)) Q).
Proof. exact (point_mul_spec k q1 Q). Qed.

Lemma ladder_multiplies_witness :
  is_point (Hacl_Impl_Ed25519_Ladder_point_mul (le_bytes 32 5) Hacl_Impl_Ed25519_G_make_g) (c_mul (Z.to_nat (le_val (le_bytes 32 5))) base).
Proof. exact (ladder_multiplies (le_bytes 32 5) Hacl_Impl_Ed25519_G_make_g base eq_refl make_g_spec). Defined.
