(* ===== verification/EdEncode.v ===== *)
(** * Encoded points

    Compression and decompression of EdPoint.v: what a point is encoded as, and
    that exactly the encodings of points of the curve are decoded. *)

From Stdlib Require Import Zmod Field_tac Ring.
From S2P Require Import Prelude Word Fe25519 Prime25519 Edwards EdPoint Curve25519 EdPointFacts.

Local Open Scope Z_scope.

(** The encoding of a point: the ordinate and the parity of the abscissa. *)
Definition encode (P : Fp * Fp) : str :=
  le_bytes 32 (Zmod.unsigned (snd P) + 2 ^ 255 * (Zmod.unsigned (fst P) mod 2)).

Lemma le_val_inj a b : length a = length b -> le_val a = le_val b -> a = b.
Proof. intros El E. by rewrite <- (le_bytes_val a), <- (le_bytes_val b), El, E. Qed.

Lemma unsigned_range (x : Fp) : 0 <= Zmod.unsigned x < 2 ^ 255 - 19.
Proof. by apply Zmod.unsigned_pos_bound. Qed.

Lemma length_encode_point P : length (encode P) = 32%nat.
Proof. apply length_le_bytes. Qed.

Lemma encode_val P : le_val (encode P) = Zmod.unsigned (snd P) + 2 ^ 255 * (Zmod.unsigned (fst P) mod 2).
Proof.
  unfold encode. rewrite le_val_bytes. apply Z.mod_small. pose proof (unsigned_range (snd P)) as Hy.
  pose proof (Z.mod_pos_bound (Zmod.unsigned (fst P)) 2 ltac:(lia)) as Hx. change (256 ^ Z.of_nat 32) with (2 ^ 256). lia.
Qed.

(** The coordinates the code divides out are those of the point. *)
Lemma divided_coordinate X Z (x : Fp) : Z <> 0%fp -> X = (x * Z)%fp -> (X * Zmod.inv Z)%fp = x.
Proof. intros HZ ->. rewrite Zmod.mul_inv_r. apply (Zmod.mul_cancel_r_prime Z _ _ p25519_prime HZ). by field. Qed.

Lemma put_last_byte s b : length s = 32%nat -> le_val s < 2 ^ 255 -> 0 <= b < 2 ->
  let t := put s 31 [z2b (b2z (nth 31 s NUL) + Z.shiftl b 7)] in
  length t = 32%nat /\ le_val t = le_val s + 2 ^ 255 * b.
Proof.
  intros Hs Hv Hb. cbv zeta. unfold put. rewrite !length_app, length_take, length_drop, Hs. split; [done|].
  rewrite le_val_app, length_take_le, le_val_take by lia. rewrite drop_ge by (rewrite Hs; done). rewrite app_nil_r. cbn [le_val].
  rewrite b2z_z2b, nth_le_val, Z.shiftl_mul_pow2 by lia. pose proof (le_val_range s) as Hr.
  pose proof (Z.div_mod (le_val s) (256 ^ Z.of_nat 31) ltac:(done)) as E.
  assert (Hq : 0 <= le_val s / 256 ^ Z.of_nat 31 < 128) by (split; [apply Z.div_pos; lia|apply Z.div_lt_upper_bound; [done|exact Hv]]).
  set (q := le_val s / 256 ^ Z.of_nat 31) in *. set (r := le_val s mod 256 ^ Z.of_nat 31) in *. clearbody q r.
  rewrite (Z.mod_small q), (Z.mod_small (_ + _)) by lia. change (2 ^ 255) with (256 ^ Z.of_nat 31 * 128). lia.
Qed.

Lemma fval_parity f : fval f mod 2 = Z.land (l0 f) 1.
Proof.
  change 1 with (2 ^ 1 - 1). rewrite land_mask by lia. unfold fval. change (2 ^ 1) with 2.
  replace (l0 f + _ + _ + _ + _) with (l0 f + (2 ^ 50 * l1 f + 2 ^ 101 * l2 f + 2 ^ 152 * l3 f + 2 ^ 203 * l4 f) * 2) by lia.
  by rewrite Z_mod_plus_full.
Qed.

Lemma point_compress_spec p P : is_point p P -> Hacl_Impl_Ed25519_PointCompress_point_compress p = encode P.
Proof.
  intros ((X & Y & Z & T) & HP & (Hz & Ex & Ey & _)). unfold Hacl_Impl_Ed25519_PointCompress_point_compress, Hacl_Impl_Ed25519_PointCompress_x_mod_2.
  destruct (fv_crecip (getz p) (B513_small _ Z)) as [Ei Bi]. set (zinv := Hacl_Bignum_Crecip_crecip (getz p)) in *. clearbody zinv.
  destruct (fv_mul_B513 (getx p) zinv X Bi) as [Fx Bx], (fv_mul_B513 (gety p) zinv Y Bi) as [Fy By].
  rewrite Ei, (divided_coordinate _ _ _ Hz Ex) in Fx. rewrite Ei, (divided_coordinate _ _ _ Hz Ey) in Fy.
  destruct (fv_reduce _ (B513_wide _ Bx)) as (Tx & Vx & _), (fv_reduce _ (B513_wide _ By)) as (Ty & Vy & _). rewrite Fx in Vx. rewrite Fy in Vy.
  set (x := Hacl_EC_Format_reduce (Hacl_Bignum_Fmul_fmul (getx p) zinv)) in *. set (y := Hacl_EC_Format_reduce (Hacl_Bignum_Fmul_fmul (gety p) zinv)) in *. clearbody x y.
  assert (Eb : Z.land (l0 x) 1 = Zmod.unsigned (fst P) mod 2).
  { by rewrite <- Vx, fval_parity. }
  destruct (store_51_spec y Ty) as [Ls Vs]. cbv zeta. rewrite Eb. set (s := Hacl_Impl_Store51_store_51_ y) in *. clearbody s.
  pose proof (unsigned_range (snd P)) as Hr. destruct (put_last_byte s (Zmod.unsigned (fst P) mod 2)) as [Lt Vt]; [done| |apply Z.mod_pos_bound; lia|].
  { rewrite Vs, Vy. lia. }
  apply le_val_inj; [by rewrite length_encode_point|]. by rewrite Vt, encode_val, Vs, Vy.
Qed.

(** ** Decompression *)

Lemma y_too_large_spec y : tight y -> y_too_large y = true <-> p25519 <= fval y.
Proof.
  destruct y as [a0 a1 a2 a3 a4]. unfold tight, below, y_too_large, fval, p25519, M51. cbn [l0 l1 l2 l3 l4].
  rewrite !andb_true_iff, !Z.eqb_eq, Z.leb_le. lia.
Qed.

(** A canonical element is zero when all its limbs are. *)
Lemma is_0_spec f : tight f -> fval f = Zmod.unsigned (fv f) -> Hacl_Impl_Ed25519_RecoverX_is_0 f = true <-> fv f = 0%fp.
Proof.
  intros Ht Ev. rewrite <- Zmod.unsigned_0_iff, <- Ev. destruct f as [a0 a1 a2 a3 a4]. clear Ev. revert Ht.
  unfold tight, below, Hacl_Impl_Ed25519_RecoverX_is_0, fval. cbn [l0 l1 l2 l3 l4]. rewrite !andb_true_iff, !Z.eqb_eq. lia.
Qed.

(** What the operations on canonical elements yield. *)
Definition canonical (f : felem) (x : Fp) : Prop := tight f /\ fv f = x /\ fval f = Zmod.unsigned x.

Lemma canonical_is_0 f x : canonical f x -> Hacl_Impl_Ed25519_RecoverX_is_0 f = true <-> x = 0%fp.
Proof. intros (Ht & E & V). rewrite is_0_spec; [by rewrite E|done|by rewrite E]. Qed.

Lemma canonical_reduce a : below (2 ^ 63) a -> canonical (Hacl_EC_Format_reduce a) (fv a).
Proof. intros Ha. destruct (fv_reduce a Ha) as (Ht & V & F). done. Qed.

Lemma canonical_below f x : canonical f x -> below B513 f.
Proof. intros [Ht _]. by apply tight_B513. Qed.

Lemma one_fe_spec : below 2 one_fe /\ fv one_fe = 1%fp.
Proof. split; [unfold below; cbn; lia|by apply Zmod.unsigned_inj; vm_compute]. Qed.

Lemma zero_fe_spec : below 1 zero_fe /\ canonical zero_fe 0%fp.
Proof.
  split; [unfold below; cbn; lia|]. split; [unfold tight, below; cbn; lia|].
  split; [by apply Zmod.unsigned_inj; vm_compute|by vm_compute].
Qed.

Lemma d1_below : below (2 ^ 51) d1.
Proof. unfold below, d1. cbn [l0 l1 l2 l3 l4]. lia. Qed.

Lemma sqrt_m1_below : below (2 ^ 51) sqrt_m1.
Proof. unfold below, sqrt_m1. cbn [l0 l1 l2 l3 l4]. lia. Qed.

Lemma recover_x2_spec y : tight y ->
  canonical (recover_x2 y) ((fv y * fv y - 1) / (1 + c_d * fv y * fv y))%fp.
Proof.
  intros Hy. unfold recover_x2, Hacl_Bignum25519_times_d. destruct one_fe_spec as [B1 V1]. pose proof d1_below as Bd.
  destruct (fv_square y) as [E2 B2]; [by apply B513_small, tight_B513|]. set (y2 := Hacl_Bignum_Fsquare_fsquare_ y) in *. clearbody y2.
  step (fv_mul d1 y2 (2 ^ 51) B513) dyy E3 B3.
  step1 (fv_sum dyy one_fe B513 2) s E4 B4.
  destruct (fv_reduce_513 s) as [E5 B5]; [by eapply below_mono; [|exact B4]|]. set (r := Hacl_Bignum25519_reduce_513 s) in *. clearbody r.
  destruct (fv_crecip r (B513_small _ B5)) as [E6 B6]. set (i := Hacl_Bignum_Crecip_crecip r) in *. clearbody i.
  step (fv_difference one_fe y2 2 B513) n E7 B7. step (fv_mul i n B513 (2 ^ 54 + B513)) x E8 B8.
  destruct (canonical_reduce x (B513_wide _ B8)) as (Ht & Hf & Hv). split; [done|].
  assert (E : fv x = ((fv y * fv y - 1) / (1 + c_d * fv y * fv y))%fp); [|rewrite <- E; exact (conj Hf Hv)].
  rewrite E8, E7, E6, E5, E4, E3, E2, V1. change (fv d1) with c_d. rewrite Zmod.mul_comm, Zmod.mul_inv_r. f_equal. ring.
Qed.

Lemma square_defect_spec x2 x3 X2 : canonical x2 X2 -> below B513 x3 -> canonical (square_defect x2 x3) (fv x3 * fv x3 - X2)%fp.
Proof.
  intros C2 H3. unfold square_defect. pose proof (canonical_below _ _ C2) as B2. destruct C2 as (_ & <- & _).
  destruct (fv_square x3 (B513_small _ H3)) as [E B]. set (t := Hacl_Bignum_Fsquare_fsquare_ x3) in *. clearbody t.
  step (fv_difference x2 t B513 B513) u Eu Bu.
  destruct (fv_reduce_513 u) as [Er Br]; [by eapply below_mono; [|exact Bu]|].
  pose proof (canonical_reduce _ (B513_wide _ Br)) as C. by rewrite Er, Eu, E in C.
Qed.

(** The root the code takes is one whenever there is one. *)
Lemma recover_root_spec x2 X2 : canonical x2 X2 -> X2 <> 0%fp ->
  exists X, canonical (recover_root x2) X /\ forall r, (r * r)%fp = X2 -> (X * X)%fp = X2.
Proof.
  intros C2 Hn. unfold recover_root. pose proof (canonical_below _ _ C2) as B2. pose proof sqrt_m1_below as Bi.
  destruct (fv_root x2 (B513_small _ B2)) as [Ec Bc]. rewrite (proj1 (proj2 C2)) in Ec.
  set (c := Hacl_Bignum_Crecip_crecip_ x2) in *. clearbody c.
  step (fv_mul c sqrt_m1 B513 (2 ^ 51)) ci Ei Bci. change (fv sqrt_m1) with c_i in Ei.
  pose proof (canonical_is_0 _ _ (square_defect_spec x2 c X2 C2 Bc)) as Hd.
  assert (Sub : forall a b : Fp, (a - b)%fp = 0%fp <-> a = b).
  { intros a b. split; [|intros ->; apply Zmod.sub_same]. intros E. replace a with (a - b + b)%fp by ring. rewrite E. ring. }
  rewrite Sub in Hd. destruct (Hacl_Impl_Ed25519_RecoverX_is_0 _).
  - exists (fv c). split; [exact (canonical_reduce c (B513_wide _ Bc))|]. intros r _. by apply Hd.
  - exists (fv ci). split; [exact (canonical_reduce ci (B513_wide _ Bci))|]. intros r Hr.
    destruct (Fp_root_candidate X2 r Hr Hn) as [E|E]; cbv zeta in E; rewrite <- Ec in E.
    + exfalso. apply Hd in E. discriminate E.
    + rewrite Ei. replace (fv c * c_i * (fv c * c_i))%fp with (fv c * fv c * (c_i * c_i))%fp by ring.
      rewrite E, c_i_square. ring.
Qed.

(** Negation changes the parity of a canonical representative. *)
Lemma unsigned_opp_parity (x : Fp) : x <> 0%fp -> Zmod.unsigned (- x)%fp mod 2 = 1 - Zmod.unsigned x mod 2.
Proof.
  intros Hx. rewrite Zmod.unsigned_opp. apply Zmod.unsigned_nz in Hx. pose proof (unsigned_range x) as Hr.
  set (v := Zmod.unsigned x) in *. clearbody v. replace (- v mod p25519) with (2 ^ 255 - 19 - v) by (apply (Z.mod_unique_pos _ _ (-1)); unfold p25519; lia).
  pose proof (Z.div_mod v 2 ltac:(lia)). pose proof (Z.mod_pos_bound v 2 ltac:(lia)).
  symmetry. apply (Z.mod_unique_pos _ _ (2 ^ 254 - 10 - v / 2)); lia.
Qed.

Lemma recover_step_5_spec x3 X s : canonical x3 X -> X <> 0%fp -> 0 <= s < 2 ->
  exists X', canonical (Hacl_Impl_Ed25519_RecoverX_recover_x_step_5 x3 s) X' /\ (X' = X \/ X' = - X)%fp /\ Zmod.unsigned X' mod 2 = s.
Proof.
  intros C Hn Hs. unfold Hacl_Impl_Ed25519_RecoverX_recover_x_step_5. rewrite <- fval_parity, (proj2 (proj2 C)).
  pose proof (Z.mod_pos_bound (Zmod.unsigned X) 2 ltac:(lia)). destruct (Z.eqb_spec (Zmod.unsigned X mod 2) s) as [E|E].
  - exists X. split; [exact C|]. split; [by left|exact E].
  - destruct zero_fe_spec as [B0 C0]. pose proof (canonical_below _ _ C) as B3. step (fv_difference x3 zero_fe B513 1) u Eu Bu.
    destruct (fv_reduce_513 u) as [Er Br]; [by eapply below_mono; [|exact Bu]|].
    pose proof (canonical_reduce _ (B513_wide _ Br)) as Cr. rewrite Er, Eu, (proj1 (proj2 C0)), (proj1 (proj2 C)) in Cr.
    rewrite Zmod.sub_0_l in Cr. exists (- X)%fp. split; [exact Cr|]. split; [by right|]. rewrite unsigned_opp_parity by exact Hn. lia.
Qed.

Lemma square_is_zero (x : Fp) : (x * x)%fp = 0%fp -> x = 0%fp.
Proof. intros E. by destruct (Fp_zero_divisors _ _ E). Qed.

Lemma opp_zero_iff (x : Fp) : (- x)%fp = 0%fp -> x = 0%fp.
Proof. intros E. rewrite <- (Zmod.opp_opp x), E. apply Zmod.opp_zero. Qed.

Lemma opp_square (x : Fp) : (- x * - x = x * x)%fp.
Proof. ring. Qed.

(** What is recovered is a coordinate of the curve with the wanted parity. *)
Lemma recover_x_sound y s x : tight y -> 0 <= s < 2 -> Hacl_Impl_Ed25519_RecoverX_recover_x y s = Some x ->
  exists X, canonical x X /\ fval y < p25519 /\ on_c (X, fv y) /\ Zmod.unsigned X mod 2 = s.
Proof.
  intros Hy Hs. unfold Hacl_Impl_Ed25519_RecoverX_recover_x. pose proof (y_too_large_spec y Hy) as Hl.
  destruct (y_too_large y); [discriminate|]. assert (Hp : fval y < p25519) by (apply Z.lt_nge; intros Hge; apply Hl in Hge; discriminate). clear Hl.
  pose proof (recover_x2_spec y Hy) as C2. set (X2 := ((fv y * fv y - 1) / (1 + c_d * fv y * fv y))%fp) in *.
  pose proof (canonical_is_0 _ _ C2) as H0. destruct (Hacl_Impl_Ed25519_RecoverX_is_0 (recover_x2 y)).
  - destruct (Z.eqb_spec s 0) as [->|]; [|discriminate]. intros [= <-]. exists 0%fp. split; [apply zero_fe_spec|]. split; [exact Hp|].
    split; [|reflexivity]. apply on_c_abscissa. fold X2. rewrite (proj1 H0 eq_refl). apply Zmod.mul_0_l.
  - assert (Hn : X2 <> 0%fp) by (intros E; apply H0 in E; discriminate). clear H0.
    destruct (recover_root_spec _ _ C2 Hn) as (X & C3 & _). pose proof (square_defect_spec _ _ _ C2 (canonical_below _ _ C3)) as Cd.
    rewrite (proj1 (proj2 C3)) in Cd. pose proof (canonical_is_0 _ _ Cd) as Hd.
    destruct (Hacl_Impl_Ed25519_RecoverX_is_0 (square_defect _ _)); [|discriminate]. intros E%(inj Some). subst x.
    assert (Ex : (X * X)%fp = X2) by (replace (X * X)%fp with (X * X - X2 + X2)%fp by ring; rewrite (proj1 Hd eq_refl); apply Zmod.add_0_l).
    assert (Hx : X <> 0%fp) by (intros ->; apply Hn; rewrite <- Ex; apply Zmod.mul_0_l).
    destruct (recover_step_5_spec _ _ s C3 Hx Hs) as (X' & C' & Hor & Hpar). exists X'. split; [exact C'|]. split; [exact Hp|].
    split; [|exact Hpar]. apply on_c_abscissa. fold X2. destruct Hor as [-> | ->]; [exact Ex|]. rewrite opp_square. exact Ex.
Qed.

(** Every coordinate of the curve is recovered from its parity. *)
Lemma recover_x_complete y X : tight y -> fval y < p25519 -> on_c (X, fv y) ->
  exists x, Hacl_Impl_Ed25519_RecoverX_recover_x y (Zmod.unsigned X mod 2) = Some x.
Proof.
  intros Hy Hp HX. unfold Hacl_Impl_Ed25519_RecoverX_recover_x. pose proof (y_too_large_spec y Hy) as Hl.
  destruct (y_too_large y); [exfalso; pose proof (proj1 Hl eq_refl); lia|]. clear Hl.
  pose proof (recover_x2_spec y Hy) as C2. apply on_c_abscissa in HX. set (X2 := ((fv y * fv y - 1) / (1 + c_d * fv y * fv y))%fp) in *.
  pose proof (canonical_is_0 _ _ C2) as H0. destruct (Hacl_Impl_Ed25519_RecoverX_is_0 (recover_x2 y)).
  - rewrite (proj1 H0 eq_refl) in HX. apply square_is_zero in HX. rewrite HX, Zmod.unsigned_0. by eexists.
  - assert (Hn : X2 <> 0%fp) by (intros E; apply H0 in E; discriminate).
    destruct (recover_root_spec _ _ C2 Hn) as (R & C3 & HR). pose proof (square_defect_spec _ _ _ C2 (canonical_below _ _ C3)) as Cd.
    rewrite (proj1 (proj2 C3)), (HR X HX), Zmod.sub_same in Cd. rewrite (proj2 (canonical_is_0 _ _ Cd) eq_refl). by eexists.
Qed.

(** A point is determined by its ordinate and the parity of its abscissa. *)
Lemma encode_inj P Q : on_c P -> on_c Q -> encode P = encode Q -> P = Q.
Proof.
  intros HP HQ E. apply (f_equal le_val) in E. rewrite !encode_val in E. destruct P as [x y], Q as [x' y']. cbn [fst snd] in E.
  pose proof (unsigned_range y). pose proof (unsigned_range y'). pose proof (Z.mod_pos_bound (Zmod.unsigned x) 2 ltac:(lia)).
  pose proof (Z.mod_pos_bound (Zmod.unsigned x') 2 ltac:(lia)).
  assert (Ey : Zmod.unsigned y = Zmod.unsigned y') by lia. assert (Ex : Zmod.unsigned x mod 2 = Zmod.unsigned x' mod 2) by lia.
  apply Zmod.unsigned_inj in Ey. subst y'. f_equal. destruct (c_abscissa_sign x x' y HP HQ) as [->|Hx]; [reflexivity|].
  destruct (decide (x' = 0%fp)) as [->|Hn]; [rewrite Hx; apply Zmod.opp_zero|exfalso].
  rewrite Hx, (unsigned_opp_parity x' Hn) in Ex. lia.
Qed.

Lemma sign_bit s : length s = 32%nat -> Z.shiftr (b2z (nth 31 s NUL)) 7 = le_val s / 2 ^ 255.
Proof.
  intros Hs. pose proof (le_val_range s) as Hr. rewrite Hs in Hr. rewrite Z.shiftr_div_pow2, nth_le_val by lia.
  rewrite Z.mod_small by (split; [apply Z.div_pos; lia|apply Z.div_lt_upper_bound; [done|apply Hr]]).
  by rewrite Z.div_div by done.
Qed.

Lemma is_point_affine x y X : canonical x X -> tight y -> on_c (X, fv y) -> is_point (mk_point x y one_fe (Hacl_Bignum_Fmul_fmul x y)) (X, fv y).
Proof.
  intros C Hy Hon. destruct one_fe_spec as [B1 V1]. pose proof (canonical_below _ _ C) as Bx. pose proof (tight_B513 _ Hy) as By.
  destruct (fv_mul_B513 x y Bx By) as [E B]. rewrite (proj1 (proj2 C)) in E.
  split; [|split; [exact Hon|]].
  - split; [exact Bx|]. split; [exact By|]. split; [|exact B]. by eapply below_mono; [|exact B1].
  - unfold c_rep, represents. cbn [getx gety getz gett fst snd]. rewrite E, V1, (proj1 (proj2 C)), !Zmod.mul_1_r.
    split; [exact (Zmod.one_neq_zero (m := p25519) ltac:(positive))|]. repeat split.
Qed.

(** What is decoded is an encoding, of the point that comes out. *)
Lemma point_decompress_sound s p : length s = 32%nat -> Hacl_Impl_Ed25519_PointDecompress_point_decompress s = Some p ->
  exists P, is_point p P /\ encode P = s.
Proof.
  intros Hs. unfold Hacl_Impl_Ed25519_PointDecompress_point_decompress. cbv zeta. rewrite sign_bit by exact Hs.
  destruct (fexpand_spec s Hs) as [Ht Hv]. pose proof (le_val_range s) as Hr. rewrite Hs in Hr. change (256 ^ Z.of_nat 32) with (2 ^ 256) in Hr.
  set (y := Hacl_EC_Format_fexpand s) in *. clearbody y. set (v := le_val s) in *.
  pose proof (Z.div_mod v (2 ^ 255) ltac:(lia)) as Ed. pose proof (Z.mod_pos_bound v (2 ^ 255) ltac:(lia)) as Hm.
  assert (Hb : 0 <= v / 2 ^ 255 < 2) by lia.
  destruct (Hacl_Impl_Ed25519_RecoverX_recover_x y (v / 2 ^ 255)) as [x|] eqn:E; [|discriminate]. intros [= <-].
  destruct (recover_x_sound _ _ _ Ht Hb E) as (X & C & Hp & Hon & Hpar). exists (X, fv y). split; [by apply is_point_affine|].
  apply le_val_inj; [by rewrite length_encode_point|]. rewrite encode_val. cbn [fst snd]. rewrite Hpar. unfold fv. rewrite fe_unsigned, Hv.
  fold v. rewrite Z.mod_small by (rewrite <- Hv; split; [apply (tight_value _ Ht)|exact Hp]). lia.
Qed.

(** Every encoding is decoded. *)
Lemma point_decompress_complete P : on_c P ->
  exists p, Hacl_Impl_Ed25519_PointDecompress_point_decompress (encode P) = Some p /\ is_point p P.
Proof.
  intros HP. pose proof (length_encode_point P) as Hs. unfold Hacl_Impl_Ed25519_PointDecompress_point_decompress. cbv zeta.
  rewrite sign_bit by exact Hs. destruct (fexpand_spec _ Hs) as [Ht Hv]. rewrite encode_val in Hv |- *.
  pose proof (unsigned_range (snd P)) as Hy. pose proof (Z.mod_pos_bound (Zmod.unsigned (fst P)) 2 ltac:(lia)) as Hx.
  set (y := Hacl_EC_Format_fexpand (encode P)) in *. clearbody y. set (b := Zmod.unsigned (fst P) mod 2) in *. set (u := Zmod.unsigned (snd P)) in *.
  assert (Eb : (u + 2 ^ 255 * b) / 2 ^ 255 = b) by (symmetry; apply (Z.div_unique_pos _ _ _ u); lia).
  assert (Eu : fval y = u) by (rewrite Hv; symmetry; apply (Z.mod_unique_pos _ _ b); lia). rewrite Eb.
  assert (Ey : fv y = snd P) by (apply Zmod.unsigned_inj; unfold fv; rewrite fe_unsigned, Eu; exact (Z.mod_small u p25519 Hy)).
  assert (Hon : on_c (fst P, fv y)) by (rewrite Ey; by destruct P).
  destruct (recover_x_complete y (fst P) Ht ltac:(rewrite Eu; exact (proj2 Hy)) Hon) as [x Er]. fold b in Er. rewrite Er.
  eexists. split; [reflexivity|]. destruct (recover_x_sound _ _ _ Ht Hx Er) as (X & C & _ & HX & Hpar).
  replace P with (X, fv y); [by apply is_point_affine|]. apply encode_inj; [exact HX|exact HP|].
  unfold encode. cbn [fst snd]. by rewrite Hpar, Ey.
Qed.

(** C23. Compression and decompression are inverse: a point of the curve in extended
    coordinates is recovered from its 32 bytes, and 32 bytes that decompress are the
    compression of what they give. *)
Theorem point_roundtrip :
  (forall p P, is_point p P -> exists p', Hacl_Impl_Ed25519_PointDecompress_point_decompress
     (Hacl_Impl_Ed25519_PointCompress_point_compress p) = Some p' /\ is_point p' P) /\
  (forall s p, length s = 32%nat -> Hacl_Impl_Ed25519_PointDecompress_point_decompress s = Some p ->
     Hacl_Impl_Ed25519_PointCompress_point_compress p = s).
Proof.
  split.
  - intros p P Hp. rewrite (point_compress_spec p P Hp). exact (point_decompress_complete P (proj1 (proj2 Hp))).
  - intros s p Hs E. destruct (point_decompress_sound s p Hs E) as (P & HP & <-). exact (point_compress_spec p P HP).
Qed.

Lemma point_roundtrip_witness : exists p', Hacl_Impl_Ed25519_PointDecompress_point_decompress
  (Hacl_Impl_Ed25519_PointCompress_point_compress Hacl_Impl_Ed25519_G_make_g) = Some p' /\ is_point p' base.
Proof. exact (proj1 point_roundtrip Hacl_Impl_Ed25519_G_make_g base make_g_spec). Defined.

(** C30. Decompression fails on exactly the 32 bytes that encode no point: an ordinate
    not below [2^255 - 19], one with no abscissa, or a sign for the abscissa 0. *)
Theorem point_decompress_fails s : length s = 32%nat ->
  Hacl_Impl_Ed25519_PointDecompress_point_decompress s = None <-> ~ (exists P, on_c P /\ encode P = s).
Proof.
  intros Hs. split.
  - intros E (P & HP & HE). destruct (point_decompress_complete P HP) as (p & Ep & _). rewrite HE, E in Ep. discriminate.
  - intros HN. destruct (Hacl_Impl_Ed25519_PointDecompress_point_decompress s) as [p|] eqn:E; [|reflexivity].
    destruct (point_decompress_sound s p Hs E) as (P & HP & HE). destruct HN. exists P. split; [exact (proj1 (proj2 HP))|exact HE].
Qed.

Lemma point_decompress_fails_witness :
  Hacl_Impl_Ed25519_PointDecompress_point_decompress (le_bytes 32 (2 ^ 255 - 1)) = None <->
  ~ (exists P, on_c P /\ encode P = le_bytes 32 (2 ^ 255 - 1)).
Proof. exact (point_decompress_fails (le_bytes 32 (2 ^ 255 - 1)) eq_refl). Defined.
