(* ===== verification/Sha512.v ===== *)
(** * SHA-512

    contrib/ed25519/Hacl_Ed25519.cpp, Hacl_Impl_SHA2_512_* and the hashes of a
    prefix with a message: the block function on 64-bit words, the padding of the
    last block and the streaming of the blocks.  Against them stands the hash as
    the standard defines it, on the padded message. *)

From S2P Require Import Prelude Word.

Local Open Scope Z_scope.

(** ** The code *)

(** The array of 169 words: constants, schedule, hash and block counter. *)
Record sha_state := mk_sha { k_w : list Z; ws_w : list Z; hash_w : list Z; counter_w : Z }.

Definition word (l : list Z) (i : nat) : Z := nth i l 0.

(** The [i]-th word of the input, read with [load64_be]. *)
Definition Hacl_Hash_Lib_LoadStore_uint64s_from_be_bytes (input : str) (len1 : nat) : list Z :=
  map (fun i => load64_be input (8 * i)) (seq 0 len1).

Definition Hacl_Hash_Lib_LoadStore_uint64s_to_be_bytes (input : list Z) (len1 : nat) : str :=
  concat (map (fun i => store64_be (word input i)) (seq 0 len1)).

Definition k512 : list Z := [
  0x428a2f98d728ae22; 0x7137449123ef65cd; 0xb5c0fbcfec4d3b2f; 0xe9b5dba58189dbbc;
  0x3956c25bf348b538; 0x59f111f1b605d019; 0x923f82a4af194f9b; 0xab1c5ed5da6d8118;
  0xd807aa98a3030242; 0x12835b0145706fbe; 0x243185be4ee4b28c; 0x550c7dc3d5ffb4e2;
  0x72be5d74f27b896f; 0x80deb1fe3b1696b1; 0x9bdc06a725c71235; 0xc19bf174cf692694;
  0xe49b69c19ef14ad2; 0xefbe4786384f25e3; 0x0fc19dc68b8cd5b5; 0x240ca1cc77ac9c65;
  0x2de92c6f592b0275; 0x4a7484aa6ea6e483; 0x5cb0a9dcbd41fbd4; 0x76f988da831153b5;
  0x983e5152ee66dfab; 0xa831c66d2db43210; 0xb00327c898fb213f; 0xbf597fc7beef0ee4;
  0xc6e00bf33da88fc2; 0xd5a79147930aa725; 0x06ca6351e003826f; 0x142929670a0e6e70;
  0x27b70a8546d22ffc; 0x2e1b21385c26c926; 0x4d2c6dfc5ac42aed; 0x53380d139d95b3df;
  0x650a73548baf63de; 0x766a0abb3c77b2a8; 0x81c2c92e47edaee6; 0x92722c851482353b;
  0xa2bfe8a14cf10364; 0xa81a664bbc423001; 0xc24b8b70d0f89791; 0xc76c51a30654be30;
  0xd192e819d6ef5218; 0xd69906245565a910; 0xf40e35855771202a; 0x106aa07032bbd1b8;
  0x19a4c116b8d2d0c8; 0x1e376c085141ab53; 0x2748774cdf8eeb99; 0x34b0bcb5e19b48a8;
  0x391c0cb3c5c95a63; 0x4ed8aa4ae3418acb; 0x5b9cca4f7763e373; 0x682e6ff3d6b2b8a3;
  0x748f82ee5defb2fc; 0x78a5636f43172f60; 0x84c87814a1f0ab72; 0x8cc702081a6439ec;
  0x90befffa23631e28; 0xa4506cebde82bde9; 0xbef9a3f7b2c67915; 0xc67178f2e372532b;
  0xca273eceea26619c; 0xd186b8c721c0c207; 0xeada7dd6cde0eb1e; 0xf57d4f7fee6ed178;
  0x06f067aa72176fba; 0x0a637dc5a2c898a6; 0x113f9804bef90dae; 0x1b710b35131c471b;
  0x28db77f523047d84; 0x32caab7b40c72493; 0x3c9ebe0a15c9bebc; 0x431d67c49c100d4c;
  0x4cc5d4becb3e42b6; 0x597f299cfc657e2a; 0x5fcb6fab3ad6faec; 0x6c44198c4a475817].

Definition h512 : list Z := [
  0x6a09e667f3bcc908; 0xbb67ae8584caa73b; 0x3c6ef372fe94f82b; 0xa54ff53a5f1d36f1;
  0x510e527fade682d1; 0x9b05688c2b3e6c1f; 0x1f83d9abfb41bd6b; 0x5be0cd19137e2179].

(** The schedule is left as the caller zeroed it. *)
Definition Hacl_Impl_SHA2_512_init : sha_state := mk_sha k512 (replicate 80 0) h512 0.

(** [x >> n | x << (64 - n)] *)
Definition rotr (x n : Z) : Z := Z.lor (Z.shiftr x n) (shl64 x (64 - n)).

Definition ws_next (ws : list Z) (i : nat) : Z :=
  let t16 := word ws (i - 16) in
  let t15 := word ws (i - 15) in
  let t7 := word ws (i - 7) in
  let t2 := word ws (i - 2) in
  u64 (u64 (u64 (Z.lxor (rotr t2 19) (Z.lxor (rotr t2 61) (Z.shiftr t2 6)) + t7)
    + Z.lxor (rotr t15 1) (Z.lxor (rotr t15 8) (Z.shiftr t15 7))) + t16).

(** The loop from 16 to 79; what is behind index [i] is written before it is
    read. *)
Fixpoint ws_loop (n i : nat) (ws : list Z) : list Z :=
  match n with
  | O => ws
  | S n => ws_loop n (S i) (ws ++ [ws_next ws i])
  end.

Definition shuffle_step (hash_0 : list Z) (k_t ws_t : Z) : list Z :=
  let a := word hash_0 0 in
  let b := word hash_0 1 in
  let c := word hash_0 2 in
  let d1 := word hash_0 3 in
  let e := word hash_0 4 in
  let f1 := word hash_0 5 in
  let g1 := word hash_0 6 in
  let h := word hash_0 7 in
  let t1 := u64 (u64 (u64 (u64 (h + Z.lxor (rotr e 14) (Z.lxor (rotr e 18) (rotr e 41)))
    + Z.lxor (Z.land e f1) (Z.land (lnot64 e) g1)) + k_t) + ws_t) in
  let t2 := u64 (Z.lxor (rotr a 28) (Z.lxor (rotr a 34) (rotr a 39)) + Z.lxor (Z.land a b) (Z.lxor (Z.land a c) (Z.land b c))) in
  let x1 := u64 (t1 + t2) in
  let x5 := u64 (d1 + t1) in
  [x1; a; b; c; x5; e; f1; g1].

Fixpoint shuffle_loop (n i : nat) (k_w ws_w hash_0 : list Z) : list Z :=
  match n with
  | O => hash_0
  | S n => shuffle_loop n (S i) k_w ws_w (shuffle_step hash_0 (word k_w i) (word ws_w i))
  end.

Definition Hacl_Impl_SHA2_512_update (state : sha_state) (data : str) : sha_state :=
  let data_w := Hacl_Hash_Lib_LoadStore_uint64s_from_be_bytes data 16 in
  let ws := ws_loop 64 16 data_w in
  let hash_0 := shuffle_loop 80 0 (k_w state) ws (hash_w state) in
  mk_sha (k_w state) ws (map (fun i => u64 (word (hash_w state) i + word hash_0 i)) (seq 0 8)) (u64 (counter_w state + 1)).

(** The turns [i] to [i + n - 1]. *)
Fixpoint update_loop (n i : nat) (state : sha_state) (data : str) : sha_state :=
  match n with
  | O => state
  | S n => update_loop n (S i) (Hacl_Impl_SHA2_512_update state (drop (i * 128) data)) data
  end.

Definition Hacl_Impl_SHA2_512_update_multi (state : sha_state) (data : str) (n1 : nat) : sha_state :=
  update_loop n1 0 state data.

Definition Hacl_Impl_SHA2_512_update_last (state : sha_state) (data : str) (len1 : nat) : sha_state :=
  let blocks := replicate 256 NUL in
  let nb := (if len1 <? 112 then 1 else 2)%nat in
  let off := (if len1 <? 112 then 128 else 0)%nat in
  let blocks := put blocks off (take len1 data) in
  let n1 := counter_w state in
  let padding := (off + len1)%nat in
  let encodedlen := u128 (Z.shiftl (add128 (mul_wide n1 128) (Z.of_nat len1)) 3) in
  let pad0len := ((256 - (len1 + 16 + 1)) mod 128)%nat in
  let blocks := put blocks padding [z2b 0x80] in
  let blocks := put blocks (padding + 1 + pad0len) (store128_be encodedlen) in
  Hacl_Impl_SHA2_512_update_multi state (drop off blocks) nb.

Definition Hacl_Impl_SHA2_512_finish (state : sha_state) : str :=
  Hacl_Hash_Lib_LoadStore_uint64s_to_be_bytes (hash_w state) 8.

Definition Hacl_Impl_SHA2_512_hash (input : str) (len1 : nat) : str :=
  let n1 := (len1 / 128)%nat in
  let r := (len1 mod 128)%nat in
  let input_last := drop (n1 * 128) input in
  let state := Hacl_Impl_SHA2_512_init in
  let state := Hacl_Impl_SHA2_512_update_multi state input n1 in
  let state := Hacl_Impl_SHA2_512_update_last state input_last r in
  Hacl_Impl_SHA2_512_finish state.

(** ** A prefix and a message *)

Definition Hacl_Impl_SHA512_Ed25519_2_hash_block_and_rest (block msg : str) (len1 : nat) : str :=
  let nblocks := (len1 / 128)%nat in
  let rest := (len1 mod 128)%nat in
  let st := Hacl_Impl_SHA2_512_init in
  let st := Hacl_Impl_SHA2_512_update st block in
  let st := Hacl_Impl_SHA2_512_update_multi st msg nblocks in
  let st := Hacl_Impl_SHA2_512_update_last st (drop (128 * nblocks) msg) rest in
  Hacl_Impl_SHA2_512_finish st.

Definition Hacl_Impl_SHA512_Ed25519_1_concat_2 (out pre msg : str) (len1 : nat) : str :=
  let out := put out 0 (take 32 pre) in
  put out 32 (take len1 msg).

Definition Hacl_Impl_SHA512_Ed25519_1_concat_3 (out pre pre2 msg : str) (len1 : nat) : str :=
  let out := put out 0 (take 32 pre) in
  let out := put out 32 (take 32 pre2) in
  put out 64 (take len1 msg).

Definition Hacl_Impl_SHA512_Ed25519_1_sha512_pre_msg_1 (prefix input : str) (len1 : nat) : str :=
  let block_ := Hacl_Impl_SHA512_Ed25519_1_concat_2 (replicate 128 NUL) prefix input len1 in
  Hacl_Impl_SHA2_512_hash block_ (len1 + 32).

Definition Hacl_Impl_SHA512_Ed25519_1_sha512_pre_pre2_msg_1 (prefix prefix2 input : str) (len1 : nat) : str :=
  let block_ := Hacl_Impl_SHA512_Ed25519_1_concat_3 (replicate 128 NUL) prefix prefix2 input len1 in
  Hacl_Impl_SHA2_512_hash block_ (len1 + 64).

Definition Hacl_Impl_SHA512_Ed25519_3_sha512_pre_msg_2 (prefix input : str) (len1 : nat) : str :=
  let input21 := drop 96 input in
  let block := Hacl_Impl_SHA512_Ed25519_1_concat_2 (replicate 128 NUL) prefix input 96 in
  Hacl_Impl_SHA512_Ed25519_2_hash_block_and_rest block input21 (len1 - 96).

Definition Hacl_Impl_SHA512_Ed25519_3_sha512_pre_msg (prefix input : str) (len1 : nat) : str :=
  if (len1 <=? 96)%nat then Hacl_Impl_SHA512_Ed25519_1_sha512_pre_msg_1 prefix input len1
  else Hacl_Impl_SHA512_Ed25519_3_sha512_pre_msg_2 prefix input len1.

Definition Hacl_Impl_SHA512_Ed25519_3_sha512_pre_pre2_msg_2 (prefix prefix2 input : str) (len1 : nat) : str :=
  let input21 := drop 64 input in
  let block := Hacl_Impl_SHA512_Ed25519_1_concat_3 (replicate 128 NUL) prefix prefix2 input 64 in
  Hacl_Impl_SHA512_Ed25519_2_hash_block_and_rest block input21 (len1 - 64).

Definition Hacl_Impl_SHA512_Ed25519_3_sha512_pre_pre2_msg (prefix prefix2 input : str) (len1 : nat) : str :=
  if (len1 <=? 64)%nat then Hacl_Impl_SHA512_Ed25519_1_sha512_pre_pre2_msg_1 prefix prefix2 input len1
  else Hacl_Impl_SHA512_Ed25519_3_sha512_pre_pre2_msg_2 prefix prefix2 input len1.

(** ** The standard

    FIPS 180-4, with bytes for bits. *)

Definition Ch (x y z : Z) : Z := Z.lxor (Z.land x y) (Z.land (lnot64 x) z).
Definition Maj (x y z : Z) : Z := Z.lxor (Z.lxor (Z.land x y) (Z.land x z)) (Z.land y z).
Definition SIGMA0 (x : Z) : Z := Z.lxor (Z.lxor (rotr x 28) (rotr x 34)) (rotr x 39).
Definition SIGMA1 (x : Z) : Z := Z.lxor (Z.lxor (rotr x 14) (rotr x 18)) (rotr x 41).
Definition sigma0 (x : Z) : Z := Z.lxor (Z.lxor (rotr x 1) (rotr x 8)) (Z.shiftr x 7).
Definition sigma1 (x : Z) : Z := Z.lxor (Z.lxor (rotr x 19) (rotr x 61)) (Z.shiftr x 6).

(** The message schedule of a block; [n > t] is fuel enough. *)
Fixpoint W (n : nat) (M : nat -> Z) (t : nat) : Z :=
  match n with
  | O => 0
  | S n =>
    if (t <? 16)%nat then M t
    else u64 (sigma1 (W n M (t - 2)) + W n M (t - 7) + sigma0 (W n M (t - 15)) + W n M (t - 16))
  end.

(** One round on the working variables. *)
Definition round (K : nat -> Z) (Wt : nat -> Z) (v : list Z) (t : nat) : list Z :=
  match v with
  | [a; b; c; d; e; f; g; h] =>
    let T1 := h + SIGMA1 e + Ch e f g + K t + Wt t in
    let T2 := SIGMA0 a + Maj a b c in
    [u64 (T1 + T2); a; b; c; u64 (d + T1); e; f; g]
  | _ => v
  end.

Definition compress (H : list Z) (block : str) : list Z :=
  let M t := load64_be block (8 * t) in
  let v := fold_left (round (word k512) (fun t => W (S t) M t)) (seq 0 80) H in
  zip_with (fun x y => u64 (x + y)) H v.

(** A one bit, the least number of zeros, and the length in bits. *)
Definition pad (m : str) : str :=
  m ++ [z2b 0x80] ++ replicate ((239 - length m mod 128) mod 128) NUL ++ store128_be (8 * Z.of_nat (length m)).

Fixpoint chunks (n : nat) (s : str) : list str :=
  match n with O => [] | S n => take 128 s :: chunks n (drop 128 s) end.

Definition sha512 (m : str) : str :=
  concat (map store64_be (fold_left compress (chunks (length (pad m) / 128) (pad m)) h512)).

(** * Theorems *)

Lemma lxor_3 x y z : Z.lxor x (Z.lxor y z) = Z.lxor (Z.lxor x y) z.
Proof. symmetry. apply Z.lxor_assoc. Qed.

Lemma u64_add_l x y : u64 (u64 x + y) = u64 (x + y).
Proof. unfold u64. by rewrite Z.add_mod_idemp_l. Qed.

Lemma u64_add_r x y : u64 (x + u64 y) = u64 (x + y).
Proof. unfold u64. by rewrite Z.add_mod_idemp_r. Qed.

Lemma u64_sum_5 a b c d e : u64 (u64 (u64 (u64 (a + b) + c) + d) + e) = u64 (a + b + c + d + e).
Proof.
  rewrite u64_add_l. rewrite <- Z.add_assoc, u64_add_l, Z.add_assoc. rewrite <- (Z.add_assoc _ c), <- Z.add_assoc, u64_add_l. f_equal. lia.
Qed.

Lemma shuffle_step_eq K Wt H t : length H = 8%nat -> shuffle_step H (K t) (Wt t) = round K Wt H t.
Proof.
  intros HH. do 8 (destruct H as [|? H]; [done|]). destruct H; [|done]. unfold shuffle_step, round, word. cbn [nth].
  unfold SIGMA0, SIGMA1, Ch, Maj. rewrite !lxor_3.
  rewrite (u64_sum_5 _ (Z.lxor (Z.lxor (rotr _ 14) (rotr _ 18)) (rotr _ 41))). by rewrite u64_add_l, !u64_add_r.
Qed.

Lemma length_round K Wt v t : length (round K Wt v t) = length v.
Proof. unfold round. by do 9 (destruct v as [|? v]; [done|]). Qed.

Lemma shuffle_loop_eq k ws n : forall i H, length H = 8%nat ->
  shuffle_loop n i k ws H = fold_left (round (word k) (word ws)) (seq i n) H.
Proof.
  induction n as [|n IH]; intros i H HH; [done|]. cbn [shuffle_loop seq fold_left]. rewrite <- IH by (by rewrite length_round).
  by rewrite <- shuffle_step_eq.
Qed.

(** ** The schedule *)

Lemma W_fuel M n : forall m t, (t < n)%nat -> (t < m)%nat -> W n M t = W m M t.
Proof.
  induction n as [|n IH]; intros m t Hn Hm; [lia|]. destruct m as [|m]; [lia|]. cbn [W].
  destruct (Nat.ltb_spec t 16); [done|]. by rewrite !(IH m) by lia.
Qed.

Lemma W_small M n t : (t < 16)%nat -> W (S n) M t = M t.
Proof. intros Ht. cbn [W]. by rewrite (proj2 (Nat.ltb_lt _ _) Ht). Qed.

Lemma W_large M n t : (16 <= t)%nat ->
  W (S n) M t = u64 (sigma1 (W n M (t - 2)) + W n M (t - 7) + sigma0 (W n M (t - 15)) + W n M (t - 16)).
Proof. intros Ht. cbn [W]. by rewrite (proj2 (Nat.ltb_ge _ _) Ht). Qed.

Lemma ws_next_eq M ws i : (16 <= i)%nat -> (forall t, (t < i)%nat -> word ws t = W (S t) M t) -> ws_next ws i = W (S i) M i.
Proof.
  intros Hi Hw. unfold ws_next. rewrite !Hw by lia. rewrite (W_large M i i) by done. rewrite !lxor_3.
  rewrite (W_fuel M (S (i - 2)) i), (W_fuel M (S (i - 7)) i), (W_fuel M (S (i - 15)) i), (W_fuel M (S (i - 16)) i) by lia.
  rewrite u64_add_l. rewrite <- Z.add_assoc, u64_add_l, Z.add_assoc. done.
Qed.

Lemma ws_loop_spec M n : forall i ws, (16 <= i)%nat -> length ws = i -> (forall t, (t < i)%nat -> word ws t = W (S t) M t) ->
  forall t, (t < i + n)%nat -> word (ws_loop n i ws) t = W (S t) M t.
Proof.
  induction n as [|n IH]; intros i ws Hi Hl Hw t Ht; [apply Hw; lia|]. cbn [ws_loop]. apply (IH (S i)); [lia|rewrite length_app; cbn; lia| |lia].
  intros t' Ht'. unfold word. destruct (decide (t' < i)%nat) as [Hlt|Hge].
  - rewrite app_nth1 by lia. by apply Hw.
  - replace t' with i by lia. rewrite app_nth2, Hl, Nat.sub_diag by lia. cbn [nth]. by apply ws_next_eq.
Qed.

Lemma load64_be_take s n off : (off + 8 <= n)%nat -> load64_be (take n s) off = load64_be s off.
Proof.
  intros Hn. unfold load64_be. do 2 f_equal. rewrite skipn_firstn_comm, take_take. f_equal. lia.
Qed.

Lemma round_ext K Wt Wt' l : forall v, (forall t, t ∈ l -> Wt t = Wt' t) -> fold_left (round K Wt) l v = fold_left (round K Wt') l v.
Proof.
  induction l as [|t l IH]; intros v Hw; [done|]. cbn [fold_left]. rewrite IH by (intros; apply Hw; by right). f_equal.
  unfold round. by rewrite Hw by left.
Qed.

(** ** The blocks *)

Definition st_is (st : sha_state) (H : list Z) (n : Z) : Prop :=
  k_w st = k512 /\ hash_w st = H /\ length H = 8%nat /\ counter_w st = n.

Lemma length_rounds K Wt l : forall v, length (fold_left (round K Wt) l v) = length v.
Proof. induction l as [|t l IH]; intros v; [done|]. cbn [fold_left]. by rewrite IH, length_round. Qed.

Lemma length_compress H b : length H = 8%nat -> length (compress H b) = 8%nat.
Proof. intros HH. unfold compress. rewrite length_zip_with, length_rounds. lia. Qed.

Lemma zip_words (f : Z -> Z -> Z) H v : length H = 8%nat -> length v = 8%nat ->
  map (fun i => f (word H i) (word v i)) (seq 0 8) = zip_with f H v.
Proof.
  intros HH Hv. do 8 (destruct H as [|? H]; [done|]). destruct H; [|done]. do 8 (destruct v as [|? v]; [done|]). by destruct v.
Qed.

Lemma update_spec st H n data : st_is st H n -> st_is (Hacl_Impl_SHA2_512_update st data) (compress H (take 128 data)) (u64 (n + 1)).
Proof.
  intros (Ek & <- & HH & <-). unfold Hacl_Impl_SHA2_512_update. split; [done|]. split; [|split; [by apply length_compress|done]]. cbn [hash_w].
  set (M := fun t => load64_be (take 128 data) (8 * t)).
  assert (Ev : shuffle_loop 80 0 (k_w st) (ws_loop 64 16 (Hacl_Hash_Lib_LoadStore_uint64s_from_be_bytes data 16)) (hash_w st)
    = fold_left (round (word k512) (fun t => W (S t) M t)) (seq 0 80) (hash_w st)).
  { rewrite shuffle_loop_eq, Ek by done. apply round_ext. intros t Ht%elem_of_seq. apply ws_loop_spec; [done|done| |lia].
    intros t' Ht'. rewrite W_small by done. unfold word, Hacl_Hash_Lib_LoadStore_uint64s_from_be_bytes.
    rewrite (nth_indep _ _ (load64_be data (8 * 0))) by (rewrite length_fmap, length_seq; done).
    rewrite (map_nth (fun i => load64_be data (8 * i)%nat)), seq_nth by done. unfold M. by rewrite load64_be_take by lia. }
  rewrite Ev. unfold compress. fold M. apply (zip_words (fun x y => u64 (x + y))); [done|]. by rewrite length_rounds.
Qed.

Lemma length_hash_rounds n : forall s H, length H = 8%nat -> length (fold_left compress (chunks n s) H) = 8%nat.
Proof. induction n as [|n IH]; intros s H HH; [done|]. cbn [chunks fold_left]. by apply IH, length_compress. Qed.

Lemma update_loop_spec n data : forall i st H c, st_is st H c -> 0 <= c -> c + Z.of_nat n < 2 ^ 64 ->
  st_is (update_loop n i st data) (fold_left compress (chunks n (drop (i * 128) data)) H) (c + Z.of_nat n).
Proof.
  induction n as [|n IH]; intros i st H c Hst Hc Hn; [cbn; by rewrite Z.add_0_r|]. cbn [update_loop chunks fold_left].
  rewrite drop_drop. replace (i * 128 + 128)%nat with (S i * 128)%nat by lia.
  replace (c + Z.of_nat (S n)) with (c + 1 + Z.of_nat n) by lia. apply IH; [|lia|lia].
  rewrite <- (u64_small (c + 1)) by lia. by apply update_spec.
Qed.

Lemma update_multi_spec st H c data n : st_is st H c -> 0 <= c -> c + Z.of_nat n < 2 ^ 64 ->
  st_is (Hacl_Impl_SHA2_512_update_multi st data n) (fold_left compress (chunks n data) H) (c + Z.of_nat n).
Proof. intros Hst Hc Hn. by apply (update_loop_spec n data 0). Qed.

Lemma init_spec : st_is Hacl_Impl_SHA2_512_init h512 0.
Proof. done. Qed.

Lemma finish_spec st H n : st_is st H n -> Hacl_Impl_SHA2_512_finish st = concat (map store64_be H).
Proof.
  intros (_ & <- & HH & _). unfold Hacl_Impl_SHA2_512_finish, Hacl_Hash_Lib_LoadStore_uint64s_to_be_bytes. f_equal.
  set (H := hash_w st) in *. clearbody H. do 8 (destruct H as [|? H]; [done|]). by destruct H.
Qed.

(** ** The last blocks *)

Lemma put_zeros p n x : (length x <= n)%nat -> put (p ++ replicate n NUL) (length p) x = p ++ x ++ replicate (n - length x) NUL.
Proof.
  intros Hx. unfold put. rewrite take_app_length. do 2 f_equal. rewrite drop_app_ge by lia.
  replace (length p + length x - length p)%nat with (length x) by lia. by rewrite drop_replicate.
Qed.

Lemma put_zeros_at k p n x : length p = k -> (length x <= n)%nat -> put (p ++ replicate n NUL) k x = p ++ x ++ replicate (n - length x) NUL.
Proof. intros <-. apply put_zeros. Qed.

Lemma put_zeros_0 n x : (length x <= n)%nat -> put (replicate n NUL) 0 x = x ++ replicate (n - length x) NUL.
Proof. apply (put_zeros [] n x). Qed.

Lemma pad0len_eq r : (r < 128)%nat -> ((256 - (r + 16 + 1)) mod 128 = if r <? 112 then 111 - r else 239 - r)%nat.
Proof.
  intros Hr. destruct (Nat.ltb_spec r 112); [|rewrite Nat.mod_small; lia]. symmetry. apply (Nat.mod_unique _ _ 1); lia.
Qed.

(** The buffer that is hashed last: the rest of the message with its padding. *)
Lemma last_buffer off r d e : length d = r -> length e = 16%nat -> (r < 128)%nat -> off = (if r <? 112 then 128 else 0)%nat ->
  let pad0len := ((256 - (r + 16 + 1)) mod 128)%nat in
  let b := put (replicate 256 NUL) off d in
  let b := put b (off + r) [z2b 0x80] in
  drop off (put b (off + r + 1 + pad0len) e) = d ++ [z2b 0x80] ++ replicate pad0len NUL ++ e.
Proof.
  intros Hd He Hr Ho pad0len. cbv zeta.
  assert (Hp : (off + r + 1 + pad0len + 16 = 256)%nat).
  { unfold pad0len. rewrite pad0len_eq by done. destruct (Nat.ltb_spec r 112); lia. }
  assert (E1 : put (replicate 256 NUL) off d = (replicate off NUL ++ d) ++ replicate (256 - off - r) NUL).
  { replace 256%nat with (off + (256 - off))%nat at 1 by lia. rewrite replicate_add.
    rewrite <- (length_replicate off NUL) at 3. rewrite put_zeros by lia. by rewrite app_assoc, Hd. }
  assert (L1 : length (replicate off NUL ++ d) = (off + r)%nat) by (rewrite length_app, length_replicate; lia).
  rewrite E1, <- L1, put_zeros by (cbn; lia). cbn [length].
  replace (256 - off - r - 1)%nat with (pad0len + 16)%nat by lia. rewrite replicate_add.
  set (x := replicate off NUL ++ d) in *.
  assert (L2 : length (x ++ [z2b 0x80] ++ replicate pad0len NUL) = (length x + 1 + pad0len)%nat) by (rewrite !length_app, length_replicate; cbn; lia).
  replace (x ++ [z2b 0x80] ++ replicate pad0len NUL ++ replicate 16 NUL) with ((x ++ [z2b 0x80] ++ replicate pad0len NUL) ++ replicate 16 NUL) by (by rewrite <- !app_assoc).
  rewrite <- L2, put_zeros by lia. rewrite He. change (16 - 16)%nat with 0%nat. rewrite app_nil_r. unfold x. rewrite <- !app_assoc.
  rewrite <- (length_replicate off NUL) at 1. by rewrite drop_app_length.
Qed.

Lemma chunks_app n m a b : length a = (n * 128)%nat -> chunks (n + m) (a ++ b) = chunks n a ++ chunks m b.
Proof.
  revert a. induction n as [|n IH]; intros a Ha; [by destruct a|]. cbn [chunks Nat.add app].
  rewrite take_app_le, drop_app_le by lia. f_equal. apply IH. rewrite length_drop. lia.
Qed.

Lemma length_store128_be z : length (store128_be z) = 16%nat.
Proof. unfold store128_be, store64_be. by rewrite length_app, !length_rev, !length_le_bytes. Qed.

(** What is hashed when [n] blocks [a] went in before the rest [d]. *)
Lemma update_last_spec st n a d len1 : length a = (n * 128)%nat -> (len1 <= length d)%nat -> (len1 < 128)%nat ->
  Z.of_nat n < 2 ^ 48 -> st_is st (fold_left compress (chunks n a) h512) (Z.of_nat n) ->
  Hacl_Impl_SHA2_512_finish (Hacl_Impl_SHA2_512_update_last st d len1) = sha512 (a ++ take len1 d).
Proof.
  intros Ha Hd Hl Hn Hst. unfold Hacl_Impl_SHA2_512_update_last. cbv zeta. rewrite (proj2 (proj2 (proj2 Hst))).
  set (nb := (if len1 <? 112 then 1 else 2)%nat). set (off := (if len1 <? 112 then 128 else 0)%nat).
  assert (Lt : length (take len1 d) = len1) by (rewrite length_take; lia).
  rewrite (last_buffer off len1 _ _ Lt (length_store128_be _) Hl eq_refl). set (p0 := ((256 - (len1 + 16 + 1)) mod 128)%nat).
  set (e := u128 _).
  assert (He : e = 8 * Z.of_nat (length (a ++ take len1 d))).
  { unfold e, add128, mul_wide. rewrite length_app, Ha, Lt. rewrite (u128_small (Z.of_nat n * 128)), (u128_small (_ + _)) by lia.
    rewrite Z.shiftl_mul_pow2, u128_small by lia. lia. }
  assert (Hm : (length (a ++ take len1 d) mod 128 = len1)%nat).
  { rewrite length_app, Ha, Lt, Nat.add_comm, Nat.Div0.mod_add. by apply Nat.mod_small. }
  assert (Hp : pad (a ++ take len1 d) = a ++ (take len1 d ++ [z2b 0x80] ++ replicate p0 NUL ++ store128_be e)).
  { unfold pad. rewrite Hm, He, <- !app_assoc. unfold p0. by replace (256 - (len1 + 16 + 1))%nat with (239 - len1)%nat by lia. }
  set (t := take len1 d ++ [z2b 0x80] ++ replicate p0 NUL ++ store128_be e) in *.
  assert (Lp : length t = (nb * 128)%nat).
  { unfold t. rewrite !length_app, Lt, length_replicate, length_store128_be. cbn [length]. unfold p0, nb.
    rewrite pad0len_eq by done. destruct (Nat.ltb_spec len1 112); lia. }
  assert (Hb : (nb <= 2)%nat) by (unfold nb; destruct (len1 <? 112)%nat; lia).
  rewrite (finish_spec _ _ _ (update_multi_spec _ _ _ t nb Hst ltac:(lia) ltac:(lia))). unfold sha512. do 2 f_equal.
  rewrite Hp, length_app, Ha, Lp, <- Nat.mul_add_distr_r, Nat.div_mul, chunks_app, fold_left_app by done. done.
Qed.

Lemma chunks_take n s k : (n * 128 <= k)%nat -> chunks n (take k s) = chunks n s.
Proof.
  revert s k. induction n as [|n IH]; intros s k Hk; [done|]. cbn [chunks]. rewrite take_take, Nat.min_l by lia. f_equal.
  rewrite skipn_firstn_comm. apply IH. lia.
Qed.

(** Whole blocks and a rest, after [n] blocks [a]. *)
Lemma stream_spec st n a data len1 : length a = (n * 128)%nat -> (len1 <= length data)%nat -> Z.of_nat n + Z.of_nat len1 < 2 ^ 48 ->
  st_is st (fold_left compress (chunks n a) h512) (Z.of_nat n) ->
  Hacl_Impl_SHA2_512_finish (Hacl_Impl_SHA2_512_update_last (Hacl_Impl_SHA2_512_update_multi st data (len1 / 128))
    (drop (len1 / 128 * 128) data) (len1 mod 128)) = sha512 (a ++ take len1 data).
Proof.
  intros Ha Hd Hn Hst. pose proof (Nat.div_mod_eq len1 128) as E. pose proof (Nat.mod_upper_bound len1 128 ltac:(lia)) as Hm.
  set (q := (len1 / 128)%nat) in *. set (r := (len1 mod 128)%nat) in *. clearbody q r.
  rewrite (update_last_spec _ (n + q) (a ++ take (q * 128) data)).
  - rewrite <- app_assoc. do 2 f_equal. rewrite take_take_drop. f_equal. lia.
  - rewrite length_app, length_take. lia.
  - rewrite length_drop. lia.
  - done.
  - lia.
  - rewrite chunks_app, chunks_take, fold_left_app, Nat2Z.inj_add by done. apply update_multi_spec; [done|lia|lia].
Qed.

(** The hash is that of the standard. *)
Lemma hash_spec input len1 : (len1 <= length input)%nat -> Z.of_nat len1 < 2 ^ 32 ->
  Hacl_Impl_SHA2_512_hash input len1 = sha512 (take len1 input).
Proof. intros Hl Hn. apply (stream_spec _ 0 []); [done|done|lia|exact init_spec]. Qed.

Lemma hash_block_and_rest_spec block msg len1 : length block = 128%nat -> (len1 <= length msg)%nat -> Z.of_nat len1 < 2 ^ 32 ->
  Hacl_Impl_SHA512_Ed25519_2_hash_block_and_rest block msg len1 = sha512 (block ++ take len1 msg).
Proof.
  intros Hb Hl Hn. unfold Hacl_Impl_SHA512_Ed25519_2_hash_block_and_rest. cbv zeta. rewrite (Nat.mul_comm 128).
  apply (stream_spec _ 1 block); [lia|done|lia|]. exact (update_spec _ _ _ block init_spec).
Qed.

Lemma length_sha512 m : length (sha512 m) = 64%nat.
Proof.
  unfold sha512. set (n := (length (pad m) / 128)%nat). pose proof (length_hash_rounds n (pad m) h512 eq_refl) as HH.
  set (H := fold_left _ _ _) in *. clearbody H. do 8 (destruct H as [|? H]; [done|]). destruct H; [|done].
  cbn [map concat]. rewrite !length_app. unfold store64_be. by rewrite !length_rev, !length_le_bytes.
Qed.

Lemma concat_2_spec pre msg len1 : length pre = 32%nat -> (len1 <= length msg)%nat -> (len1 <= 96)%nat ->
  Hacl_Impl_SHA512_Ed25519_1_concat_2 (replicate 128 NUL) pre msg len1 = (pre ++ take len1 msg) ++ replicate (96 - len1) NUL.
Proof.
  intros Hp Hl Hn. unfold Hacl_Impl_SHA512_Ed25519_1_concat_2. rewrite (take_ge pre) by lia.
  rewrite put_zeros_0 by lia. rewrite Hp. change (128 - 32)%nat with 96%nat.
  rewrite (put_zeros_at 32 pre) by (rewrite ?length_take; lia). rewrite length_take_le, app_assoc by lia. done.
Qed.

Lemma concat_3_spec pre pre2 msg len1 : length pre = 32%nat -> length pre2 = 32%nat -> (len1 <= length msg)%nat -> (len1 <= 64)%nat ->
  Hacl_Impl_SHA512_Ed25519_1_concat_3 (replicate 128 NUL) pre pre2 msg len1 = (pre ++ pre2 ++ take len1 msg) ++ replicate (64 - len1) NUL.
Proof.
  intros Hp Hp2 Hl Hn. unfold Hacl_Impl_SHA512_Ed25519_1_concat_3. rewrite (take_ge pre), (take_ge pre2) by lia.
  rewrite put_zeros_0 by lia. rewrite Hp. change (128 - 32)%nat with 96%nat.
  rewrite (put_zeros_at 32 pre) by lia. rewrite Hp2. change (96 - 32)%nat with 64%nat. rewrite (app_assoc pre).
  rewrite (put_zeros_at 64 (pre ++ pre2)) by (rewrite ?length_app, ?length_take; lia). rewrite length_take_le, <- !app_assoc by lia. done.
Qed.

(** The hash of a prefix and a message is that of their concatenation,
    whichever way it is streamed. *)
Lemma sha512_pre_msg_spec prefix input len1 : length prefix = 32%nat -> (len1 <= length input)%nat -> Z.of_nat len1 < 2 ^ 32 ->
  Hacl_Impl_SHA512_Ed25519_3_sha512_pre_msg prefix input len1 = sha512 (prefix ++ take len1 input).
Proof.
  intros Hp Hl Hn. unfold Hacl_Impl_SHA512_Ed25519_3_sha512_pre_msg. destruct (Nat.leb_spec len1 96).
  - unfold Hacl_Impl_SHA512_Ed25519_1_sha512_pre_msg_1. rewrite concat_2_spec by lia.
    assert (L : length (prefix ++ take len1 input) = (len1 + 32)%nat) by (rewrite length_app, length_take; lia).
    rewrite hash_spec by (rewrite ?length_app, ?length_replicate in *; lia). f_equal. rewrite <- L. apply take_app_length.
  - unfold Hacl_Impl_SHA512_Ed25519_3_sha512_pre_msg_2. rewrite concat_2_spec by lia. rewrite app_nil_r.
    rewrite hash_block_and_rest_spec; [|rewrite length_app, length_take; lia|rewrite length_drop; lia|lia].
    rewrite <- app_assoc. do 2 f_equal. rewrite take_take_drop. f_equal. lia.
Qed.

Lemma sha512_pre_pre2_msg_spec prefix prefix2 input len1 : length prefix = 32%nat -> length prefix2 = 32%nat ->
  (len1 <= length input)%nat -> Z.of_nat len1 < 2 ^ 32 ->
  Hacl_Impl_SHA512_Ed25519_3_sha512_pre_pre2_msg prefix prefix2 input len1 = sha512 (prefix ++ prefix2 ++ take len1 input).
Proof.
  intros Hp Hp2 Hl Hn. unfold Hacl_Impl_SHA512_Ed25519_3_sha512_pre_pre2_msg. destruct (Nat.leb_spec len1 64).
  - unfold Hacl_Impl_SHA512_Ed25519_1_sha512_pre_pre2_msg_1. rewrite concat_3_spec by lia.
    assert (L : length (prefix ++ prefix2 ++ take len1 input) = (len1 + 64)%nat) by (rewrite !length_app, length_take; lia).
    rewrite hash_spec by (rewrite ?length_app, ?length_replicate in *; lia). f_equal. rewrite <- L. apply take_app_length.
  - unfold Hacl_Impl_SHA512_Ed25519_3_sha512_pre_pre2_msg_2. rewrite concat_3_spec by lia. rewrite app_nil_r.
    rewrite hash_block_and_rest_spec; [|rewrite !length_app, length_take; lia|rewrite length_drop; lia|lia].
    rewrite <- !app_assoc. do 3 f_equal. rewrite take_take_drop. f_equal. lia.
Qed.

(** C24. The streaming hash is SHA-512 of FIPS 180-4: in one call; after a prefix of 32
    bytes; and after two such prefixes, on the one-block path for short messages as on
    the other. *)
Theorem sha512_standard input len1 prefix prefix2 : (len1 <= length input)%nat -> Z.of_nat len1 < 2 ^ 32 ->
  length prefix = 32%nat -> length prefix2 = 32%nat ->
  Hacl_Impl_SHA2_512_hash input len1 = sha512 (take len1 input) /\
  Hacl_Impl_SHA512_Ed25519_3_sha512_pre_msg prefix input len1 = sha512 (prefix ++ take len1 input) /\
  Hacl_Impl_SHA512_Ed25519_3_sha512_pre_pre2_msg prefix prefix2 input len1 = sha512 (prefix ++ prefix2 ++ take len1 input).
Proof.
  intros Hl Hn Hp Hp2. split; [exact (hash_spec _ _ Hl Hn)|]. split; [exact (sha512_pre_msg_spec _ _ _ Hp Hl Hn)|].
  exact (sha512_pre_pre2_msg_spec _ _ _ _ Hp Hp2 Hl Hn).
Qed.

Lemma sha512_standard_witness : Hacl_Impl_SHA2_512_hash (replicate 200 NUL) 150 = sha512 (take 150 (replicate 200 NUL)).
Proof.
  refine (proj1 (sha512_standard (replicate 200 NUL) 150 (replicate 32 NUL) (replicate 32 NUL) _ eq_refl eq_refl eq_refl)).
  cbn [length replicate]. lia.
Defined.
