(* ===== verification/Ed25519.v ===== *)
(** * Ed25519 signatures

    contrib/ed25519/Hacl_Ed25519.cpp, from the expansion of a secret key to
    [Hacl_Ed25519_sign], [Hacl_Ed25519_verify] and
    [Hacl_Ed25519_secret_to_public].  The scratch arrays of the code hold their
    parts at disjoint offsets; the parts are variables here. *)

From S2P Require Import Prelude Word Fe25519 EdPoint ModQ Sha512 Crypto.

Local Open Scope Z_scope.

(** ** Keys *)

Definition Hacl_Impl_Ed25519_SecretExpand_secret_expand (secret : str) : str :=
  let expanded := Hacl_Impl_SHA2_512_hash secret 32 in
  let h_low0 := b2z (nth 0 expanded NUL) in
  let h_low31 := b2z (nth 31 expanded NUL) in
  let expanded := put expanded 0 [z2b (Z.land h_low0 0xf8)] in
  put expanded 31 [z2b (Z.lor (Z.land h_low31 127) 64)].

Definition point_mul_g (scalar : str) : point :=
  Hacl_Impl_Ed25519_Ladder_point_mul scalar Hacl_Impl_Ed25519_G_make_g.

Definition Hacl_Ed25519_secret_to_public (secret : str) : str :=
  let expanded := Hacl_Impl_Ed25519_SecretExpand_secret_expand secret in
  let a := take 32 expanded in
  Hacl_Impl_Ed25519_PointCompress_point_compress (point_mul_g a).

(** ** Hashes modulo the order *)

Definition Hacl_Impl_SHA512_ModQ_sha512_modq_pre (prefix input : str) (len1 : nat) : felem :=
  let hash1 := Hacl_Impl_SHA512_Ed25519_3_sha512_pre_msg prefix input len1 in
  let tmp := Hacl_Impl_Load56_load_64_bytes hash1 in
  Hacl_Impl_BignumQ_Mul_barrett_reduction tmp.

Definition Hacl_Impl_SHA512_ModQ_sha512_modq_pre_pre2 (prefix prefix2 input : str) (len1 : nat) : felem :=
  let hash1 := Hacl_Impl_SHA512_Ed25519_3_sha512_pre_pre2_msg prefix prefix2 input len1 in
  let tmp := Hacl_Impl_Load56_load_64_bytes hash1 in
  Hacl_Impl_BignumQ_Mul_barrett_reduction tmp.

(** ** Verification *)

Definition Hacl_Impl_Ed25519_Verify_Steps_verify_step_2 (msg : str) (len1 : nat) (rs public : str) : str :=
  let r_ := Hacl_Impl_SHA512_ModQ_sha512_modq_pre_pre2 rs public msg len1 in
  Hacl_Impl_Store56_store_56 (replicate 32 NUL) r_.

Definition Hacl_Impl_Ed25519_Verify_Steps_verify_step_4 (s h_ : str) (a_ r_ : point) : bool :=
  let sB := point_mul_g s in
  let hA := Hacl_Impl_Ed25519_Ladder_point_mul h_ a_ in
  let rhA := Hacl_Impl_Ed25519_PointAdd_point_add r_ hA in
  Hacl_Impl_Ed25519_PointEqual_point_equal sB rhA.

(** The arrays [public] and [signature] have 32 and 64 bytes. *)
Definition Hacl_Impl_Ed25519_Verify_verify__ (public msg : str) (len1 : nat) (signature : str) : bool :=
  match Hacl_Impl_Ed25519_PointDecompress_point_decompress public with
  | Some a_ =>
    let rs := take 32 signature in
    match Hacl_Impl_Ed25519_PointDecompress_point_decompress rs with
    | Some r_ =>
      let s := Hacl_Impl_Load56_load_32_bytes (drop 32 signature) in
      if Hacl_Impl_Ed25519_PointEqual_gte_q s then false
      else
        let h_ := Hacl_Impl_Ed25519_Verify_Steps_verify_step_2 msg len1 rs public in
        Hacl_Impl_Ed25519_Verify_Steps_verify_step_4 (drop 32 signature) h_ a_ r_
    | None => false
    end
  | None => false
  end.

(** ** Signing *)

Definition Hacl_Impl_Ed25519_Sign_Steps_point_mul_g_compress (s : str) : str :=
  Hacl_Impl_Ed25519_PointCompress_point_compress (point_mul_g s).

(** [apre] and the public key [a__]. *)
Definition Hacl_Impl_Ed25519_Sign_Steps_sign_step_1 (secret : str) : str * str :=
  let apre := Hacl_Impl_Ed25519_SecretExpand_secret_expand secret in
  (apre, Hacl_Impl_Ed25519_Sign_Steps_point_mul_g_compress (take 32 apre)).

Definition Hacl_Impl_Ed25519_Sign_Steps_sign_step_2 (msg : str) (len1 : nat) (apre : str) : felem :=
  let prefix := drop 32 apre in
  Hacl_Impl_SHA512_ModQ_sha512_modq_pre prefix msg len1.

Definition Hacl_Impl_Ed25519_Sign_Steps_sign_step_4 (msg : str) (len1 : nat) (rs_ a__ : str) : felem :=
  Hacl_Impl_SHA512_ModQ_sha512_modq_pre_pre2 rs_ a__ msg len1.

Definition Hacl_Impl_Ed25519_Sign_Steps_sign_step_5 (apre : str) (r h : felem) : str :=
  let aq := Hacl_Impl_Load56_load_32_bytes (take 32 apre) in
  let ha := Hacl_Impl_BignumQ_Mul_mul_modq h aq in
  let s := Hacl_Impl_BignumQ_Mul_add_modq r ha in
  Hacl_Impl_Store56_store_56 (replicate 32 NUL) s.

Definition Hacl_Impl_Ed25519_Sign_sign_ (secret msg : str) (len1 : nat) : str :=
  let '(apre, a__) := Hacl_Impl_Ed25519_Sign_Steps_sign_step_1 secret in
  let r := Hacl_Impl_Ed25519_Sign_Steps_sign_step_2 msg len1 apre in
  let rb := Hacl_Impl_Store56_store_56 (replicate 32 NUL) r in
  let rs_0 := Hacl_Impl_Ed25519_Sign_Steps_point_mul_g_compress rb in
  let h := Hacl_Impl_Ed25519_Sign_Steps_sign_step_4 msg len1 rs_0 a__ in
  let s_ := Hacl_Impl_Ed25519_Sign_Steps_sign_step_5 apre r h in
  rs_0 ++ s_.

(** The length of a message as the callers pass it, a [uint32_t]. *)
Definition len32 (msg : str) : nat := Z.to_nat (Z.of_nat (length msg) mod 2 ^ 32).

(** [Hacl_Ed25519_sign] and [Hacl_Ed25519_verify] as the wrappers call them, beside a
    SHA-256 that is not part of the sources. *)
Definition hacl_crypto (sha256 : str -> str) : Crypto := {|
  SHA256 := sha256;
  Hacl_Ed25519_sign secret msg := Hacl_Impl_Ed25519_Sign_sign_ secret msg (len32 msg);
  Hacl_Ed25519_verify public msg signature := Hacl_Impl_Ed25519_Verify_verify__ public msg (len32 msg) signature |}.
