(* ===== verification/Ed25519Facts.v ===== *)
(** * Ed25519 signatures: theorems

    Keys and signatures are those of RFC 8032; verification accepts exactly the
    signatures whose equation holds in the group of the curve; and what was signed
    is accepted.  With them the class of Crypto.v has an instance, whose hash is
    left open. *)

From Stdlib Require Import Zmod String.
From S2P Require Import Prelude Word Fe25519 Prime25519 EdPoint ModQ Curve25519 EdPointFacts EdEncode Sha512 Crypto Ed25519.

Local Open Scope Z_scope.

(** ** RFC 8032 *)

(** The three low bits are cleared, the top bit is cleared and the next one set. *)
Definition clamp (v : Z) : Z := v mod 2 ^ 254 - v mod 8 + 2 ^ 254.

Definition scalar_of (secret : str) : Z := clamp (le_val (take 32 (sha512 secret))).
Definition prefix_of (secret : str) : str := drop 32 (sha512 secret).
Definition public_of (secret : str) : str := encode (c_mul (Z.to_nat (scalar_of secret)) base).

Definition nonce (secret m : str) : Z := le_val (sha512 (prefix_of secret ++ m)) mod q25519.
Definition challenge (R A m : str) : Z := le_val (sha512 (R ++ A ++ m)) mod q25519.

Definition signature_of (secret m : str) : str :=
  let r := nonce secret m in
  let R := encode (c_mul (Z.to_nat r) base) in
  let h := challenge R (public_of secret) m in
  R ++ le_bytes 32 ((r + h * scalar_of secret) mod q25519).

(** The equation of a valid signature. *)
Definition valid (public m signature : str) : Prop :=
  exists A R, on_c A /\ on_c R /\ encode A = public /\ encode R = take 32 signature /\
    le_val (drop 32 signature) < q25519 /\
    c_mul (Z.to_nat (le_val (drop 32 signature))) base
      = c_add R (c_mul (Z.to_nat (challenge (take 32 signature) public m)) A).

(** A number below the order, in five limbs of 56 bits. *)
Definition scalar_is (f : felem) (v : Z) : Prop := below (2 ^ 56) f /\ val56 f = v /\ 0 <= v < q25519.

(** The secret scalar of the program's key and the point of its public key. *)
Definition key_scalar : Z := 36144925721603087658594284515452164870581325872720374094707712194495455132720.
Definition key_x : Z := 38815646466658113194383306759739515082307681141926459231621296960732224964046.
Definition key_y : Z := 11903303657706407974989296177215005343713679411332034699907763981919547054807.

(** * Theorems *)

Lemma byte_masks b : 0 <= b < 256 -> Z.land b 0xf8 = b - b mod 8 /\ Z.lor (Z.land b 127) 64 = b mod 64 + 64.
Proof.
  intros Hb. assert (F : forallb (fun n => let b := Z.of_nat n in
    (Z.land b 0xf8 =? b - b mod 8) && (Z.lor (Z.land b 127) 64 =? b mod 64 + 64)) (seq 0 256) = true) by (by vm_compute).
  rewrite forallb_forall in F. specialize (F (Z.to_nat b)). rewrite in_seq, Z2Nat.id in F by lia.
  specialize (F ltac:(lia)). by rewrite andb_true_iff, !Z.eqb_eq in F.
Qed.

(** The value of 32 bytes whose first and last are masked. *)
Lemma clamp_bytes c0 m c31 : length m = 30%nat ->
  le_val ((z2b (Z.land (b2z c0) 0xf8) :: m) ++ [z2b (Z.lor (Z.land (b2z c31) 127) 64)]) = clamp (le_val ((c0 :: m) ++ [c31])).
Proof.
  intros L. assert (V : forall x y, le_val ((x :: m) ++ [y]) = b2z x + 256 * le_val m + 2 ^ 248 * b2z y).
  { intros x y. rewrite le_val_app. cbn [length le_val]. rewrite L. change (256 ^ Z.of_nat 31) with (2 ^ 248). lia. }
  rewrite !V, !b2z_z2b. pose proof (b2z_range c0) as B0. pose proof (b2z_range c31) as B31. pose proof (le_val_range m) as Rm. rewrite L in Rm.
  change (256 ^ Z.of_nat 30) with (2 ^ 240) in Rm. destruct (byte_masks _ B0) as [-> _], (byte_masks _ B31) as [_ ->].
  pose proof (Z.mod_pos_bound (b2z c0) 8 ltac:(lia)). pose proof (Z.mod_pos_bound (b2z c31) 64 ltac:(lia)).
  pose proof (Z.div_mod (b2z c0) 8 ltac:(lia)). pose proof (Z.div_mod (b2z c31) 64 ltac:(lia)).
  pose proof (Z.div_pos (b2z c0) 8 ltac:(lia) ltac:(lia)).
  rewrite (Z.mod_small (b2z c0 - _)), (Z.mod_small (_ + 64)) by lia. unfold clamp.
  rewrite <- (Z.mod_unique_pos (b2z c0 + 256 * le_val m + 2 ^ 248 * b2z c31) (2 ^ 254) (b2z c31 / 64)
    (b2z c0 + 256 * le_val m + 2 ^ 248 * (b2z c31 mod 64))) by lia.
  replace (b2z c0 + 256 * le_val m + 2 ^ 248 * b2z c31) with (b2z c0 + (32 * le_val m + 2 ^ 245 * b2z c31) * 8) by lia.
  rewrite Z_mod_plus_full. lia.
Qed.

Lemma secret_expand_spec secret : length secret = 32%nat ->
  let e := Hacl_Impl_Ed25519_SecretExpand_secret_expand secret in
  length (take 32 e) = 32%nat /\ le_val (take 32 e) = scalar_of secret /\ drop 32 e = prefix_of secret.
Proof.
  intros Hs. unfold Hacl_Impl_Ed25519_SecretExpand_secret_expand, scalar_of, prefix_of. cbv zeta.
  assert (E : Hacl_Impl_SHA2_512_hash secret 32 = sha512 secret) by (rewrite hash_spec by (rewrite ?Hs; lia); f_equal; apply take_ge; lia).
  rewrite E. pose proof (length_sha512 secret) as L. set (H := sha512 secret) in *. clearbody H.
  destruct H as [|c0 H]; [done|]. cbn [length] in L. rewrite <- (take_drop 30 H).
  assert (L1 : length (take 30 H) = 30%nat) by (rewrite length_take; lia). assert (L2 : length (drop 30 H) = 33%nat) by (rewrite length_drop; lia).
  set (m := take 30 H) in *. destruct (drop 30 H) as [|c31 t]; [done|]. clearbody m.
  assert (N31 : nth 31 (c0 :: m ++ c31 :: t) NUL = c31) by (cbn [nth]; rewrite app_nth2, L1 by lia; done).
  assert (T : forall x y, take 32 ((x :: m) ++ y :: t) = (x :: m) ++ [y]) by (intros x y; rewrite take_app_ge by (cbn [length]; lia); cbn [length]; by rewrite L1).
  assert (D : forall x y, drop 32 ((x :: m) ++ y :: t) = t) by (intros x y; rewrite drop_app_ge by (cbn [length]; lia); cbn [length]; by rewrite L1).
  assert (P31 : forall x y, put ((x :: m) ++ c31 :: t) 31 [y] = (x :: m) ++ y :: t).
  { intros x y. unfold put. rewrite take_app_le, take_ge by (cbn [length]; lia). rewrite drop_app_ge by (cbn [length]; lia). cbn [length]. by rewrite L1. }
  rewrite N31. cbn [nth]. match goal with |- context [put _ 0 [?x]] => change (put (c0 :: m ++ c31 :: t) 0 [x]) with ((x :: m) ++ c31 :: t) end. rewrite P31.
  change (c0 :: m ++ c31 :: t) with ((c0 :: m) ++ c31 :: t). rewrite !T, !D.
  split; [rewrite length_app; cbn [length]; lia|]. split; [by apply clamp_bytes|done].
Qed.

Lemma scalar_range secret : 0 <= scalar_of secret < 2 ^ 256.
Proof.
  unfold scalar_of, clamp. set (v := le_val _). pose proof (le_val_range (take 32 (sha512 secret))) as Hv. fold v in Hv. clearbody v.
  pose proof (Z.mod_pos_bound v (2 ^ 254) ltac:(lia)). pose proof (Z.mod_pos_bound v 8 ltac:(lia)). lia.
Qed.

Lemma length_prefix secret : length (prefix_of secret) = 32%nat.
Proof. unfold prefix_of. by rewrite length_drop, length_sha512. Qed.

Lemma point_mul_g_spec s : length s = 32%nat -> is_point (point_mul_g s) (c_mul (Z.to_nat (le_val s)) base).
Proof. intros Hs. unfold point_mul_g. exact (point_mul_spec s _ base Hs make_g_spec). Qed.

Lemma point_mul_g_compress_spec s : length s = 32%nat ->
  Hacl_Impl_Ed25519_Sign_Steps_point_mul_g_compress s = encode (c_mul (Z.to_nat (le_val s)) base).
Proof. intros Hs. exact (point_compress_spec _ _ (point_mul_g_spec s Hs)). Qed.

Lemma secret_to_public_spec secret : length secret = 32%nat -> Hacl_Ed25519_secret_to_public secret = public_of secret.
Proof.
  intros Hs. destruct (secret_expand_spec secret Hs) as (L & V & _). unfold Hacl_Ed25519_secret_to_public, public_of. cbv zeta.
  rewrite <- V. exact (point_mul_g_compress_spec _ L).
Qed.

Lemma scalar_is_mod f v : below (2 ^ 56) f -> val56 f = v mod q25519 -> scalar_is f (v mod q25519).
Proof. intros B V. split; [done|]. split; [done|]. by apply Z.mod_pos_bound. Qed.

Lemma scalar_is_l4 f v : scalar_is f v -> l4 f < 2 ^ 32.
Proof. intros (B & V & H). destruct f as [a0 a1 a2 a3 a4]. unfold below, val56, q25519 in *. cbn [l0 l1 l2 l3 l4] in *. lia. Qed.

Lemma reduce_hash_spec h : length h = 64%nat ->
  scalar_is (Hacl_Impl_BignumQ_Mul_barrett_reduction (Hacl_Impl_Load56_load_64_bytes h)) (le_val h mod q25519).
Proof.
  intros Hh. destruct (load_64_bytes_spec h Hh) as (O & T & V). destruct (barrett_reduction_spec _ O T) as [B E].
  rewrite V in E. by apply scalar_is_mod.
Qed.

Lemma sha512_modq_pre_spec prefix m len1 : length prefix = 32%nat -> (len1 <= length m)%nat -> Z.of_nat len1 < 2 ^ 32 ->
  scalar_is (Hacl_Impl_SHA512_ModQ_sha512_modq_pre prefix m len1) (le_val (sha512 (prefix ++ take len1 m)) mod q25519).
Proof.
  intros Hp Hl Hn. unfold Hacl_Impl_SHA512_ModQ_sha512_modq_pre. cbv zeta. rewrite sha512_pre_msg_spec by done.
  apply reduce_hash_spec, length_sha512.
Qed.

Lemma sha512_modq_pre_pre2_spec R A m len1 : length R = 32%nat -> length A = 32%nat -> (len1 <= length m)%nat -> Z.of_nat len1 < 2 ^ 32 ->
  scalar_is (Hacl_Impl_SHA512_ModQ_sha512_modq_pre_pre2 R A m len1) (challenge R A (take len1 m)).
Proof.
  intros HR HA Hl Hn. unfold Hacl_Impl_SHA512_ModQ_sha512_modq_pre_pre2. cbv zeta. rewrite sha512_pre_pre2_msg_spec by done.
  apply reduce_hash_spec, length_sha512.
Qed.

Lemma store_scalar_spec f v : scalar_is f v -> Hacl_Impl_Store56_store_56 (replicate 32 NUL) f = le_bytes 32 v.
Proof.
  intros H. pose proof (scalar_is_l4 f v H) as L4. destruct H as (B & V & R).
  destruct (store_56_spec (replicate 32 NUL) f eq_refl B L4) as [L E]. apply le_val_inj; [by rewrite length_le_bytes|].
  rewrite E, le_val_bytes, V. symmetry. apply Z.mod_small. change (256 ^ Z.of_nat 32) with (2 ^ 256). unfold q25519 in R. lia.
Qed.

Lemma le_val_scalar v : 0 <= v < q25519 -> le_val (le_bytes 32 v) = v.
Proof. intros H. rewrite le_val_bytes. apply Z.mod_small. change (256 ^ Z.of_nat 32) with (2 ^ 256). unfold q25519 in H. lia. Qed.

Lemma sign_step_5_spec secret r h vr vh : length secret = 32%nat -> scalar_is r vr -> scalar_is h vh ->
  Hacl_Impl_Ed25519_Sign_Steps_sign_step_5 (Hacl_Impl_Ed25519_SecretExpand_secret_expand secret) r h
    = le_bytes 32 ((vr + vh * scalar_of secret) mod q25519).
Proof.
  intros Hs (Br & Vr & Rr) (Bh & Vh & Rh). destruct (secret_expand_spec secret Hs) as (L & V & _).
  destruct (load_32_bytes_spec _ L) as (Ba & _ & Va). pose proof (scalar_range secret) as Ra.
  unfold Hacl_Impl_Ed25519_Sign_Steps_sign_step_5. cbv zeta. set (a := Hacl_Impl_Load56_load_32_bytes _) in *. rewrite V in Va.
  destruct (mul_modq_spec h a Bh Ba) as [Bm Vm]; [rewrite Va, Vh; unfold q25519 in Rh; nia|].
  rewrite Va, Vh in Vm. assert (Rm : 0 <= val56 (Hacl_Impl_BignumQ_Mul_mul_modq h a) < q25519) by (rewrite Vm; by apply Z.mod_pos_bound).
  destruct (add_modq_spec r _ Br Bm ltac:(lia) ltac:(lia)) as [Bs Vs]. apply store_scalar_spec.
  replace ((vr + vh * scalar_of secret) mod q25519) with ((vr + (vh * scalar_of secret) mod q25519) mod q25519) by (apply Zplus_mod_idemp_r).
  apply scalar_is_mod; [done|]. by rewrite Vs, Vm, Vr.
Qed.

Lemma sign_spec secret msg len1 : length secret = 32%nat -> (len1 <= length msg)%nat -> Z.of_nat len1 < 2 ^ 32 ->
  Hacl_Impl_Ed25519_Sign_sign_ secret msg len1 = signature_of secret (take len1 msg).
Proof.
  intros Hs Hl Hn. destruct (secret_expand_spec secret Hs) as (L & V & P).
  unfold Hacl_Impl_Ed25519_Sign_sign_, Hacl_Impl_Ed25519_Sign_Steps_sign_step_1, Hacl_Impl_Ed25519_Sign_Steps_sign_step_2, Hacl_Impl_Ed25519_Sign_Steps_sign_step_4.
  cbv zeta. rewrite P, (point_mul_g_compress_spec _ L), V.
  pose proof (sha512_modq_pre_spec (prefix_of secret) msg len1 (length_prefix _) Hl Hn) as Hr. fold (nonce secret (take len1 msg)) in Hr.
  rewrite (store_scalar_spec _ _ Hr), (point_mul_g_compress_spec _ (length_le_bytes 32 _)), (le_val_scalar _ (proj2 (proj2 Hr))).
  unfold signature_of. cbv zeta. fold (public_of secret). f_equal.
  apply sign_step_5_spec; [exact Hs|exact Hr|]. exact (sha512_modq_pre_pre2_spec _ _ _ _ (length_encode_point _) (length_encode_point _) Hl Hn).
Qed.

Lemma verify_step_4_spec s h a r A R : length s = 32%nat -> 0 <= h < q25519 -> is_point a A -> is_point r R ->
  Hacl_Impl_Ed25519_Verify_Steps_verify_step_4 s (le_bytes 32 h) a r
    = bool_decide (c_mul (Z.to_nat (le_val s)) base = c_add R (c_mul (Z.to_nat h) A)).
Proof.
  intros Hs Hh HA HR. unfold Hacl_Impl_Ed25519_Verify_Steps_verify_step_4. cbv zeta.
  apply point_equal_spec; [by apply point_mul_g_spec|]. apply point_add_spec; [done|].
  rewrite <- (le_val_scalar h Hh) at 2. apply point_mul_spec; [apply length_le_bytes|done].
Qed.

Lemma verify_points_spec public msg len1 signature A R : length signature = 64%nat ->
  (len1 <= length msg)%nat -> Z.of_nat len1 < 2 ^ 32 -> on_c A -> on_c R -> encode A = public -> encode R = take 32 signature ->
  Hacl_Impl_Ed25519_Verify_verify__ public msg len1 signature
    = (le_val (drop 32 signature) <? q25519) &&
      bool_decide (c_mul (Z.to_nat (le_val (drop 32 signature))) base
                   = c_add R (c_mul (Z.to_nat (challenge (take 32 signature) public (take len1 msg))) A)).
Proof.
  intros Hsig Hl Hn HA HR <- ER. unfold Hacl_Impl_Ed25519_Verify_verify__, Hacl_Impl_Ed25519_Verify_Steps_verify_step_2. cbv zeta.
  destruct (point_decompress_complete A HA) as (a & -> & Ha). rewrite <- ER. destruct (point_decompress_complete R HR) as (r & -> & Hr).
  assert (Ls : length (drop 32 signature) = 32%nat) by (rewrite length_drop; lia). destruct (load_32_bytes_spec _ Ls) as (Bs & _ & Vs).
  rewrite gte_q_spec, Vs, Z.leb_antisym by exact Bs. destruct (_ <? q25519); cbn [negb andb]; [|done].
  pose proof (sha512_modq_pre_pre2_spec (encode R) (encode A) msg len1 (length_encode_point R) (length_encode_point A) Hl Hn) as Hh.
  rewrite (store_scalar_spec _ _ Hh). apply verify_step_4_spec; [done|apply Hh|done|done].
Qed.

Lemma verify_spec public msg len1 signature : length public = 32%nat -> length signature = 64%nat ->
  (len1 <= length msg)%nat -> Z.of_nat len1 < 2 ^ 32 ->
  Hacl_Impl_Ed25519_Verify_verify__ public msg len1 signature = true <-> valid public (take len1 msg) signature.
Proof.
  intros Hp Hsig Hl Hn. split.
  - intros H. assert (exists A R, on_c A /\ on_c R /\ encode A = public /\ encode R = take 32 signature) as (A & R & HA & HR & EA & ER).
    { unfold Hacl_Impl_Ed25519_Verify_verify__ in H. cbv zeta in H.
      destruct (Hacl_Impl_Ed25519_PointDecompress_point_decompress public) as [a|] eqn:Ea; [|discriminate].
      destruct (Hacl_Impl_Ed25519_PointDecompress_point_decompress (take 32 signature)) as [r|] eqn:Er; [|discriminate].
      destruct (point_decompress_sound _ _ Hp Ea) as (A & HA & EA).
      assert (Lr : length (take 32 signature) = 32%nat) by (rewrite length_take; lia).
      destruct (point_decompress_sound _ _ Lr Er) as (R & HR & ER). exists A, R.
      split; [apply HA|]. split; [apply HR|]. split; [exact EA|exact ER]. }
    rewrite (verify_points_spec _ _ _ _ A R) in H by assumption. apply andb_true_iff in H as [H1 H2].
    apply Z.ltb_lt in H1. apply bool_decide_eq_true in H2. exists A, R. repeat (split; [assumption|]). exact H2.
  - intros (A & R & HA & HR & EA & ER & H1 & H2). rewrite (verify_points_spec _ _ _ _ A R) by assumption.
    apply andb_true_iff. split; [by apply Z.ltb_lt|]. apply bool_decide_eq_true. exact H2.
Qed.

Lemma c_mul_order n : 0 <= n -> c_mul (Z.to_nat (n mod q25519)) base = c_mul (Z.to_nat n) base.
Proof.
  intros Hn. assert (Hq : Z.to_nat q25519 <> 0%nat) by (intros E; apply (f_equal Z.of_nat) in E; rewrite Z2Nat.id in E by (unfold q25519; lia); discriminate).
  rewrite Z2Nat.inj_mod by (done || unfold q25519; lia). symmetry. exact (c_mul_mod _ _ base base_on Hq base_order).
Qed.

(** What is signed is valid: the equation of [valid] at [s = r + h * a]. *)
Lemma signature_equation r h a : 0 <= r -> 0 <= h -> 0 <= a ->
  c_mul (Z.to_nat ((r + h * a) mod q25519)) base
    = c_add (c_mul (Z.to_nat r) base) (c_mul (Z.to_nat h) (c_mul (Z.to_nat a) base)).
Proof.
  intros Hr Hh Ha. rewrite c_mul_order by lia. rewrite Z2Nat.inj_add, Z2Nat.inj_mul by lia.
  rewrite (c_mul_add _ _ base base_on), (c_mul_mul _ _ base base_on). exact eq_refl.
Qed.

Lemma length_signature secret m : length (signature_of secret m) = 64%nat.
Proof. unfold signature_of. cbv zeta. by rewrite length_app, length_encode_point, length_le_bytes. Qed.

Lemma signature_valid secret m : valid (public_of secret) m (signature_of secret m).
Proof.
  unfold signature_of. cbv zeta. set (r := nonce secret m). set (R := c_mul (Z.to_nat r) base). set (h := challenge _ _ _).
  set (S := _ mod q25519). assert (HS : 0 <= S < q25519) by (by apply Z.mod_pos_bound).
  exists (c_mul (Z.to_nat (scalar_of secret)) base), R.
  assert (HR : on_c R) by exact (c_mul_on _ _ base_on). split; [exact (c_mul_on _ _ base_on)|]. split; [exact HR|]. split; [exact eq_refl|].
  assert (T : take 32 (encode R ++ le_bytes 32 S) = encode R) by (by rewrite take_app_length' by (symmetry; apply length_encode_point)).
  assert (D : drop 32 (encode R ++ le_bytes 32 S) = le_bytes 32 S) by (by rewrite drop_app_length' by (symmetry; apply length_encode_point)).
  rewrite T, D, (le_val_scalar S HS). split; [exact eq_refl|]. split; [apply HS|]. apply signature_equation; [by apply Z.mod_pos_bound| |apply scalar_range].
  by apply Z.mod_pos_bound.
Qed.

(** ** The program's keys *)

Lemma key_scalar_spec : scalar_of skey = key_scalar.
Proof. rewrite <- (proj1 (proj2 (secret_expand_spec skey eq_refl))). vm_compute. reflexivity. Qed.

Lemma key_point : c_mul (Z.to_nat key_scalar) base = (fe key_x, fe key_y).
Proof.
  change (Z.to_nat key_scalar) with (Pos.to_nat (Z.to_pos key_scalar)). apply (big_is_spec (big_mul (Z.to_pos key_scalar) big_base)).
  - apply big_mul_rep, big_base_rep.
  - vm_compute. reflexivity.
Qed.

(** The two hard-coded keys belong together. *)
Lemma keys_match : public_of skey = pkey.
Proof. unfold public_of. rewrite key_scalar_spec, key_point. vm_compute. reflexivity. Qed.

Lemma len32_le m : (len32 m <= length m)%nat /\ Z.of_nat (len32 m) < 2 ^ 32.
Proof.
  unfold len32. pose proof (Z.mod_le (Z.of_nat (length m)) (2 ^ 32) ltac:(lia) ltac:(lia)).
  pose proof (Z.mod_pos_bound (Z.of_nat (length m)) (2 ^ 32) ltac:(lia)). lia.
Qed.

Lemma sign_verifies secret m n : length secret = 32%nat -> (n <= length m)%nat -> Z.of_nat n < 2 ^ 32 ->
  Hacl_Impl_Ed25519_Verify_verify__ (Hacl_Ed25519_secret_to_public secret) m n (Hacl_Impl_Ed25519_Sign_sign_ secret m n) = true.
Proof.
  intros Hs Hl Hn. rewrite secret_to_public_spec, sign_spec by assumption.
  apply verify_spec; [apply length_encode_point|apply length_signature|assumption|assumption|apply signature_valid].
Qed.

Lemma hacl_laws sha256 : (forall m, length (sha256 m) = 32%nat) -> @CryptoLaws (hacl_crypto sha256).
Proof.
  intros Hh. split; cbn [SHA256 Hacl_Ed25519_sign Hacl_Ed25519_verify hacl_crypto]; [exact Hh| |]; intros m; destruct (len32_le m) as [Hl Hn].
  - rewrite sign_spec; [apply length_signature|reflexivity|exact Hl|exact Hn].
  - rewrite <- keys_match, <- (secret_to_public_spec skey eq_refl). exact (sign_verifies skey m (len32 m) eq_refl Hl Hn).
Qed.

(** C5. What is signed verifies: under the public key made from a secret key of 32
    bytes, the signature of a message with that secret key is accepted. *)
Theorem sign_then_verify secret m len1 : length secret = 32%nat -> (len1 <= length m)%nat -> Z.of_nat len1 < 2 ^ 32 ->
  Hacl_Impl_Ed25519_Verify_verify__ (Hacl_Ed25519_secret_to_public secret) m len1 (Hacl_Impl_Ed25519_Sign_sign_ secret m len1) = true.
Proof. exact (sign_verifies secret m len1). Qed.

Lemma sign_then_verify_witness :
  Hacl_Impl_Ed25519_Verify_verify__ (Hacl_Ed25519_secret_to_public (replicate 32 NUL)) (L "abc") 3
    (Hacl_Impl_Ed25519_Sign_sign_ (replicate 32 NUL) (L "abc") 3) = true.
Proof. exact (sign_then_verify (replicate 32 NUL) (L "abc") 3 eq_refl (le_n 3) eq_refl). Defined.

(** C10. Keys and signatures are those of RFC 8032: the public key is the encoding of
    the base point times the clamped half of the hash of the secret key, and a
    signature is the encoding of [r B] followed by [r + h a] modulo the order in 32
    bytes, with [r] and [h] the hashes the standard names. *)
Theorem sign_standard secret m len1 : length secret = 32%nat -> (len1 <= length m)%nat -> Z.of_nat len1 < 2 ^ 32 ->
  Hacl_Ed25519_secret_to_public secret = public_of secret /\
  Hacl_Impl_Ed25519_Sign_sign_ secret m len1 = signature_of secret (take len1 m) /\
  length (signature_of secret (take len1 m)) = 64%nat.
Proof.
  intros Hs Hl Hn. split; [exact (secret_to_public_spec secret Hs)|]. split; [exact (sign_spec secret m len1 Hs Hl Hn)|apply length_signature].
Qed.

Lemma sign_standard_witness :
  Hacl_Impl_Ed25519_Sign_sign_ skey (L "abc") 2 = signature_of skey (take 2 (L "abc")).
Proof. exact (proj1 (proj2 (sign_standard skey (L "abc") 2 eq_refl (le_S _ _ (le_n 2)) eq_refl))). Defined.

(** C9. Verification accepts exactly the valid signatures: the public key and the
    first half of the signature encode points [A] and [R] of the curve, the second
    half is a number [S] below the order, and [S B = R + h A] for the hash [h] of both
    and the message. *)
Theorem verify_standard public m len1 signature : length public = 32%nat -> length signature = 64%nat ->
  (len1 <= length m)%nat -> Z.of_nat len1 < 2 ^ 32 ->
  Hacl_Impl_Ed25519_Verify_verify__ public m len1 signature = true <-> valid public (take len1 m) signature.
Proof. exact (verify_spec public m len1 signature). Qed.

Lemma verify_standard_witness :
  Hacl_Impl_Ed25519_Verify_verify__ pkey [] 0 (replicate 64 NUL) = true <-> valid pkey [] (replicate 64 NUL).
Proof. exact (verify_standard pkey [] 0 (replicate 64 NUL) eq_refl eq_refl (le_n 0) eq_refl). Defined.

(** C14. The library provides what the rest of the program relies on: with any
    SHA-256 of 32 bytes, signatures under the hard-coded secret key have 64 bytes and
    verify under the hard-coded public key, whatever the length of the message. *)
Theorem hacl_provides sha256 : (forall m, length (sha256 m) = 32%nat) -> @CryptoLaws (hacl_crypto sha256).
Proof. exact (hacl_laws sha256). Qed.

Lemma hacl_provides_witness : @CryptoLaws (hacl_crypto (fun _ => replicate 32 NUL)).
Proof. exact (hacl_provides (fun _ => replicate 32 NUL) (fun _ => eq_refl)). Defined.
