(* ===== verification/Tokenizer.v ===== *)
(** * Words of a document

    The part of the Sphinx library the program tokenises with, for the
    tokenizer that src/executor/Enclave/enclave_common.hpp configures in
    [CreateTokenizer]: the charset parser, the lowercaser table, the UTF-8
    decoder, [DoGetToken] in its indexing instance without blended characters
    and exceptions, and the CRC that turns a word into a wordID
    (src/executor/contrib/sphinx/sphinx.cpp and sphinxstd.cpp,
    src/executor/include/sphinx.h and sphinxint.h). *)

From Stdlib Require Import String.
From S2P Require Import Prelude.

Module Sphinx.

Local Open Scope Z_scope.

(** ** CRC *)

Definition g_dSphinxCRC32 : list Z := [
  0x00000000; 0x77073096; 0xee0e612c; 0x990951ba; 0x076dc419; 0x706af48f;
  0xe963a535; 0x9e6495a3; 0x0edb8832; 0x79dcb8a4; 0xe0d5e91e; 0x97d2d988;
  0x09b64c2b; 0x7eb17cbd; 0xe7b82d07; 0x90bf1d91; 0x1db71064; 0x6ab020f2;
  0xf3b97148; 0x84be41de; 0x1adad47d; 0x6ddde4eb; 0xf4d4b551; 0x83d385c7;
  0x136c9856; 0x646ba8c0; 0xfd62f97a; 0x8a65c9ec; 0x14015c4f; 0x63066cd9;
  0xfa0f3d63; 0x8d080df5; 0x3b6e20c8; 0x4c69105e; 0xd56041e4; 0xa2677172;
  0x3c03e4d1; 0x4b04d447; 0xd20d85fd; 0xa50ab56b; 0x35b5a8fa; 0x42b2986c;
  0xdbbbc9d6; 0xacbcf940; 0x32d86ce3; 0x45df5c75; 0xdcd60dcf; 0xabd13d59;
  0x26d930ac; 0x51de003a; 0xc8d75180; 0xbfd06116; 0x21b4f4b5; 0x56b3c423;
  0xcfba9599; 0xb8bda50f; 0x2802b89e; 0x5f058808; 0xc60cd9b2; 0xb10be924;
  0x2f6f7c87; 0x58684c11; 0xc1611dab; 0xb6662d3d; 0x76dc4190; 0x01db7106;
  0x98d220bc; 0xefd5102a; 0x71b18589; 0x06b6b51f; 0x9fbfe4a5; 0xe8b8d433;
  0x7807c9a2; 0x0f00f934; 0x9609a88e; 0xe10e9818; 0x7f6a0dbb; 0x086d3d2d;
  0x91646c97; 0xe6635c01; 0x6b6b51f4; 0x1c6c6162; 0x856530d8; 0xf262004e;
  0x6c0695ed; 0x1b01a57b; 0x8208f4c1; 0xf50fc457; 0x65b0d9c6; 0x12b7e950;
  0x8bbeb8ea; 0xfcb9887c; 0x62dd1ddf; 0x15da2d49; 0x8cd37cf3; 0xfbd44c65;
  0x4db26158; 0x3ab551ce; 0xa3bc0074; 0xd4bb30e2; 0x4adfa541; 0x3dd895d7;
  0xa4d1c46d; 0xd3d6f4fb; 0x4369e96a; 0x346ed9fc; 0xad678846; 0xda60b8d0;
  0x44042d73; 0x33031de5; 0xaa0a4c5f; 0xdd0d7cc9; 0x5005713c; 0x270241aa;
  0xbe0b1010; 0xc90c2086; 0x5768b525; 0x206f85b3; 0xb966d409; 0xce61e49f;
  0x5edef90e; 0x29d9c998; 0xb0d09822; 0xc7d7a8b4; 0x59b33d17; 0x2eb40d81;
  0xb7bd5c3b; 0xc0ba6cad; 0xedb88320; 0x9abfb3b6; 0x03b6e20c; 0x74b1d29a;
  0xead54739; 0x9dd277af; 0x04db2615; 0x73dc1683; 0xe3630b12; 0x94643b84;
  0x0d6d6a3e; 0x7a6a5aa8; 0xe40ecf0b; 0x9309ff9d; 0x0a00ae27; 0x7d079eb1;
  0xf00f9344; 0x8708a3d2; 0x1e01f268; 0x6906c2fe; 0xf762575d; 0x806567cb;
  0x196c3671; 0x6e6b06e7; 0xfed41b76; 0x89d32be0; 0x10da7a5a; 0x67dd4acc;
  0xf9b9df6f; 0x8ebeeff9; 0x17b7be43; 0x60b08ed5; 0xd6d6a3e8; 0xa1d1937e;
  0x38d8c2c4; 0x4fdff252; 0xd1bb67f1; 0xa6bc5767; 0x3fb506dd; 0x48b2364b;
  0xd80d2bda; 0xaf0a1b4c; 0x36034af6; 0x41047a60; 0xdf60efc3; 0xa867df55;
  0x316e8eef; 0x4669be79; 0xcb61b38c; 0xbc66831a; 0x256fd2a0; 0x5268e236;
  0xcc0c7795; 0xbb0b4703; 0x220216b9; 0x5505262f; 0xc5ba3bbe; 0xb2bd0b28;
  0x2bb45a92; 0x5cb36a04; 0xc2d7ffa7; 0xb5d0cf31; 0x2cd99e8b; 0x5bdeae1d;
  0x9b64c2b0; 0xec63f226; 0x756aa39c; 0x026d930a; 0x9c0906a9; 0xeb0e363f;
  0x72076785; 0x05005713; 0x95bf4a82; 0xe2b87a14; 0x7bb12bae; 0x0cb61b38;
  0x92d28e9b; 0xe5d5be0d; 0x7cdcefb7; 0x0bdbdf21; 0x86d3d2d4; 0xf1d4e242;
  0x68ddb3f8; 0x1fda836e; 0x81be16cd; 0xf6b9265b; 0x6fb077e1; 0x18b74777;
  0x88085ae6; 0xff0f6a70; 0x66063bca; 0x11010b5c; 0x8f659eff; 0xf862ae69;
  0x616bffd3; 0x166ccf45; 0xa00ae278; 0xd70dd2ee; 0x4e048354; 0x3903b3c2;
  0xa7672661; 0xd06016f7; 0x4969474d; 0x3e6e77db; 0xaed16a4a; 0xd9d65adc;
  0x40df0b66; 0x37d83bf0; 0xa9bcae53; 0xdebb9ec5; 0x47b2cf7f; 0x30b5ffe9;
  0xbdbdf21c; 0xcabac28a; 0x53b39330; 0x24b4a3a6; 0xbad03605; 0xcdd70693;
  0x54de5729; 0x23d967bf; 0xb3667a2e; 0xc4614ab8; 0x5d681b02; 0x2a6f2b94;
  0xb40bbe37; 0xc30c8ea1; 0x5a05df1b; 0x2d02ef8d].

Definition crc_turn (crc : Z) (p : ascii) : Z :=
  Z.lxor (Z.shiftr crc 8)
    (nth (Z.to_nat (Z.land (Z.lxor crc (b2z p)) 255)) g_dSphinxCRC32 0).

(** [~crc] of a DWORD. *)
Definition lnot32 (z : Z) : Z := Z.lxor z (2 ^ 32 - 1).

Definition sphCRC32 (s : str) : Z := lnot32 (foldl crc_turn (lnot32 0) s).

(** The overload for zero-terminated strings. *)
Definition sphCRC32_cstr (s : str) : Z := sphCRC32 (c_str s).

(** ** Charset definitions *)

Record CSphRemapRange := mk_range { m_iStart : Z; m_iEnd : Z; m_iRemapStart : Z }.

(** [*p] of a zero-terminated string. *)
Definition char_at (p : str) : Z := match p with c :: _ => b2z c | [] => 0 end.

Fixpoint SkipSpaces (p : str) : str :=
  match p with
  | c :: p' => if is_space c then SkipSpaces p' else p
  | [] => []
  end.

Fixpoint scan_xdigits (iCode : Z) (p : str) : Z * str :=
  match p with
  | c :: p' =>
    match digit_in 16 c with
    | Some d => scan_xdigits (iCode * 16 + d) p'
    | None => (iCode, p)
    end
  | [] => (iCode, [])
  end.

(** [None] is the error return -1. *)
Definition ParseCharsetCode (p : str) : option (Z * str) :=
  if (char_at p =? 85) && (char_at (drop 1 p) =? 43) then
    let '(iCode, p) := scan_xdigits 0 (drop 2 p) in Some (iCode, SkipSpaces p)
  else if (char_at p <? 32) || (127 <? char_at p) then None
  else Some (char_at p, SkipSpaces (drop 1 p)).

Definition AddRange (r : CSphRemapRange) (dRanges : list CSphRemapRange)
  : option (list CSphRemapRange) :=
  if 32 <=? m_iRemapStart r then Some (dRanges ++ [r]) else None.

(** The pairs of a checkerboard range from [i] on. *)
Fixpoint checkerboard (n : nat) (i iEnd : Z) (dRanges : list CSphRemapRange)
  : option (list CSphRemapRange) :=
  match n with
  | O => Some dRanges
  | S n =>
    if i <? iEnd then
      d ← AddRange (mk_range i i (i + 1)) dRanges;
      d ← AddRange (mk_range (i + 1) (i + 1) (i + 1)) d;
      checkerboard n (i + 2) iEnd d
    else Some dRanges
  end.

Definition starts2 (a b : Z) (p : str) : bool := (char_at p =? a) && (char_at (drop 1 p) =? b).

(** One definition of the list, from [p] on: the ranges so far and the text
    after the definition, or [None] on an error.  No charset alias is
    registered in the program, so none is looked up. *)
Definition parse_remapped (iStart iEnd : Z) (p : str) (dRanges : list CSphRemapRange)
  : option (list CSphRemapRange * str) :=
  if negb (starts2 45 62 p) then None
  else
    let p := SkipSpaces (drop 2 p) in
    if char_at p =? 0 then None else
    r ← ParseCharsetCode p;
    let '(iRemapStart, p) := r in
    if char_at p =? 0 then None else
    if negb (starts2 46 46 p) then None else
    r ← ParseCharsetCode (drop 2 p);
    let '(iRemapEnd, p) := r in
    if iRemapEnd <? iRemapStart then None
    else if negb (iRemapEnd - iRemapStart =? iEnd - iStart) then None
    else
      d ← AddRange (mk_range iStart iEnd iRemapStart) dRanges;
      if char_at p =? 0 then Some (d, p)
      else if negb (char_at p =? 44) then None else Some (d, drop 1 p).

Definition parse_range (iStart : Z) (p : str) (dRanges : list CSphRemapRange)
  : option (list CSphRemapRange * str) :=
  if negb (starts2 46 46 p) then None
  else
    let p := SkipSpaces (drop 2 p) in
    if char_at p =? 0 then None else
    r ← ParseCharsetCode p;
    let '(iEnd, p) := r in
    if iEnd <? iStart then None
    else if (char_at p =? 0) || (char_at p =? 44) then
      d ← AddRange (mk_range iStart iEnd iStart) dRanges; Some (d, drop 1 p)
    else if starts2 47 50 p then
      d ← checkerboard (Z.to_nat (iEnd - iStart)) iStart iEnd dRanges;
      let p := SkipSpaces (drop 2 p) in
      if char_at p =? 0 then Some (d, p)
      else if negb (char_at p =? 44) then None else Some (d, drop 1 p)
    else parse_remapped iStart iEnd p dRanges.

Definition parse_definition (p : str) (dRanges : list CSphRemapRange)
  : option (list CSphRemapRange * str) :=
  if char_at p =? 44 then None
  else
    r ← ParseCharsetCode p;
    let '(iStart, p) := r in
    if (char_at p =? 0) || (char_at p =? 44) then
      d ← AddRange (mk_range iStart iStart iStart) dRanges; Some (d, drop 1 p)
    else if starts2 45 62 p then
      r ← ParseCharsetCode (drop 2 p);
      let '(iDest, p) := r in
      d ← AddRange (mk_range iStart iStart iDest) dRanges;
      if char_at p =? 0 then Some (d, p)
      else if negb (char_at p =? 44) then None else Some (d, drop 1 p)
    else parse_range iStart p dRanges.

Fixpoint parse_definitions (fuel : nat) (p : str) (dRanges : list CSphRemapRange)
  : option (list CSphRemapRange) :=
  match fuel with
  | O => Some dRanges
  | S fuel =>
    let p := SkipSpaces p in
    if char_at p =? 0 then Some dRanges
    else
      r ← parse_definition p dRanges;
      let '(d, p) := r in parse_definitions fuel p d
  end.

Fixpoint insert_range (r : CSphRemapRange) (l : list CSphRemapRange) : list CSphRemapRange :=
  match l with
  | [] => [r]
  | r' :: l' => if m_iStart r <? m_iStart r' then r :: l else r' :: insert_range r l'
  end.

Definition sort_ranges (l : list CSphRemapRange) : list CSphRemapRange :=
  foldl (fun acc r => insert_range r acc) [] l.

Fixpoint merge_ranges (r : CSphRemapRange) (l : list CSphRemapRange) : list CSphRemapRange :=
  match l with
  | [] => [r]
  | r' :: l =>
    if m_iStart r' <=? m_iEnd r
    then merge_ranges (mk_range (m_iStart r) (Z.max (m_iEnd r) (m_iEnd r')) (m_iRemapStart r)) l
    else r :: merge_ranges r' l
  end.

(** [CSphCharsetDefinitionParser::Parse]; every turn consumes text. *)
Definition Parse (sConfig : str) : option (list CSphRemapRange) :=
  d ← parse_definitions (S (length sConfig)) (c_str sConfig) [];
  Some (match sort_ranges d with [] => [] | r :: l => merge_ranges r l end).

(** ** The lowercaser *)

Definition MASK_CODEPOINT : Z := 0x00ffffff.
Definition MASK_FLAGS : Z := 0xff000000.
Definition FLAG_CODEPOINT_SPECIAL : Z := 0x01000000.
Definition FLAG_CODEPOINT_DUAL : Z := 0x02000000.
Definition FLAG_CODEPOINT_NGRAM : Z := 0x04000000.
Definition FLAG_CODEPOINT_BOUNDARY : Z := 0x10000000.
Definition FLAG_CODEPOINT_IGNORE : Z := 0x20000000.
Definition MAX_CODE : Z := 0x300 * 256.
Definition has_flag (iCode flag : Z) : bool := negb (Z.land iCode flag =? 0).

(** The chunked table, as the remaps that were stored into it, oldest first,
    with their flags; an entry no remap reached is 0, as in a chunk that was
    never allocated. *)
Notation CSphLowercaser := (list (CSphRemapRange * Z)).

(** The new value of entry [j], which holds [iCodepoint]. *)
Definition remap_entry (j : Z) (iCodepoint : Z) (layer : CSphRemapRange * Z) : Z :=
  let '(r, uFlags) := layer in
  if (m_iStart r <=? j) && (j <=? m_iEnd r) then
    let iRemapped := m_iRemapStart r + (j - m_iStart r) in
    let bWordPart := has_flag iCodepoint MASK_CODEPOINT in
    let iNew := Z.lor (Z.lor iRemapped uFlags) (Z.land iCodepoint MASK_FLAGS) in
    if bWordPart && has_flag uFlags FLAG_CODEPOINT_SPECIAL then Z.lor iNew FLAG_CODEPOINT_DUAL else iNew
  else iCodepoint.

Definition entry (lc : CSphLowercaser) (j : Z) : Z := foldl (remap_entry j) 0 lc.

Definition ToLower (lc : CSphLowercaser) (iCode : Z) : Z :=
  if (iCode <? 0) || (MAX_CODE <=? iCode) then iCode else entry lc iCode.

Definition Reset : CSphLowercaser := [].

Definition AddRemaps (dRemaps : list CSphRemapRange) (uFlags : Z) (lc : CSphLowercaser)
  : CSphLowercaser := lc ++ map (fun r => (r, uFlags)) dRemaps.

(** A [char] as an [int]. *)
Definition one_char (c : ascii) : CSphRemapRange := mk_range (schar c) (schar c) (schar c).

Definition AddSpecials (sSpecials : str) (lc : CSphLowercaser) : CSphLowercaser :=
  AddRemaps (map one_char (c_str sSpecials)) FLAG_CODEPOINT_SPECIAL lc.

(** ** Configuring a tokenizer *)

Record ISphTokenizer := mk_tok { m_tLC : CSphLowercaser; m_bDetectSentences : bool }.

Definition AddPlainChar (c : ascii) (t : ISphTokenizer) : ISphTokenizer :=
  mk_tok (AddRemaps [one_char c] 0 (m_tLC t)) (m_bDetectSentences t).

Definition tok_AddSpecials (s : str) (t : ISphTokenizer) : ISphTokenizer :=
  mk_tok (AddSpecials s (m_tLC t)) (m_bDetectSentences t).

Definition MIN_CODE : Z := 0x21.

Definition clamp_code (c : Z) : Z :=
  if (c <? MIN_CODE) || (MAX_CODE <=? c) then Z.min (Z.max c MIN_CODE) (MAX_CODE - 1) else c.

(** The remaps after clamping; one whose target leaves the table is dropped. *)
Fixpoint clamp_ranges (dRemaps : list CSphRemapRange) : list CSphRemapRange :=
  match dRemaps with
  | [] => []
  | t :: l =>
    let t := mk_range (clamp_code (m_iStart t)) (clamp_code (m_iEnd t)) (clamp_code (m_iRemapStart t)) in
    let iRemapEnd := m_iRemapStart t + m_iEnd t - m_iStart t in
    if (iRemapEnd <? MIN_CODE) || (MAX_CODE <=? iRemapEnd) then clamp_ranges l else t :: clamp_ranges l
  end.

(** The tokenizer afterwards; a definition that does not parse changes nothing. *)
Definition SetCaseFolding (sConfig : str) (t : ISphTokenizer) : ISphTokenizer :=
  match Parse sConfig with
  | None => t
  | Some dRemaps => mk_tok (AddRemaps (clamp_ranges dRemaps) 0 Reset) (m_bDetectSentences t)
  end.

Definition AddSpecialsSPZ (sSpecials : str) (t : ISphTokenizer) : option ISphTokenizer :=
  if existsb (fun c => has_flag (ToLower (m_tLC t) (schar c))
       (FLAG_CODEPOINT_NGRAM + FLAG_CODEPOINT_BOUNDARY + FLAG_CODEPOINT_IGNORE)) (c_str sSpecials)
  then None
  else Some (tok_AddSpecials sSpecials t).

Definition MAGIC_CODE_SENTENCE : Z := 2.
Definition MAGIC_CODE_PARAGRAPH : Z := 3.

Definition EnableSentenceIndexing (t : ISphTokenizer) : ISphTokenizer :=
  match AddSpecialsSPZ (L ".?!" ++ [z2b MAGIC_CODE_PARAGRAPH]) t with
  | None => t
  | Some t => mk_tok (m_tLC t) true
  end.

(** Whether every code of [n] ones from [j] on is unused. *)
Fixpoint unused_from (n : nat) (j : Z) (lc : CSphLowercaser) : bool :=
  match n with
  | O => true
  | S n => if ToLower lc j =? 0 then unused_from n (j + 1) lc else false
  end.

(** [CheckRemap] with [bCanRemap] set. *)
Definition CheckRemap (dRemaps : list CSphRemapRange) (lc : CSphLowercaser) : bool :=
  forallb (fun r =>
    let n := Z.to_nat (m_iEnd r - m_iStart r + 1) in
    unused_from n (m_iStart r) lc && unused_from n (m_iRemapStart r) lc) dRemaps.

Definition SetNgramChars (sConfig : str) (t : ISphTokenizer) : option ISphTokenizer :=
  dRemaps ← Parse sConfig;
  if CheckRemap dRemaps (m_tLC t)
  then Some (mk_tok (AddRemaps dRemaps (FLAG_CODEPOINT_NGRAM + FLAG_CODEPOINT_SPECIAL) (m_tLC t))
              (m_bDetectSentences t))
  else None.

Definition SPHINX_DEFAULT_UTF8_TABLE : str :=
  L "0..9, A..Z->a..z, _, a..z, U+410..U+42F->U+430..U+44F, U+430..U+44F, U+401->U+451, U+451".

Definition sphCreateUTF8NgramTokenizer : ISphTokenizer :=
  SetCaseFolding SPHINX_DEFAULT_UTF8_TABLE (mk_tok Reset false).

Definition m_sNgramChars : str :=
  L "U+4E00..U+9FBF, U+3400..U+4DBF, U+20000..U+2A6DF," ++
  L "U+F900..U+FAFF, U+2F800..U+2FA1F, U+2E80..U+2EFF, U+2F00..U+2FDF," ++
  L "U+3100..U+312F, U+31A0..U+31BF, U+3040..U+309F, U+30A0..U+30FF," ++
  L "U+31F0..U+31FF, U+AC00..U+D7AF, U+1100..U+11FF, U+3130..U+318F," ++
  L "U+A000..U+A48F, U+A490..U+A4CF".

(** [None] is [sphDie]. *)
Definition CreateTokenizer : option ISphTokenizer :=
  let t := sphCreateUTF8NgramTokenizer in
  let t := AddPlainChar (z2b 42) t in
  let t := AddPlainChar (z2b 63) t in
  let t := AddPlainChar (z2b 37) t in
  let t := AddPlainChar (z2b 61) t in
  let t := tok_AddSpecials (L "()|-!@~" ++ [DQ] ++ L "/^$<=") t in
  let t := SetCaseFolding (L "-, 0..9, A..Z->a..z, _, a..z, U+80..U+FF") t in
  let t := EnableSentenceIndexing t in
  SetNgramChars m_sNgramChars t.

(** ** UTF-8 *)

(** The loop that counts the leading ones of [v] and shifts them out. *)
Fixpoint lead_ones (n : nat) (v iBytes : Z) : Z * Z :=
  match n with
  | O => (v, iBytes)
  | S n => if has_flag v 128 then lead_ones n (Z.land (Z.shiftl v 1) 255) (iBytes + 1) else (v, iBytes)
  end.

Fixpoint utf8_tail (iBytes : nat) (iCode : Z) (pBuf : str) : Z * str :=
  match iBytes with
  | O => (iCode, pBuf)
  | S n =>
    match pBuf with
    | [] => (0, [])
    | b :: pBuf' =>
      if b2z b =? 0 then (0, pBuf)
      else if negb (Z.land (b2z b) 0xC0 =? 0x80) then (-1, pBuf)
      else utf8_tail n (Z.shiftl iCode 6 + Z.land (b2z b) 0x3F) pBuf'
    end
  end.

(** The buffer is followed by a zero byte. *)
Definition sphUTF8Decode (pBuf : str) : Z * str :=
  match pBuf with
  | [] => (0, [])
  | b :: pBuf =>
    let v := b2z b in
    if v =? 0 then (0, pBuf)
    else if v <? 128 then (v, pBuf)
    else
      let '(v, iBytes) := lead_ones 8 v 0 in
      if (iBytes <? 2) || (4 <? iBytes) then (-1, pBuf)
      else utf8_tail (Z.to_nat (iBytes - 1)) (Z.shiftr v iBytes) pBuf
  end.

Definition sphUTF8Encode (iCode : Z) : str :=
  let low sh := z2b (Z.lor (Z.land (Z.shiftr iCode sh) 0x3F) 0x80) in
  if iCode <? 0x80 then [z2b (Z.land iCode 0x7F)]
  else if iCode <? 0x800 then [z2b (Z.lor (Z.land (Z.shiftr iCode 6) 0x1F) 0xC0); low 0]
  else if iCode <? 0x10000 then [z2b (Z.lor (Z.land (Z.shiftr iCode 12) 0x0F) 0xE0); low 6; low 0]
  else [z2b (Z.lor (Z.land (Z.shiftr iCode 18) 0x0F) 0xF0); low 12; low 6; low 0].

(** ** Tokens *)

(** [m_pCur] in its buffer: the bytes before it, nearest first, and the bytes
    from it on. *)
Notation position := (str * str)%type.

Definition ahead (m_pCur : position) (k : nat) : Z := char_at (drop k (snd m_pCur)).
Definition behind (m_pCur : position) (k : nat) : Z := char_at (drop (k - 1) (fst m_pCur)).

(** The position whose remaining bytes are [rest], a suffix of those of [p]. *)
Definition move_to (p : position) (rest : str) : position :=
  (rev (take (length (snd p) - length rest) (snd p)) ++ fst p, rest).

(** Decodes until a valid codepoint; -1 at the end of the buffer. *)
Fixpoint GetCodepoint (fuel : nat) (cur : str) : Z * str :=
  match fuel, cur with
  | S fuel, _ :: _ =>
    let '(iCode, cur) := sphUTF8Decode cur in
    if 0 <=? iCode then (iCode, cur) else GetCodepoint fuel cur
  | _, _ => (-1, [])
  end.

Definition next_code (lc : CSphLowercaser) (p : position) : Z * position :=
  match snd p with
  | b :: cur =>
    if b2z b <? 128 then (entry lc (b2z b), (b :: fst p, cur))
    else let '(cp, cur) := GetCodepoint (length (snd p)) (snd p) in (ToLower lc cp, move_to p cur)
  | [] => (-1, p)
  end.

Definition sphIsAlpha (c : Z) : bool :=
  ((48 <=? c) && (c <=? 57)) || ((97 <=? c) && (c <=? 122)) || ((65 <=? c) && (c <=? 90))
    || (c =? 45) || (c =? 95).

Definition sphIsSpace (c : Z) : bool := (c =? 32) || (c =? 9) || (c =? 10) || (c =? 13).
Definition IsCapital (c : Z) : bool := (65 <=? c) && (c <=? 90).
Definition is_small (c : Z) : bool := (97 <=? c) && (c <=? 122).

(** The token before a dot looks like an initial or a salutation. *)
Definition middle_name (m_pCur : position) (m_sAccum : str) (m_iAccum : nat) : bool :=
  match m_iAccum with
  | 1%nat => IsCapital (behind m_pCur 2)
  | 2%nat =>
    IsCapital (behind m_pCur 3) &&
    (negb (IsCapital (behind m_pCur 2))
     || ((behind m_pCur 3 =? 77) && (behind m_pCur 2 =? 82))
     || ((behind m_pCur 3 =? 77) && (behind m_pCur 2 =? 83))
     || ((behind m_pCur 3 =? 68) && (behind m_pCur 2 =? 82)))
  | 3%nat =>
    ((char_at m_sAccum =? 109) || (char_at m_sAccum =? 100))
      && (char_at (drop 1 m_sAccum) =? 114) && (char_at (drop 2 m_sAccum) =? 115)
  | _ => false
  end.

Definition SENTENCE : Z := Z.lor MAGIC_CODE_SENTENCE FLAG_CODEPOINT_SPECIAL.

Definition CodepointArbitrationI (t : ISphTokenizer) (m_pCur : position) (m_sAccum : str)
    (m_iAccum : nat) (iCode : Z) : Z :=
  if negb (m_bDetectSentences t) then iCode
  else
    let iSymbol := Z.land iCode MASK_CODEPOINT in
    if (iSymbol =? 63) || (iSymbol =? 33) then SENTENCE
    else if iSymbol =? 46 then
      let bInwordDot := sphIsAlpha (ahead m_pCur 0) || (ahead m_pCur 0 =? 44) in
      let bInphraseDot := sphIsSpace (ahead m_pCur 0) &&
        (is_small (ahead m_pCur 1) || ((ahead m_pCur 1 =? 40) && is_small (ahead m_pCur 2))) in
      if negb bInwordDot && negb bInphraseDot && negb (middle_name m_pCur m_sAccum m_iAccum)
      then SENTENCE
      else if Z.land iCode MASK_FLAGS =? FLAG_CODEPOINT_SPECIAL then 0
      else Z.land iCode (Z.lnot (FLAG_CODEPOINT_SPECIAL + FLAG_CODEPOINT_DUAL))
    else iCode.

Definition SPH_MAX_WORD_LEN : nat := 42.
Definition accum_size : nat := 3 * SPH_MAX_WORD_LEN + 3.

(** [AccumCodepoint], and the same code inlined where words are collected. *)
Definition accum_codepoint (accum : str * nat) (iCode : Z) : str * nat :=
  let '(m_sAccum, m_iAccum) := accum in
  if decide (m_iAccum < SPH_MAX_WORD_LEN /\ length m_sAccum + 4 <= accum_size)%nat
  then (m_sAccum ++ sphUTF8Encode iCode, S m_iAccum)
  else (m_sAccum, m_iAccum).

Definition m_iMinWordLen : nat := 1.

(** [DoGetToken<false, false>] with no exceptions loaded, from position [p]
    with the accumulator filled so far: the token, or [None] at the end, and
    the position after it. *)
Fixpoint DoGetToken (fuel : nat) (t : ISphTokenizer) (p : position) (accum : str * nat)
  : outcome (option str * position) :=
  match fuel with
  | O => NoFuel
  | S fuel =>
    let pCur := p in
    let '(iCode, p) := next_code (m_tLC t) p in
    if iCode <? 0 then
      Ret (if decide (snd accum < m_iMinWordLen)%nat then None else Some (fst accum), p)
    else
      let iCode := if m_bDetectSentences t
                   then CodepointArbitrationI t p (fst accum) (snd accum) iCode else iCode in
      if has_flag iCode FLAG_CODEPOINT_IGNORE then DoGetToken fuel t p accum
      else if (iCode =? 0) || has_flag iCode FLAG_CODEPOINT_BOUNDARY then
        if decide (snd accum < m_iMinWordLen)%nat
        then DoGetToken fuel t p ([], O)
        else Ret (Some (fst accum), p)
      else if has_flag iCode FLAG_CODEPOINT_SPECIAL then
        let accum := if decide (snd accum < m_iMinWordLen)%nat then ([], O) else accum in
        if decide (snd accum = O)
        then Ret (Some (fst (accum_codepoint accum (Z.land iCode MASK_CODEPOINT))), p)
        else Ret (Some (fst accum), pCur)
      else DoGetToken fuel t p (accum_codepoint accum (Z.land iCode MASK_CODEPOINT))
  end.

Definition GetToken (t : ISphTokenizer) (p : position) : outcome (option str * position) :=
  DoGetToken (S (length (snd p))) t p ([], O).

(** The loop of the callers: all tokens of the buffer. *)
Fixpoint get_tokens (fuel : nat) (t : ISphTokenizer) (p : position) : outcome (list str) :=
  match fuel with
  | O => NoFuel
  | S fuel =>
    r ← GetToken t p;
    match r with
    | (None, _) => Ret []
    | (Some sTok, p) => l ← get_tokens fuel t p; Ret (sTok :: l)
    end
  end.

Definition tokens (t : ISphTokenizer) (buf : str) : outcome (list str) :=
  get_tokens (S (length buf)) t ([], buf).

(** The tokens of a buffer, each as the wordID it is indexed and looked up
    with; [None] for the tokenizer is a process that died creating it. *)
Definition wordIDs (pTokenizer : option ISphTokenizer) (buf : str) : outcome (list Z) :=
  match pTokenizer with
  | None => Undef
  | Some t => l ← tokens t buf; Ret (map sphCRC32_cstr l)
  end.

End Sphinx.
