(* ===== verification/TokenizerFacts.v ===== *)
(** * Theorems about words

    What [CreateTokenizer] configures, that tokenising terminates on every
    buffer, what it yields on plain text, and that the table-driven CRC is
    the CRC-32 of its polynomial. *)

From Stdlib Require Import String.
From S2P Require Import Prelude Tokenizer.

Import Sphinx.

Local Open Scope Z_scope.

(** ** CRC *)

(** One bit of the reflected division by the polynomial 0x04C11DB7. *)
Definition crc_bit (c : Z) : Z :=
  Z.lxor (Z.shiftr c 1) (if Z.odd c then 0xEDB88320 else 0).

Definition crc_byte (crc : Z) (b : ascii) : Z := Nat.iter 8 crc_bit (Z.lxor crc (b2z b)).

Definition crc_spec (s : str) : Z := lnot32 (foldl crc_byte (lnot32 0) s).

Lemma crc_bit_lxor a b : crc_bit (Z.lxor a b) = Z.lxor (crc_bit a) (crc_bit b).
Proof.
  unfold crc_bit. rewrite Z.shiftr_lxor, <- !Z.bit0_odd, Z.lxor_spec.
  apply Z.bits_inj'. intros n Hn.
  destruct (Z.testbit a 0), (Z.testbit b 0); cbn [xorb]; rewrite !Z.lxor_spec, ?Z.bits_0;
    repeat match goal with |- context [Z.testbit ?x n] => destruct (Z.testbit x n) end; done.
Qed.

Lemma crc_bits_lxor n a b :
  Nat.iter n crc_bit (Z.lxor a b) = Z.lxor (Nat.iter n crc_bit a) (Nat.iter n crc_bit b).
Proof. induction n as [|n IH]; [done|]. rewrite !Nat.iter_succ. by rewrite IH, crc_bit_lxor. Qed.

(** Whole bytes above the lowest one are only shifted. *)
Lemma crc_bits_shift n a : Nat.iter n crc_bit (Z.shiftl a (Z.of_nat n)) = a.
Proof.
  induction n as [|n IH]; [by rewrite Z.shiftl_0_r|]. rewrite Nat.iter_succ_r.
  replace (crc_bit (Z.shiftl a (Z.of_nat (S n)))) with (Z.shiftl a (Z.of_nat n)); [done|].
  unfold crc_bit. rewrite <- Z.bit0_odd, Z.shiftl_spec_low by lia. rewrite Z.lxor_0_r.
  rewrite Z.shiftr_shiftl_l by lia. f_equal. lia.
Qed.

Lemma crc_entries : forall i, 0 <= i < 256 ->
  (nth (Z.to_nat i) g_dSphinxCRC32 0 =? Nat.iter 8 crc_bit i) = true.
Proof. apply (Z_check _ 256). by vm_compute. Qed.

Lemma split_low8 c : 0 <= c -> c = Z.lxor (Z.shiftl (Z.shiftr c 8) 8) (Z.land c 255).
Proof.
  intros Hc. apply Z.bits_inj'. intros n Hn.
  rewrite Z.lxor_spec, Z.land_spec. change 255 with (Z.ones 8).
  rewrite Z.testbit_ones_nonneg by lia. destruct (Z.ltb_spec n 8).
  - rewrite Z.shiftl_spec_low by lia. by rewrite andb_true_r.
  - rewrite Z.shiftl_spec by lia. rewrite Z.shiftr_spec by lia.
    rewrite andb_false_r, xorb_false_r. f_equal. lia.
Qed.

Lemma crc_turn_byte crc b : 0 <= crc -> crc_turn crc b = crc_byte crc b.
Proof.
  intros Hc. unfold crc_turn, crc_byte. pose proof (b2z_range b) as Hb.
  set (x := Z.lxor crc (b2z b)). assert (0 <= x) by (apply Z.lxor_nonneg; lia).
  assert (Hl : 0 <= Z.land x 255 < 256).
  { change 255 with (Z.ones 8). rewrite Z.land_ones by lia. apply Z.mod_pos_bound. lia. }
  rewrite (proj1 (Z.eqb_eq _ _) (crc_entries _ Hl)).
  rewrite (split_low8 x) at 2 by done. rewrite crc_bits_lxor, (crc_bits_shift 8). f_equal.
  unfold x. rewrite Z.shiftr_lxor. replace (Z.shiftr (b2z b) 8) with 0; [by rewrite Z.lxor_0_r|].
  symmetry. rewrite Z.shiftr_div_pow2 by lia. apply Z.div_small. lia.
Qed.

Lemma crc_bits_nonneg n : forall x, 0 <= x -> 0 <= Nat.iter n crc_bit x.
Proof.
  induction n as [|n IH]; intros x Hx; [done|]. rewrite Nat.iter_succ_r. apply IH.
  unfold crc_bit. apply Z.lxor_nonneg. assert (0 <= Z.shiftr x 1) by (by apply Z.shiftr_nonneg).
  destruct (Z.odd x); lia.
Qed.

Lemma crc_byte_nonneg crc b : 0 <= crc -> 0 <= crc_byte crc b.
Proof.
  intros Hc. apply crc_bits_nonneg, Z.lxor_nonneg. pose proof (b2z_range b). lia.
Qed.

Lemma crc_fold s : forall crc, 0 <= crc -> foldl crc_turn crc s = foldl crc_byte crc s.
Proof.
  induction s as [|b s IH]; intros crc Hc; [done|]. cbn [foldl].
  rewrite crc_turn_byte by done. apply IH. by apply crc_byte_nonneg.
Qed.

(** ** Range of the CRC *)

Lemma lxor_u32 a b : is_u32 a -> is_u32 b -> is_u32 (Z.lxor a b).
Proof.
  unfold is_u32. intros Ha Hb.
  assert (E : Z.lxor a b = Z.lxor a b mod 2 ^ 32); [|rewrite E; apply Z.mod_pos_bound; lia].
  apply Z.bits_inj'. intros n Hn. destruct (Z.lt_ge_cases n 32).
  - by rewrite Z.mod_pow2_bits_low by lia.
  - rewrite Z.mod_pow2_bits_high, Z.lxor_spec by lia.
    rewrite <- (Z.mod_small a (2 ^ 32)), <- (Z.mod_small b (2 ^ 32)) by lia.
    by rewrite !Z.mod_pow2_bits_high by lia.
Qed.

Lemma crc_entry_u32 i : is_u32 (nth i g_dSphinxCRC32 0).
Proof.
  assert (H : forallb (fun z => (0 <=? z) && (z <? 2 ^ 32)) g_dSphinxCRC32 = true) by (by vm_compute).
  rewrite forallb_forall in H. destruct (nth_in_or_default i g_dSphinxCRC32 0) as [Hi| ->].
  - apply H, andb_prop in Hi as [H1 H2]. apply Z.leb_le in H1. apply Z.ltb_lt in H2. by split.
  - unfold is_u32. lia.
Qed.

Lemma crc_turn_u32 crc b : is_u32 crc -> is_u32 (crc_turn crc b).
Proof.
  intros Hc. apply lxor_u32; [|apply crc_entry_u32]. unfold is_u32 in *.
  rewrite Z.shiftr_div_pow2 by lia. split; [apply Z.div_pos; lia|].
  apply Z.div_lt_upper_bound; lia.
Qed.

Lemma sphCRC32_u32 s : is_u32 (sphCRC32 s).
Proof.
  unfold sphCRC32, lnot32. apply lxor_u32; [|unfold is_u32; lia].
  assert (H0 : is_u32 (Z.lxor 0 (2 ^ 32 - 1))) by (split; by vm_compute).
  revert H0. generalize (Z.lxor 0 (2 ^ 32 - 1)). induction s as [|b s IH]; intros c Hc; [done|].
  cbn [foldl]. apply IH. by apply crc_turn_u32.
Qed.

Lemma wordIDs_u32 pTok buf ids : wordIDs pTok buf = Ret ids -> Forall is_u32 ids.
Proof.
  unfold wordIDs. destruct pTok as [t|]; [|done]. intros H.
  apply bind_Ret_inv in H as (l & _ & H). apply Ret_inj in H as <-.
  apply Forall_map, Forall_true. intros s. apply sphCRC32_u32.
Qed.

(** ** The configured tokenizer *)

Definition ngram_ranges : list (Z * Z) := [
  (0x1100, 0x11FF); (0x2E80, 0x2EFF); (0x2F00, 0x2FDF); (0x3040, 0x309F); (0x30A0, 0x30FF);
  (0x3100, 0x312F); (0x3130, 0x318F); (0x31A0, 0x31BF); (0x31F0, 0x31FF); (0x3400, 0x4DBF);
  (0x4E00, 0x9FBF); (0xA000, 0xA48F); (0xA490, 0xA4CF); (0xAC00, 0xD7AF); (0xF900, 0xFAFF);
  (0x20000, 0x2A6DF); (0x2F800, 0x2FA1F)].

(** What the calls of [CreateTokenizer] leave in the table: letters, digits,
    dash and underscore, Latin-1, the sentence marks, and the CJK ranges. *)
Definition the_tokenizer : ISphTokenizer :=
  mk_tok
    ([(mk_range 45 45 45, 0); (mk_range 48 57 48, 0); (mk_range 65 90 97, 0);
      (mk_range 95 95 95, 0); (mk_range 97 122 97, 0); (mk_range 128 255 128, 0);
      (mk_range 46 46 46, FLAG_CODEPOINT_SPECIAL); (mk_range 63 63 63, FLAG_CODEPOINT_SPECIAL);
      (mk_range 33 33 33, FLAG_CODEPOINT_SPECIAL); (mk_range 3 3 3, FLAG_CODEPOINT_SPECIAL)]
     ++ map (fun r => (mk_range (fst r) (snd r) (fst r),
                       FLAG_CODEPOINT_NGRAM + FLAG_CODEPOINT_SPECIAL)) ngram_ranges)
    true.

(** A range of codes no remap touches is unused. *)
Definition untouched (n : nat) (j : Z) (lc : list (CSphRemapRange * Z)) : bool :=
  (0 <=? j) && (j + Z.of_nat n <=? MAX_CODE) &&
  forallb (fun layer => (m_iEnd (fst layer) <? j) || (j + Z.of_nat n <=? m_iStart (fst layer))) lc.

Lemma entry_untouched n j lc k : untouched n j lc = true -> j <= k < j + Z.of_nat n -> entry lc k = 0.
Proof.
  unfold untouched, entry. intros H Hk. apply andb_prop in H as [_ H].
  induction lc as [|[r f] lc IH]; [done|]. cbn in H. apply andb_prop in H as [Hr H].
  cbn [foldl remap_entry]. replace ((m_iStart r <=? k) && (k <=? m_iEnd r)) with false; [auto|].
  symmetry. apply andb_false_iff. apply orb_prop in Hr as [Hr|Hr];
    [right; apply Z.leb_gt; apply Z.ltb_lt in Hr|left; apply Z.leb_gt; apply Z.leb_le in Hr];
    cbn in Hr; lia.
Qed.

Lemma unused_untouched n : forall m j k lc, untouched m j lc = true ->
  j <= k -> k + Z.of_nat n <= j + Z.of_nat m -> unused_from n k lc = true.
Proof.
  induction n as [|n IH]; intros m j k lc H Hk Hn; [done|]. cbn [unused_from].
  unfold ToLower. assert (Hr := H). apply andb_prop in Hr as [Hr _]. apply andb_prop in Hr as [H0 H1].
  apply Z.leb_le in H0, H1. rewrite (proj2 (Z.ltb_ge k 0)), (proj2 (Z.leb_gt MAX_CODE k)) by lia. cbn [orb].
  rewrite (entry_untouched m j) by (done || lia). cbn [Z.eqb]. apply (IH m j); (done || lia).
Qed.

Lemma CheckRemap_untouched dRemaps lc :
  forallb (fun r => let n := Z.to_nat (m_iEnd r - m_iStart r + 1) in
    untouched n (m_iStart r) lc && untouched n (m_iRemapStart r) lc) dRemaps = true ->
  CheckRemap dRemaps lc = true.
Proof.
  unfold CheckRemap. rewrite !forallb_forall. intros H r Hr. specialize (H r Hr).
  cbv zeta in *. apply andb_prop in H as [H1 H2]. apply andb_true_intro.
  split; [eapply unused_untouched; [exact H1|..]|eapply unused_untouched; [exact H2|..]]; lia.
Qed.

Definition folding_tokenizer : ISphTokenizer := mk_tok (take 10 (m_tLC the_tokenizer)) true.

Lemma SetNgramChars_eq : SetNgramChars m_sNgramChars folding_tokenizer = Some the_tokenizer.
Proof.
  unfold SetNgramChars.
  replace (Parse m_sNgramChars)
    with (Some (map (fun r => mk_range (fst r) (snd r) (fst r)) ngram_ranges)) by (by vm_compute).
  cbn [mbind option_bind]. rewrite CheckRemap_untouched by (by vm_compute). by vm_compute.
Qed.

Lemma CreateTokenizer_eq : CreateTokenizer = Some the_tokenizer.
Proof. rewrite <- SetNgramChars_eq. unfold CreateTokenizer. f_equal. Qed.

Definition word_char (c : ascii) : bool :=
  let z := b2z c in
  ((48 <=? z) && (z <=? 57)) || ((65 <=? z) && (z <=? 90)) || ((97 <=? z) && (z <=? 122))
    || (z =? 45) || (z =? 95).

Definition fold_char (c : ascii) : ascii :=
  if (65 <=? b2z c) && (b2z c <=? 90) then z2b (b2z c + 32) else c.

Definition sentence_mark (c : ascii) : bool :=
  let z := b2z c in (z =? 46) || (z =? 63) || (z =? 33) || (z =? 3).

(** What the table says of an ASCII character. *)
Lemma entry_ascii c : b2z c < 128 ->
  entry (m_tLC the_tokenizer) (b2z c) =
    if word_char c then b2z (fold_char c)
    else if sentence_mark c then b2z c + FLAG_CODEPOINT_SPECIAL else 0.
Proof. destruct c as [[] [] [] [] [] [] [] []]; vm_compute; intros H; done. Qed.

(** ** Termination *)

Lemma utf8_tail_length n : forall c p, (length (snd (utf8_tail n c p)) <= length p)%nat.
Proof.
  induction n as [|n IH]; intros c p; [done|]. cbn [utf8_tail]. destruct p as [|b p]; [done|].
  repeat case_bool; cbn [snd length]; try lia. specialize (IH (Z.shiftl c 6 + Z.land (b2z b) 63) p). lia.
Qed.

Lemma decode_length b p : (length (snd (sphUTF8Decode (b :: p))) <= length p)%nat.
Proof.
  unfold sphUTF8Decode. repeat case_bool; cbn [snd]; try lia.
  destruct (lead_ones 8 (b2z b) 0) as [v n]. case_bool; [done|]. apply utf8_tail_length.
Qed.

Lemma GetCodepoint_length fuel : forall cur,
  (length (snd (GetCodepoint fuel cur)) <= length cur)%nat /\
  (0 <= fst (GetCodepoint fuel cur) -> (length (snd (GetCodepoint fuel cur)) < length cur)%nat).
Proof.
  induction fuel as [|fuel IH]; intros [|b cur]; cbn [GetCodepoint]; try (cbn; lia).
  pose proof (decode_length b cur). destruct (sphUTF8Decode (b :: cur)) as [c r]. cbn [snd] in *.
  destruct (0 <=? c); cbn [fst snd length]; [lia|]. specialize (IH r). lia.
Qed.

Lemma next_code_length lc p :
  (length (snd (snd (next_code lc p))) <= length (snd p))%nat /\
  (0 <= fst (next_code lc p) -> (length (snd (snd (next_code lc p))) < length (snd p))%nat).
Proof.
  unfold next_code. destruct p as [prev [|b cur]]; cbn [fst snd]; [split; [done|cbn; lia]|].
  case_bool; cbn [fst snd length]; [split; lia|].
  pose proof (GetCodepoint_length (length (b :: cur)) (b :: cur)) as H. cbn [length] in H.
  destruct (GetCodepoint _ (b :: cur)) as [cp r]. cbn [fst snd move_to length] in *.
  split; [lia|]. intros Hc. apply H. unfold ToLower in Hc.
  destruct (Z.ltb_spec cp 0); cbn [orb] in Hc; lia.
Qed.

(** What a call of [DoGetToken] guarantees from [p] with [n] codepoints accumulated. *)
Definition token_step (p : str * str) (n : nat) (r : outcome (option str * (str * str))) : Prop :=
  match r with
  | Ret (o, p') => (length (snd p') <= length (snd p))%nat /\
      (o <> None -> n = O -> (length (snd p') < length (snd p))%nat)
  | _ => False
  end.

Lemma token_step_weaken p p1 n n1 r :
  (length (snd p1) < length (snd p))%nat -> token_step p1 n1 r -> token_step p n r.
Proof. unfold token_step. intros Hl. destruct r as [[o p']| | |]; try done. intros []. split; [lia|]. lia. Qed.

Lemma DoGetToken_step t fuel : forall p accum,
  (length (snd p) < fuel)%nat -> token_step p (snd accum) (DoGetToken fuel t p accum).
Proof.
  induction fuel as [|fuel IH]; intros p accum Hf; [lia|]. cbn [DoGetToken].
  pose proof (next_code_length (m_tLC t) p) as [Hle Hlt].
  destruct (next_code (m_tLC t) p) as [iCode p1]. cbn [fst snd] in *.
  destruct (Z.ltb_spec iCode 0) as [Hn|Hn].
  { cbn. split; [done|]. unfold m_iMinWordLen. case_decide; [done|lia]. }
  specialize (Hlt Hn).
  assert (Hrec : forall a n, token_step p n (DoGetToken fuel t p1 a)).
  { intros a n. eapply token_step_weaken; [exact Hlt|]. apply IH. lia. }
  generalize (if m_bDetectSentences t then CodepointArbitrationI t p1 (fst accum) (snd accum) iCode else iCode).
  intros code. repeat (first [apply Hrec | case_match]); cbn; try (split; lia).
  all: split; [lia|]; intros _ E; unfold m_iMinWordLen in *; cbn in *; lia.
Qed.

Lemma get_tokens_total t fuel : forall p, (length (snd p) < fuel)%nat ->
  exists l, get_tokens fuel t p = Ret l.
Proof.
  induction fuel as [|fuel IH]; intros p Hf; [lia|]. cbn [get_tokens]. unfold GetToken.
  pose proof (DoGetToken_step t (S (length (snd p))) p ([], O) (Nat.lt_succ_diag_r _)) as H.
  destruct (DoGetToken _ t p _) as [[[s|] p']| | |]; try done; cbn [mbind outcome_bind].
  - destruct H as [_ H]. destruct (IH p') as [l Hl]; [specialize (H ltac:(done) eq_refl); lia|].
    rewrite Hl. by eexists.
  - by eexists.
Qed.

(** ** Plain text *)

(** ASCII text without sentence marks. *)
Definition plain (s : str) : Prop :=
  Forall (fun c => b2z c < 128 /\ sentence_mark c = false) s.

Definition emit (w : str) (ws : list str) : list str :=
  match w with [] => ws | _ => take SPH_MAX_WORD_LEN w :: ws end.

(** The words of a text: maximal runs of word characters, folded to lower
    case and cut at 42 characters; [w] is the run that is being read. *)
Fixpoint words (w : str) (s : str) : list str :=
  match s with
  | [] => emit w []
  | c :: s => if word_char c then words (w ++ [fold_char c]) s else emit w (words [] s)
  end.

Definition accum_of (w : str) : str * nat :=
  (take SPH_MAX_WORD_LEN w, Nat.min SPH_MAX_WORD_LEN (length w)).

Lemma next_code_ascii lc prev c s : b2z c < 128 ->
  next_code lc (prev, c :: s) = (entry lc (b2z c), (c :: prev, s)).
Proof. intros H. unfold next_code. cbn [snd fst]. by rewrite (proj2 (Z.ltb_lt _ _) H). Qed.

(** A plain character is never changed by the sentence detection. *)
Lemma plain_code t p w n c : b2z c < 128 -> sentence_mark c = false ->
  let code := entry (m_tLC the_tokenizer) (b2z c) in
  CodepointArbitrationI t p w n code = code.
Proof.
  intros Hc Hs code. unfold CodepointArbitrationI. destruct (m_bDetectSentences t); [|done].
  cbn [negb]. assert (E : code = if word_char c then b2z (fold_char c) else 0).
  { unfold code. rewrite entry_ascii, Hs by done. done. }
  assert (Z.land code MASK_CODEPOINT <> 63 /\ Z.land code MASK_CODEPOINT <> 33 /\
          Z.land code MASK_CODEPOINT <> 46) as (H1 & H2 & H3).
  { rewrite E. clear. destruct c as [[] [] [] [] [] [] [] []]; vm_compute; done. }
  by rewrite !(proj2 (Z.eqb_neq _ _)).
Qed.

Lemma word_code c : b2z c < 128 -> word_char c = true ->
  let code := b2z (fold_char c) in
  has_flag code FLAG_CODEPOINT_IGNORE = false /\
  (code =? 0) || has_flag code FLAG_CODEPOINT_BOUNDARY = false /\
  has_flag code FLAG_CODEPOINT_SPECIAL = false /\
  sphUTF8Encode (Z.land code MASK_CODEPOINT) = [fold_char c].
Proof. destruct c as [[] [] [] [] [] [] [] []]; vm_compute; done. Qed.

Lemma accum_word w c e : sphUTF8Encode e = [c] ->
  accum_codepoint (accum_of w) e = accum_of (w ++ [c]).
Proof.
  intros He. unfold accum_codepoint, accum_of. rewrite He. rewrite length_take.
  unfold accum_size, SPH_MAX_WORD_LEN. rewrite length_app. cbn [length].
  destruct (decide (length w < 42)%nat).
  - rewrite decide_True by lia. rewrite !take_ge by (rewrite ?length_app; cbn; lia).
    f_equal. lia.
  - rewrite decide_False by lia. rewrite take_app_le by lia. f_equal. lia.
Qed.

Lemma DoGetToken_plain fuel : forall prev s w,
  plain s -> (length s < fuel)%nat ->
  exists prev' s', plain s' /\ (length s' <= length s)%nat /\
    match words w s with
    | [] => DoGetToken fuel the_tokenizer (prev, s) (accum_of w) = Ret (None, (prev', s'))
    | x :: l => DoGetToken fuel the_tokenizer (prev, s) (accum_of w) = Ret (Some x, (prev', s')) /\
                words [] s' = l
    end.
Proof.
  induction fuel as [|fuel IH]; intros prev s w Hp Hf; [lia|]. destruct s as [|c s].
  { exists prev, []. split_and!; [constructor|done|]. cbn [words]. destruct w as [|x w]; [done|].
    cbn [emit]. split; done. }
  apply Forall_cons_iff in Hp as [[Hc Hs] Hp]. cbn [length] in Hf.
  cbn [words DoGetToken]. rewrite next_code_ascii by done.
  change (m_bDetectSentences the_tokenizer) with true. cbn iota. rewrite plain_code by done.
  rewrite entry_ascii, Hs by done. destruct (word_char c) eqn:Hw.
  - destruct (word_code c Hc Hw) as (F1 & F2 & F3 & F4).
    pose proof (b2z_range (fold_char c)). rewrite (proj2 (Z.ltb_ge _ _)) by lia.
    rewrite F1, F2, F3. rewrite (accum_word _ _ _ F4).
    destruct (IH (c :: prev) s (w ++ [fold_char c]) Hp ltac:(lia)) as (p' & s' & H1 & H2 & H3).
    exists p', s'. split_and!; [done|cbn; lia|done].
  - change (0 <? 0) with false. change (has_flag 0 FLAG_CODEPOINT_IGNORE) with false.
    change ((0 =? 0) || has_flag 0 FLAG_CODEPOINT_BOUNDARY) with true. cbn iota.
    destruct w as [|x w].
    + case_decide as Hd; [|by destruct Hd; unfold m_iMinWordLen; cbn; lia].
      destruct (IH (c :: prev) s [] Hp ltac:(lia)) as (p' & s' & H1 & H2 & H3).
      exists p', s'. split_and!; [done|cbn; lia|done].
    + case_decide as Hd; [unfold m_iMinWordLen in Hd; cbn in Hd; lia|].
      exists (c :: prev), s. split_and!; [done|cbn; lia|]. done.
Qed.

Lemma get_tokens_plain fuel : forall prev s, plain s -> (length s < fuel)%nat ->
  get_tokens fuel the_tokenizer (prev, s) = Ret (words [] s).
Proof.
  induction fuel as [|fuel IH]; intros prev s Hp Hf; [lia|]. cbn [get_tokens]. unfold GetToken.
  cbn [snd]. change ([], O) with (accum_of []).
  pose proof (DoGetToken_step the_tokenizer (S (length s)) (prev, s) (accum_of []) (Nat.lt_succ_diag_r _)) as Hst.
  destruct (DoGetToken_plain (S (length s)) prev s [] Hp (Nat.lt_succ_diag_r _)) as (p' & s' & H1 & H2 & H3).
  destruct (words [] s) as [|x l].
  - by rewrite H3.
  - destruct H3 as [H3 H4]. rewrite H3 in *. cbn [mbind outcome_bind].
    destruct Hst as [_ Hst]. cbn [snd] in Hst. specialize (Hst ltac:(done) eq_refl).
    rewrite IH by (done || lia). by rewrite H4.
Qed.

Lemma tokens_plain_eq s : plain s -> tokens the_tokenizer s = Ret (words [] s).
Proof. intros H. apply get_tokens_plain; [done|lia]. Qed.

(** ** Sizes *)

Lemma length_encode c : (1 <= length (sphUTF8Encode c) <= 4)%nat.
Proof. unfold sphUTF8Encode. repeat case_bool; cbn; lia. Qed.

(** The accumulator: empty exactly when it counts no codepoint, and inside
    its array. *)
Definition accum_ok (a : str * nat) : Prop :=
  (snd a = O <-> fst a = []) /\ (length (fst a) <= accum_size)%nat.

Lemma accum_codepoint_ok a c : accum_ok a -> accum_ok (accum_codepoint a c).
Proof.
  destruct a as [s n]. unfold accum_codepoint, accum_ok. intros [H1 H2].
  case_decide as Hd; [|done]. cbn [fst snd] in *. pose proof (length_encode c).
  rewrite length_app. split; [|lia]. split; [done|]. intros E.
  apply app_eq_nil in E as [_ E]. rewrite E in *. cbn in *. lia.
Qed.

Definition token_ok (s : str) : Prop := (0 < length s <= accum_size)%nat.

Lemma accum_token a : accum_ok a -> snd a <> O -> token_ok (fst a).
Proof.
  intros [[_ H1] H2] Hn. split; [|done]. destruct (fst a) eqn:E; [|cbn; lia].
  by specialize (H1 eq_refl).
Qed.

Lemma accum_nil_ok : accum_ok ([], O).
Proof. split; [done|cbn; lia]. Qed.

Lemma single_token c : token_ok (fst (accum_codepoint ([], O) c)).
Proof.
  apply accum_token; [apply accum_codepoint_ok, accum_nil_ok|].
  unfold accum_codepoint. rewrite decide_True; [done|]. unfold SPH_MAX_WORD_LEN, accum_size. cbn. lia.
Qed.

Lemma DoGetToken_ok t fuel : forall p a s p', accum_ok a ->
  DoGetToken fuel t p a = Ret (Some s, p') -> token_ok s.
Proof.
  induction fuel as [|fuel IH]; intros p a s p' Ha H; [done|]. cbn [DoGetToken] in H.
  destruct (next_code (m_tLC t) p) as [iCode p1]. revert H.
  generalize (if m_bDetectSentences t then CodepointArbitrationI t p1 (fst a) (snd a) iCode else iCode).
  intros code H. unfold m_iMinWordLen in H.
  repeat case_match; simplify_eq; eauto using accum_codepoint_ok, accum_nil_ok, accum_token, single_token.
  all: first [exact (single_token _) | lia | apply accum_token; [done|lia]].
Qed.

Lemma get_tokens_ok t fuel : forall p l, get_tokens fuel t p = Ret l -> Forall token_ok l.
Proof.
  induction fuel as [|fuel IH]; intros p l H; [done|]. cbn [get_tokens] in H.
  apply bind_Ret_inv in H as ([[s|] p'] & H1 & H2); [|apply Ret_inj in H2 as <-; constructor].
  apply bind_Ret_inv in H2 as (l' & H2 & H3). apply Ret_inj in H3 as <-.
  constructor; [|eauto]. eapply DoGetToken_ok; [apply accum_nil_ok|exact H1].
Qed.

(** ** UTF-8 *)

Lemma low_byte : forall y, 0 <= y < 64 ->
  (let b := b2z (z2b (Z.lor y 0x80)) in
   negb (b =? 0) && (Z.land b 0xC0 =? 0x80) && (Z.land b 0x3F =? y)) = true.
Proof. apply (Z_check _ 64). by vm_compute. Qed.

Lemma tail_low n code y p : 0 <= y < 64 ->
  utf8_tail (S n) code (z2b (Z.lor y 0x80) :: p) = utf8_tail n (code * 64 + y) p.
Proof.
  intros Hy. pose proof (low_byte y Hy) as H. cbv zeta in H.
  apply andb_prop in H as [H H3]. apply andb_prop in H as [H1 H2].
  cbn [utf8_tail]. apply negb_true_iff in H1. rewrite H1, H2. cbn [negb].
  apply Z.eqb_eq in H3. by rewrite H3, Z.shiftl_mul_pow2.
Qed.

(** A leading byte for [n] bytes. *)
Definition lead_check (mark n x : Z) : bool :=
  let b := b2z (z2b (Z.lor x mark)) in
  negb (b =? 0) && negb (b <? 128) &&
  (let '(v, k) := lead_ones 8 b 0 in (k =? n) && (Z.shiftr v k =? x)).

Lemma decode_lead mark n x p : lead_check mark n x = true -> 2 <= n <= 4 ->
  sphUTF8Decode (z2b (Z.lor x mark) :: p) = utf8_tail (Z.to_nat (n - 1)) x p.
Proof.
  unfold lead_check. intros H Hn. apply andb_prop in H as [H H3]. apply andb_prop in H as [H1 H2].
  apply negb_true_iff in H1, H2. unfold sphUTF8Decode. rewrite H1, H2.
  destruct (lead_ones 8 _ 0) as [v k]. apply andb_prop in H3 as [H3 H4].
  apply Z.eqb_eq in H3, H4. subst k. rewrite H4.
  by rewrite (proj2 (Z.ltb_ge n 2)), (proj2 (Z.ltb_ge 4 n)) by lia.
Qed.

Lemma lead2 : forall x, 0 <= x < 32 -> lead_check 0xC0 2 x = true.
Proof. apply (Z_check _ 32). by vm_compute. Qed.

Lemma lead3 : forall x, 0 <= x < 16 -> lead_check 0xE0 3 x = true.
Proof. apply (Z_check _ 16). by vm_compute. Qed.

Lemma lead4 : forall x, 0 <= x < 8 -> lead_check 0xF0 4 x = true.
Proof. apply (Z_check _ 8). by vm_compute. Qed.

Lemma ascii_byte : forall c, 0 <= c < 128 -> (b2z (z2b (Z.land c 0x7F)) =? c) = true.
Proof. apply (Z_check _ 128). by vm_compute. Qed.

(** A group of [k] bits of a codepoint. *)
Lemma bits_of c sh k : 0 <= k -> 0 <= c -> 0 <= sh ->
  Z.land (Z.shiftr c sh) (Z.ones k) = (c / 2 ^ sh) mod 2 ^ k.
Proof. intros. by rewrite Z.land_ones, Z.shiftr_div_pow2 by lia. Qed.

Lemma div_range c a n : 0 <= c < a * n -> 0 < a -> 0 <= c / a < n.
Proof. intros H Ha. split; [apply Z.div_pos; lia|]. apply Z.div_lt_upper_bound; lia. Qed.

Ltac utf8_groups :=
  change 0x3F with (Z.ones 6); change 0x1F with (Z.ones 5); change 0x0F with (Z.ones 4);
  rewrite !bits_of by lia; change (2 ^ 0) with 1; change (2 ^ 4) with 16; change (2 ^ 5) with 32;
  change (2 ^ 6) with 64; change (2 ^ 12) with (64 * 64); change (2 ^ 18) with (64 * 64 * 64);
  rewrite <- ?Z.div_div, Z.div_1_r by lia.

Lemma decode_encode2 c rest : 0x80 <= c < 0x800 ->
  sphUTF8Decode (z2b (Z.lor (Z.land (Z.shiftr c 6) 0x1F) 0xC0) ::
    z2b (Z.lor (Z.land (Z.shiftr c 0) 0x3F) 0x80) :: rest) = (c, rest).
Proof.
  intros H. utf8_groups. pose proof (div_range c 64 32). rewrite (Z.mod_small (c / 64)) by lia.
  rewrite (decode_lead _ 2) by (try lia; apply lead2; lia).
  change (Z.to_nat (2 - 1)) with 1%nat. rewrite tail_low by (apply Z.mod_pos_bound; lia).
  cbn [utf8_tail]. f_equal. pose proof (Z_div_mod_eq_full c 64). lia.
Qed.

Lemma decode_encode3 c rest : 0x800 <= c < 0x10000 ->
  sphUTF8Decode (z2b (Z.lor (Z.land (Z.shiftr c 12) 0x0F) 0xE0) ::
    z2b (Z.lor (Z.land (Z.shiftr c 6) 0x3F) 0x80) ::
    z2b (Z.lor (Z.land (Z.shiftr c 0) 0x3F) 0x80) :: rest) = (c, rest).
Proof.
  intros H. utf8_groups. pose proof (div_range c 64 1024). pose proof (div_range (c / 64) 64 16).
  rewrite (Z.mod_small (c / 64 / 64)) by lia.
  rewrite (decode_lead _ 3) by (try lia; apply lead3; lia).
  change (Z.to_nat (3 - 1)) with 2%nat. rewrite !tail_low by (apply Z.mod_pos_bound; lia).
  cbn [utf8_tail]. f_equal. pose proof (Z_div_mod_eq_full c 64).
  pose proof (Z_div_mod_eq_full (c / 64) 64). lia.
Qed.

Lemma decode_encode4 c rest : 0x10000 <= c < 0x200000 ->
  sphUTF8Decode (z2b (Z.lor (Z.land (Z.shiftr c 18) 0x0F) 0xF0) ::
    z2b (Z.lor (Z.land (Z.shiftr c 12) 0x3F) 0x80) ::
    z2b (Z.lor (Z.land (Z.shiftr c 6) 0x3F) 0x80) ::
    z2b (Z.lor (Z.land (Z.shiftr c 0) 0x3F) 0x80) :: rest) = (c, rest).
Proof.
  intros H. utf8_groups. pose proof (div_range c 64 32768). pose proof (div_range (c / 64) 64 512).
  pose proof (div_range (c / 64 / 64) 64 8). rewrite (Z.mod_small (c / 64 / 64 / 64)) by lia.
  rewrite (decode_lead _ 4) by (try lia; apply lead4; lia).
  change (Z.to_nat (4 - 1)) with 3%nat. rewrite !tail_low by (apply Z.mod_pos_bound; lia).
  cbn [utf8_tail]. f_equal. pose proof (Z_div_mod_eq_full c 64).
  pose proof (Z_div_mod_eq_full (c / 64) 64). pose proof (Z_div_mod_eq_full (c / 64 / 64) 64). lia.
Qed.

Lemma decode_encode c rest : 0 < c < 0x200000 -> sphUTF8Decode (sphUTF8Encode c ++ rest) = (c, rest).
Proof.
  intros Hc. unfold sphUTF8Encode.
  destruct (Z.ltb_spec c 0x80) as [H|H].
  { pose proof (ascii_byte c ltac:(lia)) as E. apply Z.eqb_eq in E. cbn [app].
    unfold sphUTF8Decode. rewrite E.
    by rewrite (proj2 (Z.eqb_neq c 0)), (proj2 (Z.ltb_lt c 128)) by lia. }
  destruct (Z.ltb_spec c 0x800); [apply decode_encode2; lia|].
  destruct (Z.ltb_spec c 0x10000); [apply decode_encode3; lia|apply decode_encode4; lia].
Qed.

Lemma wordIDs_total buf : exists ids, wordIDs CreateTokenizer buf = Ret ids.
Proof.
  rewrite CreateTokenizer_eq. cbn [wordIDs].
  destruct (get_tokens_total the_tokenizer (S (length buf)) ([], buf)) as [l Hl]; [cbn; lia|].
  unfold tokens. rewrite Hl. by eexists.
Qed.

(** ** Properties *)

(** [CreateTokenizer] never dies, and its calls of [AddPlainChar] and
    [AddSpecials] have no effect, since the later [SetCaseFolding] resets the
    table: only letters (folded to lower case), digits, dash, underscore and
    Latin-1 letters are word characters, the quote, parentheses and other
    operators are separators, and the sentence marks are specials. *)
Lemma CreateTokenizer_table :
  CreateTokenizer = Some the_tokenizer /\
  forall c, b2z c < 128 ->
    entry (m_tLC the_tokenizer) (b2z c) =
      if word_char c then b2z (fold_char c)
      else if sentence_mark c then b2z c + FLAG_CODEPOINT_SPECIAL else 0.
Proof. split; [apply CreateTokenizer_eq|apply entry_ascii]. Qed.

(** Tokenising terminates on every buffer, valid UTF-8 or not, and every
    token is non-empty and fits the accumulator of 129 bytes. *)
Lemma tokens_total t buf :
  exists l, tokens t buf = Ret l /\ Forall (fun s => (0 < length s <= accum_size)%nat) l.
Proof.
  destruct (get_tokens_total t (S (length buf)) ([], buf)) as [l Hl]; [cbn; lia|].
  exists l. split; [exact Hl|]. exact (get_tokens_ok t _ _ l Hl).
Qed.

(** On ASCII text without sentence marks the tokens are the maximal runs
    of word characters, in lower case and cut at 42 characters. *)
Lemma tokens_plain s : plain s -> tokens the_tokenizer s = Ret (words [] s).
Proof. apply tokens_plain_eq. Qed.

(** Encoding a codepoint as UTF-8 and decoding it gives it back, with the
    cursor after it, for every code below 0x200000. *)
Lemma utf8_roundtrip c rest : 0 < c < 0x200000 ->
  sphUTF8Decode (sphUTF8Encode c ++ rest) = (c, rest).
Proof. apply decode_encode. Qed.

(** The table-driven loop of [sphCRC32] computes the CRC-32 of the
    polynomial 0x04C11DB7, bit by bit, for every string. *)
Lemma sphCRC32_reference s : sphCRC32 s = crc_spec s.
Proof. unfold sphCRC32, crc_spec. by rewrite crc_fold. Qed.
