(* ===== verification/Siphash.v ===== *)
(** * The hash function of Kanban

    src/kanban/src/siphash.c: SipHash with one round for a word and two at the
    end, and the variant that does not tell upper from lower case; and the
    wrappers of dict.c and server.c that hash the keys of the hash tables.

    The theorems compare both with the definition of SipHash on a padded
    message. *)

From S2P Require Import Prelude Word.

Local Open Scope Z_scope.

(** ** The code *)

Definition siptlw (c : Z) : Z := if (65 <=? c) && (c <=? 90) then c + (97 - 65) else c.

Definition ROTL (x b : Z) : Z := Z.lor (shl64 x b) (Z.shiftr x (64 - b)).

Record sip_state := mk_sip { v0 : Z; v1 : Z; v2 : Z; v3 : Z }.

Definition SIPROUND (s : sip_state) : sip_state :=
  let '(mk_sip v0 v1 v2 v3) := s in
  let v0 := u64 (v0 + v1) in
  let v1 := ROTL v1 13 in
  let v1 := Z.lxor v1 v0 in
  let v0 := ROTL v0 32 in
  let v2 := u64 (v2 + v3) in
  let v3 := ROTL v3 16 in
  let v3 := Z.lxor v3 v2 in
  let v0 := u64 (v0 + v3) in
  let v3 := ROTL v3 21 in
  let v3 := Z.lxor v3 v0 in
  let v2 := u64 (v2 + v1) in
  let v1 := ROTL v1 17 in
  let v1 := Z.lxor v1 v2 in
  let v2 := ROTL v2 32 in
  mk_sip v0 v1 v2 v3.

(** The byte at an offset, and the eight bytes of [U8TO64_LE_NOCASE]. *)
Definition byte_at (s : str) (i : nat) : Z := b2z (nth i s NUL).

Definition U8TO64_LE (p : str) : Z := load64_le p 0.

Definition U8TO64_LE_NOCASE (p : str) : Z :=
  Z.lor (Z.lor (Z.lor (Z.lor (Z.lor (Z.lor (Z.lor
    (siptlw (byte_at p 0))
    (shl64 (siptlw (byte_at p 1)) 8))
    (shl64 (siptlw (byte_at p 2)) 16))
    (shl64 (siptlw (byte_at p 3)) 24))
    (shl64 (siptlw (byte_at p 4)) 32))
    (shl64 (siptlw (byte_at p 5)) 40))
    (shl64 (siptlw (byte_at p 6)) 48))
    (shl64 (siptlw (byte_at p 7)) 56).

Definition sip_init (k : str) : sip_state :=
  let k0 := U8TO64_LE k in
  let k1 := U8TO64_LE (drop 8 k) in
  mk_sip (Z.lxor 0x736f6d6570736575 k0) (Z.lxor 0x646f72616e646f6d k1)
    (Z.lxor 0x6c7967656e657261 k0) (Z.lxor 0x7465646279746573 k1).

(** A word goes in before and after a round. *)
Definition sip_word (s : sip_state) (m : Z) : sip_state :=
  let s := SIPROUND (mk_sip (v0 s) (v1 s) (v2 s) (Z.lxor (v3 s) m)) in
  mk_sip (Z.lxor (v0 s) m) (v1 s) (v2 s) (v3 s).

(** The loop over the words, with the pointer where it ends. *)
Fixpoint sip_loop (load : str -> Z) (n : nat) (p : str) (s : sip_state) : str * sip_state :=
  match n with
  | O => (p, s)
  | S n => sip_loop load n (drop 8 p) (sip_word s (load p))
  end.

(** The cases of the switch, from 7 down. *)
Definition sip_tail (byte : Z -> Z) (p : str) (left : nat) (b : Z) : Z :=
  foldl (fun b j => if (j <? left)%nat then Z.lor b (shl64 (byte (byte_at p j)) (8 * Z.of_nat j)) else b) b [6; 5; 4; 3; 2; 1; 0]%nat.

Definition sip_final (s : sip_state) : Z :=
  let s := SIPROUND (SIPROUND (mk_sip (v0 s) (v1 s) (Z.lxor (v2 s) 0xff) (v3 s))) in
  Z.lxor (Z.lxor (Z.lxor (v0 s) (v1 s)) (v2 s)) (v3 s).

Definition sip (load : str -> Z) (byte : Z -> Z) (p k : str) : Z :=
  let inlen := length p in
  let '(p, s) := sip_loop load (inlen / 8) p (sip_init k) in
  let b := sip_tail byte p (inlen mod 8) (shl64 (Z.of_nat inlen) 56) in
  sip_final (sip_word s b).

Definition siphash (p k : str) : Z := sip U8TO64_LE (fun c => c) p k.
Definition siphash_nocase (p k : str) : Z := sip U8TO64_LE_NOCASE siptlw p k.

(** Through [dictGenHashFunction], with the [dict_hash_function_seed] that is
    set when the server starts. *)
Definition dictSdsHash (seed key : str) : Z := siphash key seed.

(** ** The definition *)

(** The message is padded with zeros and its length to whole words. *)
Definition sip_padded (p : str) : str := p ++ replicate (7 - length p mod 8) NUL ++ [z2b (Z.of_nat (length p))].

Fixpoint sip_words (n : nat) (p : str) : list Z :=
  match n with O => [] | S n => le_val (take 8 p) :: sip_words n (drop 8 p) end.

(** SipHash-1-2. *)
Definition sip_spec (p k : str) : Z := sip_final (foldl sip_word (sip_init k) (sip_words (S (length p / 8)) (sip_padded p))).

Definition lower (p : str) : str := map (fun c => z2b (siptlw (b2z c))) p.

(** ** Theorems *)

Lemma lor_high x y n : 0 <= n -> 0 <= y < 2 ^ n -> Z.lor (x * 2 ^ n) y = x * 2 ^ n + y.
Proof.
  intros Hn Hy. rewrite <- Z.add_lor_land. replace (Z.land (x * 2 ^ n) y) with 0; [lia|]. symmetry. apply Z.bits_inj'. intros k Hk.
  rewrite Z.land_spec, Z.bits_0. destruct (Z.lt_ge_cases k n).
  - by rewrite Z.mul_pow2_bits_low by lia.
  - rewrite <- (Z.mod_small y (2 ^ n)), (Z.mod_pow2_bits_high y) by lia. apply andb_false_r.
Qed.

Lemma lor_low x y n : 0 <= n <= 56 -> 0 <= x < 2 ^ n -> 0 <= y < 256 -> Z.lor x (shl64 y n) = x + 2 ^ n * y.
Proof.
  intros Hn Hx Hy. rewrite Z.lor_comm, shl_lor by lia. rewrite Z.mod_small; [lia|].
  split; [lia|]. apply Z.lt_le_trans with (2 ^ 8); [exact (proj2 Hy)|]. apply Z.pow_le_mono_r; lia.
Qed.

Lemma take_last_val l n : (n < length l)%nat -> le_val (take (S n) l) = le_val (take n l) + 256 ^ Z.of_nat n * byte_at l n.
Proof.
  intros Hn. destruct (lookup_lt_is_Some_2 l n Hn) as [c Hc]. rewrite (take_S_r _ _ _ Hc), le_val_app, length_take_le by lia.
  cbn [le_val]. unfold byte_at. rewrite (nth_lookup_Some _ _ NUL _ Hc). lia.
Qed.

Lemma siptlw_range c : 0 <= c < 256 -> 0 <= siptlw c < 256.
Proof. intros Hc. unfold siptlw. destruct (Z.leb_spec 65 c), (Z.leb_spec c 90); cbn [andb]; lia. Qed.

Lemma byte_lower c : siptlw (b2z c) = b2z (z2b (siptlw (b2z c))).
Proof. rewrite b2z_z2b, Z.mod_small; [reflexivity|]. apply siptlw_range, b2z_range. Qed.

Lemma lor_bytes a0 a1 a2 a3 a4 a5 a6 a7 : Forall (fun a => 0 <= a < 256) [a0; a1; a2; a3; a4; a5; a6; a7] ->
  Z.lor (Z.lor (Z.lor (Z.lor (Z.lor (Z.lor (Z.lor a0 (shl64 a1 8)) (shl64 a2 16)) (shl64 a3 24)) (shl64 a4 32)) (shl64 a5 40)) (shl64 a6 48)) (shl64 a7 56) =
  a0 + 256 * (a1 + 256 * (a2 + 256 * (a3 + 256 * (a4 + 256 * (a5 + 256 * (a6 + 256 * (a7 + 256 * 0))))))).
Proof.
  intros Ha. rewrite !Forall_cons in Ha. destruct Ha as (H0 & H1 & H2 & H3 & H4 & H5 & H6 & H7 & _).
  rewrite (lor_low a0 a1), (lor_low _ a2), (lor_low _ a3), (lor_low _ a4), (lor_low _ a5), (lor_low _ a6), (lor_low _ a7) by lia. lia.
Qed.

Lemma nocase_load p : (8 <= length p)%nat -> U8TO64_LE_NOCASE p = le_val (take 8 (lower p)).
Proof.
  intros Hp. do 8 (destruct p as [|? p]; [cbn in Hp; lia|]). unfold U8TO64_LE_NOCASE, byte_at. cbn [nth lower map take le_val].
  rewrite <- !byte_lower. apply lor_bytes. rewrite !Forall_cons. repeat split; try apply siptlw_range, b2z_range. constructor.
Qed.

Section Sip.
Context (load : str -> Z) (byte : Z -> Z) (g : ascii -> ascii).
Hypothesis load_ok : forall p, (8 <= length p)%nat -> load p = le_val (take 8 (map g p)).
Hypothesis byte_ok : forall c, byte (b2z c) = b2z (g c).

(** The switch builds the last word. *)
Lemma sip_tail_steps t l x n : (n <= length l)%nat -> (n <= 7)%nat ->
  (forall j, (j < n)%nat -> byte_at l j = if (j <? length t)%nat then byte (byte_at t j) else 0) ->
  foldl (fun b j => if (j <? length t)%nat then Z.lor b (shl64 (byte (byte_at t j)) (8 * Z.of_nat j)) else b) (x * 256 ^ Z.of_nat n) (rev (seq 0 n)) =
  x * 256 ^ Z.of_nat n + le_val (take n l).
Proof.
  revert x. induction n as [|n IH]; intros x Hl H7 Hj; [rewrite take_0; cbn [rev seq foldl le_val]; lia|]. rewrite seq_S, rev_app_distr. cbn [app rev foldl Nat.add].
  rewrite (take_last_val l n) by lia. rewrite (Hj n) by lia. rewrite Nat2Z.inj_succ, Z.pow_succ_r by lia.
  replace (x * (256 * 256 ^ Z.of_nat n)) with (x * 256 * 256 ^ Z.of_nat n) by lia.
  destruct (Nat.ltb_spec n (length t)) as [Ht|Ht]; [|rewrite IH by (try lia; intros; apply Hj; lia); lia].
  assert (Hb : 0 <= byte (byte_at t n) < 256) by (unfold byte_at; rewrite byte_ok; apply b2z_range). revert Hb. generalize (byte (byte_at t n)). intros y Hy.
  assert (E : shl64 y (8 * Z.of_nat n) = y * 256 ^ Z.of_nat n).
  { unfold shl64. rewrite Z.shiftl_mul_pow2, Z.pow_mul_r by lia. change (2 ^ 8) with 256. apply u64_small.
    assert (256 ^ Z.of_nat n <= 256 ^ 6) by (apply Z.pow_le_mono_r; lia). assert (0 < 256 ^ Z.of_nat n) by (apply Z.pow_pos_nonneg; lia). nia. }
  rewrite E. replace (x * 256 * 256 ^ Z.of_nat n) with (x * 2 ^ (8 + 8 * Z.of_nat n)) by (rewrite Z.pow_add_r, Z.pow_mul_r by lia; change (2 ^ 8) with 256; lia).
  assert (Hp : 0 < 256 ^ Z.of_nat n) by (apply Z.pow_pos_nonneg; lia).
  assert (Hp2 : 2 ^ (8 + 8 * Z.of_nat n) = 256 * 256 ^ Z.of_nat n) by (rewrite Z.pow_add_r, Z.pow_mul_r by lia; reflexivity).
  rewrite lor_high by (try lia; rewrite Hp2; nia). rewrite Hp2. replace (x * (256 * 256 ^ Z.of_nat n) + y * 256 ^ Z.of_nat n) with ((x * 256 + y) * 256 ^ Z.of_nat n) by lia.
  rewrite IH by (try lia; intros; apply Hj; lia). lia.
Qed.

Lemma sip_tail_spec t len : (length t < 8)%nat ->
  sip_tail byte t (length t) (shl64 (Z.of_nat len) 56) = le_val (map g t ++ replicate (7 - length t) NUL ++ [z2b (Z.of_nat len)]).
Proof.
  intros Ht. set (l := map g t ++ replicate (7 - length t) NUL).
  assert (Hl : length l = 7%nat) by (unfold l; rewrite length_app, length_map, length_replicate; lia).
  assert (E : shl64 (Z.of_nat len) 56 = (Z.of_nat len mod 256) * 256 ^ Z.of_nat 7).
  { pose proof (shl_lor (Z.of_nat len) 0 56 ltac:(lia) ltac:(lia)) as H0. rewrite Z.lor_0_r in H0. rewrite H0. change (2 ^ (64 - 56)) with 256. change (256 ^ Z.of_nat 7) with (2 ^ 56). lia. }
  rewrite E. rewrite app_assoc. fold l. rewrite le_val_app, Hl. cbn [le_val]. rewrite b2z_z2b.
  pose proof (sip_tail_steps t l (Z.of_nat len mod 256) 7 ltac:(lia) ltac:(lia)) as Hs. rewrite (take_ge l) in Hs by lia. unfold sip_tail.
  change [6; 5; 4; 3; 2; 1; 0]%nat with (rev (seq 0 7)). rewrite Hs; [lia|]. intros j Hj. unfold byte_at, l. destruct (Nat.ltb_spec j (length t)) as [Hjt|Hjt].
  - rewrite app_nth1 by (rewrite length_map; lia). rewrite byte_ok. f_equal. rewrite (nth_indep _ NUL (g NUL)) by (rewrite length_map; lia). apply map_nth.
  - rewrite app_nth2 by (rewrite length_map; lia). rewrite nth_lookup. destruct (replicate _ NUL !! _) eqn:Er; [by apply lookup_replicate in Er as [-> _]|reflexivity].
Qed.

Lemma sip_loop_spec n : forall p s rest, (8 * n <= length p)%nat ->
  sip_loop load n p s = (drop (8 * n) p, foldl sip_word s (sip_words n (map g p ++ rest))).
Proof.
  induction n as [|n IH]; intros p s rest Hp; cbn [sip_loop sip_words foldl]; [by rewrite Nat.mul_0_r|].
  rewrite (IH (drop 8 p) _ rest) by (rewrite length_drop; lia). rewrite drop_drop, load_ok by lia. rewrite take_app_le, drop_app_le by (rewrite length_map; lia).
  replace (drop 8 (map g p)) with (map g (drop 8 p)) by exact (fmap_drop g _ _). f_equal. f_equal. lia.
Qed.

Lemma sip_words_S n p : sip_words (S n) p = sip_words n p ++ [le_val (take 8 (drop (8 * n) p))].
Proof.
  revert p. induction n as [|n IH]; intros p; [reflexivity|]. change (sip_words (S (S n)) p) with (le_val (take 8 p) :: sip_words (S n) (drop 8 p)).
  rewrite IH, drop_drop. cbn [sip_words app]. replace (8 + 8 * n)%nat with (8 * S n)%nat by lia. reflexivity.
Qed.

Lemma sip_correct p k : sip load byte p k = sip_spec (map g p) k.
Proof.
  unfold sip, sip_spec, sip_padded. rewrite length_map. set (n := (length p / 8)%nat). set (rest := replicate _ _ ++ _).
  pose proof (Nat.div_mod_eq (length p) 8) as Hd. fold n in Hd. pose proof (Nat.mod_upper_bound (length p) 8 ltac:(lia)) as Hm.
  rewrite (sip_loop_spec n p _ rest) by lia. rewrite sip_words_S, foldl_app. cbn [foldl]. do 2 f_equal.
  set (t := drop (8 * n) p). assert (Ht : length t = (length p mod 8)%nat) by (unfold t; rewrite length_drop; lia).
  rewrite drop_app_le by (rewrite length_map; lia). replace (drop (8 * n) (map g p)) with (map g t) by exact (fmap_drop g _ _).
  rewrite <- Ht, sip_tail_spec by lia. unfold rest. rewrite <- Ht. rewrite take_ge; [reflexivity|].
  rewrite !length_app, length_map, length_replicate. cbn [length]. lia.
Qed.

End Sip.

Lemma siphash_correct p k : siphash p k = sip_spec p k.
Proof.
  unfold siphash. rewrite (sip_correct U8TO64_LE (fun c => c) (fun c => c)); [by rewrite map_id|intros q Hq; by rewrite map_id|reflexivity].
Qed.

Lemma siphash_nocase_correct p k : siphash_nocase p k = sip_spec (lower p) k.
Proof. apply sip_correct; [exact nocase_load|exact byte_lower]. Qed.

(** Both hashes are SipHash-1-2 of the padded message; the second is the first
    of the text in lower case, so that texts that differ in case alone have
    the same. *)
Lemma siphash_reference p k : siphash p k = sip_spec p k /\ siphash_nocase p k = siphash (lower p) k.
Proof. by rewrite siphash_nocase_correct, !siphash_correct. Qed.
