(* ===== verification/Dict.v ===== *)
(** * The hash tables of Kanban

    src/kanban/src/dict.c and dict.h: chained hash tables that grow and shrink
    by incremental rehashing.  A dictionary has two tables; while [rehashidx]
    is not -1 the buckets of the first below it have been moved to the second,
    and every operation moves some more.

    A bucket is the list of its entries from the head of the chain; a table
    that is NULL is the empty list.  The hash function, the equality of keys
    and the limit on memory are members of a [dictType]: the first two are
    parameters here, the limit and the global switch [dict_can_resize] are
    settings that may change between operations.  An assertion that fails and
    an index outside a table are [Undef]. *)

From stdpp Require Import fin_maps gmap.
From S2P Require Import Prelude Word.

Local Open Scope Z_scope.

Definition DICT_HT_INITIAL_SIZE : Z := 4.
Definition dict_force_resize_ratio : Z := 5.

(** [expandAllowed]: more memory, and the ratio of used to size as a pair. *)
Record settings := mk_settings { dict_can_resize : bool; expandAllowed : Z -> Z -> Z -> bool }.

(** ** Sizes *)

Fixpoint next_power_loop (fuel : nat) (i size : Z) : outcome Z :=
  match fuel with
  | O => NoFuel
  | S fuel => if size <=? i then Ret i else next_power_loop fuel (u64 (i * 2)) size
  end.

Definition _dictNextPower (size : Z) : outcome Z :=
  if 2 ^ 63 - 1 <=? size then Ret (2 ^ 63) else next_power_loop 62 DICT_HT_INITIAL_SIZE size.

Section Dict.
Context {K V : Type} `{EqDecision K} (hashFunction : K -> Z).

Notation entry := (K * V)%type.

Record dictht := mk_ht { ht_table : list (list entry); ht_size : Z; ht_sizemask : Z; ht_used : Z }.

Record dict := mk_dict { ht0 : dictht; ht1 : dictht; rehashidx : Z; pauserehash : Z }.

Definition _dictReset : dictht := mk_ht [] 0 0 0.

Definition dictCreate : dict := mk_dict _dictReset _dictReset (-1) 0.

Definition dictIsRehashing (d : dict) : bool := negb (rehashidx d =? -1).
Definition dictSize (d : dict) : Z := u64 (ht_used (ht0 d) + ht_used (ht1 d)).

(** ** Growing and shrinking *)

(** [true] for DICT_OK. *)
Definition _dictExpand (d : dict) (size : Z) : outcome (bool * dict) :=
  if dictIsRehashing d || (size <? ht_used (ht0 d)) then Ret (false, d)
  else
    realsize ← _dictNextPower size;
    if (realsize <? size) || (u64 (realsize * 8) <? realsize) then Ret (false, d)
    else if realsize =? ht_size (ht0 d) then Ret (false, d)
    else
      let n := mk_ht (replicate (Z.to_nat realsize) []) realsize (realsize - 1) 0 in
      match ht_table (ht0 d) with
      | [] => Ret (true, mk_dict n (ht1 d) (rehashidx d) (pauserehash d))
      | _ => Ret (true, mk_dict (ht0 d) n 0 (pauserehash d))
      end.

Definition dictResize (cfg : settings) (d : dict) : outcome (bool * dict) :=
  if negb (dict_can_resize cfg) || dictIsRehashing d then Ret (false, d)
  else
    let minimal := ht_used (ht0 d) in
    let minimal := if minimal <? DICT_HT_INITIAL_SIZE then DICT_HT_INITIAL_SIZE else minimal in
    _dictExpand d minimal.

Definition dictTypeExpandAllowed (cfg : settings) (d : dict) : outcome bool :=
  size ← _dictNextPower (u64 (ht_used (ht0 d) + 1));
  Ret (expandAllowed cfg (u64 (size * 8)) (ht_used (ht0 d)) (ht_size (ht0 d))).

Definition _dictExpandIfNeeded (cfg : settings) (d : dict) : outcome (bool * dict) :=
  if dictIsRehashing d then Ret (true, d)
  else if ht_size (ht0 d) =? 0 then _dictExpand d DICT_HT_INITIAL_SIZE
  else if (ht_size (ht0 d) <=? ht_used (ht0 d)) &&
          (dict_can_resize cfg || (dict_force_resize_ratio <? ht_used (ht0 d) / ht_size (ht0 d))) then
    allowed ← dictTypeExpandAllowed cfg d;
    if (allowed : bool) then _dictExpand d (u64 (ht_used (ht0 d) + 1)) else Ret (true, d)
  else Ret (true, d).

(** ** Rehashing *)

(** The buckets from number [idx] on; the inner loop stops at a bucket with
    entries, or returns when the last of the visits is used up. *)
Fixpoint skip_empty (buckets : list (list entry)) (idx empty_visits : Z) : outcome (Z + Z * Z * list entry) :=
  match buckets with
  | [] => Undef
  | [] :: buckets =>
    if empty_visits - 1 =? 0 then Ret (inl (idx + 1)) else skip_empty buckets (idx + 1) (empty_visits - 1)
  | b :: _ => Ret (inr (idx, empty_visits, b))
  end.

(** An entry goes to the head of its chain in a table. *)
Definition push_entry (ht : dictht) (h : Z) (e : entry) : outcome dictht :=
  b ← deref (ht_table ht !! Z.to_nat h);
  Ret (mk_ht (<[Z.to_nat h := e :: b]> (ht_table ht)) (ht_size ht) (ht_sizemask ht) (u64 (ht_used ht + 1))).

Definition move_entry (d : dict) (e : entry) : outcome dict :=
  let h := Z.land (hashFunction (fst e)) (ht_sizemask (ht1 d)) in
  t1 ← push_entry (ht1 d) h e;
  let t0 := mk_ht (ht_table (ht0 d)) (ht_size (ht0 d)) (ht_sizemask (ht0 d)) (u64 (ht_used (ht0 d) - 1)) in
  Ret (mk_dict t0 t1 (rehashidx d) (pauserehash d)).

Definition with_rehashidx (d : dict) (idx : Z) : dict := mk_dict (ht0 d) (ht1 d) idx (pauserehash d).

(** The bucket at [rehashidx] has been moved. *)
Definition bucket_moved (d : dict) : dict :=
  let t0 := ht0 d in
  mk_dict (mk_ht (<[Z.to_nat (rehashidx d) := []]> (ht_table t0)) (ht_size t0) (ht_sizemask t0) (ht_used t0))
    (ht1 d) (rehashidx d + 1) (pauserehash d).

(** [true] when the function returns in the middle of the loop. *)
Fixpoint rehash_loop (n : nat) (empty_visits : Z) (d : dict) : outcome (bool * dict) :=
  match n with
  | O => Ret (false, d)
  | S n =>
    if ht_used (ht0 d) =? 0 then Ret (false, d)
    else if ht_size (ht0 d) <=? rehashidx d then Undef
    else
      r ← skip_empty (drop (Z.to_nat (rehashidx d)) (ht_table (ht0 d))) (rehashidx d) empty_visits;
      match r with
      | inl idx => Ret (true, with_rehashidx d idx)
      | inr (idx, empty_visits, b) =>
        d ← foldM move_entry b (with_rehashidx d idx);
        rehash_loop n empty_visits (bucket_moved d)
      end
  end.

(** [n] is not negative, and [n*10] is an int.  [true] for 1, when there is
    more to move. *)
Definition dictRehash (d : dict) (n : nat) : outcome (bool * dict) :=
  if 2 ^ 31 <=? Z.of_nat n * 10 then Undef
  else if negb (dictIsRehashing d) then Ret (false, d)
  else
    '(early, d) ← rehash_loop n (Z.of_nat n * 10) d;
    if (early : bool) then Ret (true, d)
    else if ht_used (ht0 d) =? 0 then Ret (false, mk_dict (ht1 d) _dictReset (-1) (pauserehash d))
    else Ret (true, d).

Definition _dictRehashStep (d : dict) : outcome dict :=
  if pauserehash d =? 0 then '(_, d) ← dictRehash d 1; Ret d else Ret d.

Definition rehash_if_needed (d : dict) : outcome dict := if dictIsRehashing d then _dictRehashStep d else Ret d.

(** ** Searching *)

Fixpoint chain_find (b : list entry) (key : K) : option V :=
  match b with
  | [] => None
  | e :: b => if decide (key = fst e) then Some (snd e) else chain_find b key
  end.

Definition ht_find (ht : dictht) (key : K) : outcome (option V) :=
  b ← deref (ht_table ht !! Z.to_nat (Z.land (hashFunction key) (ht_sizemask ht)));
  Ret (chain_find b key).

(** The two tables in turn, the second only during rehashing. *)
Definition search_tables (d : dict) (key : K) : outcome (option V) :=
  r ← ht_find (ht0 d) key;
  match r with
  | Some v => Ret (Some v)
  | None => if dictIsRehashing d then ht_find (ht1 d) key else Ret None
  end.

Definition dictFind (d : dict) (key : K) : outcome (option V * dict) :=
  if dictSize d =? 0 then Ret (None, d)
  else
    d ← rehash_if_needed d;
    r ← search_tables d key;
    Ret (r, d).

(** ** Adding *)

(** What [_dictKeyIndex] finds: the slot for a new key, an entry, or that the
    table cannot be expanded. *)
Inductive key_index := Slot (idx : Z) | Existing (v : V) | No_room.

Definition _dictKeyIndex (cfg : settings) (d : dict) (key : K) : outcome (key_index * dict) :=
  '(ok, d) ← _dictExpandIfNeeded cfg d;
  if (ok : bool) then
    r ← search_tables d key;
    match r with
    | Some v => Ret (Existing v, d)
    | None =>
      let ht := if dictIsRehashing d then ht1 d else ht0 d in
      Ret (Slot (Z.land (hashFunction key) (ht_sizemask ht)), d)
    end
  else Ret (No_room, d).

(** [val] is what the caller stores in the new entry. *)
Definition dictAddRaw (cfg : settings) (d : dict) (key : K) (val : V) : outcome (key_index * dict) :=
  d ← rehash_if_needed d;
  '(index, d) ← _dictKeyIndex cfg d key;
  match index with
  | Slot idx =>
    if dictIsRehashing d then
      t1 ← push_entry (ht1 d) idx (key, val); Ret (index, mk_dict (ht0 d) t1 (rehashidx d) (pauserehash d))
    else
      t0 ← push_entry (ht0 d) idx (key, val); Ret (index, mk_dict t0 (ht1 d) (rehashidx d) (pauserehash d))
  | _ => Ret (index, d)
  end.

Definition dictAdd (cfg : settings) (d : dict) (key : K) (val : V) : outcome (bool * dict) :=
  '(index, d) ← dictAddRaw cfg d key val;
  Ret (match index with Slot _ => true | _ => false end, d).

(** [dictSetVal] of the entry that was found. *)
Fixpoint chain_set (b : list entry) (key : K) (val : V) : list entry :=
  match b with
  | [] => []
  | e :: b => if decide (key = fst e) then (fst e, val) :: b else e :: chain_set b key val
  end.

Definition ht_set (ht : dictht) (key : K) (val : V) : outcome dictht :=
  let h := Z.to_nat (Z.land (hashFunction key) (ht_sizemask ht)) in
  b ← deref (ht_table ht !! h);
  Ret (mk_ht (<[h := chain_set b key val]> (ht_table ht)) (ht_size ht) (ht_sizemask ht) (ht_used ht)).

Definition set_existing (d : dict) (key : K) (val : V) : outcome dict :=
  r ← ht_find (ht0 d) key;
  match r with
  | Some _ => t0 ← ht_set (ht0 d) key val; Ret (mk_dict t0 (ht1 d) (rehashidx d) (pauserehash d))
  | None => t1 ← ht_set (ht1 d) key val; Ret (mk_dict (ht0 d) t1 (rehashidx d) (pauserehash d))
  end.

(** [true] for 1, when the key is new; without room for the key the code
    follows a null pointer. *)
Definition dictReplace (cfg : settings) (d : dict) (key : K) (val : V) : outcome (bool * dict) :=
  '(index, d) ← dictAddRaw cfg d key val;
  match index with
  | Slot _ => Ret (true, d)
  | Existing _ => d ← set_existing d key val; Ret (false, d)
  | No_room => Undef
  end.

(** ** Deleting *)

Fixpoint chain_delete (b : list entry) (key : K) : option (entry * list entry) :=
  match b with
  | [] => None
  | e :: b =>
    if decide (key = fst e) then Some (e, b)
    else match chain_delete b key with Some (x, b) => Some (x, e :: b) | None => None end
  end.

Definition ht_delete (ht : dictht) (key : K) : outcome (option (entry * dictht)) :=
  let h := Z.to_nat (Z.land (hashFunction key) (ht_sizemask ht)) in
  b ← deref (ht_table ht !! h);
  Ret (match chain_delete b key with
       | Some (x, b) => Some (x, mk_ht (<[h := b]> (ht_table ht)) (ht_size ht) (ht_sizemask ht) (u64 (ht_used ht - 1)))
       | None => None
       end).

Definition dictGenericDelete (d : dict) (key : K) : outcome (option entry * dict) :=
  if (ht_used (ht0 d) =? 0) && (ht_used (ht1 d) =? 0) then Ret (None, d)
  else
    d ← rehash_if_needed d;
    r ← ht_delete (ht0 d) key;
    match r with
    | Some (x, t0) => Ret (Some x, mk_dict t0 (ht1 d) (rehashidx d) (pauserehash d))
    | None =>
      if dictIsRehashing d then
        r ← ht_delete (ht1 d) key;
        match r with
        | Some (x, t1) => Ret (Some x, mk_dict (ht0 d) t1 (rehashidx d) (pauserehash d))
        | None => Ret (None, d)
        end
      else Ret (None, d)
    end.

Definition dictDelete (d : dict) (key : K) : outcome (bool * dict) :=
  '(r, d) ← dictGenericDelete d key;
  Ret (match r with Some _ => true | None => false end, d).

(** [_dictClear] of both tables. *)
Definition dictEmpty (d : dict) : dict := mk_dict _dictReset _dictReset (-1) 0.

(** ** Iterating

    An iterator that the dictionary is not changed under: the chain behind the
    entry that was returned last, if there was one. *)

Record dictIterator := mk_iter { it_index : Z; it_table : bool; it_chain : option (list entry) }.

Definition dictGetIterator : dictIterator := mk_iter (-1) false None.

Fixpoint dictNext (fuel : nat) (d : dict) (it : dictIterator) : outcome (option entry * dictIterator) :=
  match fuel with
  | O => NoFuel
  | S fuel =>
    match it_chain it with
    | Some (e :: rest) => Ret (Some e, mk_iter (it_index it) (it_table it) (Some rest))
    | Some [] => dictNext fuel d (mk_iter (it_index it) (it_table it) None)
    | None =>
      let index := it_index it + 1 in
      let ht := if it_table it then ht1 d else ht0 d in
      if (ht_size ht <=? index) && negb (dictIsRehashing d && negb (it_table it)) then Ret (None, mk_iter index (it_table it) None)
      else
        let '(index, table) := if ht_size ht <=? index then (0, true) else (index, it_table it) in
        b ← deref (ht_table (if table : bool then ht1 d else ht0 d) !! Z.to_nat index);
        match b with
        | [] => dictNext fuel d (mk_iter index table None)
        | e :: rest => Ret (Some e, mk_iter index table (Some rest))
        end
    end
  end.

(** Calls of [dictNext] until it returns NULL. *)
Fixpoint iterate_all (n fuel : nat) (d : dict) (it : dictIterator) : outcome (list entry) :=
  match n with
  | O => NoFuel
  | S n =>
    '(e, it) ← dictNext fuel d it;
    match e with
    | None => Ret []
    | Some e => rest ← iterate_all n fuel d it; Ret (e :: rest)
    end
  end.

Definition dict_iterate (d : dict) : outcome (list entry) :=
  iterate_all (S (Z.to_nat (ht_used (ht0 d) + ht_used (ht1 d)))) (length (ht_table (ht0 d)) + length (ht_table (ht1 d)) + 2) d dictGetIterator.

(** ** Sequences of operations *)

Fixpoint rehash_steps (n : nat) (d : dict) : outcome dict :=
  match n with O => Ret d | S n => d ← _dictRehashStep d; rehash_steps n d end.

Inductive dict_op :=
  | Op_find (k : K)
  | Op_add (k : K) (v : V)
  | Op_replace (k : K) (v : V)
  | Op_delete (k : K)
  | Op_rehash (n : nat)
  | Op_resize
  | Op_settings (cfg : settings)
  | Op_empty.

Inductive answer := Found (v : option V) | Status (ok : bool) | Done.

Definition run_op (cfg : settings) (d : dict) (o : dict_op) : outcome (settings * dict * answer) :=
  match o with
  | Op_find k => '(r, d) ← dictFind d k; Ret (cfg, d, Found r)
  | Op_add k v => '(ok, d) ← dictAdd cfg d k v; Ret (cfg, d, Status ok)
  | Op_replace k v => '(fresh, d) ← dictReplace cfg d k v; Ret (cfg, d, Status fresh)
  | Op_delete k => '(ok, d) ← dictDelete d k; Ret (cfg, d, Status ok)
  | Op_rehash n => '(_, d) ← dictRehash d n; Ret (cfg, d, Done)
  | Op_resize => '(_, d) ← dictResize cfg d; Ret (cfg, d, Done)
  | Op_settings cfg => Ret (cfg, d, Done)
  | Op_empty => Ret (cfg, dictEmpty d, Done)
  end.

Fixpoint run_ops (cfg : settings) (d : dict) (ops : list dict_op) : outcome (settings * dict * list answer) :=
  match ops with
  | [] => Ret (cfg, d, [])
  | o :: ops =>
    '(cfg, d, a) ← run_op cfg d o;
    '(cfg, d, answers) ← run_ops cfg d ops;
    Ret (cfg, d, a :: answers)
  end.

End Dict.

Arguments dictht : clear implicits.
Arguments dict : clear implicits.
Arguments dictIterator : clear implicits.
Arguments dict_op : clear implicits.
Arguments answer : clear implicits.

(** ** The finite map *)

Section Reference.
Context {K V : Type} `{Countable K}.

Definition map_op (m : gmap K V) (o : dict_op K V) : gmap K V * answer V :=
  match o with
  | Op_find k => (m, Found (m !! k))
  | Op_add k v => match m !! k with Some _ => (m, Status false) | None => (<[k := v]> m, Status true) end
  | Op_replace k v => (<[k := v]> m, Status (bool_decide (m !! k = None)))
  | Op_delete k => (delete k m, Status (bool_decide (is_Some (m !! k))))
  | Op_rehash _ | Op_resize | Op_settings _ => (m, Done)
  | Op_empty => (∅, Done)
  end.

Fixpoint map_ops (m : gmap K V) (ops : list (dict_op K V)) : gmap K V * list (answer V) :=
  match ops with
  | [] => (m, [])
  | o :: ops => let '(m, a) := map_op m o in let '(m, answers) := map_ops m ops in (m, a :: answers)
  end.

End Reference.
