(* ===== verification/DictFacts.v ===== *)
(** * The hash tables of Kanban: theorems

    The invariant of the tables, that every operation keeps it and is defined
    under it, and that a dictionary is a finite map whatever the state of its
    rehashing. *)

From Stdlib Require Import String.
From stdpp Require Import fin_maps gmap.
From S2P Require Import Prelude Word Siphash Dict.

Local Open Scope Z_scope.

(** ** Lists of buckets *)

Lemma concat_insert {A} (t : list (list A)) i b b' : t !! i = Some b -> concat (<[i := b']> t) ++ b ≡ₚ b' ++ concat t.
Proof.
  revert i. induction t as [|x t IH]; intros [|i] E; [done..|cbn in E; injection E as ->|].
  - cbn. rewrite <- app_assoc. apply Permutation_app_head. apply Permutation_app_comm.
  - cbn in E |- *. rewrite <- app_assoc, IH by exact E. rewrite !app_assoc. apply Permutation_app_tail, Permutation_app_comm.
Qed.

Lemma concat_all_empty {A} (t : list (list A)) : (forall i b, t !! i = Some b -> b = []) -> concat t = [].
Proof.
  induction t as [|x t IH]; intros Ht; [done|]. cbn. rewrite (Ht 0%nat x eq_refl). apply IH. intros i b E. exact (Ht (S i) b E).
Qed.

Lemma concat_replicate_nil {A} n : concat (replicate n ([] : list A)) = [].
Proof. apply concat_all_empty. intros i b E. by apply lookup_replicate in E as [-> _]. Qed.

Lemma elem_concat {A} (t : list (list A)) x : x ∈ concat t <-> exists i b, t !! i = Some b /\ x ∈ b.
Proof.
  rewrite list_elem_of_In, in_concat. split.
  - intros (b & Hb & Hx). rewrite <- list_elem_of_In in Hb. apply list_elem_of_lookup in Hb as [i Hi]. exists i, b. by rewrite list_elem_of_In.
  - intros (i & b & Hi & Hx). exists b. rewrite <- !list_elem_of_In. split; [by eapply list_elem_of_lookup_2|done].
Qed.

(** ** Powers of two *)

Lemma next_power_loop_spec n : forall fuel i size, 4 <= i -> Z.of_nat n < Z.of_nat fuel -> i * 2 ^ Z.of_nat n <= 2 ^ 62 -> size <= i * 2 ^ Z.of_nat n ->
  exists j, 0 <= j <= Z.of_nat n /\ next_power_loop fuel i size = Ret (i * 2 ^ j) /\ size <= i * 2 ^ j /\ (0 < j -> i * 2 ^ j < 2 * size).
Proof.
  induction n as [|n IH]; intros [|fuel] i size Hi Hf Hb Hs; try lia; cbn [next_power_loop].
  - exists 0. rewrite Z.mul_1_r in *. rewrite (proj2 (Z.leb_le _ _)) by lia. repeat split; lia.
  - destruct (Z.leb_spec size i) as [Hl|Hl]; [exists 0; rewrite Z.mul_1_r; repeat split; lia|].
    rewrite Nat2Z.inj_succ, Z.pow_succ_r in Hb, Hs by lia.
    assert (0 < 2 ^ Z.of_nat n) by (apply Z.pow_pos_nonneg; lia).
    assert (E : u64 (i * 2) = i * 2) by (unfold u64; apply Z.mod_small; nia). rewrite E.
    destruct (IH fuel (i * 2) size ltac:(lia) ltac:(lia) ltac:(lia) ltac:(lia)) as (j & Hj & Ej & H1 & H2).
    exists (j + 1). rewrite Z.pow_add_r by lia. change (2 ^ 1) with 2. replace (i * (2 ^ j * 2)) with (i * 2 * 2 ^ j) by lia.
    split; [lia|]. split; [done|]. split; [done|]. intros _. destruct (Z.eq_dec j 0) as [-> |]; [rewrite Z.mul_1_r; lia|apply H2; lia].
Qed.

(** The least power of two from 4 on that is not below. *)
Lemma next_power_spec size : size <= 2 ^ 61 -> exists k, 2 <= k <= 61 /\ _dictNextPower size = Ret (2 ^ k) /\ size <= 2 ^ k /\ (2 < k -> 2 ^ k < 2 * size).
Proof.
  intros Hs. unfold _dictNextPower. rewrite (proj2 (Z.leb_gt _ _)) by lia. unfold DICT_HT_INITIAL_SIZE.
  destruct (next_power_loop_spec 59 62 4 size ltac:(lia) ltac:(lia)) as (j & Hj & E & H1 & H2); [vm_compute; discriminate|change (4 * 2 ^ Z.of_nat 59) with (2 ^ 61); lia|].
  exists (j + 2). rewrite Z.pow_add_r by lia. change (2 ^ 2) with 4. rewrite (Z.mul_comm (2 ^ j)). split; [lia|]. split; [exact E|]. split; [exact H1|].
  intros Hk. apply H2. lia.
Qed.

Section Facts.
Context {K V : Type} `{Countable K} (hashFunction : K -> Z).

Notation entry := (K * V)%type.
Notation dictht := (dictht K V).
Notation dict := (dict K V).

(** ** The invariant *)

(** A table with [2^k] buckets, every entry in the bucket of its hash. *)
Record table_ok (ht : dictht) (k : Z) : Prop := mk_table_ok {
  tb_k : 2 <= k <= 61;
  tb_size : ht_size ht = 2 ^ k;
  tb_mask : ht_sizemask ht = 2 ^ k - 1;
  tb_length : length (ht_table ht) = Z.to_nat (2 ^ k);
  tb_used : ht_used ht = Z.of_nat (length (concat (ht_table ht)));
  tb_hash i b e : ht_table ht !! i = Some b -> e ∈ b -> Z.land (hashFunction (fst e)) (ht_sizemask ht) = Z.of_nat i
}.

Definition ht_ok (ht : dictht) : Prop := ht = _dictReset \/ exists k, table_ok ht k.

Definition entries (d : dict) : list entry := concat (ht_table (ht0 d)) ++ concat (ht_table (ht1 d)).

Record wf (d : dict) : Prop := mk_wf {
  wf_ht0 : ht_ok (ht0 d);
  wf_idle : rehashidx d = -1 -> ht1 d = _dictReset;
  wf_busy : rehashidx d <> -1 -> (exists k0 k1, table_ok (ht0 d) k0 /\ table_ok (ht1 d) k1) /\ 0 <= rehashidx d <= ht_size (ht0 d) /\
    forall i b, ht_table (ht0 d) !! i = Some b -> Z.of_nat i < rehashidx d -> b = [];
  wf_keys : NoDup (map fst (entries d));
  wf_small : Z.of_nat (length (entries d)) < 2 ^ 60
}.

Definition dict_map (d : dict) : gmap K V := list_to_map (entries d).

(** ** Tables *)

Lemma mask_range h k : 2 <= k <= 61 -> 0 <= Z.land h (2 ^ k - 1) < 2 ^ k.
Proof. intros Hk. rewrite land_mask by lia. apply Z.mod_pos_bound. apply Z.pow_pos_nonneg; lia. Qed.

Lemma table_bucket ht k key : table_ok ht k -> exists b, ht_table ht !! Z.to_nat (Z.land (hashFunction key) (ht_sizemask ht)) = Some b.
Proof.
  intros T. apply lookup_lt_is_Some_2. rewrite (tb_length _ _ T), (tb_mask _ _ T). pose proof (mask_range (hashFunction key) k (tb_k _ _ T)). lia.
Qed.

Lemma chain_find_Some (b : list entry) key v : chain_find b key = Some v -> (key, v) ∈ b.
Proof.
  induction b as [|[x y] b IH]; cbn; [done|]. case_decide as E; [subst x; intros [= ->]; by left|]. intros Hf. right. by apply IH.
Qed.

Lemma chain_find_None (b : list entry) key v : chain_find b key = None -> (key, v) ∉ b.
Proof.
  induction b as [|[x y] b IH]; cbn; intros E; [by apply not_elem_of_nil|]. case_decide as Ek; [done|].
  apply not_elem_of_cons. split; [by intros [= -> ->]|by apply IH].
Qed.

(** A bucket is replaced by entries with the same hash. *)
Lemma table_update ht k h b b' used : table_ok ht k -> 0 <= h -> ht_table ht !! Z.to_nat h = Some b ->
  (forall e, e ∈ b' -> Z.land (hashFunction (fst e)) (ht_sizemask ht) = h) ->
  used = Z.of_nat (length (concat (<[Z.to_nat h := b']> (ht_table ht)))) ->
  table_ok (mk_ht (<[Z.to_nat h := b']> (ht_table ht)) (ht_size ht) (ht_sizemask ht) used) k.
Proof.
  intros T Hh Hb Hb' Hu. split; cbn [ht_table ht_size ht_sizemask ht_used].
  - apply T.
  - apply T.
  - apply T.
  - rewrite length_insert. apply T.
  - exact Hu.
  - intros i c x Hi Hx. destruct (decide (i = Z.to_nat h)) as [-> |Hne].
    + rewrite list_lookup_insert_eq in Hi by (by eapply lookup_lt_Some). injection Hi as <-. rewrite Hb' by exact Hx. lia.
    + rewrite list_lookup_insert_ne in Hi by congruence. by eapply tb_hash.
Qed.

(** The bucket of a key. *)
Lemma key_bucket ht k key : table_ok ht k -> exists b, let h := Z.land (hashFunction key) (ht_sizemask ht) in
  0 <= h /\ ht_table ht !! Z.to_nat h = Some b /\ (forall e, e ∈ b -> Z.land (hashFunction (fst e)) (ht_sizemask ht) = h) /\
  (forall v, (key, v) ∈ concat (ht_table ht) <-> (key, v) ∈ b).
Proof.
  intros T. destruct (table_bucket ht k key T) as [b Hb]. exists b. cbv zeta. set (h := Z.land (hashFunction key) (ht_sizemask ht)) in *.
  assert (Hh : 0 <= h) by (unfold h; rewrite (tb_mask _ _ T); apply (mask_range _ k), T). split; [exact Hh|]. split; [exact Hb|]. split.
  - intros e He. rewrite (tb_hash _ _ T _ _ _ Hb He). lia.
  - intros v. split.
    + intros (i & c & Hi & He)%elem_concat. pose proof (tb_hash _ _ T i c _ Hi He) as Hc. cbn [fst] in Hc. fold h in Hc.
      rewrite Hc, Nat2Z.id in Hb. rewrite Hi in Hb. by injection Hb as ->.
    + intros He. apply elem_concat. eauto.
Qed.

Lemma ht_find_spec ht k key : table_ok ht k -> exists r, ht_find hashFunction ht key = Ret r /\
  match r with Some v => (key, v) ∈ concat (ht_table ht) | None => forall v, (key, v) ∉ concat (ht_table ht) end.
Proof.
  intros T. destruct (key_bucket ht k key T) as (b & _ & Hb & _ & Hm). unfold ht_find. rewrite Hb. cbn [deref]. rewrite bind_ret. eexists. split; [reflexivity|].
  destruct (chain_find b key) as [v|] eqn:E; [by apply Hm, chain_find_Some|]. intros v. rewrite Hm. by apply chain_find_None.
Qed.

Lemma push_entry_spec ht k e : table_ok ht k -> Z.of_nat (length (concat (ht_table ht))) < 2 ^ 60 ->
  exists ht', push_entry ht (Z.land (hashFunction (fst e)) (ht_sizemask ht)) e = Ret ht' /\ table_ok ht' k /\
    concat (ht_table ht') ≡ₚ e :: concat (ht_table ht).
Proof.
  intros T Hs. destruct (key_bucket ht k (fst e) T) as (b & Hh & Hb & Hbe & _). unfold push_entry. rewrite Hb. cbn [deref]. rewrite bind_ret.
  set (h := Z.land _ _) in *. eexists. split; [reflexivity|]. cbn [ht_table].
  assert (HP : concat (<[Z.to_nat h:=e :: b]> (ht_table ht)) ≡ₚ e :: concat (ht_table ht)).
  { apply (Permutation_app_inv_r b). rewrite (concat_insert _ _ _ _ Hb). cbn [app]. constructor. apply Permutation_app_comm. }
  split; [|exact HP]. apply (table_update _ _ _ _ _ _ T Hh Hb).
  - intros x [-> |Hx]%elem_of_cons; [reflexivity|by apply Hbe].
  - rewrite HP, (tb_used _ _ T). unfold u64. cbn [length]. rewrite Z.mod_small by lia. lia.
Qed.

Lemma chain_set_spec (b : list entry) key v0 v : chain_find b key = Some v0 ->
  exists rest, b ≡ₚ (key, v0) :: rest /\ chain_set b key v ≡ₚ (key, v) :: rest.
Proof.
  induction b as [|[x y] b IH]; cbn; [done|]. case_decide as E.
  - subst x. intros [= ->]. by exists b.
  - intros Hf. destruct (IH Hf) as (rest & H1 & H2). exists ((x, y) :: rest). split; [rewrite H1; constructor|rewrite H2; constructor].
Qed.

Lemma ht_set_spec ht k key v0 v : table_ok ht k -> ht_find hashFunction ht key = Ret (Some v0) ->
  exists ht' rest, ht_set hashFunction ht key v = Ret ht' /\ table_ok ht' k /\
    concat (ht_table ht) ≡ₚ (key, v0) :: rest /\ concat (ht_table ht') ≡ₚ (key, v) :: rest.
Proof.
  intros T Hf. destruct (key_bucket ht k key T) as (b & Hh & Hb & Hbe & _). unfold ht_find in Hf. rewrite Hb in Hf. cbn in Hf. injection Hf as Hf.
  unfold ht_set. rewrite Hb. cbn [deref]. rewrite bind_ret. set (h := Z.land _ _) in *.
  destruct (chain_set_spec b key v0 v Hf) as (r & H1 & H2).
  assert (HP : exists rest, concat (ht_table ht) ≡ₚ (key, v0) :: rest /\ concat (<[Z.to_nat h := chain_set b key v]> (ht_table ht)) ≡ₚ (key, v) :: rest).
  { pose proof (concat_insert (ht_table ht) (Z.to_nat h) b [] Hb) as Hc. cbn [app] in Hc. set (o := concat (<[Z.to_nat h := []]> (ht_table ht))) in *.
    exists (o ++ r). split.
    - rewrite <- Hc, H1. by rewrite (Permutation_app_comm o), Permutation_middle, (Permutation_app_comm o).
    - apply (Permutation_app_inv_r b). rewrite (concat_insert _ _ _ _ Hb), <- Hc, H2. cbn [app]. rewrite <- !app_assoc. constructor.
      rewrite !app_assoc. apply Permutation_app_tail, Permutation_app_comm. }
  destruct HP as (rest & P1 & P2). eexists _, rest. split; [reflexivity|]. split; [|by split]. apply (table_update _ _ _ _ _ _ T Hh Hb).
  - intros e He. rewrite H2 in He. apply elem_of_cons in He as [-> |He]; [reflexivity|]. apply Hbe. rewrite H1. by right.
  - rewrite (tb_used _ _ T), P1, P2. reflexivity.
Qed.

Lemma chain_delete_spec (b : list entry) key :
  match chain_delete b key with
  | Some (x, b') => b ≡ₚ x :: b' /\ fst x = key
  | None => forall v, (key, v) ∉ b
  end.
Proof.
  induction b as [|[x y] b IH]; cbn; [intros v; apply not_elem_of_nil|]. case_decide as E; [by subst x|].
  destruct (chain_delete b key) as [[z b']|].
  - destruct IH as [P Ez]. split; [|done]. rewrite P. constructor.
  - intros v. apply not_elem_of_cons. split; [by intros [= -> ->]|apply IH].
Qed.

Lemma ht_delete_spec ht k key : table_ok ht k -> Z.of_nat (length (concat (ht_table ht))) < 2 ^ 60 ->
  exists r, ht_delete hashFunction ht key = Ret r /\
    match r with
    | Some (x, ht') => fst x = key /\ table_ok ht' k /\ concat (ht_table ht) ≡ₚ x :: concat (ht_table ht')
    | None => forall v, (key, v) ∉ concat (ht_table ht)
    end.
Proof.
  intros T Hs. destruct (key_bucket ht k key T) as (b & Hh & Hb & Hbe & Hm). unfold ht_delete. rewrite Hb. cbn [deref]. rewrite bind_ret.
  set (h := Z.land _ _) in *. eexists. split; [reflexivity|]. pose proof (chain_delete_spec b key) as Hd.
  destruct (chain_delete b key) as [[x b']|]; [|intros v; rewrite Hm; apply Hd]. destruct Hd as [P Ex].
  assert (HP : concat (ht_table ht) ≡ₚ x :: concat (<[Z.to_nat h := b']> (ht_table ht))).
  { apply (Permutation_app_inv_r b'). cbn [app]. rewrite Permutation_middle, <- P, (concat_insert _ _ _ _ Hb). apply Permutation_app_comm. }
  split; [done|]. split; [|exact HP]. apply (table_update _ _ _ _ _ _ T Hh Hb).
  - intros e He. apply Hbe. rewrite P. by right.
  - rewrite (tb_used _ _ T). rewrite HP in Hs |- *. cbn [length] in *. unfold u64. rewrite Z.mod_small by lia. lia.
Qed.

(** ** Rehashing *)

Lemma move_entries_spec b : forall d k1, table_ok (ht1 d) k1 ->
  Z.of_nat (length b) <= ht_used (ht0 d) < 2 ^ 60 -> Z.of_nat (length b) + Z.of_nat (length (concat (ht_table (ht1 d)))) < 2 ^ 60 ->
  exists t1, foldM (move_entry hashFunction) b d =
      Ret (mk_dict (mk_ht (ht_table (ht0 d)) (ht_size (ht0 d)) (ht_sizemask (ht0 d)) (ht_used (ht0 d) - Z.of_nat (length b))) t1
        (rehashidx d) (pauserehash d)) /\
    table_ok t1 k1 /\ concat (ht_table t1) ≡ₚ b ++ concat (ht_table (ht1 d)).
Proof.
  induction b as [|e b IH]; intros d k1 T Hu Hs; cbn [foldM].
  - exists (ht1 d). rewrite Z.sub_0_r. destruct d as [[] ? ? ?]. by split_and!.
  - cbn [length] in Hu, Hs. destruct (push_entry_spec (ht1 d) k1 e T ltac:(lia)) as (t1 & E & T1 & P1).
    set (d1 := mk_dict (mk_ht (ht_table (ht0 d)) (ht_size (ht0 d)) (ht_sizemask (ht0 d)) (u64 (ht_used (ht0 d) - 1))) t1 (rehashidx d) (pauserehash d)).
    assert (Em : move_entry hashFunction d e = Ret d1) by (unfold move_entry; cbv zeta; by rewrite E).
    rewrite Em, bind_ret.
    assert (Eu : u64 (ht_used (ht0 d) - 1) = ht_used (ht0 d) - 1) by (unfold u64; apply Z.mod_small; lia).
    destruct (IH d1 k1) as (t & E' & T' & P'); cbn [d1 ht0 ht1 ht_used ht_table ht_size ht_sizemask rehashidx pauserehash] in *.
    + exact T1.
    + rewrite Eu. lia.
    + rewrite P1. cbn [length]. lia.
    + exists t. split; [|split; [exact T'|]].
      * rewrite E', Eu. cbn [length]. do 3 f_equal. lia.
      * rewrite P', P1. cbn [app]. by rewrite Permutation_middle.
Qed.

Lemma skip_empty_spec (buckets : list (list entry)) : forall idx ev, 0 < ev -> (exists i b, buckets !! i = Some b /\ b <> []) ->
  exists r, skip_empty buckets idx ev = Ret r /\
    match r with
    | inl idx' => idx < idx' <= idx + Z.of_nat (length buckets) /\ forall i b, buckets !! i = Some b -> idx + Z.of_nat i < idx' -> b = []
    | inr (idx', ev', b) => 0 < ev' /\ b <> [] /\ (exists j, idx' = idx + Z.of_nat j /\ buckets !! j = Some b) /\
        forall i c, buckets !! i = Some c -> idx + Z.of_nat i < idx' -> c = []
    end.
Proof.
  induction buckets as [|c buckets IH]; intros idx ev Hev (i & b & Hi & Hb); [done|]. cbn [skip_empty]. destruct c as [|e c].
  - destruct i as [|i]; [cbn in Hi; congruence|]. cbn in Hi. destruct (Z.eqb_spec (ev - 1) 0) as [E|E].
    + eexists. split; [reflexivity|]. cbn [length]. split; [lia|]. intros [|j] c Hj Hl; [cbn in Hj; congruence|lia].
    + destruct (IH (idx + 1) (ev - 1) ltac:(lia) ltac:(eauto)) as (r & Er & Hr). exists r. split; [exact Er|]. destruct r as [idx'|[[idx' ev'] x]].
      * cbn [length]. destruct Hr as [Hr1 Hr2]. split; [lia|]. intros [|j] c Hj Hl; [cbn in Hj; congruence|]. cbn in Hj. apply (Hr2 j c Hj). lia.
      * destruct Hr as (R1 & R2 & (j & R3 & R4) & R5). split; [exact R1|]. split; [exact R2|]. split; [exists (S j); split; [lia|exact R4]|].
        intros [|j'] c Hj Hl; [cbn in Hj; congruence|]. cbn in Hj. apply (R5 j' c Hj). lia.
  - eexists. split; [reflexivity|]. cbv beta iota. split; [exact Hev|]. split; [done|]. split; [exists 0%nat; split; [lia|reflexivity]|].
    intros j x Hj Hl. lia.
Qed.

(** Where entries are left in the first table, [rehashidx] is within it. *)
Lemma busy_nonempty d : wf d -> rehashidx d <> -1 -> ht_used (ht0 d) <> 0 ->
  rehashidx d < ht_size (ht0 d) /\ exists i b, drop (Z.to_nat (rehashidx d)) (ht_table (ht0 d)) !! i = Some b /\ b <> [].
Proof.
  intros W Hr Hu. destruct (wf_busy _ W Hr) as ((k0 & k1 & T0 & T1) & Hi & He). rewrite (tb_used _ _ T0) in Hu.
  assert (exists i b, ht_table (ht0 d) !! i = Some b /\ b <> []) as (i & b & Hib & Hb).
  { destruct (concat (ht_table (ht0 d))) as [|x l] eqn:E; [done|]. destruct (proj1 (elem_concat (ht_table (ht0 d)) x)) as (i & b & Hib & Hx); [rewrite E; by left|].
    exists i, b. split; [exact Hib|]. intros ->. by apply not_elem_of_nil in Hx. }
  pose proof (lookup_lt_Some _ _ _ Hib) as Hl. rewrite (tb_length _ _ T0) in Hl. rewrite (tb_size _ _ T0).
  destruct (Z.lt_ge_cases (Z.of_nat i) (rehashidx d)) as [Hlt|Hge]; [by destruct Hb; apply (He i b)|]. split; [lia|].
  exists (i - Z.to_nat (rehashidx d))%nat, b. split; [|exact Hb]. rewrite lookup_drop. by replace (Z.to_nat (rehashidx d) + (i - Z.to_nat (rehashidx d)))%nat with i by lia.
Qed.

(** The dictionary [d'] has the entries of [d]. *)
Record same (d d' : dict) : Prop := mk_same {
  same_wf : wf d';
  same_entries : entries d' ≡ₚ entries d;
  same_pause : pauserehash d' = pauserehash d
}.

Lemma same_refl d : wf d -> same d d.
Proof. intros W. by split. Qed.

Lemma same_trans d1 d2 d3 : same d1 d2 -> same d2 d3 -> same d1 d3.
Proof. intros [W1 E1 P1] [W2 E2 P2]. split; [exact W2|by rewrite E2|congruence]. Qed.

Lemma wf_same d d' : wf d -> entries d' ≡ₚ entries d -> pauserehash d' = pauserehash d -> ht_ok (ht0 d') ->
  (rehashidx d' = -1 -> ht1 d' = _dictReset) ->
  (rehashidx d' <> -1 -> (exists k0 k1, table_ok (ht0 d') k0 /\ table_ok (ht1 d') k1) /\ 0 <= rehashidx d' <= ht_size (ht0 d') /\
    forall i b, ht_table (ht0 d') !! i = Some b -> Z.of_nat i < rehashidx d' -> b = []) -> same d d'.
Proof.
  intros W P Hp H0 Hi Hb. split; [|exact P|exact Hp]. split; [exact H0|exact Hi|exact Hb| |].
  - rewrite P. apply W.
  - rewrite P. apply W.
Qed.

Lemma move_bucket_spec d idx b : wf d -> rehashidx d <> -1 -> 0 <= idx -> ht_table (ht0 d) !! Z.to_nat idx = Some b ->
  (forall i c, ht_table (ht0 d) !! i = Some c -> Z.of_nat i < idx -> c = []) ->
  exists d1, foldM (move_entry hashFunction) b (with_rehashidx d idx) = Ret d1 /\ same d (bucket_moved d1) /\
    rehashidx (bucket_moved d1) = idx + 1 /\ ht_size (ht0 (bucket_moved d1)) = ht_size (ht0 d).
Proof.
  intros W Hr Hi Hb He. destruct (wf_busy _ W Hr) as ((k0 & k1 & T0 & T1) & _ & _). pose proof (wf_small _ W) as Hs. unfold entries in Hs. rewrite length_app in Hs.
  pose proof (concat_insert (ht_table (ht0 d)) (Z.to_nat idx) b [] Hb) as Hc. cbn [app] in Hc.
  pose proof (Permutation_length Hc) as Hcl. rewrite length_app in Hcl. pose proof (tb_used _ _ T0) as Hu.
  destruct (move_entries_spec b (with_rehashidx d idx) k1) as (t1 & E & T' & P'); cbn [with_rehashidx ht0 ht1 ht_used]; [exact T1|lia|lia|].
  eexists. split; [exact E|]. unfold bucket_moved. cbn [with_rehashidx ht0 ht1 rehashidx pauserehash ht_table ht_size ht_sizemask ht_used] in *.
  split; [|split; reflexivity].
  assert (T0' : table_ok (mk_ht (<[Z.to_nat idx := []]> (ht_table (ht0 d))) (ht_size (ht0 d)) (ht_sizemask (ht0 d)) (ht_used (ht0 d) - Z.of_nat (length b))) k0).
  { apply (table_update _ _ _ _ _ _ T0 Hi Hb); [intros e He'; by apply not_elem_of_nil in He'|lia]. }
  pose proof (lookup_lt_Some _ _ _ Hb) as Hl. rewrite (tb_length _ _ T0) in Hl.
  apply wf_same; cbn [ht0 ht1 rehashidx pauserehash]; [exact W| |reflexivity|right; eauto|lia|].
  - unfold entries. cbn [ht0 ht1 ht_table]. rewrite P', <- Hc. by rewrite app_assoc.
  - intros _. cbn [ht_table ht_size]. split; [eauto|]. rewrite (tb_size _ _ T0). split; [lia|]. intros i c Hic Hlt.
    destruct (decide (i = Z.to_nat idx)) as [-> |Hne].
    + rewrite list_lookup_insert_eq in Hic by (by eapply lookup_lt_Some). congruence.
    + rewrite list_lookup_insert_ne in Hic by congruence. apply (He i c Hic). lia.
Qed.

(** What a run of the loop over at most [n] buckets comes to. *)
Record moved (d d' : dict) : Prop := mk_moved {
  moved_same : same d d';
  moved_busy : rehashidx d' <> -1;
  moved_size : ht_size (ht0 d') = ht_size (ht0 d);
  moved_on : rehashidx d <= rehashidx d'
}.

Lemma rehash_loop_spec n : forall ev d, wf d -> rehashidx d <> -1 -> ((0 < n)%nat -> 0 < ev) ->
  exists early d', rehash_loop hashFunction n ev d = Ret (early, d') /\ moved d d' /\
    ((0 < n)%nat -> ht_used (ht0 d) <> 0 -> rehashidx d < rehashidx d').
Proof.
  induction n as [|n IH]; intros ev d W Hr Hev; cbn [rehash_loop].
  { exists false, d. split; [reflexivity|]. split; [split; [by apply same_refl|exact Hr|reflexivity|lia]|lia]. }
  destruct (Z.eqb_spec (ht_used (ht0 d)) 0) as [Hu|Hu].
  { exists false, d. split; [reflexivity|]. split; [split; [by apply same_refl|exact Hr|reflexivity|lia]|lia]. }
  destruct (busy_nonempty d W Hr Hu) as [Hlt Hne]. destruct (wf_busy _ W Hr) as ((k0 & k1 & T0 & T1) & Hi & He).
  replace (ht_size (ht0 d) <=? rehashidx d) with false by lia.
  destruct (skip_empty_spec _ (rehashidx d) ev (Hev ltac:(lia)) Hne) as (r & -> & Hr'). rewrite bind_ret.
  assert (Hbefore : forall idx, (forall i b, drop (Z.to_nat (rehashidx d)) (ht_table (ht0 d)) !! i = Some b -> rehashidx d + Z.of_nat i < idx -> b = []) ->
    forall i b, ht_table (ht0 d) !! i = Some b -> Z.of_nat i < idx -> b = []).
  { intros idx Hd i b Hib Hlt'. destruct (Z.lt_ge_cases (Z.of_nat i) (rehashidx d)) as [Hl|Hge]; [by apply (He i b)|].
    apply (Hd (i - Z.to_nat (rehashidx d))%nat b); [|lia]. rewrite lookup_drop. by replace (Z.to_nat (rehashidx d) + (i - Z.to_nat (rehashidx d)))%nat with i by lia. }
  destruct r as [idx|[[idx ev'] b]].
  - destruct Hr' as [[Hr1 Hr2] Hr3]. rewrite length_drop, (tb_length _ _ T0) in Hr2. pose proof (tb_size _ _ T0) as Hsz. exists true, (with_rehashidx d idx). split; [reflexivity|].
    split; [|cbn [with_rehashidx rehashidx]; lia]. split; cbn [with_rehashidx rehashidx ht0]; [|lia|reflexivity|lia].
    apply wf_same; cbn [with_rehashidx rehashidx ht0 ht1 pauserehash]; [exact W|reflexivity|reflexivity|apply W|lia|].
    intros _. split; [eauto|]. split; [lia|]. by apply Hbefore.
  - destruct Hr' as (R1 & R2 & (j & Rj & Hj) & R3). rewrite lookup_drop in Hj.
    destruct (move_bucket_spec d idx b W Hr ltac:(lia)) as (d1 & Em & Sm & Ri & Sz).
    { rewrite <- Hj. f_equal. lia. }
    { by apply Hbefore. }
    rewrite Em, bind_ret. destruct (IH ev' (bucket_moved d1) (same_wf _ _ Sm) ltac:(lia) ltac:(lia)) as (early & d' & El & Mv & _).
    exists early, d'. split; [exact El|]. destruct Mv as [M1 M2 M3 M4]. split; [|lia]. split; [by eapply same_trans|exact M2|congruence|lia].
Qed.

(** The progress of a call of [dictRehash]. *)
Definition advanced (d d' : dict) : Prop :=
  rehashidx d' = -1 \/ (rehashidx d < rehashidx d' /\ ht_size (ht0 d') = ht_size (ht0 d)).

Lemma rehash_done d : wf d -> rehashidx d <> -1 -> ht_used (ht0 d) = 0 -> same d (mk_dict (ht1 d) _dictReset (-1) (pauserehash d)).
Proof.
  intros W Hr Hu. destruct (wf_busy _ W Hr) as ((k0 & k1 & T0 & T1) & _ & _).
  apply wf_same; cbn [ht0 ht1 rehashidx pauserehash]; [exact W| |reflexivity|right; eauto|reflexivity|done].
  unfold entries. cbn [ht0 ht1 ht_table _dictReset concat]. rewrite (tb_used _ _ T0) in Hu.
  destruct (concat (ht_table (ht0 d))); [by rewrite app_nil_r|cbn in Hu; lia].
Qed.

Lemma dictRehash_spec d n : wf d -> Z.of_nat n * 10 < 2 ^ 31 -> exists d', dictRehash hashFunction d n = Ret (dictIsRehashing d', d') /\ same d d' /\
  ((0 < n)%nat -> advanced d d').
Proof.
  intros W Hn. unfold dictRehash. rewrite (proj2 (Z.leb_gt _ _) Hn). destruct (dictIsRehashing d) eqn:Eb; unfold dictIsRehashing in Eb; cbn [negb].
  2: { exists d. unfold dictIsRehashing. rewrite Eb. split; [reflexivity|]. split; [by apply same_refl|]. intros _. left. lia. }
  assert (Hr : rehashidx d <> -1) by lia. destruct (rehash_loop_spec n (Z.of_nat n * 10) d W Hr ltac:(lia)) as (early & d' & El & M & Hp).
  rewrite El, bind_ret. destruct M as [Sm Hb Hz Hon].
  assert (Hbusy : dictIsRehashing d' = true) by (unfold dictIsRehashing; lia).
  assert (Hgo : (0 < n)%nat -> (early = true \/ ht_used (ht0 d') <> 0) -> advanced d d').
  { intros Hn' Hor. right. split; [|exact Hz]. apply (Hp Hn'). intros Hu. destruct n as [|n]; [lia|]. cbn [rehash_loop] in El.
    replace (ht_used (ht0 d) =? 0) with true in El by lia. injection El as <- <-. destruct Hor; [done|contradiction]. }
  destruct early; [exists d'; rewrite Hbusy; by auto|]. destruct (Z.eqb_spec (ht_used (ht0 d')) 0) as [Hu|Hu]; [|exists d'; rewrite Hbusy; by auto].
  exists (mk_dict (ht1 d') _dictReset (-1) (pauserehash d')). split; [reflexivity|]. split; [|by left]. eapply same_trans; [exact Sm|]. apply rehash_done; [apply Sm|exact Hb|exact Hu].
Qed.

Lemma rehash_step_spec d : wf d -> exists d', _dictRehashStep hashFunction d = Ret d' /\ same d d' /\ (pauserehash d = 0 -> advanced d d').
Proof.
  intros W. unfold _dictRehashStep. destruct (Z.eqb_spec (pauserehash d) 0) as [Hp|Hp].
  - destruct (dictRehash_spec d 1 W ltac:(lia)) as (d' & -> & Sm & Ha). rewrite bind_ret. exists d'. split; [reflexivity|]. split; [exact Sm|]. intros _. apply Ha. lia.
  - exists d. split; [reflexivity|]. split; [by apply same_refl|done].
Qed.

Lemma rehash_if_needed_spec d : wf d -> exists d', rehash_if_needed hashFunction d = Ret d' /\ same d d'.
Proof.
  intros W. unfold rehash_if_needed. destruct (dictIsRehashing d); [|eauto using same_refl].
  destruct (rehash_step_spec d W) as (d' & E & Sm & _). eauto.
Qed.

(** ** Expanding *)

Lemma new_table_ok k : 2 <= k <= 61 -> table_ok (mk_ht (replicate (Z.to_nat (2 ^ k)) []) (2 ^ k) (2 ^ k - 1) 0) k.
Proof.
  intros Hk. split; cbn [ht_table ht_size ht_sizemask ht_used]; [exact Hk|reflexivity|reflexivity| | |].
  - apply length_replicate.
  - by rewrite concat_replicate_nil.
  - intros i b e Hi He. apply lookup_replicate in Hi as [-> _]. by apply not_elem_of_nil in He.
Qed.

Lemma ht_ok_empty ht : ht_ok ht -> ht_table ht = [] -> ht = _dictReset.
Proof.
  intros [E|[k T]] Ht; [exact E|]. pose proof (tb_length _ _ T) as Hl. rewrite Ht in Hl. pose proof (tb_k _ _ T).
  assert (0 < 2 ^ k) by (apply Z.pow_pos_nonneg; lia). cbn in Hl. lia.
Qed.

(** The table that [_dictExpand] makes, up to [2^60] entries. *)
Lemma expand_spec d size : wf d -> size <= 2 ^ 60 -> exists ok d', _dictExpand d size = Ret (ok, d') /\ same d d' /\
  (ok = true -> exists k, table_ok (ht0 d') k) /\
  (rehashidx d = -1 -> ht_used (ht0 d) <= size -> ht_size (ht0 d) < size -> ok = true).
Proof.
  intros W Hs. unfold _dictExpand, dictIsRehashing. destruct (Z.eqb_spec (rehashidx d) (-1)) as [Hr|Hr]; cbn [negb orb].
  2: { exists false, d. split; [reflexivity|]. split; [by apply same_refl|]. done. }
  destruct (Z.ltb_spec size (ht_used (ht0 d))) as [Hu|Hu].
  { exists false, d. split; [reflexivity|]. split; [by apply same_refl|]. split; [done|lia]. }
  destruct (next_power_spec size ltac:(lia)) as (k & Hk & -> & Hsk & Hk2). rewrite bind_ret.
  assert (Hk60 : 2 ^ k <= 2 ^ 60).
  { destruct (Z.eq_dec k 61) as [-> |]; [specialize (Hk2 ltac:(lia)); lia|apply Z.pow_le_mono_r; lia]. }
  assert (0 < 2 ^ k) by (apply Z.pow_pos_nonneg; lia). replace (2 ^ k <? size) with false by lia.
  replace (u64 (2 ^ k * 8) <? 2 ^ k) with false by (unfold u64; rewrite Z.mod_small by lia; lia). cbn [orb].
  destruct (Z.eqb_spec (2 ^ k) (ht_size (ht0 d))) as [He|He].
  { exists false, d. split; [reflexivity|]. split; [by apply same_refl|]. split; [done|lia]. }
  pose proof (new_table_ok k Hk) as Tn. set (n := mk_ht _ _ _ _) in *. pose proof (wf_idle _ W Hr) as H1.
  assert (Hn : concat (ht_table n) = []) by apply concat_replicate_nil.
  destruct (ht_table (ht0 d)) as [|b0 tl] eqn:Et.
  - pose proof (ht_ok_empty _ (wf_ht0 _ W) Et) as H0'. eexists true, _. split; [reflexivity|]. cbn [ht0]. split; [|eauto].
    apply wf_same; cbn [ht0 ht1 rehashidx pauserehash]; [exact W| |reflexivity|right; eauto|exact (wf_idle _ W)|done].
    unfold entries. cbn [ht0 ht1]. by rewrite Hn, Et.
  - assert (exists k0, table_ok (ht0 d) k0) as [k0 T0] by (destruct (wf_ht0 _ W) as [E|[k0 T0]]; [rewrite E in Et; done|eauto]).
    eexists true, _. split; [reflexivity|]. cbn [ht0]. split; [|eauto].
    apply wf_same; cbn [ht0 ht1 rehashidx pauserehash]; [exact W| |reflexivity|right; eauto|lia|].
    + unfold entries. cbn [ht0 ht1]. by rewrite Hn, H1.
    + intros _. split; [eauto|]. rewrite (tb_size _ _ T0). split; [split; [lia|apply Z.pow_nonneg; lia]|lia].
Qed.

Lemma used_small d : wf d -> 0 <= ht_used (ht0 d) <= Z.of_nat (length (entries d)).
Proof.
  intros W. unfold entries. rewrite length_app. destruct (wf_ht0 _ W) as [-> |[k T]]; [cbn; lia|]. rewrite (tb_used _ _ T). lia.
Qed.

Lemma expand_if_needed_spec cfg d : wf d -> exists d', _dictExpandIfNeeded cfg d = Ret (true, d') /\ same d d' /\ exists k, table_ok (ht0 d') k.
Proof.
  intros W. unfold _dictExpandIfNeeded, dictIsRehashing. pose proof (used_small d W) as Hu. pose proof (wf_small _ W) as Hsm.
  destruct (Z.eqb_spec (rehashidx d) (-1)) as [Hr|Hr]; cbn [negb].
  2: { exists d. split; [reflexivity|]. split; [by apply same_refl|]. destruct (wf_busy _ W Hr) as ((k0 & k1 & T0 & _) & _). eauto. }
  destruct (wf_ht0 _ W) as [E|[k T]].
  - replace (ht_size (ht0 d) =? 0) with true by (rewrite E; reflexivity).
    destruct (expand_spec d DICT_HT_INITIAL_SIZE W ltac:(unfold DICT_HT_INITIAL_SIZE; lia)) as (ok & d' & -> & Sm & Ht & Hok).
    assert (ok = true) as -> by (apply Hok; rewrite ?E; cbn; unfold DICT_HT_INITIAL_SIZE; lia). exists d'. split; [reflexivity|]. split; [exact Sm|by apply Ht].
  - assert (Hz : 0 < ht_size (ht0 d)) by (rewrite (tb_size _ _ T); apply Z.pow_pos_nonneg; [lia|pose proof (tb_k _ _ T); lia]).
    replace (ht_size (ht0 d) =? 0) with false by lia.
    assert (Hd : exists d', Ret (true, d) = Ret (true, d') /\ same d d' /\ exists k, table_ok (ht0 d') k) by (exists d; eauto using same_refl).
    destruct ((_ <=? _) && _) eqn:Ec; [|exact Hd]. apply andb_prop in Ec as [Ec _].
    assert (Eu : u64 (ht_used (ht0 d) + 1) = ht_used (ht0 d) + 1) by (unfold u64; apply Z.mod_small; lia).
    unfold dictTypeExpandAllowed. rewrite Eu. destruct (next_power_spec (ht_used (ht0 d) + 1) ltac:(lia)) as (kk & _ & -> & _). rewrite !bind_ret.
    destruct (expandAllowed _ _ _ _); [|exact Hd].
    destruct (expand_spec d (ht_used (ht0 d) + 1) W ltac:(lia)) as (ok & d' & -> & Sm & Ht & Hok).
    assert (ok = true) as -> by (apply Hok; lia). exists d'. split; [reflexivity|]. split; [exact Sm|by apply Ht].
Qed.

Lemma resize_spec cfg d : wf d -> exists ok d', dictResize cfg d = Ret (ok, d') /\ same d d'.
Proof.
  intros W. unfold dictResize. destruct (_ || _); [eauto using same_refl|]. cbv zeta. pose proof (used_small d W) as Hu. pose proof (wf_small _ W) as Hsm.
  match goal with |- context [_dictExpand d ?s] => destruct (expand_spec d s W) as (ok & d' & E & Sm & _) end.
  - unfold DICT_HT_INITIAL_SIZE. destruct (_ <? _); lia.
  - eauto.
Qed.

(** ** The map of a dictionary *)

Lemma same_map d d' : same d d' -> dict_map d' = dict_map d.
Proof. intros Sm. apply list_to_map_proper; [exact (wf_keys _ (same_wf _ _ Sm))|exact (same_entries _ _ Sm)]. Qed.

Lemma same_length d d' : same d d' -> length (entries d') = length (entries d).
Proof. intros Sm. by rewrite (same_entries _ _ Sm). Qed.

Lemma map_lookup d key v : wf d -> dict_map d !! key = Some v <-> (key, v) ∈ entries d.
Proof. intros W. symmetry. apply elem_of_list_to_map, W. Qed.

Lemma map_lookup_none d key : wf d -> dict_map d !! key = None <-> forall v, (key, v) ∉ entries d.
Proof.
  intros W. split.
  - intros E v Hv. apply (map_lookup d key v W) in Hv. congruence.
  - intros Hn. destruct (dict_map d !! key) as [v|] eqn:E; [|done]. by apply (map_lookup d key v W), Hn in E.
Qed.

Lemma key_fresh (l : list entry) key : (forall v, (key, v) ∉ l) -> key ∉ map fst l.
Proof. intros Hn Hk. apply list_elem_of_In, in_map_iff in Hk as ([k v] & <- & Hi). apply (Hn v). by apply list_elem_of_In. Qed.

(** The tables of a dictionary are exchanged for others over the same keys. *)
Lemma put_ht0 d k t0 : wf d -> table_ok (ht0 d) k -> table_ok t0 k ->
  (rehashidx d <> -1 -> forall e, e ∈ concat (ht_table t0) -> exists v, (fst e, v) ∈ concat (ht_table (ht0 d))) ->
  NoDup (map fst (concat (ht_table t0) ++ concat (ht_table (ht1 d)))) ->
  Z.of_nat (length (concat (ht_table t0) ++ concat (ht_table (ht1 d)))) < 2 ^ 60 -> wf (mk_dict t0 (ht1 d) (rehashidx d) (pauserehash d)).
Proof.
  intros W T T0 Hk Hd Hl. split; cbn [ht0 ht1 rehashidx pauserehash]; [right; eauto|apply W| |exact Hd|exact Hl].
  intros Hr. destruct (wf_busy _ W Hr) as ((k0 & k1 & _ & T1) & Hi & He). split; [eauto|].
  rewrite (tb_size _ _ T0), <- (tb_size _ _ T). split; [exact Hi|]. intros i b Hib Hlt. destruct b as [|e b]; [done|]. exfalso.
  destruct (Hk Hr e) as [v Hv]; [apply elem_concat; exists i, (e :: b); split; [exact Hib|by left]|].
  apply elem_concat in Hv as (j & c & Hj & Hc). pose proof (tb_hash _ _ T _ _ _ Hj Hc) as E1.
  pose proof (tb_hash _ _ T0 i (e :: b) e Hib ltac:(by left)) as E2. cbn [fst] in E1. rewrite (tb_mask _ _ T) in E1. rewrite (tb_mask _ _ T0) in E2.
  rewrite (He j c Hj ltac:(lia)) in Hc. by apply not_elem_of_nil in Hc.
Qed.

Lemma put_ht1 d k t1 : wf d -> rehashidx d <> -1 -> table_ok t1 k ->
  NoDup (map fst (concat (ht_table (ht0 d)) ++ concat (ht_table t1))) ->
  Z.of_nat (length (concat (ht_table (ht0 d)) ++ concat (ht_table t1))) < 2 ^ 60 -> wf (mk_dict (ht0 d) t1 (rehashidx d) (pauserehash d)).
Proof.
  intros W Hr T1 Hd Hl. destruct (wf_busy _ W Hr) as ((k0 & k1 & T0 & _) & Hi & He).
  split; cbn [ht0 ht1 rehashidx pauserehash]; [right; eauto|done| |exact Hd|exact Hl]. intros _. split; [eauto|]. by split.
Qed.

(** A dictionary with entries has a first table. *)
Lemma nonempty_table d : wf d -> entries d <> [] -> exists k, table_ok (ht0 d) k.
Proof.
  intros W Hne. destruct (wf_ht0 _ W) as [E|T]; [|exact T]. destruct (Z.eq_dec (rehashidx d) (-1)) as [Hr|Hr].
  - destruct Hne. unfold entries. by rewrite E, (wf_idle _ W Hr).
  - destruct (wf_busy _ W Hr) as ((k0 & k1 & T0 & _) & _). eauto.
Qed.

Lemma used_zero d : wf d -> ht_used (ht0 d) = Z.of_nat (length (concat (ht_table (ht0 d)))) /\ ht_used (ht1 d) = Z.of_nat (length (concat (ht_table (ht1 d)))).
Proof.
  intros W. split.
  - destruct (wf_ht0 _ W) as [-> |[k T]]; [reflexivity|apply T].
  - destruct (Z.eq_dec (rehashidx d) (-1)) as [Hr|Hr]; [by rewrite (wf_idle _ W Hr)|].
    destruct (wf_busy _ W Hr) as ((k0 & k1 & _ & T1) & _). apply T1.
Qed.

(** ** Searching *)

(** Which table a key is in. *)
Lemma search_spec d k key : wf d -> table_ok (ht0 d) k -> search_tables hashFunction d key = Ret (dict_map d !! key).
Proof.
  intros W T. unfold search_tables. destruct (ht_find_spec (ht0 d) k key T) as (r & -> & Hr). rewrite bind_ret. destruct r as [v|].
  - f_equal. symmetry. apply (map_lookup d key v W). apply elem_of_app. by left.
  - unfold dictIsRehashing. destruct (Z.eqb_spec (rehashidx d) (-1)) as [Hi|Hi]; cbn [negb].
    + f_equal. symmetry. apply (map_lookup_none d key W). intros v. unfold entries. rewrite (wf_idle _ W Hi). cbn. by rewrite app_nil_r.
    + destruct (wf_busy _ W Hi) as ((k0 & k1 & _ & T1) & _). destruct (ht_find_spec (ht1 d) k1 key T1) as (r & -> & Hr1). f_equal. symmetry.
      destruct r as [v|]; [apply (map_lookup d key v W); apply elem_of_app; by right|].
      apply (map_lookup_none d key W). intros v [Hv|Hv]%elem_of_app; [by apply (Hr v)|by apply (Hr1 v)].
Qed.

Lemma find_spec d key : wf d -> exists d', dictFind hashFunction d key = Ret (dict_map d !! key, d') /\ same d d'.
Proof.
  intros W. unfold dictFind, dictSize. destruct (used_zero d W) as [U0 U1]. pose proof (wf_small _ W) as Hs. unfold entries in Hs. rewrite length_app in Hs.
  assert (E : u64 (ht_used (ht0 d) + ht_used (ht1 d)) = Z.of_nat (length (entries d))).
  { unfold u64, entries. rewrite length_app. rewrite Z.mod_small by lia. lia. }
  rewrite E. destruct (Z.eqb_spec (Z.of_nat (length (entries d))) 0) as [Hz|Hz].
  - exists d. split; [|by apply same_refl]. do 2 f_equal. unfold dict_map. destruct (entries d); [reflexivity|cbn in Hz; lia].
  - destruct (rehash_if_needed_spec d W) as (d' & -> & Sm). rewrite bind_ret.
    destruct (nonempty_table d' (same_wf _ _ Sm)) as [k T].
    { intros En. pose proof (same_length _ _ Sm) as El. rewrite En in El. cbn in El. lia. }
    rewrite (search_spec d' k key (same_wf _ _ Sm) T), bind_ret, (same_map _ _ Sm). eauto.
Qed.

(** ** Adding and replacing *)

Lemma entries_insert d (l : list entry) key v : wf d -> dict_map d !! key = None -> l ≡ₚ (key, v) :: entries d ->
  NoDup (map fst l) /\ list_to_map l = <[key := v]> (dict_map d).
Proof.
  intros W Hn P. assert (Hd : NoDup (map fst ((key, v) :: entries d))).
  { cbn. constructor; [apply key_fresh; by apply (map_lookup_none d key W)|apply W]. }
  split; [by rewrite P|]. symmetry. exact (list_to_map_proper (M := gmap K) ((key, v) :: entries d) l Hd (symmetry P)).
Qed.

Lemma entries_update d (l rest : list entry) key v0 v : wf d -> entries d ≡ₚ (key, v0) :: rest -> l ≡ₚ (key, v) :: rest ->
  NoDup (map fst l) /\ list_to_map l = <[key := v]> (dict_map d).
Proof.
  intros W P P'. pose proof (wf_keys _ W) as Hd. rewrite P in Hd. split; [by rewrite P'|].
  transitivity (list_to_map ((key, v) :: rest) : gmap K V).
  { symmetry. apply (list_to_map_proper (M := gmap K)); [exact Hd|by symmetry]. }
  transitivity (<[key := v]> (list_to_map ((key, v0) :: rest)) : gmap K V); [cbn; by rewrite insert_insert_eq|].
  f_equal. apply (list_to_map_proper (M := gmap K)); [exact Hd|by symmetry].
Qed.

Lemma entries_delete d (l : list entry) x : wf d -> entries d ≡ₚ x :: l ->
  NoDup (map fst l) /\ list_to_map l = delete (fst x) (dict_map d).
Proof.
  intros W P. pose proof (wf_keys _ W) as Hd. rewrite P in Hd. cbn in Hd. apply NoDup_cons in Hd as [Hx Hd]. split; [exact Hd|].
  transitivity (delete (fst x) (list_to_map (x :: l)) : gmap K V).
  - destruct x as [key v]. cbn. rewrite delete_insert_id; [reflexivity|]. by apply not_elem_of_list_to_map_1.
  - f_equal. apply (list_to_map_proper (M := gmap K)); [by constructor|by symmetry].
Qed.

(** The slot that is found for a new key takes it. *)
Lemma push_new d k key v : wf d -> table_ok (ht0 d) k -> dict_map d !! key = None -> Z.of_nat (length (entries d)) + 1 < 2 ^ 60 ->
  exists d', (if dictIsRehashing d then
       t1 ← push_entry (ht1 d) (Z.land (hashFunction key) (ht_sizemask (if dictIsRehashing d then ht1 d else ht0 d))) (key, v);
       Ret (mk_dict (ht0 d) t1 (rehashidx d) (pauserehash d))
     else
       t0 ← push_entry (ht0 d) (Z.land (hashFunction key) (ht_sizemask (if dictIsRehashing d then ht1 d else ht0 d))) (key, v);
       Ret (mk_dict t0 (ht1 d) (rehashidx d) (pauserehash d))) = Ret d' /\
    wf d' /\ pauserehash d' = pauserehash d /\ dict_map d' = <[key := v]> (dict_map d) /\ length (entries d') = S (length (entries d)).
Proof.
  intros W T Hn Hs. unfold dictIsRehashing. unfold entries in Hs. rewrite length_app in Hs. destruct (Z.eqb_spec (rehashidx d) (-1)) as [Hr|Hr]; cbn [negb].
  - destruct (push_entry_spec (ht0 d) k (key, v) T ltac:(lia)) as (t & E & T' & P). cbn [fst] in E. rewrite E, bind_ret.
    destruct (entries_insert d (concat (ht_table t) ++ concat (ht_table (ht1 d))) key v W Hn) as [Hd Hm]; [by rewrite P|].
    eexists. split; [reflexivity|]. assert (El : length (concat (ht_table t)) = S (length (concat (ht_table (ht0 d))))) by (by rewrite P).
    split; [apply (put_ht0 d k t W T T'); [done|exact Hd|rewrite length_app; lia]|]. split; [reflexivity|]. split; [exact Hm|]. unfold entries. cbn [ht0 ht1]. rewrite !length_app. lia.
  - destruct (wf_busy _ W Hr) as ((k0 & k1 & _ & T1) & _). destruct (push_entry_spec (ht1 d) k1 (key, v) T1 ltac:(lia)) as (t & E & T' & P).
    cbn [fst] in E. rewrite E, bind_ret.
    destruct (entries_insert d (concat (ht_table (ht0 d)) ++ concat (ht_table t)) key v W Hn) as [Hd Hm]; [rewrite P; unfold entries; by rewrite Permutation_middle|].
    eexists. split; [reflexivity|]. assert (El : length (concat (ht_table t)) = S (length (concat (ht_table (ht1 d))))) by (by rewrite P).
    split; [apply (put_ht1 d k1 t W Hr T'); [exact Hd|rewrite length_app; lia]|]. split; [reflexivity|]. split; [exact Hm|]. unfold entries. cbn [ht0 ht1]. rewrite !length_app. lia.
Qed.

(** What [dictAddRaw] does with a key. *)
Lemma add_raw_spec cfg d key v : wf d -> Z.of_nat (length (entries d)) + 1 < 2 ^ 60 ->
  exists r d', dictAddRaw hashFunction cfg d key v = Ret (r, d') /\ wf d' /\ pauserehash d' = pauserehash d /\
    match dict_map d !! key with
    | Some v0 => r = Existing v0 /\ same d d' /\ exists k, table_ok (ht0 d') k
    | None => (exists idx, r = Slot idx) /\ dict_map d' = <[key := v]> (dict_map d) /\ length (entries d') = S (length (entries d))
    end.
Proof.
  intros W Hs. unfold dictAddRaw, _dictKeyIndex. destruct (rehash_if_needed_spec d W) as (d1 & -> & S1). rewrite bind_ret.
  destruct (expand_if_needed_spec cfg d1 (same_wf _ _ S1)) as (d2 & -> & S2 & k & T). rewrite bind_ret.
  pose proof (same_trans _ _ _ S1 S2) as Sm. pose proof (same_wf _ _ Sm) as W2. rewrite (search_spec d2 k key W2 T), bind_ret.
  pose proof (same_map _ _ Sm) as Em. pose proof (same_length _ _ Sm) as El. rewrite <- Em, <- El in *. destruct (dict_map d2 !! key) as [v0|] eqn:E.
  - rewrite bind_ret. exists (Existing v0), d2. split; [reflexivity|]. split; [exact W2|]. split; [exact (same_pause _ _ Sm)|]. split; [reflexivity|]. eauto.
  - rewrite bind_ret. destruct (push_new d2 k key v W2 T E Hs) as (d' & Ep & Hd'). destruct (dictIsRehashing d2).
    + destruct (push_entry _ _ _) as [t| | |] in Ep |- *; cbn in Ep |- *; try discriminate. injection Ep as <-. eexists _, _. split; [reflexivity|]. destruct Hd' as (Hw & _ & Hd').
      split; [exact Hw|]. split; [exact (same_pause _ _ Sm)|]. split; [by eexists|exact Hd'].
    + destruct (push_entry _ _ _) as [t| | |] in Ep |- *; cbn in Ep |- *; try discriminate. injection Ep as <-. eexists _, _. split; [reflexivity|]. destruct Hd' as (Hw & _ & Hd').
      split; [exact Hw|]. split; [exact (same_pause _ _ Sm)|]. split; [by eexists|exact Hd'].
Qed.

Lemma set_existing_spec d k key v0 v : wf d -> table_ok (ht0 d) k -> dict_map d !! key = Some v0 ->
  exists d', set_existing hashFunction d key v = Ret d' /\ wf d' /\ pauserehash d' = pauserehash d /\ dict_map d' = <[key := v]> (dict_map d) /\ length (entries d') = length (entries d).
Proof.
  intros W T Hk. pose proof (wf_small _ W) as Hs. unfold entries in Hs. rewrite length_app in Hs. unfold set_existing.
  destruct (ht_find_spec (ht0 d) k key T) as (r & E & Hr). rewrite E, bind_ret. destruct r as [w|].
  - destruct (ht_set_spec (ht0 d) k key w v T E) as (t & rest & -> & T' & P1 & P2). rewrite bind_ret.
    destruct (entries_update d (concat (ht_table t) ++ concat (ht_table (ht1 d))) (rest ++ concat (ht_table (ht1 d))) key w v W) as [Hd Hm];
      [unfold entries; by rewrite P1|by rewrite P2|].
    assert (El : length (concat (ht_table t)) = length (concat (ht_table (ht0 d)))) by (by rewrite P1, P2).
    eexists. split; [reflexivity|]. split; [|split; [reflexivity|split; [exact Hm|unfold entries; cbn [ht0 ht1]; rewrite !length_app; lia]]].
    apply (put_ht0 d k t W T T'); [|exact Hd|rewrite length_app; lia]. intros _ [x y] He. rewrite P2 in He. cbn [fst].
    apply elem_of_cons in He as [[= -> ->]|He]; [exists w|exists y]; rewrite P1; [by left|by right].
  - apply (map_lookup d key v0 W) in Hk. apply elem_of_app in Hk as [Hk|Hk]; [by destruct (Hr v0)|].
    assert (Hb : rehashidx d <> -1) by (intros Hi; rewrite (wf_idle _ W Hi) in Hk; by apply not_elem_of_nil in Hk).
    destruct (wf_busy _ W Hb) as ((k0 & k1 & _ & T1) & _). destruct (ht_find_spec (ht1 d) k1 key T1) as ([w|] & E1 & Hr1); [|by destruct (Hr1 v0)].
    destruct (ht_set_spec (ht1 d) k1 key w v T1 E1) as (t & rest & -> & T' & P1 & P2). rewrite bind_ret.
    destruct (entries_update d (concat (ht_table (ht0 d)) ++ concat (ht_table t)) (concat (ht_table (ht0 d)) ++ rest) key w v W) as [Hd Hm];
      [unfold entries; by rewrite P1, Permutation_middle|by rewrite P2, Permutation_middle|].
    assert (El : length (concat (ht_table t)) = length (concat (ht_table (ht1 d)))) by (by rewrite P1, P2).
    eexists. split; [reflexivity|]. split; [|split; [reflexivity|split; [exact Hm|unfold entries; cbn [ht0 ht1]; rewrite !length_app; lia]]].
    apply (put_ht1 d k1 t W Hb T'); [exact Hd|rewrite length_app; lia].
Qed.

(** ** Deleting *)

(** What a deletion leaves. *)
Record deleted (d d' : dict) (key : K) (r : option entry) : Prop := mk_deleted {
  del_wf : wf d';
  del_pause : pauserehash d' = pauserehash d;
  del_map : dict_map d' = delete key (dict_map d);
  del_found : is_Some r <-> is_Some (dict_map d !! key);
  del_length : (length (entries d') <= length (entries d))%nat
}.

Lemma deleted_none d d' key : same d d' -> dict_map d !! key = None -> deleted d d' key None.
Proof.
  intros Sm En. split; [apply Sm|apply Sm|by rewrite (same_map _ _ Sm), delete_id| |by rewrite (same_length _ _ Sm)].
  rewrite En. split; intros [? [=]].
Qed.

Lemma deleted_some d d1 d' x : same d d1 -> entries d1 ≡ₚ x :: entries d' -> pauserehash d' = pauserehash d1 ->
  (NoDup (map fst (entries d')) -> Z.of_nat (length (entries d')) < 2 ^ 60 -> wf d') -> deleted d d' (fst x) (Some x).
Proof.
  intros Sm P Hp W'. pose proof (same_wf _ _ Sm) as W1. destruct (entries_delete d1 _ x W1 P) as [Hd Hm]. pose proof (wf_small _ W1) as Hs.
  rewrite P in Hs. cbn [length] in Hs. pose proof (same_length _ _ Sm) as El. rewrite P in El. cbn [length] in El.
  split; [apply W'; [exact Hd|lia]|rewrite Hp; apply Sm|rewrite <- (same_map _ _ Sm); exact Hm| |lia].
  split; [intros _|by eexists]. rewrite <- (same_map _ _ Sm). exists (snd x). apply (map_lookup d1 _ _ W1). rewrite P. destruct x. by left.
Qed.

Lemma delete_spec d key : wf d -> exists r d', dictGenericDelete hashFunction d key = Ret (r, d') /\ deleted d d' key r.
Proof.
  intros W. unfold dictGenericDelete. destruct (used_zero d W) as [U0 U1]. destruct (_ && _) eqn:Ez.
  { exists None, d. split; [reflexivity|]. apply deleted_none; [by apply same_refl|]. unfold dict_map, entries.
    destruct (concat (ht_table (ht0 d))), (concat (ht_table (ht1 d))); cbn in U0, U1; try lia. reflexivity. }
  destruct (rehash_if_needed_spec d W) as (d1 & -> & Sm). rewrite bind_ret. pose proof (same_wf _ _ Sm) as W1. pose proof (wf_small _ W1) as Hs.
  unfold entries in Hs. rewrite length_app in Hs. pose proof (same_length _ _ Sm) as El. pose proof (same_map _ _ Sm) as Em.
  destruct (nonempty_table d1 W1) as [k T].
  { intros En. rewrite En in El. unfold entries in El. cbn in El. rewrite length_app in El. lia. }
  destruct (ht_delete_spec (ht0 d1) k key T ltac:(lia)) as (r & -> & Hr). rewrite bind_ret. destruct r as [[x t]|].
  { destruct Hr as (<- & T' & P). eexists _, _. split; [reflexivity|].
    apply (deleted_some d d1); [exact Sm|unfold entries; cbn [ht0 ht1]; by rewrite P|reflexivity|].
    intros Hd Hl. apply (put_ht0 d1 k t W1 T T'); [|exact Hd|exact Hl]. intros _ [y w] He. exists w. rewrite P. by right. }
  unfold dictIsRehashing. destruct (Z.eqb_spec (rehashidx d1) (-1)) as [Hb|Hb]; cbn [negb].
  { exists None, d1. split; [reflexivity|]. apply (deleted_none _ _ _ Sm). rewrite <- Em. apply (map_lookup_none d1 key W1). intros v.
    unfold entries. rewrite (wf_idle _ W1 Hb). cbn. rewrite app_nil_r. apply Hr. }
  destruct (wf_busy _ W1 Hb) as ((k0 & k1 & _ & T1) & _). destruct (ht_delete_spec (ht1 d1) k1 key T1 ltac:(lia)) as (r & -> & Hr1). rewrite bind_ret.
  destruct r as [[x t]|].
  - destruct Hr1 as (<- & T' & P). eexists _, _. split; [reflexivity|].
    apply (deleted_some d d1); [exact Sm|unfold entries; cbn [ht0 ht1]; by rewrite P, Permutation_middle|reflexivity|].
    intros Hd Hl. exact (put_ht1 d1 k1 t W1 Hb T' Hd Hl).
  - exists None, d1. split; [reflexivity|]. apply (deleted_none _ _ _ Sm). rewrite <- Em. apply (map_lookup_none d1 key W1).
    intros v [Hv|Hv]%elem_of_app; [by apply (Hr v)|by apply (Hr1 v)].
Qed.

(** ** Sequences of operations *)

Lemma wf_create : wf dictCreate.
Proof. split; cbn; [by left|done|done|constructor|lia]. Qed.

(** The argument of [dictRehash] is an int whose tenfold is one. *)
Definition op_ok (o : dict_op K V) : Prop := match o with Op_rehash n => Z.of_nat n * 10 < 2 ^ 31 | _ => True end.

Lemma run_op_spec cfg d o : wf d -> op_ok o -> Z.of_nat (length (entries d)) + 1 < 2 ^ 60 ->
  exists cfg' d' a, run_op hashFunction cfg d o = Ret (cfg', d', a) /\ wf d' /\ (dict_map d', a) = map_op (dict_map d) o /\
    (length (entries d') <= S (length (entries d)))%nat /\ (pauserehash d = 0 -> pauserehash d' = 0).
Proof.
  intros W Ho Hs. assert (Hsame : forall d', same d d' -> wf d' /\ dict_map d' = dict_map d /\ (length (entries d') <= S (length (entries d)))%nat /\ (pauserehash d = 0 -> pauserehash d' = 0)).
  { intros d' Sm. rewrite (same_map _ _ Sm), (same_length _ _ Sm), (same_pause _ _ Sm). split; [apply Sm|]. split; [done|]. split; [lia|done]. }
  destruct o as [k|k v|k v|k|n| |cfg'|]; cbn [run_op map_op].
  - destruct (find_spec d k W) as (d' & -> & Sm). rewrite bind_ret. destruct (Hsame d' Sm) as (W' & Em & Hl). eexists _, _, _. split; [reflexivity|]. by rewrite Em.
  - unfold dictAdd. destruct (add_raw_spec cfg d k v W Hs) as (r & d' & -> & W' & Hp & Hr). rewrite !bind_ret. eexists _, _, _. split; [reflexivity|]. split; [exact W'|].
    rewrite Hp. destruct (dict_map d !! k) as [v0|]; [destruct Hr as (-> & Sm & _); rewrite (same_map _ _ Sm), (same_length _ _ Sm); split; [done|]; split; [lia|done]|].
    destruct Hr as ([idx ->] & -> & ->). split; [done|]. split; [lia|done].
  - unfold dictReplace. destruct (add_raw_spec cfg d k v W Hs) as (r & d' & -> & W' & Hp & Hr). rewrite !bind_ret. destruct (dict_map d !! k) as [v0|] eqn:E.
    + destruct Hr as (-> & Sm & (k0 & T)). rewrite <- (same_map _ _ Sm) in *. destruct (set_existing_spec d' k0 k v0 v W' T E) as (d2 & -> & W2 & Hp2 & Em & El). rewrite !bind_ret.
      eexists _, _, _. split; [reflexivity|]. split; [exact W2|]. rewrite Em, El, (same_length _ _ Sm), Hp2, Hp. split; [done|]. split; [lia|done].
    + destruct Hr as ([idx ->] & Em & El). rewrite bind_ret. eexists _, _, _. split; [reflexivity|]. split; [exact W'|]. rewrite Em, El, Hp. split; [done|]. split; [lia|done].
  - unfold dictDelete. destruct (delete_spec d k W) as (r & d' & -> & [W' Hp Em Hi El]). rewrite !bind_ret. eexists _, _, _. split; [reflexivity|]. split; [exact W'|].
    rewrite Hp. split; [|split; [lia|done]]. rewrite Em. do 2 f_equal.
    destruct r; [rewrite bool_decide_eq_true_2 by (apply Hi; by eexists)|rewrite bool_decide_eq_false_2 by (by intros [? [=]]%Hi)]; done.
  - destruct (dictRehash_spec d n W Ho) as (d' & -> & Sm & _). rewrite bind_ret. destruct (Hsame d' Sm) as (W' & Em & Hl). eexists _, _, _. split; [reflexivity|]. by rewrite Em.
  - destruct (resize_spec cfg d W) as (ok & d' & -> & Sm). rewrite bind_ret. destruct (Hsame d' Sm) as (W' & Em & Hl). eexists _, _, _. split; [reflexivity|]. by rewrite Em.
  - eexists _, _, _. split; [reflexivity|]. split; [exact W|]. split; [done|]. split; [lia|done].
  - eexists _, _, _. split; [reflexivity|]. split; [apply wf_create|]. split; [done|]. split; [cbn; lia|done].
Qed.

Lemma run_ops_spec ops : forall cfg d, wf d -> Forall op_ok ops -> Z.of_nat (length (entries d)) + Z.of_nat (length ops) < 2 ^ 60 ->
  exists cfg' d', run_ops hashFunction cfg d ops = Ret (cfg', d', (map_ops (dict_map d) ops).2) /\ wf d' /\
    dict_map d' = (map_ops (dict_map d) ops).1 /\ (length (entries d') <= length (entries d) + length ops)%nat /\ (pauserehash d = 0 -> pauserehash d' = 0).
Proof.
  induction ops as [|o ops IH]; intros cfg d W Ho Hs; cbn [run_ops map_ops length].
  { exists cfg, d. split; [reflexivity|]. split; [exact W|]. split; [reflexivity|]. split; [lia|done]. }
  cbn [length] in Hs. inversion_clear Ho as [|? ? Ho1 Ho2]. destruct (run_op_spec cfg d o W Ho1 ltac:(lia)) as (cfg' & d1 & a & -> & W1 & <- & El & Hp).
  rewrite bind_ret. destruct (IH cfg' d1 W1 Ho2 ltac:(lia)) as (cfg2 & d' & -> & W' & Em & El' & Hp'). rewrite bind_ret. exists cfg2, d'. rewrite Em.
  destruct (map_ops (dict_map d1) ops). split; [reflexivity|]. split; [exact W'|]. split; [reflexivity|]. split; [lia|auto].
Qed.

(** ** The end of a rehashing *)

Lemma rehash_steps_idle n (d : dict) : rehashidx d = -1 -> rehash_steps hashFunction n d = Ret d.
Proof.
  intros He. induction n as [|n IH]; cbn [rehash_steps]; [reflexivity|]. unfold _dictRehashStep, dictRehash, dictIsRehashing.
  rewrite He. cbn. destruct (pauserehash d =? 0); cbn; exact IH.
Qed.

Lemma rehash_steps_spec n : forall d, wf d -> pauserehash d = 0 -> exists d', rehash_steps hashFunction n d = Ret d' /\ same d d' /\
  (dictIsRehashing d' = false \/ (rehashidx d + Z.of_nat n <= rehashidx d' /\ ht_size (ht0 d') = ht_size (ht0 d))).
Proof.
  induction n as [|n IH]; intros d W Hp; cbn [rehash_steps].
  { exists d. split; [reflexivity|]. split; [by apply same_refl|]. right. split; [lia|reflexivity]. }
  destruct (rehash_step_spec d W) as (d1 & -> & S1 & Ha). rewrite bind_ret.
  destruct (IH d1 (same_wf _ _ S1) ltac:(rewrite (same_pause _ _ S1); exact Hp)) as (d' & E & Sm & Hd). exists d'. split; [exact E|].
  split; [by eapply same_trans|]. destruct Hd as [Hd|[Hd1 Hd2]]; [by left|]. destruct (Ha Hp) as [Hi|[Hlt Hz]]; [|right; split; [lia|congruence]].
  left. rewrite (rehash_steps_idle n d1 Hi) in E. injection E as <-. unfold dictIsRehashing. by rewrite Hi.
Qed.

Lemma rehash_ends d : wf d -> pauserehash d = 0 -> exists d', rehash_steps hashFunction (Z.to_nat (ht_size (ht0 d) + 1)) d = Ret d' /\ same d d' /\
  dictIsRehashing d' = false.
Proof.
  intros W Hp. destruct (Z.eq_dec (rehashidx d) (-1)) as [Hr|Hr].
  { exists d. rewrite rehash_steps_idle by exact Hr. split; [reflexivity|]. split; [by apply same_refl|]. unfold dictIsRehashing. by rewrite Hr. }
  destruct (rehash_steps_spec (Z.to_nat (ht_size (ht0 d) + 1)) d W Hp) as (d' & E & Sm & Hd). exists d'. split; [exact E|]. split; [exact Sm|].
  destruct Hd as [Hd|[Hd Hz]]; [exact Hd|]. destruct (wf_busy _ W Hr) as (_ & Hi & _). unfold dictIsRehashing.
  destruct (Z.eqb_spec (rehashidx d') (-1)) as [_|Hr']; [reflexivity|]. destruct (wf_busy _ (same_wf _ _ Sm) Hr') as (_ & Hi' & _). lia.
Qed.

(** ** Iterating *)

Definition it_buckets (d : dict) (it : dictIterator K V) : list (list entry) := ht_table (if it_table it then ht1 d else ht0 d).

(** The entries that an iterator has still to return, and its buckets. *)
Definition remaining (d : dict) (it : dictIterator K V) : list entry :=
  default [] (it_chain it) ++ concat (drop (Z.to_nat (it_index it + 1)) (it_buckets d it)) ++
  (if it_table it then [] else concat (ht_table (ht1 d))).

Definition buckets_left (d : dict) (it : dictIterator K V) : nat :=
  (length (it_buckets d it) - Z.to_nat (it_index it + 1)) + (if it_table it then 0 else length (ht_table (ht1 d))).

Lemma table_sizes d : wf d -> ht_size (ht0 d) = Z.of_nat (length (ht_table (ht0 d))) /\ ht_size (ht1 d) = Z.of_nat (length (ht_table (ht1 d))).
Proof.
  intros W. assert (Ht : forall t k, table_ok t k -> ht_size t = Z.of_nat (length (ht_table t))).
  { intros t k T. rewrite (tb_length _ _ T), (tb_size _ _ T). pose proof (Z.pow_nonneg 2 k). lia. }
  split; [destruct (wf_ht0 _ W) as [-> |[k T]]; [reflexivity|by apply (Ht _ k)]|].
  destruct (Z.eq_dec (rehashidx d) (-1)) as [Hr|Hr]; [by rewrite (wf_idle _ W Hr)|]. destruct (wf_busy _ W Hr) as ((k0 & k1 & _ & T1) & _). by apply (Ht _ k1).
Qed.

(** The bucket at an index is the next that an iterator looks into. *)
Lemma remaining_bucket d it b : -1 <= it_index it -> it_chain it = None -> it_buckets d it !! Z.to_nat (it_index it + 1) = Some b ->
  remaining d it = b ++ remaining d (mk_iter (it_index it + 1) (it_table it) None) /\
  buckets_left d it = S (buckets_left d (mk_iter (it_index it + 1) (it_table it) None)).
Proof.
  intros Hi Hc Hb. unfold remaining, buckets_left, it_buckets in *. cbn [it_index it_table it_chain default]. rewrite Hc. cbn [default app].
  pose proof (lookup_lt_Some _ _ _ Hb) as Hl. replace (Z.to_nat (it_index it + 1 + 1)) with (S (Z.to_nat (it_index it + 1))) by lia.
  rewrite (drop_S _ _ _ Hb). cbn [concat]. rewrite <- app_assoc. split; [reflexivity|lia].
Qed.

(** What a call of [dictNext] does: the first of the remaining entries, if
    there is one. *)
Definition next_of (d : dict) (it : dictIterator K V) (r : outcome (option entry * dictIterator K V)) : Prop :=
  exists it', r = Ret (head (remaining d it), it') /\
    (remaining d it <> [] -> -1 <= it_index it' /\ remaining d it' = tail (remaining d it) /\ (buckets_left d it' <= buckets_left d it)%nat).

Lemma next_same d it it2 r : remaining d it = remaining d it2 -> (buckets_left d it2 <= buckets_left d it)%nat -> next_of d it2 r -> next_of d it r.
Proof.
  intros Er Hb (it' & E & Hit'). exists it'. rewrite Er. split; [exact E|]. intros Hne. destruct (Hit' Hne) as (H1 & H2 & H3). split; [exact H1|]. split; [exact H2|lia].
Qed.

(** The step into a bucket. *)
Lemma next_bucket d it b (again : outcome (option entry * dictIterator K V)) :
  -1 <= it_index it -> it_chain it = None -> it_buckets d it !! Z.to_nat (it_index it + 1) = Some b ->
  next_of d (mk_iter (it_index it + 1) (it_table it) None) again ->
  next_of d it (match b with [] => again | e :: rest => Ret (Some e, mk_iter (it_index it + 1) (it_table it) (Some rest)) end).
Proof.
  intros Hi Hc Hb Ha. destruct (remaining_bucket d it b Hi Hc Hb) as [Er El]. destruct b as [|e rest].
  - apply (next_same _ _ _ _ Er); [lia|exact Ha].
  - eexists. rewrite Er. split; [reflexivity|]. intros _. cbn [it_index]. split; [lia|]. split; [reflexivity|].
    rewrite El. unfold buckets_left, it_buckets. cbn [it_index it_table]. lia.
Qed.

Lemma next_spec d : wf d -> forall fuel it, -1 <= it_index it -> (buckets_left d it + (if it_chain it then 1 else 0) < fuel)%nat ->
  next_of d it (dictNext fuel d it).
Proof.
  intros W. destruct (table_sizes d W) as [Z0 Z1]. induction fuel as [|fuel IH]; intros it Hi Hf; [lia|]. cbn [dictNext].
  destruct (it_chain it) as [[|e rest]|] eqn:Ec.
  - apply (next_same _ _ (mk_iter (it_index it) (it_table it) None)); [unfold remaining, it_buckets; by rewrite Ec|reflexivity|].
    apply IH; [exact Hi|cbn [it_chain]; unfold buckets_left, it_buckets in *; cbn [it_table it_index] in *; lia].
  - eexists. unfold remaining. rewrite Ec. split; [reflexivity|]. intros _. split; [exact Hi|]. split; [reflexivity|]. reflexivity.
  - cbv zeta. assert (Hz : ht_size (if it_table it then ht1 d else ht0 d) = Z.of_nat (length (it_buckets d it))) by (unfold it_buckets; destruct (it_table it); done).
    rewrite Hz. destruct (Z.leb_spec (Z.of_nat (length (it_buckets d it))) (it_index it + 1)) as [Hend|Hin]; cbn [andb].
    + destruct (it_table it) eqn:Et; cbn [negb andb].
      { rewrite andb_false_r. cbn [negb]. eexists. unfold remaining. rewrite Ec, Et, drop_ge by lia. split; [reflexivity|done]. }
      rewrite andb_true_r. unfold dictIsRehashing. destruct (Z.eqb_spec (rehashidx d) (-1)) as [Hr|Hr]; cbn [negb].
      { eexists. unfold remaining. rewrite Ec, Et, drop_ge, (wf_idle _ W Hr) by lia. split; [reflexivity|done]. }
      destruct (wf_busy _ W Hr) as ((k0 & k1 & _ & T1) & _). pose proof (tb_k _ _ T1).
      destruct (lookup_lt_is_Some_2 (ht_table (ht1 d)) 0) as [b Hb]; [rewrite (tb_length _ _ T1); assert (0 < 2 ^ k1) by (apply Z.pow_pos_nonneg; lia); lia|].
      change (Z.to_nat 0) with 0%nat. rewrite Hb. cbn [deref]. rewrite bind_ret.
      apply (next_same _ _ (mk_iter (-1) true None)); [unfold remaining; rewrite Ec, Et, drop_ge by lia; cbn; by rewrite app_nil_r| |].
      { unfold buckets_left, it_buckets in *. rewrite Et in *. cbn [it_table it_index]. lia. }
      apply (next_bucket d (mk_iter (-1) true None) b); [cbn; lia|reflexivity|exact Hb|].
      apply IH; [cbn; lia|]. unfold buckets_left, it_buckets in *. rewrite Et in *. cbn [it_table it_index it_chain]. pose proof (lookup_lt_Some _ _ _ Hb). lia.
    + destruct (lookup_lt_is_Some_2 (it_buckets d it) (Z.to_nat (it_index it + 1))) as [b Hb]; [lia|].
      unfold it_buckets in Hb |- *. rewrite Hb. cbn [deref]. rewrite bind_ret. apply next_bucket; [exact Hi|exact Ec|exact Hb|].
      apply IH; [cbn; lia|]. destruct (remaining_bucket d it b Hi Ec Hb) as [_ El]. cbn [it_chain]. lia.
Qed.

Lemma iterate_all_spec d fuel n : wf d -> forall it, -1 <= it_index it -> (buckets_left d it + 1 < fuel)%nat -> (length (remaining d it) < n)%nat ->
  iterate_all n fuel d it = Ret (remaining d it).
Proof.
  intros W. induction n as [|n IH]; intros it Hi Hf Hn; [lia|]. cbn [iterate_all].
  destruct (next_spec d W fuel it Hi) as (it' & -> & Hit'); [destruct (it_chain it); lia|]. rewrite bind_ret.
  destruct (remaining d it) as [|e l]; [reflexivity|]. destruct (Hit' ltac:(done)) as (H1 & H2 & H3). cbn [head]. cbn in H2.
  rewrite IH, H2; [reflexivity|exact H1|lia|rewrite H2; cbn in Hn; lia].
Qed.

Lemma iterate_spec d : wf d -> dict_iterate d = Ret (entries d).
Proof.
  intros W. unfold dict_iterate. destruct (used_zero d W) as [U0 U1].
  assert (Er : remaining d dictGetIterator = entries d) by reflexivity. rewrite <- Er. apply iterate_all_spec; [exact W|cbn; lia| |].
  - unfold buckets_left, it_buckets. cbn [dictGetIterator it_table it_index]. lia.
  - rewrite Er. unfold entries. rewrite length_app. lia.
Qed.

Lemma created ops cfg : Forall op_ok ops -> Z.of_nat (length ops) < 2 ^ 60 ->
  exists cfg' d, run_ops hashFunction cfg dictCreate ops = Ret (cfg', d, (map_ops ∅ ops).2) /\ wf d /\
    dict_map d = (map_ops ∅ ops).1 /\ pauserehash d = 0 /\ Z.of_nat (length (entries d)) <= Z.of_nat (length ops).
Proof.
  intros Ho Hl. destruct (run_ops_spec ops cfg dictCreate wf_create Ho ltac:(cbn; lia)) as (cfg' & d & E & W & Em & El & Hp).
  exists cfg', d. split; [exact E|]. split; [exact W|]. split; [exact Em|]. split; [by apply Hp|]. cbn [entries dictCreate] in El. cbn in El. lia.
Qed.

Lemma entries_list d : wf d -> entries d ≡ₚ map_to_list (dict_map d).
Proof. intros W. symmetry. apply map_to_list_to_map, W. Qed.

End Facts.

(** * Claims *)

(** C20. A dictionary is a finite map.  From a new dictionary, whatever the
    hash function, with rehashing under way at any time and resizing allowed
    or not, every sequence of fewer than [2^60] lookups, additions,
    replacements, deletions, rehashing steps, shrinkings and clearings is well
    defined and answered as a finite map answers it, and an iteration at the
    end returns every binding of the map once. *)
Theorem dict_refines_map {K V} `{Countable K} (hashFunction : K -> Z) (cfg : settings) (ops : list (dict_op K V)) :
  Forall op_ok ops -> Z.of_nat (length ops) < 2 ^ 60 ->
  exists cfg' d l, run_ops hashFunction cfg dictCreate ops = Ret (cfg', d, (map_ops ∅ ops).2) /\
    dict_iterate d = Ret l /\ l ≡ₚ map_to_list (map_ops ∅ ops).1.
Proof.
  intros Ho Hl. destruct (created hashFunction ops cfg Ho Hl) as (cfg' & d & E & W & Em & _). exists cfg', d, (entries d).
  split; [exact E|]. split; [by apply (iterate_spec hashFunction)|]. rewrite <- Em. by apply (entries_list hashFunction).
Qed.

(** C25. Rehashing ends: in the state that any sequence of operations leaves,
    at most one step for each bucket of the old table and one more finish it,
    the second table is gone, and the bindings are the same. *)
Theorem rehash_completes {K V} `{Countable K} (hashFunction : K -> Z) (cfg cfg' : settings) (ops : list (dict_op K V)) d answers :
  Forall op_ok ops -> Z.of_nat (length ops) < 2 ^ 60 -> run_ops hashFunction cfg dictCreate ops = Ret (cfg', d, answers) ->
  exists d' l l', rehash_steps hashFunction (Z.to_nat (ht_size (ht0 d) + 1)) d = Ret d' /\ dictIsRehashing d' = false /\ ht1 d' = _dictReset /\
    dict_iterate d = Ret l /\ dict_iterate d' = Ret l' /\ l' ≡ₚ l.
Proof.
  intros Ho Hl Hrun. destruct (created hashFunction ops cfg Ho Hl) as (cfg2 & d2 & E & W & _ & Hp & _). rewrite E in Hrun. injection Hrun as <- <- _.
  destruct (rehash_ends hashFunction d2 W Hp) as (d' & Er & Sm & Hd). exists d', (entries d2), (entries d'). split; [exact Er|]. split; [exact Hd|].
  split; [|split; [by apply (iterate_spec hashFunction)|split; [apply (iterate_spec hashFunction), Sm|apply Sm]]].
  apply (wf_idle _ _ (same_wf _ _ _ Sm)). unfold dictIsRehashing in Hd. destruct (Z.eqb_spec (rehashidx d') (-1)); [done|discriminate].
Qed.

(** A dictionary with the hash of Kanban whose fifth key starts a rehashing. *)
Definition sample_hash : str -> Z := dictSdsHash (L "0123456789abcdef").
Definition sample_cfg : settings := mk_settings true (fun _ _ _ => true).
Definition sample_ops : list (dict_op str nat) :=
  [Op_add (L "a") 1; Op_add (L "b") 2; Op_add (L "c") 3; Op_replace (L "b") 4; Op_add (L "d") 5; Op_add (L "e") 6]%nat.

Lemma sample_ops_ok : Forall op_ok sample_ops /\ Z.of_nat (length sample_ops) < 2 ^ 60.
Proof. split; [repeat constructor|vm_compute; reflexivity]. Qed.

Lemma dict_refines_map_witness : exists cfg' d l,
  run_ops sample_hash sample_cfg dictCreate (sample_ops ++ [Op_find (L "b"); Op_delete (L "a"); Op_find (L "a"); Op_find (L "e")]) =
    Ret (cfg', d, [Status true; Status true; Status true; Status false; Status true; Status true; Found (Some 4%nat); Status true; Found None; Found (Some 6%nat)]) /\
  dict_iterate d = Ret l /\ length l = 4%nat.
Proof.
  destruct (dict_refines_map sample_hash sample_cfg (sample_ops ++ [Op_find (L "b"); Op_delete (L "a"); Op_find (L "a"); Op_find (L "e")])) as (cfg' & d & l & E & Ei & P);
    [repeat constructor|vm_compute; reflexivity|].
  exists cfg', d, l. split; [rewrite E; f_equal; f_equal; vm_compute; reflexivity|]. split; [exact Ei|]. rewrite P. vm_compute. reflexivity.
Defined.

Lemma rehash_completes_witness : exists cfg' d answers d', run_ops sample_hash sample_cfg dictCreate sample_ops = Ret (cfg', d, answers) /\
  dictIsRehashing d = true /\ rehash_steps sample_hash 5 d = Ret d' /\ dictIsRehashing d' = false.
Proof.
  assert (E : exists d answers, run_ops sample_hash sample_cfg dictCreate sample_ops = Ret (sample_cfg, d, answers) /\ dictIsRehashing d = true /\ ht_size (ht0 d) = 4)
    by (eexists _, _; split; [vm_compute; reflexivity|]; split; reflexivity).
  destruct E as (d & answers & E & Hr & Hz).
  destruct (rehash_completes sample_hash sample_cfg sample_cfg sample_ops d answers (proj1 sample_ops_ok) (proj2 sample_ops_ok) E) as (d' & l & l' & Es & Hd & _).
  rewrite Hz in Es. exists sample_cfg, d, answers, d'. split; [exact E|]. split; [exact Hr|]. split; [exact Es|exact Hd].
Defined.
