(* ===== verification/DictScan.v ===== *)
(** * Scanning the hash tables of Kanban

    [dictScan] of src/kanban/src/dict.c: an iteration in calls that keep nothing
    but a cursor, between which the dictionary may change and be resized.  The
    cursor counts in its reversed bits, so that it stands for a point in the
    order of the reversed hashes.  The theorem is the guarantee of the comment
    in the code: an element that is there from the start to the end is
    returned. *)

From Stdlib Require Import String.
From stdpp Require Import fin_maps gmap.
From S2P Require Import Prelude Word Siphash Dict DictFacts.

Local Open Scope Z_scope.

(** ** Reversing bits *)

(** The loop of [rev] makes six turns. *)
Fixpoint rev_loop (fuel : nat) (s mask v : Z) : Z :=
  match fuel with
  | O => v
  | S fuel =>
    let s := Z.shiftr s 1 in
    if 0 <? s then
      let mask := Z.lxor mask (shl64 mask s) in
      rev_loop fuel s mask (Z.lor (Z.land (Z.shiftr v s) mask) (Z.land (shl64 v s) (lnot64 mask)))
    else v
  end.

Definition rev64 (v : Z) : Z := rev_loop 7 64 (2 ^ 64 - 1) v.

(** Increments the reversed cursor on the bits of a mask. *)
Definition next_cursor (v m : Z) : Z := rev64 (u64 (rev64 (Z.lor v (lnot64 m)) + 1)).

Section Scan.
Context {K V : Type} `{EqDecision K} (hashFunction : K -> Z).

Notation entry := (K * V)%type.
Notation dictht := (dictht K V).
Notation dict := (dict K V).

Definition scan_bucket (ht : dictht) (v : Z) : outcome (list entry) := deref (ht_table ht !! Z.to_nat (Z.land v (ht_sizemask ht))).

(** The expansions of the cursor in the larger table. *)
Fixpoint scan_loop (fuel : nat) (t1 : dictht) (m0 m1 v : Z) : outcome (list entry * Z) :=
  match fuel with
  | O => NoFuel
  | S fuel =>
    es ← scan_bucket t1 v;
    let v := next_cursor v m1 in
    if Z.land v (Z.lxor m0 m1) =? 0 then Ret (es, v)
    else '(more, v) ← scan_loop fuel t1 m0 m1 v; Ret (es ++ more, v)
  end.

(** The entries that [fn] is called with, and the new cursor.  Rehashing is
    paused for the call, and the dictionary does not change. *)
Definition dictScan (d : dict) (v : Z) : outcome (list entry * Z) :=
  if dictSize d =? 0 then Ret ([], 0)
  else if negb (dictIsRehashing d) then
    es ← scan_bucket (ht0 d) v;
    Ret (es, next_cursor v (ht_sizemask (ht0 d)))
  else
    let '(t0, t1) := if ht_size (ht1 d) <? ht_size (ht0 d) then (ht1 d, ht0 d) else (ht0 d, ht1 d) in
    es ← scan_bucket t0 v;
    '(more, v) ← scan_loop (length (ht_table t1)) t1 (ht_sizemask t0) (ht_sizemask t1) v;
    Ret (es ++ more, v).

(** Calls with the cursor that the last one returned, with operations in
    between, until it is 0 again. *)
Fixpoint scan_rounds (rounds : list (list (dict_op K V))) (cfg : settings) (d : dict) (v : Z) : outcome (list entry * Z) :=
  '(es, v) ← dictScan d v;
  match rounds with
  | [] => Ret (es, v)
  | ops :: rounds =>
    if v =? 0 then Ret (es, v)
    else
      '(cfg, d, _) ← run_ops hashFunction cfg d ops;
      '(more, v) ← scan_rounds rounds cfg d v;
      Ret (es ++ more, v)
  end.

End Scan.

(** ** Theorems: the reversed bits *)

Lemma all_below_64 (P : Z -> bool) : forallb (fun n => P (Z.of_nat n)) (seq 0 64) = true -> forall i, 0 <= i < 64 -> P i = true.
Proof.
  intros Hf i Hi. rewrite forallb_forall in Hf. specialize (Hf (Z.to_nat i)). rewrite Z2Nat.id in Hf by lia. apply Hf, in_seq. lia.
Qed.

(** One turn: the mask says of each bit whether it comes from above or below,
    and the two halves of each block change places. *)
Definition turn (mask s v : Z) : Z := Z.lor (Z.land (Z.shiftr v s) mask) (Z.land (shl64 v s) (lnot64 mask)).

Definition swaps (mask s i : Z) : bool := ((if Z.testbit mask i then i + s else i - s) =? Z.lxor i s) && (0 <=? Z.lxor i s) && (Z.lxor i s <? 64).

Lemma turn_bits mask s v i : 0 <= s -> 0 <= i < 64 -> swaps mask s i = true ->
  Z.testbit (turn mask s v) i = Z.testbit v (Z.lxor i s) /\ 0 <= Z.lxor i s < 64.
Proof.
  intros Hs Hi [[E%Z.eqb_eq H1%Z.leb_le]%andb_prop H2%Z.ltb_lt]%andb_prop. split; [|lia]. unfold turn.
  rewrite Z.lor_spec, !Z.land_spec, Z.shiftr_spec, testbit_lnot64 by lia. unfold shl64. rewrite testbit_u64, Z.shiftl_spec by lia. rewrite <- E.
  destruct (Z.testbit mask i); cbn [negb]; rewrite ?andb_true_r, ?andb_false_r, ?orb_false_r; reflexivity.
Qed.

Definition turns : list (Z * Z) :=
  [(4294967295, 32); (281470681808895, 16); (71777214294589695, 8); (1085102592571150095, 4); (3689348814741910323, 2); (6148914691236517205, 1)].

Lemma rev_loop_turn fuel s mask v s' mask' : Z.shiftr s 1 = s' -> 0 < s' -> Z.lxor mask (shl64 mask s') = mask' ->
  rev_loop (S fuel) s mask v = rev_loop fuel s' mask' (turn mask' s' v).
Proof. intros <- Hs <-. cbn [rev_loop]. by rewrite (proj2 (Z.ltb_lt _ _) Hs). Qed.

Lemma rev64_turns v : rev64 v = foldl (fun v x => turn (fst x) (snd x) v) v turns.
Proof.
  unfold rev64, turns. cbn [foldl fst snd].
  rewrite (rev_loop_turn 6 64 _ v 32 4294967295), (rev_loop_turn 5 32 _ _ 16 281470681808895), (rev_loop_turn 4 16 _ _ 8 71777214294589695),
    (rev_loop_turn 3 8 _ _ 4 1085102592571150095), (rev_loop_turn 2 4 _ _ 2 3689348814741910323), (rev_loop_turn 1 2 _ _ 1 6148914691236517205)
    by (vm_compute; reflexivity). reflexivity.
Qed.

Lemma turns_bits l v i : Forall (fun x => 0 <= snd x /\ forall i, 0 <= i < 64 -> swaps (fst x) (snd x) i = true) l -> 0 <= i < 64 ->
  Z.testbit (foldl (fun v x => turn (fst x) (snd x) v) v l) i = Z.testbit v (foldr (fun x i => Z.lxor i (snd x)) i l) /\
  0 <= foldr (fun x i => Z.lxor i (snd x)) i l < 64.
Proof.
  revert v. induction l as [|[m s] l IH]; intros v Hl Hi; cbn [foldl foldr fst snd]; [done|]. inversion_clear Hl as [|? ? [Hs Hm] Hl'].
  destruct (IH (turn m s v) Hl' Hi) as [-> Hr]. exact (turn_bits m s v _ Hs Hr (Hm _ Hr)).
Qed.

Lemma rev64_bits v i : 0 <= i < 64 -> Z.testbit (rev64 v) i = Z.testbit v (63 - i).
Proof.
  intros Hi. rewrite rev64_turns. destruct (turns_bits turns v i) as [-> _]; [|exact Hi|].
  - unfold turns. repeat constructor; cbn [fst snd]; try lia; apply all_below_64; vm_compute; reflexivity.
  - f_equal. apply Z.eqb_eq. revert i Hi. apply all_below_64. vm_compute. reflexivity.
Qed.

Lemma turn_range m s v : 0 <= m < 2 ^ 64 -> 0 <= turn m s v < 2 ^ 64.
Proof.
  intros Hm. unfold turn. pose proof (land_range (Z.shiftr v s) m 64 ltac:(lia) Hm) as H1.
  pose proof (land_range (shl64 v s) (lnot64 m) 64 ltac:(lia) (u64_range _)) as H2. revert H1 H2.
  generalize (Z.land (Z.shiftr v s) m) (Z.land (shl64 v s) (lnot64 m)). intros x y Hx Hy.
  assert (0 <= Z.lor x y) by (apply Z.lor_nonneg; lia). split; [done|]. destruct (Z.eq_dec (Z.lor x y) 0) as [-> |Hne]; [lia|].
  apply Z.log2_lt_pow2; [lia|]. rewrite Z.log2_lor by lia.
  assert (L : forall z, 0 <= z < 2 ^ 64 -> Z.log2 z < 64) by (intros z Hz; destruct (Z.eq_dec z 0) as [-> |]; [done|apply Z.log2_lt_pow2; lia]).
  apply Z.max_lub_lt; by apply L.
Qed.

Lemma rev64_range v : 0 <= rev64 v < 2 ^ 64.
Proof. rewrite rev64_turns. unfold turns. cbn [foldl fst snd]. apply turn_range. lia. Qed.

Lemma rev64_invol v : 0 <= v < 2 ^ 64 -> rev64 (rev64 v) = v.
Proof.
  intros Hv. apply all_bits_eq; [apply rev64_range|exact Hv|]. intros n Hn. rewrite !rev64_bits by lia. f_equal. lia.
Qed.

(** A multiple of a power of two has no bits below. *)
Lemma multiple_bits x n : 0 <= n -> x mod 2 ^ n = 0 <-> forall j, 0 <= j < n -> Z.testbit x j = false.
Proof.
  intros Hn. split.
  - intros E j Hj. rewrite <- (Z.mod_pow2_bits_low x n j) by lia. rewrite E. apply Z.bits_0.
  - intros Hb. apply Z.bits_inj'. intros j Hj. rewrite Z.bits_0. destruct (Z.lt_ge_cases j n) as [Hl|Hl].
    + rewrite Z.mod_pow2_bits_low by lia. apply Hb. lia.
    + apply Z.mod_pow2_bits_high. lia.
Qed.

(** A bucket is an interval of reversed hashes. *)
Lemma same_bucket h v k : 0 <= k <= 64 ->
  Z.land h (2 ^ k - 1) = Z.land v (2 ^ k - 1) <-> rev64 h / 2 ^ (64 - k) = rev64 v / 2 ^ (64 - k).
Proof.
  intros Hk. rewrite !land_mask by lia. split.
  - intros E. apply Z.bits_inj'. intros i Hi. rewrite !Z.div_pow2_bits by lia. destruct (Z.lt_ge_cases i k) as [Hl|Hl].
    + rewrite !rev64_bits by lia. rewrite <- (Z.mod_pow2_bits_low h k), <- (Z.mod_pow2_bits_low v k) by lia. by rewrite E.
    + rewrite <- (u64_small (rev64 h)), <- (u64_small (rev64 v)) by apply rev64_range. unfold u64. by rewrite !Z.mod_pow2_bits_high by lia.
  - intros E. apply Z.bits_inj'. intros i Hi. destruct (Z.lt_ge_cases i k) as [Hl|Hl]; [|by rewrite !Z.mod_pow2_bits_high by lia].
    rewrite !Z.mod_pow2_bits_low by lia. apply (f_equal (fun x => Z.testbit x (k - 1 - i))) in E. rewrite !Z.div_pow2_bits in E by lia.
    replace (k - 1 - i + (64 - k)) with (63 - i) in E by lia. rewrite !rev64_bits in E by lia. by replace (63 - (63 - i)) with i in E by lia.
Qed.

(** The cursor goes to the end of the interval. *)
Lemma next_position v k : 0 <= k <= 64 -> rev64 (next_cursor v (2 ^ k - 1)) = u64 ((rev64 v / 2 ^ (64 - k) + 1) * 2 ^ (64 - k)).
Proof.
  intros Hk. unfold next_cursor. rewrite rev64_invol by apply u64_range. f_equal. set (y := Z.lor v (lnot64 (2 ^ k - 1))).
  assert (Em : 2 ^ k - 1 = Z.ones k) by (rewrite Z.ones_equiv; lia).
  assert (Hq : rev64 y / 2 ^ (64 - k) = rev64 v / 2 ^ (64 - k)).
  { apply same_bucket; [exact Hk|]. rewrite !land_mask by lia. apply Z.bits_inj'. intros i Hi.
    destruct (Z.lt_ge_cases i k) as [Hl|Hl]; [|by rewrite !Z.mod_pow2_bits_high by lia]. rewrite !Z.mod_pow2_bits_low by lia.
    unfold y. rewrite Z.lor_spec, testbit_lnot64, Em, Z.ones_spec_low by lia. apply orb_false_r. }
  assert (Hr : rev64 y mod 2 ^ (64 - k) = Z.ones (64 - k)).
  { apply Z.bits_inj'. intros i Hi. destruct (Z.lt_ge_cases i (64 - k)) as [Hl|Hl]; [|by rewrite Z.mod_pow2_bits_high, Z.ones_spec_high by lia].
    rewrite Z.mod_pow2_bits_low, Z.ones_spec_low, rev64_bits by lia. unfold y.
    rewrite Z.lor_spec, testbit_lnot64, Em, Z.ones_spec_high by lia. apply orb_true_r. }
  rewrite Z.ones_equiv in Hr. pose proof (Z.div_mod (rev64 y) (2 ^ (64 - k)) ltac:(apply Z.pow_nonzero; lia)) as Hd. rewrite Hq, Hr in Hd. lia.
Qed.

Lemma next_cursor_range v m : 0 <= next_cursor v m < 2 ^ 64.
Proof. apply rev64_range. Qed.

(** The test at the end of the loop: the cursor is at the end of an interval of
    the smaller table. *)
Lemma cursor_aligned v k0 k1 : 0 <= k0 <= k1 -> k1 <= 64 -> rev64 v mod 2 ^ (64 - k1) = 0 ->
  Z.land v (Z.lxor (2 ^ k0 - 1) (2 ^ k1 - 1)) = 0 <-> rev64 v mod 2 ^ (64 - k0) = 0.
Proof.
  intros Hk Hk1 Ha. rewrite multiple_bits in Ha |- * by lia.
  assert (Hm : forall i, 0 <= i -> Z.testbit (Z.lxor (2 ^ k0 - 1) (2 ^ k1 - 1)) i = (k0 <=? i) && (i <? k1)).
  { intros i Hi. replace (2 ^ k0 - 1) with (Z.ones k0) by (rewrite Z.ones_equiv; lia). replace (2 ^ k1 - 1) with (Z.ones k1) by (rewrite Z.ones_equiv; lia).
    rewrite Z.lxor_spec, !Z.testbit_ones_nonneg by lia. destruct (Z.ltb_spec i k0), (Z.ltb_spec i k1), (Z.leb_spec k0 i); try reflexivity; lia. }
  split.
  - intros E j Hj. destruct (Z.lt_ge_cases j (64 - k1)) as [Hl|Hl]; [apply Ha; lia|]. rewrite rev64_bits by lia.
    apply (f_equal (fun x => Z.testbit x (63 - j))) in E. rewrite Z.land_spec, Z.bits_0, Hm in E by lia.
    replace ((k0 <=? 63 - j) && (63 - j <? k1)) with true in E by lia. by rewrite andb_true_r in E.
  - intros Hb. apply Z.bits_inj'. intros i Hi. rewrite Z.bits_0, Z.land_spec, Hm by lia. destruct (Z.leb_spec k0 i), (Z.ltb_spec i k1); rewrite ?andb_false_r; try reflexivity.
    specialize (Hb (63 - i) ltac:(lia)). rewrite rev64_bits in Hb by lia. replace (63 - (63 - i)) with i in Hb by lia. by rewrite Hb.
Qed.

Lemma same_quotient x y n : 0 < n -> y <= x < (y / n + 1) * n -> x / n = y / n.
Proof.
  intros Hn Hx. pose proof (Z.div_mod y n ltac:(lia)). pose proof (Z.mod_pos_bound y n Hn).
  symmetry. apply (Z.div_unique _ _ _ (x - y / n * n)); lia.
Qed.

#[local] Opaque rev64.

Section ScanFacts.
Context {K V : Type} `{Countable K} (hashFunction : K -> Z).

Notation entry := (K * V)%type.
Notation dictht := (dictht K V).
Notation dict := (dict K V).
Notation wf := (wf hashFunction).
Notation table_ok := (table_ok hashFunction).

(** The place of a key in the order of the cursor. *)
Definition place (e : entry) : Z := rev64 (hashFunction (fst e)).

(** The end of the interval of a cursor in a table of [2^k] buckets. *)
Definition interval_end (v k : Z) : Z := (rev64 v / 2 ^ (64 - k) + 1) * 2 ^ (64 - k).

Lemma interval_bounds v k : 0 <= k <= 64 -> rev64 v < interval_end v k <= 2 ^ 64 /\ interval_end v k - 2 ^ (64 - k) <= rev64 v.
Proof.
  intros Hk. unfold interval_end. pose proof (rev64_range v) as Hr. assert (Hp : 0 < 2 ^ (64 - k)) by (apply Z.pow_pos_nonneg; lia).
  pose proof (Z.div_mod (rev64 v) (2 ^ (64 - k)) ltac:(lia)) as Hd. pose proof (Z.mod_pos_bound (rev64 v) _ Hp) as Hm.
  assert (Hq : rev64 v / 2 ^ (64 - k) < 2 ^ k) by (apply Z.div_lt_upper_bound; [lia|rewrite <- Z.pow_add_r by lia; replace (64 - k + k) with 64 by lia; lia]).
  assert (Hp2 : 2 ^ 64 = 2 ^ k * 2 ^ (64 - k)) by (rewrite <- Z.pow_add_r by lia; f_equal; lia). nia.
Qed.

(** A bucket has the entries whose place is in the interval. *)
Lemma scan_bucket_spec ht k v : table_ok ht k -> exists b, scan_bucket ht v = Ret b /\ (forall e, e ∈ b -> e ∈ concat (ht_table ht)) /\
  forall e, e ∈ concat (ht_table ht) -> rev64 v <= place e < interval_end v k -> e ∈ b.
Proof.
  intros T. pose proof (tb_k _ _ _ T) as Hk. unfold scan_bucket. rewrite (tb_mask _ _ _ T). pose proof (mask_range v k Hk) as Hr.
  destruct (lookup_lt_is_Some_2 (ht_table ht) (Z.to_nat (Z.land v (2 ^ k - 1)))) as [b Hb]; [rewrite (tb_length _ _ _ T); lia|].
  rewrite Hb. exists b. split; [reflexivity|]. split; [intros e He; apply elem_concat; eauto|].
  intros e (i & c & Hi & He)%elem_concat Hp. pose proof (tb_hash _ _ _ T i c e Hi He) as Hh. rewrite (tb_mask _ _ _ T) in Hh.
  assert (E : Z.land (hashFunction (fst e)) (2 ^ k - 1) = Z.land v (2 ^ k - 1)).
  { apply same_bucket; [lia|]. unfold place, interval_end in Hp. apply same_quotient; [apply Z.pow_pos_nonneg; lia|exact Hp]. }
  rewrite <- E, Hh, Nat2Z.id, Hi in Hb. by injection Hb as <-.
Qed.

Lemma interval_aligned v k k' : 0 <= k <= k' -> k' <= 64 -> interval_end v k mod 2 ^ (64 - k') = 0.
Proof.
  intros Hk Hk'. unfold interval_end. generalize (rev64 v / 2 ^ (64 - k)). intros q.
  replace (2 ^ (64 - k)) with (2 ^ (k' - k) * 2 ^ (64 - k')) by (rewrite <- Z.pow_add_r by lia; f_equal; lia).
  rewrite Z.mul_assoc. apply Z.mod_mul. apply Z.pow_nonzero; lia.
Qed.

Lemma interval_least v k x : 0 <= k <= 64 -> rev64 v < x -> x mod 2 ^ (64 - k) = 0 -> interval_end v k <= x.
Proof.
  intros Hk Hx Ha. unfold interval_end. assert (Hp : 0 < 2 ^ (64 - k)) by (apply Z.pow_pos_nonneg; lia).
  pose proof (Z.div_mod x (2 ^ (64 - k)) ltac:(lia)) as Hd. rewrite Ha in Hd. pose proof (Z.div_mod (rev64 v) (2 ^ (64 - k)) ltac:(lia)) as Hv.
  pose proof (Z.mod_pos_bound (rev64 v) _ Hp).
  assert (rev64 v / 2 ^ (64 - k) < x / 2 ^ (64 - k)) by (apply (Z.mul_lt_mono_pos_l (2 ^ (64 - k))); lia). nia.
Qed.

(** What a call comes to: the cursor is at [hi], and what is before it and not
    before the old cursor has been returned. *)
Definition scanned (l : list entry) (v hi : Z) (r : outcome (list entry * Z)) : Prop :=
  exists es v', r = Ret (es, v') /\ (forall e, e ∈ es -> e ∈ l) /\ 0 <= v' < 2 ^ 64 /\ rev64 v' = u64 hi /\
    forall e, e ∈ l -> rev64 v <= place e < hi -> e ∈ es.

Lemma u64_aligned x k : 0 <= k <= 64 -> u64 x mod 2 ^ k = x mod 2 ^ k.
Proof.
  intros Hk. symmetry. apply Znumtheory.Zmod_div_mod; [apply Z.pow_pos_nonneg; lia|lia|]. exists (2 ^ (64 - k)).
  rewrite <- Z.pow_add_r by lia. f_equal. lia.
Qed.

Lemma scan_loop_spec t1 k0 k1 : table_ok t1 k1 -> 0 <= k0 <= k1 -> forall fuel v,
  interval_end v k0 / 2 ^ (64 - k1) - rev64 v / 2 ^ (64 - k1) <= Z.of_nat fuel ->
  scanned (concat (ht_table t1)) v (interval_end v k0) (scan_loop fuel t1 (2 ^ k0 - 1) (2 ^ k1 - 1) v).
Proof.
  intros T Hk. pose proof (tb_k _ _ _ T) as Hk1. assert (Hp : 0 < 2 ^ (64 - k1)) by (apply Z.pow_pos_nonneg; lia).
  induction fuel as [|fuel IH]; intros v Hf.
  { exfalso. destruct (interval_bounds v k0 ltac:(lia)) as [[Hlt _] _]. pose proof (interval_aligned v k0 k1 Hk ltac:(lia)) as Ha.
    pose proof (Z.div_mod (interval_end v k0) (2 ^ (64 - k1)) ltac:(lia)). pose proof (Z.div_mod (rev64 v) (2 ^ (64 - k1)) ltac:(lia)).
    pose proof (Z.mod_pos_bound (rev64 v) _ Hp). nia. }
  cbn [scan_loop]. destruct (scan_bucket_spec t1 k1 v T) as (es & -> & Hsub & Hcov). rewrite bind_ret. cbv zeta.
  pose proof (next_position v k1 ltac:(lia)) as En. fold (interval_end v k1) in En. set (v1 := next_cursor v (2 ^ k1 - 1)) in *.
  pose proof (next_cursor_range v (2 ^ k1 - 1)) as Hv1. fold v1 in Hv1.
  destruct (interval_bounds v k0 ltac:(lia)) as [[Hlt0 Hle0] Hlo0]. destruct (interval_bounds v k1 ltac:(lia)) as [[Hlt1 Hle1] _].
  pose proof (interval_least v k1 _ ltac:(lia) Hlt0 (interval_aligned v k0 k1 Hk ltac:(lia))) as Hle.
  assert (Ha1 : rev64 v1 mod 2 ^ (64 - k1) = 0) by (rewrite En, u64_aligned by lia; apply interval_aligned; lia).
  pose proof (cursor_aligned v1 k0 k1 Hk ltac:(lia) Ha1) as Hal. rewrite En, u64_aligned in Hal by lia.
  destruct (Z.eqb_spec (Z.land v1 (Z.lxor (2 ^ k0 - 1) (2 ^ k1 - 1))) 0) as [Hz|Hz].
  - assert (He : interval_end v k1 = interval_end v k0) by (pose proof (interval_least v k0 _ ltac:(lia) Hlt1 (proj1 Hal Hz)); lia).
    exists es, v1. rewrite <- He. split; [reflexivity|]. split; [exact Hsub|]. split; [exact Hv1|]. split; [exact En|exact Hcov].
  - assert (Hne : interval_end v k1 < interval_end v k0).
    { destruct (Z.eq_dec (interval_end v k1) (interval_end v k0)) as [E|]; [|lia]. destruct Hz. apply Hal. rewrite E. apply interval_aligned; lia. }
    rewrite u64_small in En by (pose proof (rev64_range v); lia).
    assert (He : interval_end v1 k0 = interval_end v k0).
    { unfold interval_end. do 2 f_equal. apply same_quotient; [apply Z.pow_pos_nonneg; lia|]. fold (interval_end v k0). lia. }
    destruct (IH v1) as (es' & v' & -> & Hsub' & Hr' & Hv' & Hcov').
    { rewrite He, En. unfold interval_end at 2. rewrite Z.div_mul by lia. lia. }
    rewrite bind_ret, He in *. exists (es ++ es'), v'. split; [reflexivity|]. split; [intros e [?|?]%elem_of_app; auto|]. split; [exact Hr'|]. split; [exact Hv'|].
    intros e He' Hpl. apply elem_of_app. destruct (Z.lt_ge_cases (place e) (interval_end v k1)) as [Hl|Hl]; [left; apply Hcov; [done|lia]|right; apply Hcov'; [done|lia]].
Qed.

Lemma rev64_0 : rev64 0 = 0.
Proof. apply all_bits_eq; [apply rev64_range|lia|]. intros n Hn. by rewrite rev64_bits, !Z.bits_0 by lia. Qed.

Lemma rev64_zero v : 0 <= v < 2 ^ 64 -> rev64 v = 0 -> v = 0.
Proof. intros Hv E. by rewrite <- (rev64_invol v Hv), E, rev64_0. Qed.

(** Both tables during rehashing, the smaller one first. *)
Lemma scan_two_spec t0 t1 k0 k1 v : table_ok t0 k0 -> table_ok t1 k1 -> k0 <= k1 ->
  scanned (concat (ht_table t0) ++ concat (ht_table t1)) v (interval_end v k0)
    (es ← scan_bucket t0 v;
     '(more, v) ← scan_loop (length (ht_table t1)) t1 (ht_sizemask t0) (ht_sizemask t1) v;
     Ret (es ++ more, v)).
Proof.
  intros T0 T1 Hk. pose proof (tb_k _ _ _ T0) as Hk0. pose proof (tb_k _ _ _ T1) as Hk1. rewrite (tb_mask _ _ _ T0), (tb_mask _ _ _ T1).
  destruct (scan_bucket_spec t0 k0 v T0) as (es & -> & Hsub & Hcov). rewrite bind_ret.
  destruct (scan_loop_spec t1 k0 k1 T1 ltac:(lia) (length (ht_table t1)) v) as (es' & v' & -> & Hsub' & Hr & Hv' & Hcov').
  { rewrite (tb_length _ _ _ T1), Z2Nat.id by (apply Z.pow_nonneg; lia). destruct (interval_bounds v k0 ltac:(lia)) as [[_ Hle] _]. pose proof (rev64_range v).
    assert (Hp : 0 < 2 ^ (64 - k1)) by (apply Z.pow_pos_nonneg; lia). assert (0 <= rev64 v / 2 ^ (64 - k1)) by (apply Z.div_pos; lia).
    apply Z.le_trans with (2 ^ 64 / 2 ^ (64 - k1)); [pose proof (Z.div_le_mono _ _ _ Hp Hle); lia|]. rewrite <- Z.pow_sub_r by lia. apply Z.pow_le_mono_r; lia. }
  rewrite bind_ret. exists (es ++ es'), v'. split; [reflexivity|]. split; [|split; [exact Hr|split; [exact Hv'|]]].
  - intros e [He|He]%elem_of_app; apply elem_of_app; auto.
  - intros e [He|He]%elem_of_app Hpl; apply elem_of_app; auto.
Qed.

Lemma scan_spec d v : wf d -> exists hi, scanned (entries d) v hi (dictScan d v) /\ rev64 v < hi <= 2 ^ 64 /\
  forall k, 0 <= k <= 64 -> ht_size (ht0 d) <= 2 ^ k -> ht_size (ht1 d) <= 2 ^ k -> hi mod 2 ^ (64 - k) = 0.
Proof.
  intros W. unfold dictScan, dictSize. destruct (used_zero _ d W) as [U0 U1]. pose proof (wf_small _ _ W) as Hs. unfold entries in Hs. rewrite length_app in Hs.
  rewrite U0, U1, u64_small by lia. destruct (Z.eqb_spec (Z.of_nat (length (concat (ht_table (ht0 d)))) + Z.of_nat (length (concat (ht_table (ht1 d))))) 0) as [Hz|Hz].
  - exists (2 ^ 64). split; [|split; [pose proof (rev64_range v); lia|]].
    + exists [], 0. split; [reflexivity|]. split; [by intros e ?%not_elem_of_nil|]. split; [lia|]. split; [rewrite rev64_0; reflexivity|].
      intros e He. unfold entries in He. destruct (concat (ht_table (ht0 d))), (concat (ht_table (ht1 d))); cbn in Hz; try lia. by apply not_elem_of_nil in He.
    + intros k Hk _ _. replace 64 with (k + (64 - k)) at 1 by lia. rewrite Z.pow_add_r by lia. apply Z.mod_mul. apply Z.pow_nonzero; lia.
  - destruct (nonempty_table _ d W) as [k0 T0]; [unfold entries; intros E; apply (f_equal length) in E; rewrite length_app in E; cbn in E; lia|].
    pose proof (tb_k _ _ _ T0) as Hk0. assert (Hpow : forall a b, 0 <= b -> 2 ^ a <= 2 ^ b -> a <= b) by (intros a b ? ?; by apply (Z.pow_le_mono_r_iff 2)).
    unfold dictIsRehashing. destruct (Z.eqb_spec (rehashidx d) (-1)) as [Hr|Hr]; cbn [negb].
    + exists (interval_end v k0). destruct (interval_bounds v k0 ltac:(lia)) as [Hb _]. split; [|split; [exact Hb|]].
      * destruct (scan_bucket_spec _ k0 v T0) as (es & -> & Hsub & Hcov). rewrite bind_ret, (tb_mask _ _ _ T0). eexists _, _. split; [reflexivity|].
        unfold entries. rewrite (wf_idle _ _ W Hr). cbn [_dictReset ht_table concat]. rewrite app_nil_r. split; [exact Hsub|].
        split; [apply next_cursor_range|]. split; [apply next_position; lia|exact Hcov].
      * intros k Hk Hz0 _. rewrite (tb_size _ _ _ T0) in Hz0. apply interval_aligned; [split; [lia|apply Hpow; lia]|lia].
    + destruct (wf_busy _ _ W Hr) as ((k0' & k1 & T0' & T1) & _). clear k0 T0 Hk0. rename k0' into k0, T0' into T0. pose proof (tb_k _ _ _ T0) as Hk0. pose proof (tb_k _ _ _ T1) as Hk1.
      rewrite (tb_size _ _ _ T0), (tb_size _ _ _ T1). destruct (Z.ltb_spec (2 ^ k1) (2 ^ k0)) as [Hl|Hl].
      * exists (interval_end v k1). destruct (interval_bounds v k1 ltac:(lia)) as [Hb _]. split; [|split; [exact Hb|]].
        -- destruct (scan_two_spec _ _ _ _ v T1 T0 ltac:(apply Hpow; lia)) as (es & v' & -> & Hsub & Hr' & Hv' & Hcov). exists es, v'. split; [reflexivity|].
           split; [intros e He; unfold entries; rewrite Permutation_app_comm; by apply Hsub|]. split; [exact Hr'|]. split; [exact Hv'|].
           intros e He. apply Hcov. rewrite Permutation_app_comm. exact He.
        -- intros k Hk _ Hz1. apply interval_aligned; [split; [lia|apply Hpow; lia]|lia].
      * exists (interval_end v k0). destruct (interval_bounds v k0 ltac:(lia)) as [Hb _]. split; [|split; [exact Hb|]].
        -- exact (scan_two_spec _ _ _ _ v T0 T1 ltac:(apply Hpow; lia)).
        -- intros k Hk Hz0 _. apply interval_aligned; [split; [lia|apply Hpow; lia]|lia].
Qed.

(** ** Sessions *)

(** A key is in the map at every call of a session, and a binding at one. *)
Fixpoint present (key : K) (m : gmap K V) (rounds : list (list (dict_op K V))) : Prop :=
  is_Some (m !! key) /\ match rounds with [] => True | ops :: rounds => present key (map_ops m ops).1 rounds end.

Fixpoint seen (e : entry) (m : gmap K V) (rounds : list (list (dict_op K V))) : Prop :=
  m !! fst e = Some (snd e) \/ match rounds with [] => False | ops :: rounds => seen e (map_ops m ops).1 rounds end.

Lemma seen_now e m rounds : m !! fst e = Some (snd e) -> seen e m rounds.
Proof. destruct rounds; cbn; by left. Qed.

(** A call in terms of the map: the cursor stands at [hi], or is 0 at the end. *)
Lemma scan_call (d : dict) v : wf d -> exists es v' hi, dictScan d v = Ret (es, v') /\ 0 <= v' < 2 ^ 64 /\
  (forall e, e ∈ es -> dict_map d !! fst e = Some (snd e)) /\ rev64 v < hi <= 2 ^ 64 /\
  (v' = 0 /\ hi = 2 ^ 64 \/ v' <> 0 /\ rev64 v' = hi) /\
  (forall key, is_Some (dict_map d !! key) -> rev64 v <= rev64 (hashFunction key) < hi -> exists x, (key, x) ∈ es) /\
  (forall k, 0 <= k <= 64 -> ht_size (ht0 d) <= 2 ^ k -> ht_size (ht1 d) <= 2 ^ k -> hi mod 2 ^ (64 - k) = 0).
Proof.
  intros W. destruct (scan_spec d v W) as (hi & (es & v' & E & Hsub & Hv' & Hr & Hcov) & Hhi & Hal). pose proof (rev64_range v) as Hv.
  exists es, v', hi. split; [exact E|]. split; [exact Hv'|]. split.
  { intros [key x] He. apply (map_lookup hashFunction); [exact W|]. by apply Hsub. }
  split; [exact Hhi|]. split; [|split; [|exact Hal]].
  - destruct (Z.eq_dec hi (2 ^ 64)) as [-> |Hne].
    + left. split; [|reflexivity]. apply (rev64_zero v' Hv'). exact Hr.
    + right. rewrite u64_small in Hr by lia. split; [|exact Hr]. intros ->. rewrite rev64_0 in Hr. lia.
  - intros key [x Hx] Hpl. apply (map_lookup hashFunction) in Hx; [|exact W]. exists x. by apply Hcov.
Qed.

Lemma scan_rounds_spec rounds : forall cfg d v, wf d -> Forall (Forall op_ok) rounds ->
  Z.of_nat (length (entries d)) + Z.of_nat (length (concat rounds)) < 2 ^ 60 ->
  exists es v', scan_rounds hashFunction rounds cfg d v = Ret (es, v') /\ (forall e, e ∈ es -> seen e (dict_map d) rounds) /\
    forall key, present key (dict_map d) rounds -> v' = 0 -> rev64 v <= rev64 (hashFunction key) -> exists x, (key, x) ∈ es.
Proof.
  induction rounds as [|ops rounds IH]; intros cfg d v W Ho Hs; cbn [scan_rounds present].
  all: destruct (scan_call d v W) as (es & v1 & hi & -> & Hv1 & Hsub & Hhi & Hend & Hcov & _); rewrite bind_ret.
  - exists es, v1. split; [reflexivity|]. split; [intros e He; apply seen_now; auto|]. intros key [Hk _] -> Hpl. apply (Hcov key Hk).
    pose proof (rev64_range (hashFunction key)). destruct Hend as [[_ ->]|[? _]]; [lia|contradiction].
  - destruct (Z.eqb_spec v1 0) as [Hz|Hz].
    { exists es, v1. split; [reflexivity|]. split; [intros e He; apply seen_now; auto|]. intros key [Hk _] _ Hpl. apply (Hcov key Hk).
      pose proof (rev64_range (hashFunction key)). destruct Hend as [[_ ->]|[? _]]; [lia|contradiction]. }
    inversion_clear Ho as [|? ? Ho1 Ho2]. cbn [concat] in Hs. rewrite length_app in Hs.
    destruct (run_ops_spec hashFunction ops cfg d W Ho1 ltac:(lia)) as (cfg' & d' & -> & W' & Em & El & _). rewrite bind_ret.
    destruct (IH cfg' d' v1 W' Ho2 ltac:(lia)) as (es' & v' & -> & Hseen & Hpres). rewrite bind_ret. exists (es ++ es'), v'. split; [reflexivity|]. rewrite <- Em. split.
    + intros e [He|He]%elem_of_app; [apply seen_now; auto|right; rewrite <- Em; auto].
    + intros key [Hk Hks] Hv' Hpl. destruct Hend as [[? _]|[_ Hpos]]; [contradiction|].
      destruct (Z.lt_ge_cases (rev64 (hashFunction key)) hi) as [Hl|Hl].
      * destruct (Hcov key Hk ltac:(lia)) as [x Hx]. exists x. apply elem_of_app. by left.
      * destruct (Hpres key Hks Hv' ltac:(lia)) as [x Hx]. exists x. apply elem_of_app. by right.
Qed.

(** Without changes in between, a session ends within as many calls as the
    larger table has buckets. *)
Lemma scan_quiet_spec n : forall cfg (d : dict) v k, wf d -> 0 <= k <= 64 -> ht_size (ht0 d) <= 2 ^ k -> ht_size (ht1 d) <= 2 ^ k ->
  2 ^ k <= rev64 v / 2 ^ (64 - k) + Z.of_nat n + 1 -> exists es, scan_rounds hashFunction (replicate n []) cfg d v = Ret (es, 0).
Proof.
  induction n as [|n IH]; intros cfg d v k W Hk Hz0 Hz1 Hn; cbn [scan_rounds replicate].
  all: destruct (scan_call d v W) as (es & v1 & hi & -> & Hv1 & _ & Hhi & Hend & _ & Hal); rewrite bind_ret.
  all: specialize (Hal k Hk Hz0 Hz1); assert (Hp : 0 < 2 ^ (64 - k)) by (apply Z.pow_pos_nonneg; lia).
  all: pose proof (Z.div_mod hi (2 ^ (64 - k)) ltac:(lia)) as Hd; pose proof (Z.div_mod (rev64 v) (2 ^ (64 - k)) ltac:(lia)) as Hdv.
  all: pose proof (Z.mod_pos_bound (rev64 v) _ Hp).
  all: assert (Hq : rev64 v / 2 ^ (64 - k) < hi / 2 ^ (64 - k)) by (apply (Z.mul_lt_mono_pos_l (2 ^ (64 - k))); lia).
  all: destruct Hend as [[-> _]|[Hne Hpos]]; [exists es; reflexivity|].
  - exfalso. assert (Hp2 : 2 ^ 64 = 2 ^ k * 2 ^ (64 - k)) by (rewrite <- Z.pow_add_r by lia; f_equal; lia). pose proof (rev64_range v1). nia.
  - replace (v1 =? 0) with false by lia. cbn [run_ops]. rewrite bind_ret.
    destruct (IH cfg d v1 k W Hk Hz0 Hz1) as (es' & ->); [rewrite Hpos; lia|]. rewrite bind_ret. eauto.
Qed.

End ScanFacts.

Section Bounds.
Context {K V : Type} `{Countable K} (hashFunction : K -> Z).

(** The size of the larger table as a power of two. *)
Lemma larger_table (d : dict K V) n : wf hashFunction d -> Z.max (ht_size (ht0 d)) (ht_size (ht1 d)) <= Z.of_nat n + 1 ->
  exists k, 0 <= k <= 64 /\ ht_size (ht0 d) <= 2 ^ k /\ ht_size (ht1 d) <= 2 ^ k /\ 2 ^ k <= Z.of_nat n + 1.
Proof.
  intros W Hn. destruct (Z.eq_dec (rehashidx d) (-1)) as [Hr|Hr].
  - rewrite (wf_idle _ _ W Hr) in *. cbn [_dictReset ht_size] in *. destruct (wf_ht0 _ _ W) as [E|[k T]].
    + rewrite E. exists 0. cbn. lia.
    + pose proof (tb_k _ _ _ T). exists k. rewrite (tb_size _ _ _ T) in *. pose proof (Z.pow_nonneg 2 k). lia.
  - destruct (wf_busy _ _ W Hr) as ((k0 & k1 & T0 & T1) & _). pose proof (tb_k _ _ _ T0). pose proof (tb_k _ _ _ T1). exists (Z.max k0 k1).
    rewrite (tb_size _ _ _ T0), (tb_size _ _ _ T1) in *. split; [lia|]. split; [apply Z.pow_le_mono_r; lia|]. split; [apply Z.pow_le_mono_r; lia|].
    destruct (Z.max_spec k0 k1) as [[_ ->]|[_ ->]]; lia.
Qed.

Lemma present_quiet n key (m : gmap K V) : is_Some (m !! key) -> present key m (replicate n []).
Proof. intros Hk. induction n as [|n IH]; cbn [replicate present]; [by split|]. split; [exact Hk|exact IH]. Qed.

Lemma seen_quiet n e (m : gmap K V) : seen e m (replicate n []) -> m !! fst e = Some (snd e).
Proof. induction n as [|n IH]; cbn [replicate seen]; [by intros [?|?]|]. intros [Hk|Hk]; [exact Hk|by apply IH]. Qed.

End Bounds.

(** * Claims *)

(** C21. A scan misses nothing.  Calls of [dictScan] with the cursor that the
    last one returned, from 0, with any operations between two calls, also
    ones that resize the tables or are in the middle of a rehashing: every
    call is well defined, what is returned was in the dictionary at one of
    the calls, and when the cursor is 0 again every key that was in the
    dictionary at all of them has been returned. *)
Theorem scan_complete {K V} `{Countable K} (hashFunction : K -> Z) (cfg : settings) (ops : list (dict_op K V)) (rounds : list (list (dict_op K V))) :
  Forall op_ok ops -> Forall (Forall op_ok) rounds -> Z.of_nat (length ops) + Z.of_nat (length (concat rounds)) < 2 ^ 60 ->
  exists cfg' d answers es v, run_ops hashFunction cfg dictCreate ops = Ret (cfg', d, answers) /\
    scan_rounds hashFunction rounds cfg' d 0 = Ret (es, v) /\
    (forall e, e ∈ es -> seen e (map_ops ∅ ops).1 rounds) /\
    (v = 0 -> forall key, present key (map_ops ∅ ops).1 rounds -> exists x, (key, x) ∈ es).
Proof.
  intros Ho Hr Hl. destruct (created hashFunction ops cfg Ho ltac:(lia)) as (cfg' & d & E & W & Em & _ & Hlen).
  destruct (scan_rounds_spec hashFunction rounds cfg' d 0 W Hr ltac:(lia)) as (es & v & Es & Hseen & Hpres). rewrite Em in *.
  eexists cfg', d, _, es, v. split; [exact E|]. split; [exact Es|]. split; [exact Hseen|]. intros Hv key Hk.
  apply (Hpres key Hk Hv). rewrite rev64_0. apply rev64_range.
Qed.

(** A scan ends: when the dictionary does not change, the cursor is 0 again
    after at most as many calls as the larger table has buckets, and what was
    returned are the bindings of the dictionary. *)
Lemma scan_ends {K V} `{Countable K} (hashFunction : K -> Z) (cfg cfg' : settings) (ops : list (dict_op K V)) d answers n :
  Forall op_ok ops -> Z.of_nat (length ops) < 2 ^ 60 -> run_ops hashFunction cfg dictCreate ops = Ret (cfg', d, answers) ->
  Z.max (ht_size (ht0 d)) (ht_size (ht1 d)) <= Z.of_nat n + 1 ->
  exists es, scan_rounds hashFunction (replicate n []) cfg' d 0 = Ret (es, 0) /\
    forall key x, (key, x) ∈ es <-> (map_ops ∅ ops).1 !! key = Some x.
Proof.
  intros Ho Hl Hrun Hn. destruct (created hashFunction ops cfg Ho Hl) as (cfg2 & d2 & E & W & Em & _ & Hlen). rewrite E in Hrun. injection Hrun as <- <- _.
  destruct (larger_table hashFunction d2 n W Hn) as (k & Hk & Hz0 & Hz1 & Hkn).
  destruct (scan_quiet_spec hashFunction n cfg2 d2 0 k W Hk Hz0 Hz1) as (es & Es); [rewrite rev64_0, Z.div_0_l by (apply Z.pow_nonzero; lia); lia|].
  destruct (scan_rounds_spec hashFunction (replicate n []) cfg2 d2 0 W) as (es' & v & Es' & Hseen & Hpres).
  { apply Forall_replicate. constructor. }
  { replace (concat (replicate n [])) with (@nil (dict_op K V)) by (symmetry; apply concat_replicate_nil). cbn. lia. }
  rewrite Es in Es'. injection Es' as <- <-. exists es. split; [exact Es|]. rewrite <- Em. intros key x. split.
  - intros He. exact (seen_quiet n _ _ (Hseen _ He)).
  - intros Hx. destruct (Hpres key (present_quiet n key _ (mk_is_Some _ _ Hx)) eq_refl ltac:(rewrite rev64_0; apply rev64_range)) as [y Hy].
    pose proof (seen_quiet n _ _ (Hseen _ Hy)) as Hy'. cbn [fst snd] in Hy'. congruence.
Qed.

(** A scan of the sample dictionary in the middle of its rehashing. *)
Definition sample_rounds : list (list (dict_op str nat)) :=
  [[Op_add (L "f") 7]; [Op_delete (L "a")]; [Op_find (L "c")]; [Op_add (L "a") 8]; []; []; []]%nat.

Lemma scan_complete_witness : exists es, (exists cfg' d answers, run_ops sample_hash sample_cfg dictCreate sample_ops = Ret (cfg', d, answers) /\
  scan_rounds sample_hash sample_rounds cfg' d 0 = Ret (es, 0)) /\ exists x, (L "c", x) ∈ es.
Proof.
  destruct (scan_complete sample_hash sample_cfg sample_ops sample_rounds) as (cfg' & d & answers & es & v & E & Es & _ & Hall);
    [repeat constructor|repeat constructor|vm_compute; reflexivity|].
  assert (Hv : v = 0).
  { assert (Hc : match run_ops sample_hash sample_cfg dictCreate sample_ops with
        Ret (cfg', d, _) => match scan_rounds sample_hash sample_rounds cfg' d 0 with Ret (_, v) => v =? 0 | _ => false end | _ => false end = true) by (vm_compute; reflexivity).
    rewrite E, Es in Hc. by apply Z.eqb_eq. }
  exists es. split; [exists cfg', d, answers; rewrite <- Hv at 2; split; [exact E|exact Es]|]. apply (Hall Hv). vm_compute. repeat split; eexists; reflexivity.
Defined.

