(* ===== verification/Kanban.v ===== *)
(** * Kanban, the shared store, and programs that use it

    Kanban is a Redis server (src/kanban/src): the commands the program sends
    are modelled from t_string.c, t_set.c, t_hash.c and t_list.c for keys
    without expiry.  A reply with an error (wrong type of key, not an integer)
    is the exception the client library raises.

    The executors, the manager and the auditor are separate processes that
    share nothing but Kanban, which serves one command at a time.  So a role
    is a program of commands ([prog]); [run] executes it alone, and [step]
    interleaves any number of programs. *)

From Stdlib Require Import String.
From stdpp Require Import gmap relations.
From S2P Require Import Prelude.

(** ** The store *)

Inductive robj :=
  | OBJ_STRING (s : str)
  | OBJ_SET (members : gset str)
  | OBJ_HASH (fields : gmap str str)
  | OBJ_LIST (items : list str).

Notation redisDb := (gmap str robj).

Definition getCommand (db : redisDb) (key : str) : outcome (option str) :=
  match db !! key with
  | None => Ret None
  | Some (OBJ_STRING s) => Ret (Some s)
  | Some _ => Throw wrong_type
  end.

Definition setCommand (db : redisDb) (key val : str) : redisDb := <[key := OBJ_STRING val]> db.

Definition saddCommand (db : redisDb) (key member : str) : outcome redisDb :=
  match db !! key with
  | None => Ret (<[key := OBJ_SET {[ member ]}]> db)
  | Some (OBJ_SET m) => Ret (<[key := OBJ_SET ({[ member ]} ∪ m)]> db)
  | Some _ => Throw wrong_type
  end.

(** A key looked up as a set, missing keys included. *)
Definition lookup_set (db : redisDb) (key : str) : outcome (option (gset str)) :=
  match db !! key with
  | None => Ret None
  | Some (OBJ_SET m) => Ret (Some m)
  | Some _ => Throw wrong_type
  end.

(** The intersection of the sets at [setkeys], without a destination key. *)
Definition sinterGenericCommand (db : redisDb) (setkeys : list str) : outcome (gset str) :=
  sets ← mapMO (lookup_set db) setkeys;
  match mapM id sets with
  | None => Ret ∅
  | Some [] => Ret ∅
  | Some (s0 :: sets) => Ret (foldl (∩) s0 sets)
  end.

Definition smembersCommand (db : redisDb) (key : str) : outcome (gset str) :=
  sinterGenericCommand db [key].

Definition hsetCommand (db : redisDb) (key field val : str) : outcome redisDb :=
  match db !! key with
  | None => Ret (<[key := OBJ_HASH {[ field := val ]}]> db)
  | Some (OBJ_HASH m) => Ret (<[key := OBJ_HASH (<[field := val]> m)]> db)
  | Some _ => Throw wrong_type
  end.

Definition hgetallCommand (db : redisDb) (key : str) : outcome (gmap str str) :=
  match db !! key with
  | None => Ret ∅
  | Some (OBJ_HASH m) => Ret m
  | Some _ => Throw wrong_type
  end.

Definition rpushCommand (db : redisDb) (key val : str) : outcome redisDb :=
  match db !! key with
  | None => Ret (<[key := OBJ_LIST [val]]> db)
  | Some (OBJ_LIST l) => Ret (<[key := OBJ_LIST (l ++ [val])]> db)
  | Some _ => Throw wrong_type
  end.

(** [addListRangeReply], not reversed. *)
Definition list_range (o : list str) (start end_ : Z) : list str :=
  let llen := Z.of_nat (length o) in
  let start := (if start <? 0 then llen + start else start)%Z in
  let end_ := (if end_ <? 0 then llen + end_ else end_)%Z in
  let start := (if start <? 0 then 0 else start)%Z in
  if ((end_ <? start) || (llen <=? start))%Z then []
  else
    let end_ := (if llen <=? end_ then llen - 1 else end_)%Z in
    take (Z.to_nat (end_ - start + 1)) (drop (Z.to_nat start) o).

Definition lrangeCommand (db : redisDb) (key : str) (start end_ : Z) : outcome (list str) :=
  match db !! key with
  | None => Ret []
  | Some (OBJ_LIST l) => Ret (list_range l start end_)
  | Some _ => Throw wrong_type
  end.

(** The value of a counter: a missing key counts as 0, and only the decimal
    form that Redis itself prints is read as an integer. *)
Definition counter_value (db : redisDb) (key : str) : outcome Z :=
  match db !! key with
  | None => Ret 0%Z
  | Some (OBJ_STRING s) =>
    match stol s with
    | Ret z => if decide (to_string z = s) then Ret z else Throw wrong_type
    | _ => Throw wrong_type
    end
  | Some _ => Throw wrong_type
  end.

Definition incrCommand (db : redisDb) (key : str) : outcome (Z * redisDb) :=
  oldvalue ← counter_value db key;
  if decide (oldvalue = 2 ^ 63 - 1)%Z then Throw out_of_range
  else Ret (oldvalue + 1, <[key := OBJ_STRING (to_string (oldvalue + 1))]> db)%Z.

(** ** Programs *)

(** The commands as the roles issue them.  The last two are loops that poll
    until they get what they wait for and do nothing else in between:
    [AWAIT_GET] is the loop of [o_get_key], [AWAIT_SMEMBERS] the loop of
    [manager::increment_epoch]. *)
Inductive cmd :=
  | GET (key : str)
  | SET (key val : str)
  | SADD (key member : str)
  | SMEMBERS (key : str)
  | HSET (key field val : str)
  | HGETALL (key : str)
  | RPUSH (key val : str)
  | LRANGE (key : str) (start end_ : Z)
  | INCR (key : str)
  | AWAIT_GET (key : str)
  | AWAIT_SMEMBERS (key : str) (n : Z).

Definition reply (c : cmd) : Type :=
  match c with
  | GET _ => option str
  | SET _ _ | SADD _ _ | HSET _ _ _ | RPUSH _ _ => unit
  | SMEMBERS _ | AWAIT_SMEMBERS _ _ => gset str
  | HGETALL _ => gmap str str
  | LRANGE _ _ _ => list str
  | INCR _ => Z
  | AWAIT_GET _ => str
  end.

(** The reply and the store afterwards; [NoFuel] when a polling loop goes
    round once more. *)
Definition exec (c : cmd) (db : redisDb) : outcome (reply c * redisDb) :=
  match c with
  | GET key => r ← getCommand db key; Ret (r, db)
  | SET key val => Ret (tt, setCommand db key val)
  | SADD key m => db ← saddCommand db key m; Ret (tt, db)
  | SMEMBERS key => r ← smembersCommand db key; Ret (r, db)
  | HSET key f v => db ← hsetCommand db key f v; Ret (tt, db)
  | HGETALL key => r ← hgetallCommand db key; Ret (r, db)
  | RPUSH key v => db ← rpushCommand db key v; Ret (tt, db)
  | LRANGE key s e => r ← lrangeCommand db key s e; Ret (r, db)
  | INCR key => incrCommand db key
  | AWAIT_GET key =>
    r ← getCommand db key;
    match r with Some v => Ret (v, db) | None => NoFuel end
  | AWAIT_SMEMBERS key n =>
    r ← smembersCommand db key;
    if decide (n <= Z.of_nat (size r))%Z then Ret (r, db) else NoFuel
  end.

Inductive prog (A : Type) : Type :=
  | PRet (a : A)
  | PThrow (e : exn)
  | PUndef
  | PCmd (c : cmd) (k : reply c -> prog A).
Arguments PRet {A} a.
Arguments PThrow {A} e.
Arguments PUndef {A}.
Arguments PCmd {A} c k.

Fixpoint prog_bind {A B} (f : A -> prog B) (p : prog A) : prog B :=
  match p with
  | PRet a => f a
  | PThrow e => PThrow e
  | PUndef => PUndef
  | PCmd c k => PCmd c (fun r => prog_bind f (k r))
  end.

Global Instance prog_mret : MRet prog := fun A a => PRet a.
Global Instance prog_mbind : MBind prog := fun A B f p => prog_bind f p.

(** One command. *)
Definition call (c : cmd) : prog (reply c) := PCmd c PRet.

(** A computation without commands; a model that ran out of fuel counts as
    undefined. *)
Definition pure {A} (m : outcome A) : prog A :=
  match m with
  | Ret a => PRet a
  | Throw e => PThrow e
  | Undef | NoFuel => PUndef
  end.

(** [for (i = first; i < first + n; ++i) body(i)]. *)
Fixpoint loop (n : nat) (first : Z) (body : Z -> prog unit) : prog unit :=
  match n with
  | O => PRet tt
  | S n => body first ;; loop n (first + 1)%Z body
  end.

(** Alone on the store. *)
Fixpoint run {A} (p : prog A) (db : redisDb) : outcome (A * redisDb) :=
  match p with
  | PRet a => Ret (a, db)
  | PThrow e => Throw e
  | PUndef => Undef
  | PCmd c k => r ← exec c db; run (k (fst r)) (snd r)
  end.

(** ** Interleaving *)

Notation system := (redisDb * list (prog unit))%type.

(** Any process may issue its next command; a daemon may start its next round,
    or another node join, with one of the programs of [role]. *)
Inductive step (role : prog unit -> Prop) : system -> system -> Prop :=
  | step_cmd db ps i c k r db' :
      ps !! i = Some (PCmd c k) -> exec c db = Ret (r, db') ->
      step role (db, ps) (db', <[i := k r]> ps)
  | step_start db ps p :
      role p -> step role (db, ps) (db, ps ++ [p]).

Definition reachable (role : prog unit -> Prop) (db0 : redisDb) (s : system) : Prop :=
  rtc (step role) (db0, []) s.

(** ** Keys *)

Definition epoch_key (prefix : string) (epoch : str) : str := L prefix ++ epoch.

Definition shard_key (prefix : string) (epoch : str) (i : str) : str :=
  L prefix ++ epoch ++ L "-v" ++ i.

(** * Theorems *)

Lemma run_bind {A B} (p : prog A) (f : A -> prog B) db :
  run (p ≫= f) db = (r ← run p db; run (f (fst r)) (snd r)).
Proof.
  revert db. induction p as [a|e| |c k IH]; intros db; cbn; try done.
  destruct (exec c db) as [[r db']| | |]; cbn; auto.
Qed.

Lemma run_call c db : run (call c) db = exec c db.
Proof. cbn. by destruct (exec c db) as [[r db']| | |]. Qed.

Lemma getCommand_str db k v : db !! k = Some (OBJ_STRING v) -> getCommand db k = Ret (Some v).
Proof. intros E. unfold getCommand. by rewrite E. Qed.

Lemma getCommand_none db k : db !! k = None -> getCommand db k = Ret None.
Proof. intros E. unfold getCommand. by rewrite E. Qed.

Lemma smembersCommand_set db k t : db !! k = Some (OBJ_SET t) -> smembersCommand db k = Ret t.
Proof.
  intros E. unfold smembersCommand, sinterGenericCommand. cbn [mapMO]. unfold lookup_set. by rewrite E.
Qed.

(** Commands are run by computation. *)
Ltac run_steps := cbn [run call mbind prog_mbind prog_bind exec outcome_bind fst snd pure deref].

Lemma run_pure {A} (m : outcome A) db : m <> NoFuel -> run (pure m) db = (a ← m; Ret (a, db)).
Proof. by destruct m. Qed.

(** An invariant of every command of every role holds in every reachable
    state.  [ok p] says what the rest of a program may still do; it is kept by
    each command of the program itself and, through [Inv], does not depend on
    the others. *)
Section Invariant.
Context (role : prog unit -> Prop) (Inv : redisDb -> Prop) (ok : redisDb -> prog unit -> Prop).
Hypothesis role_ok : forall db p, Inv db -> role p -> ok db p.
Hypothesis cmd_ok : forall db c k r db', Inv db -> ok db (PCmd c k) -> exec c db = Ret (r, db') ->
  Inv db' /\ ok db' (k r).
Hypothesis stable : forall db c k r db' p, Inv db -> ok db (PCmd c k) -> exec c db = Ret (r, db') ->
  ok db p -> ok db' p.

Lemma step_invariant s s' : step role s s' ->
  Inv (fst s) /\ Forall (ok (fst s)) (snd s) -> Inv (fst s') /\ Forall (ok (fst s')) (snd s').
Proof.
  intros [db ps i c k r db' Hi He|db ps p Hp] [HI Hok]; cbn in *.
  - assert (Hk : ok db (PCmd c k)) by (eapply (Forall_lookup_1 _ ps); eauto).
    destruct (cmd_ok _ _ _ _ _ HI Hk He) as [HI' Hok']. split; [done|].
    apply Forall_insert; [|done]. eapply Forall_weaken; [exact Hok|]. cbn. intros q Hq.
    exact (stable _ _ _ _ _ q HI Hk He Hq).
  - split; [done|]. apply Forall_app. split; [done|]. constructor; [auto|constructor].
Qed.

Lemma reachable_invariant db0 s : Inv db0 -> reachable role db0 s ->
  Inv (fst s) /\ Forall (ok (fst s)) (snd s).
Proof.
  intros H0 Hr. unfold reachable in Hr.
  assert (H : forall s0, rtc (step role) s0 s -> Inv (fst s0) /\ Forall (ok (fst s0)) (snd s0) ->
    Inv (fst s) /\ Forall (ok (fst s)) (snd s)).
  { induction 1 as [|s1 s2 s3 H12 _ IH]; intros H; [done|]. apply IH; [done|]. by eapply step_invariant. }
  apply (H _ Hr). cbn. auto.
Qed.
End Invariant.

(** A program that runs alone to its end takes the system from one reachable
    state to another. *)
Lemma run_steps_to role (p : prog unit) : forall db ps db',
  run p db = Ret (tt, db') -> rtc (step role) (db, ps ++ [p]) (db', ps ++ [PRet tt]).
Proof.
  induction p as [[]|e| |c k IH]; intros db ps db' Hr; cbn [run] in Hr; try done.
  - apply Ret_inj in Hr as [= <-]. apply rtc_refl.
  - apply bind_Ret_inv in Hr as ([r db1] & He & Hr). cbn [fst snd] in Hr.
    eapply rtc_l; [|by apply (IH r db1 ps)].
    assert (E : ps ++ [k r] = <[length ps := k r]> (ps ++ [PCmd c k])).
    { rewrite insert_app_r_alt by lia. by rewrite Nat.sub_diag. }
    rewrite E. eapply step_cmd; [|exact He]. rewrite lookup_app_r, Nat.sub_diag by lia. done.
Qed.

Lemma reachable_run role p db0 db ps db' : role p -> reachable role db0 (db, ps) -> run p db = Ret (tt, db') ->
  reachable role db0 (db', ps ++ [PRet tt]).
Proof.
  intros Hp Hr Hrun. unfold reachable in *. etrans; [exact Hr|].
  eapply rtc_l; [by apply step_start|]. by apply run_steps_to.
Qed.
