(* ===== verification/KanbanDict.v ===== *)
(** * Kanban on its hash tables

    The key space of the store as the server keeps it: a dictionary of dict.c
    with the lookups and updates of src/kanban/src/db.c, and the upkeep of
    server.c that rehashes and resizes it between commands.  The theorem is
    that the server answers like the finite map of [Kanban], which the rest of
    the development is built on.

    What a command does with the object at its key is what [Kanban.exec] says;
    here it is looked up and written back through the dictionary.  Keys have
    no expiry, and the age of an object is not kept. *)

From Stdlib Require Import String.
From stdpp Require Import fin_maps gmap.
From S2P Require Import Prelude Word Siphash Dict DictFacts Kanban.

Local Open Scope Z_scope.

Section Keyspace.
Context (hashFunction : str -> Z).

(** Whether a counter is an integer object of its own, which is changed in
    place. *)
Context (int_encoded : robj -> bool).

Notation keyspace := (dict str robj).

Definition lookupKey (db : keyspace) (key : str) : outcome (option robj * keyspace) := dictFind hashFunction db key.

Definition dbAdd (cfg : settings) (db : keyspace) (key : str) (val : robj) : outcome keyspace :=
  '(retval, db) ← dictAdd hashFunction cfg db key val;
  if (retval : bool) then Ret db else Undef.

Definition dbOverwrite (db : keyspace) (key : str) (val : robj) : outcome keyspace :=
  '(de, db) ← dictFind hashFunction db key;
  match de with
  | None => Undef
  | Some _ => set_existing hashFunction db key val
  end.

(** The key of a command, and what it does with the object there: the reply
    and the object afterwards. *)
Definition cmd_key (c : cmd) : str :=
  match c with
  | GET key | SET key _ | SADD key _ | SMEMBERS key | HSET key _ _ | HGETALL key | RPUSH key _ | LRANGE key _ _
  | INCR key | AWAIT_GET key | AWAIT_SMEMBERS key _ => key
  end.

Definition exec_value (c : cmd) (o : option robj) : outcome (reply c * option robj) :=
  '(r, db) ← exec c (match o with Some v => {[cmd_key c := v]} | None => ∅ end);
  Ret (r, db !! cmd_key c).

(** How an object is written back: [setGenericCommand] and [incrDecrCommand]
    put a new object in the place of the old one, the other commands add one
    when there is none and change it where it is. *)
Definition write_object (c : cmd) (cfg : settings) (db : keyspace) (o v : option robj) : outcome keyspace :=
  match c, o, v with
  | (GET _ | SMEMBERS _ | HGETALL _ | LRANGE _ _ _ | AWAIT_GET _ | AWAIT_SMEMBERS _ _), _, _ => Ret db
  | _, _, None => Ret db
  | _, None, Some v => dbAdd cfg db (cmd_key c) v
  | SET _ _, Some _, Some v => dbOverwrite db (cmd_key c) v
  | INCR _, Some old, Some v => if int_encoded old then set_existing hashFunction db (cmd_key c) v else dbOverwrite db (cmd_key c) v
  | _, Some _, Some v => set_existing hashFunction db (cmd_key c) v
  end.

(** A command: its reply, which may be an error, and the key space. *)
Definition exec_dict (c : cmd) (cfg : settings) (db : keyspace) : outcome (outcome (reply c) * keyspace) :=
  '(o, db) ← lookupKey db (cmd_key c);
  match exec_value c o with
  | Ret (r, v) => db ← write_object c cfg db o v; Ret (Ret r, db)
  | Throw e => Ret (Throw e, db)
  | NoFuel => Ret (NoFuel, db)
  | Undef => Undef
  end.

(** What happens at the server: a command, some rehashing, a shrinking, or a
    change of what resizing is allowed. *)
Inductive event :=
  | Ev_cmd (c : cmd)
  | Ev_rehash (n : nat)
  | Ev_resize
  | Ev_settings (cfg : settings).

Definition upkeep (e : event) : dict_op str robj :=
  match e with Ev_rehash n => Op_rehash n | Ev_settings cfg => Op_settings cfg | _ => Op_resize end.

Notation replies := (list {c : cmd & outcome (reply c)}).

Fixpoint serve (events : list event) (cfg : settings) (db : keyspace) : outcome (replies * keyspace) :=
  match events with
  | [] => Ret ([], db)
  | Ev_cmd c :: events =>
    '(r, db) ← exec_dict c cfg db;
    '(rs, db) ← serve events cfg db;
    Ret (existT c r :: rs, db)
  | e :: events =>
    '(cfg, db, _) ← run_op hashFunction cfg db (upkeep e);
    serve events cfg db
  end.

End Keyspace.

(** The same on the finite map, which needs no upkeep. *)
Fixpoint serve_map (events : list event) (db : redisDb) : list {c : cmd & outcome (reply c)} * redisDb :=
  match events with
  | [] => ([], db)
  | Ev_cmd c :: events =>
    let '(r, db) := match exec c db with Ret (r, db) => (Ret r, db) | Throw e => (Throw e, db) | Undef => (Undef, db) | NoFuel => (NoFuel, db) end in
    let '(rs, db) := serve_map events db in (existT c r :: rs, db)
  | _ :: events => serve_map events db
  end.

(** ** Theorems *)

(** A command looks at its key alone and writes there alone. *)
Lemma exec_local (c : cmd) (db : redisDb) :
  exec c db =
  match exec_value c (db !! cmd_key c) with
  | Ret (r, v) => Ret (r, match v with Some v => <[cmd_key c := v]> db | None => db end)
  | Throw e => Throw e
  | Undef => Undef
  | NoFuel => NoFuel
  end.
Proof.
  assert (Hid : forall (key : str) (o : option robj), db !! key = o -> match o with Some v => <[key := v]> db | None => db end = db)
    by (intros key [v|] Hv; [by apply insert_id|reflexivity]).
  unfold exec_value. destruct (db !! cmd_key c) as [o|] eqn:E; specialize (Hid (cmd_key c) _ E); destruct c as [key|key val|key m|key|key f v|key|key v|key s e|key|key|key n]; cbn [cmd_key exec] in *.
  all: unfold getCommand, setCommand, saddCommand, smembersCommand, sinterGenericCommand, hsetCommand, hgetallCommand, rpushCommand, lrangeCommand, incrCommand, counter_value, lookup_set; cbn [mapMO].
  all: unfold lookup_set; rewrite ?E, ?lookup_singleton_eq, ?lookup_empty.
  all: try destruct o; cbn; rewrite ?lookup_insert_eq, ?lookup_singleton_eq, ?lookup_empty.
  all: try rewrite Hid; try reflexivity.
  - destruct (stol s) as [z| | |]; try reflexivity. case_decide; [|reflexivity]. cbn. case_decide; [reflexivity|]. cbn. by rewrite lookup_insert_eq.
  - case_decide; [|reflexivity]. cbn. by rewrite lookup_singleton_eq, Hid.
  - case_decide; [reflexivity|]. cbn. by rewrite lookup_insert_eq.
  - case_decide; reflexivity.
Qed.

(** A command that only reads leaves the object as it is. *)
Definition only_reads (c : cmd) : bool :=
  match c with GET _ | SMEMBERS _ | HGETALL _ | LRANGE _ _ _ | AWAIT_GET _ | AWAIT_SMEMBERS _ _ => true | _ => false end.

Lemma read_keeps (c : cmd) (db db' : redisDb) r : only_reads c = true -> exec c db = Ret (r, db') -> db' = db.
Proof.
  destruct c; intros Hc E; try discriminate Hc; cbn [exec] in E; apply bind_Ret_inv in E as (x & _ & E); try (by injection E).
  - destruct x; [by injection E|discriminate].
  - case_decide; [by injection E|discriminate].
Qed.

Lemma exec_value_read c o r v : only_reads c = true -> exec_value c o = Ret (r, v) -> v = o.
Proof.
  intros Hc E. unfold exec_value in E. apply bind_Ret_inv in E as ([x db] & E & [= _ <-]). rewrite (read_keeps c _ _ x Hc E).
  destruct o; [apply lookup_singleton_eq|apply lookup_empty].
Qed.

Lemma exec_value_defined c o : exec_value c o <> Undef.
Proof.
  unfold exec_value. destruct c as [key|key val|key m|key|key f v|key|key v|key s e|key|key|key n]; cbn [cmd_key exec];
    unfold getCommand, setCommand, saddCommand, smembersCommand, sinterGenericCommand, hsetCommand, hgetallCommand, rpushCommand, lrangeCommand, incrCommand, counter_value; cbn [mapMO];
    unfold lookup_set; destruct o as [[]|]; rewrite ?lookup_singleton_eq, ?lookup_empty; cbn; try discriminate; repeat (case_match; cbn; try discriminate).
Qed.

Section KeyspaceFacts.
Context (hashFunction : str -> Z) (int_encoded : robj -> bool).

Notation wf := (wf hashFunction).

Lemma dbAdd_spec cfg (d : dict str robj) key v : wf d -> Z.of_nat (length (entries d)) + 1 < 2 ^ 60 -> dict_map d !! key = None ->
  exists d', dbAdd hashFunction cfg d key v = Ret d' /\ wf d' /\ dict_map d' = <[key := v]> (dict_map d) /\ (length (entries d') <= S (length (entries d)))%nat.
Proof.
  intros W Hs Hn. unfold dbAdd, dictAdd. destruct (add_raw_spec hashFunction cfg d key v W Hs) as (r & d' & -> & W' & _ & Hr). rewrite Hn in Hr.
  destruct Hr as ([idx ->] & Em & El). rewrite !bind_ret. exists d'. split; [reflexivity|]. split; [exact W'|]. split; [exact Em|lia].
Qed.

Lemma in_place_spec (d : dict str robj) key o v : wf d -> dict_map d !! key = Some o ->
  exists d', set_existing hashFunction d key v = Ret d' /\ wf d' /\ dict_map d' = <[key := v]> (dict_map d) /\ (length (entries d') <= S (length (entries d)))%nat.
Proof.
  intros W Hk. destruct (nonempty_table hashFunction d W) as [k T]; [intros E; apply (map_lookup hashFunction) in Hk; [|exact W]; rewrite E in Hk; by apply not_elem_of_nil in Hk|].
  destruct (set_existing_spec hashFunction d k key o v W T Hk) as (d' & E & W' & _ & Em & El). exists d'. split; [exact E|]. split; [exact W'|]. split; [exact Em|lia].
Qed.

Lemma dbOverwrite_spec (d : dict str robj) key o v : wf d -> dict_map d !! key = Some o ->
  exists d', dbOverwrite hashFunction d key v = Ret d' /\ wf d' /\ dict_map d' = <[key := v]> (dict_map d) /\ (length (entries d') <= S (length (entries d)))%nat.
Proof.
  intros W Hk. unfold dbOverwrite. destruct (find_spec hashFunction d key W) as (d1 & -> & Sm). rewrite bind_ret, Hk.
  rewrite <- (same_map _ _ _ Sm), <- (same_length _ _ _ Sm) in *. apply (in_place_spec d1 key o v); [apply Sm|exact Hk].
Qed.

Lemma write_object_spec c cfg (d : dict str robj) r v : wf d -> Z.of_nat (length (entries d)) + 1 < 2 ^ 60 ->
  exec_value c (dict_map d !! cmd_key c) = Ret (r, v) ->
  exists d', write_object hashFunction int_encoded c cfg d (dict_map d !! cmd_key c) v = Ret d' /\ wf d' /\
    dict_map d' = match v with Some v => <[cmd_key c := v]> (dict_map d) | None => dict_map d end /\ (length (entries d') <= S (length (entries d)))%nat.
Proof.
  intros W Hs E. destruct (only_reads c) eqn:Hc.
  - apply (exec_value_read c _ r v Hc) in E as ->. exists d. split; [destruct c; try discriminate Hc; reflexivity|]. split; [exact W|]. split; [|lia].
    destruct (dict_map d !! cmd_key c) eqn:Ek; [by rewrite insert_id|reflexivity].
  - destruct v as [v|]; [|exists d; destruct c; try discriminate Hc; (split; [by destruct (dict_map d !! _)|]; split; [exact W|]; split; [reflexivity|lia])].
    destruct (dict_map d !! cmd_key c) as [o|] eqn:Ek.
    + destruct c; try discriminate Hc; cbn [write_object]; try (destruct (int_encoded o)); solve [by apply (dbOverwrite_spec d _ o)|by apply (in_place_spec d _ o)].
    + destruct c; try discriminate Hc; cbn [write_object]; by apply dbAdd_spec.
Qed.

Lemma exec_dict_spec c cfg (d : dict str robj) : wf d -> Z.of_nat (length (entries d)) + 1 < 2 ^ 60 ->
  exists r d', exec_dict hashFunction int_encoded c cfg d = Ret (r, d') /\ wf d' /\ (length (entries d') <= S (length (entries d)))%nat /\
    (r, dict_map d') = match exec c (dict_map d) with
      Ret (r, db) => (Ret r, db) | Throw e => (Throw e, dict_map d) | Undef => (Undef, dict_map d) | NoFuel => (NoFuel, dict_map d) end.
Proof.
  intros W Hs. unfold exec_dict, lookupKey. destruct (find_spec hashFunction d (cmd_key c) W) as (d1 & -> & Sm). rewrite bind_ret.
  rewrite exec_local. rewrite <- (same_map _ _ _ Sm), <- (same_length _ _ _ Sm) in *. pose proof (same_wf _ _ _ Sm) as W1.
  destruct (exec_value c (dict_map d1 !! cmd_key c)) as [[x v]|e| |] eqn:E.
  - destruct (write_object_spec c cfg d1 x v W1 Hs E) as (d' & -> & W' & Em & El). rewrite bind_ret. exists (Ret x), d'. rewrite Em. by split_and!.
  - exists (Throw e), d1. split; [reflexivity|]. split; [exact W1|]. split; [lia|reflexivity].
  - by destruct (exec_value_defined _ _ E).
  - exists NoFuel, d1. split; [reflexivity|]. split; [exact W1|]. split; [lia|reflexivity].
Qed.

Definition event_ok (e : event) : Prop := op_ok (upkeep e).

Lemma upkeep_spec cfg (d : dict str robj) e : (forall c, e <> Ev_cmd c) -> wf d -> event_ok e -> Z.of_nat (length (entries d)) + 1 < 2 ^ 60 ->
  exists cfg' d' a, run_op hashFunction cfg d (upkeep e) = Ret (cfg', d', a) /\ wf d' /\ dict_map d' = dict_map d /\ (length (entries d') <= S (length (entries d)))%nat.
Proof.
  intros He W Ho Hs. destruct (run_op_spec hashFunction cfg d (upkeep e) W Ho Hs) as (cfg' & d' & a & E & W' & Em & El & _).
  exists cfg', d', a. split; [exact E|]. split; [exact W'|]. split; [|exact El]. destruct e as [c| | |]; [by destruct (He c)|..]; by injection Em.
Qed.

Lemma serve_spec events : forall cfg (d : dict str robj), wf d -> Forall event_ok events ->
  Z.of_nat (length (entries d)) + Z.of_nat (length events) < 2 ^ 60 ->
  exists d', serve hashFunction int_encoded events cfg d = Ret ((serve_map events (dict_map d)).1, d') /\ wf d' /\ dict_map d' = (serve_map events (dict_map d)).2.
Proof.
  induction events as [|e events IH]; intros cfg d W Ho Hs; [by exists d|]. cbn [length] in Hs. inversion_clear Ho as [|? ? Ho1 Ho2].
  assert (Hup : (forall c, e <> Ev_cmd c) -> exists d', ('(cfg, db, _) ← run_op hashFunction cfg d (upkeep e); serve hashFunction int_encoded events cfg db) =
      Ret ((serve_map events (dict_map d)).1, d') /\ wf d' /\ dict_map d' = (serve_map events (dict_map d)).2).
  { intros He. destruct (upkeep_spec cfg d e He W Ho1 ltac:(lia)) as (cfg' & d1 & a & -> & W1 & <- & El). rewrite bind_ret. apply IH; [exact W1|exact Ho2|lia]. }
  destruct e as [c| | |]; [|by apply Hup..]. clear Hup. cbn [serve serve_map].
  destruct (exec_dict_spec c cfg d W ltac:(lia)) as (r & d1 & -> & W1 & El & <-). rewrite bind_ret.
  destruct (IH cfg d1 W1 Ho2 ltac:(lia)) as (d' & -> & W' & Em). rewrite bind_ret. exists d'. rewrite Em. by destruct (serve_map events (dict_map d1)).
Qed.

End KeyspaceFacts.

(** * Claims *)

(** C19. The store is what the nodes take it for.  Whatever commands a new
    server is sent, with rehashing, shrinking and changes of the resizing
    policy in between, fewer than [2^60] in all: every lookup and update of
    the key space through the hash tables is well defined, all replies, the
    errors among them, are those of the finite map on which the rounds of the
    nodes are verified, and the tables hold its bindings at the end. *)
Theorem kanban_on_dict (seed : str) (int_encoded : robj -> bool) (cfg : settings) (events : list event) :
  Forall event_ok events -> Z.of_nat (length events) < 2 ^ 60 ->
  exists db l, serve (dictSdsHash seed) int_encoded events cfg dictCreate = Ret ((serve_map events ∅).1, db) /\
    dict_iterate db = Ret l /\ l ≡ₚ map_to_list (serve_map events ∅).2.
Proof.
  intros Ho Hl. destruct (serve_spec (dictSdsHash seed) int_encoded events cfg dictCreate (wf_create _) Ho ltac:(cbn; lia)) as (db & E & W & Em).
  exists db, (entries db). split; [exact E|]. split; [by apply (iterate_spec (dictSdsHash seed))|].
  change (dict_map dictCreate) with (∅ : redisDb) in Em. rewrite <- Em. by apply (entries_list (dictSdsHash seed)).
Qed.

(** Commands of the nodes with upkeep in between; the fifth key starts a
    rehashing. *)
Definition sample_events : list event :=
  [Ev_cmd (SET (L "EPOCH") (L "1")); Ev_cmd (SADD (L "witness") (L "k1")); Ev_cmd (INCR (L "shard")); Ev_rehash 1; Ev_cmd (RPUSH (L "queriers") (L "q"));
   Ev_cmd (SADD (L "witness") (L "k2")); Ev_cmd (HSET (L "h") (L "f") (L "v")); Ev_cmd (GET (L "witness")); Ev_resize; Ev_cmd (INCR (L "shard")); Ev_cmd (GET (L "EPOCH"))].

Lemma kanban_on_dict_witness : exists db l,
  serve (dictSdsHash (L "0123456789abcdef")) (fun _ => false) sample_events sample_cfg dictCreate = Ret ((serve_map sample_events ∅).1, db) /\
  dict_iterate db = Ret l /\ length l = 5%nat.
Proof.
  destruct (kanban_on_dict (L "0123456789abcdef") (fun _ => false) sample_cfg sample_events) as (db & l & E & Ei & P);
    [repeat constructor|vm_compute; reflexivity|].
  exists db, l. split; [exact E|]. split; [exact Ei|]. rewrite P. vm_compute. reflexivity.
Defined.
