(* ===== verification/Witness.v ===== *)
(** * Witnesses

    src/executor/Enclave/enclave_witness.cpp, the [create_*_witness] functions
    of the enclaves, and [check_witness] of src/client/utility.hpp.  A witness
    is a signed record: which function ([FUNC]) computed which output digest
    ([OUT]) from which input digests ([IN]). *)

From Stdlib Require Import String.
From S2P Require Import Prelude Json JsonFacts Crypto.

Import Json.

Record witness_context := mk_ctx {
  tag : str;
  ins : list str;
  out : str;
  bin : str;
  stage : Z
}.

(** The tags of src/config.hpp, as the byte arrays the macros expand to: the
    terminating zero is part of what [sizeof] counts. *)
Definition CRAWLER_TAG : str := L "cralwer" ++ [NUL].
Definition INDEXER_TAG : str := L "indexer" ++ [NUL].
Definition REDUCER_TAG : str := L "reducer" ++ [NUL].
Definition QUERIER_TAG : str := L "querier" ++ [NUL].

Section Witness.
Context `{Crypto}.

Definition witness_clear (c : witness_context) : witness_context := mk_ctx [] [] [] [] 0.

Definition witness_init (c : witness_context) (t : str) : witness_context :=
  mk_ctx t (ins c) (out c) (bin c) 1.

Definition witness_input (c : witness_context) (data : str) : witness_context :=
  mk_ctx (tag c) (ins c ++ [sha256_string data]) (out c) (bin c) 2.

Definition witness_output (c : witness_context) (data : str) : witness_context :=
  if (stage c =? 3)%Z then c else mk_ctx (tag c) (ins c) (sha256_string data) (bin c) 3.

Definition witness_func (c : witness_context) (data : str) : witness_context :=
  if (stage c =? 4)%Z then c else mk_ctx (tag c) (ins c) (out c) (sha256_string data) 4.

(** The record that is signed. *)
Definition witness_body (c : witness_context) : JSON :=
  let j := set_key Null (L "TAG") (Str (tag c)) in
  let j := set_key j (L "IN") (Array []) in
  let j := foldl (fun j i => set_key j (L "IN") (append (at_key j (L "IN")) (Str i))) j (ins c) in
  let j := set_key j (L "OUT") (Str (out c)) in
  set_key j (L "FUNC") (Str (bin c)).

(** The context afterwards and the new value of [output_witness]. *)
Definition witness_finalize (c : witness_context) (output_witness : str) : witness_context * str :=
  if (stage c =? 5)%Z then (c, output_witness)
  else
    let j := witness_body c in
    let sig := ed25519_sign skey (dump 1 j) in
    let j := set_key j (L "SIG") (Str (ed25519_sig_to_string sig)) in
    (mk_ctx (tag c) (ins c) (out c) (bin c) 5, dump 1 j).

Definition new_context : witness_context := mk_ctx [] [] [] [] 0.

(** The three functions [create_*_witness] differ in the two constants only. *)
Definition create_cralwer_witness (inputs : list str) (output : str) : str :=
  let c := witness_init new_context (L "STEEMIT CRAWLER") in
  let c := foldl witness_input c inputs in
  let c := witness_output c output in
  let c := witness_func c CRAWLER_TAG in
  snd (witness_finalize c []).

Definition create_indexer_witness (inputs : list str) (index : str) : str :=
  let c := witness_init new_context (L "STEEMIT INDEXER") in
  let c := foldl witness_input c inputs in
  let c := witness_output c index in
  let c := witness_func c INDEXER_TAG in
  snd (witness_finalize c []).

Definition create_reducer_witness (g_index new_index g_new_index : str) : str :=
  let c := witness_init new_context (L "STEEMIT REDUCER") in
  let c := witness_input c g_index in
  let c := witness_input c new_index in
  let c := witness_output c g_new_index in
  let c := witness_func c REDUCER_TAG in
  snd (witness_finalize c []).

(** ** Checking *)

(** [check_witness] after the text has been loaded. *)
Definition check_record (original_witness : JSON) : outcome bool :=
  let j := set_key Null (L "TAG") (at_key original_witness (L "TAG")) in
  let j := set_key j (L "IN") (at_key original_witness (L "IN")) in
  let j := set_key j (L "OUT") (at_key original_witness (L "OUT")) in
  let j := set_key j (L "FUNC") (at_key original_witness (L "FUNC")) in
  sig ← ed25519_string_to_sig (ToString (at_key original_witness (L "SIG")));
  Ret (ed25519_verify pkey (dump 1 j) sig).

Definition check_witness (s_witness : str) : outcome bool :=
  original_witness ← Load s_witness; check_record original_witness.

(** * Theorems *)

Definition record4 (func inp outp tg : JSON) : JSON :=
  Object [(L "FUNC", func); (L "IN", inp); (L "OUT", outp); (L "TAG", tg)].

Definition record5 (func inp outp sig tg : JSON) : JSON :=
  Object [(L "FUNC", func); (L "IN", inp); (L "OUT", outp); (L "SIG", sig); (L "TAG", tg)].

Lemma append_in l0 t i :
  let j := Object [(L "IN", Array l0); (L "TAG", t)] in
  set_key j (L "IN") (append (at_key j (L "IN")) (Str i)) =
    Object [(L "IN", Array (l0 ++ [Str i])); (L "TAG", t)].
Proof. reflexivity. Qed.

Lemma ins_fold l : forall l0 t,
  foldl (fun j i => set_key j (L "IN") (append (at_key j (L "IN")) (Str i)))
    (Object [(L "IN", Array l0); (L "TAG", t)]) l =
  Object [(L "IN", Array (l0 ++ map Str l)); (L "TAG", t)].
Proof.
  induction l as [|i l IH]; intros l0 t; cbn [foldl map]; [by rewrite app_nil_r|].
  rewrite append_in. by rewrite IH, <- app_assoc.
Qed.

Lemma witness_body_eq c :
  witness_body c = record4 (Str (bin c)) (Array (map Str (ins c))) (Str (out c)) (Str (tag c)).
Proof.
  unfold witness_body.
  change (set_key (set_key Null (L "TAG") (Str (tag c))) (L "IN") (Array []))
    with (Object [(L "IN", Array []); (L "TAG", Str (tag c))]).
  by rewrite ins_fold.
Qed.

Definition signature_of (c : witness_context) : str :=
  ed25519_sig_to_string (ed25519_sign skey (dump 1 (witness_body c))).

Lemma witness_finalize_eq c o : stage c <> 5%Z ->
  witness_finalize c o =
    (mk_ctx (tag c) (ins c) (out c) (bin c) 5,
     dump 1 (record5 (Str (bin c)) (Array (map Str (ins c))) (Str (out c))
               (Str (signature_of c)) (Str (tag c)))).
Proof.
  intros Hs. unfold witness_finalize, signature_of. rewrite (proj2 (Z.eqb_neq _ _) Hs).
  by rewrite witness_body_eq.
Qed.

Lemma plain_key k : json_escape k = k -> key_ok k.
Proof. intros E. by exists k. Qed.

Lemma wf_Str s : wf (Str s).
Proof. exact I. Qed.

Lemma wf_strings l : wf (Array (map Str l)).
Proof. cbn. induction l as [|s l IH]; cbn; [done|]. by split. Qed.

Lemma wf_record5 a b c d e : wf a -> wf b -> wf c -> wf d -> wf e -> wf (record5 a b c d e).
Proof.
  intros. split; [by repeat constructor|].
  repeat split; try done; by apply plain_key.
Qed.

(** What a finished witness loads as. *)
Lemma Load_witness c o : stage c <> 5%Z ->
  Load (snd (witness_finalize c o)) =
    Ret (record5 (Str (bin c)) (Array (map Str (ins c))) (Str (out c)) (Str (signature_of c)) (Str (tag c))).
Proof.
  intros Hs. rewrite witness_finalize_eq by done. cbn [snd]. apply Load_dump_eq; [|exact I].
  apply wf_record5; try apply wf_Str. apply wf_strings.
Qed.

Lemma escape_hex s : Forall (fun c => hex_char c = true) s -> json_escape s = s.
Proof.
  induction 1 as [|c s Hc _ IH]; [done|]. cbn. rewrite IH.
  assert (E : escape_char c = [c]); [|by rewrite E].
  revert Hc. destruct c as [[] [] [] [] [] [] [] []]; vm_compute; done.
Qed.

(** What is checked of any record: the signature on the four other fields. *)
Lemma check_record_eq w :
  check_record w =
    (sig ← ed25519_string_to_sig (ToString (at_key w (L "SIG")));
     Ret (ed25519_verify pkey (dump 1 (record4 (at_key w (L "FUNC")) (at_key w (L "IN"))
       (at_key w (L "OUT")) (at_key w (L "TAG")))) sig)).
Proof. reflexivity. Qed.

Lemma check_finalize `{!CryptoLaws} c o : stage c <> 5%Z ->
  check_witness (snd (witness_finalize c o)) = Ret true.
Proof.
  intros Hs. unfold check_witness. rewrite Load_witness, bind_ret, check_record_eq by done.
  change (at_key _ (L "SIG")) with (Str (signature_of c)). cbn [ToString].
  rewrite escape_hex by apply print_hex_chars.
  replace (ed25519_string_to_sig (signature_of c))
    with (Ret (ed25519_sign skey (dump 1 (witness_body c))))
    by (symmetry; apply sig_text_back0, sign_length).
  rewrite bind_ret. change (record4 (at_key _ _) _ _ _) with
    (record4 (Str (bin c)) (Array (map Str (ins c))) (Str (out c)) (Str (tag c))).
  rewrite <- witness_body_eq. unfold ed25519_verify, ed25519_sign. by rewrite verify_sign.
Qed.

(** ** What a valid signature tells *)

(** The text of a four-field record around the texts of its fields. *)
Definition frame1 : str := L "{" ++ [NL] ++ pad_of 1 ++ [DQ] ++ L "FUNC" ++ [DQ] ++ L " : ".
Definition frame (k : string) : str := L "," ++ [NL] ++ pad_of 1 ++ [DQ] ++ L k ++ [DQ] ++ L " : ".
Definition frame5 : str := [NL] ++ drop 2 (pad_of 1) ++ L "}".

Lemma dump_record4 f i o t :
  dump 1 (record4 f i o t) =
    frame1 ++ dump 2 f ++ frame "IN" ++ dump 2 i ++ frame "OUT" ++ dump 2 o
      ++ frame "TAG" ++ dump 2 t ++ frame5.
Proof.
  unfold record4, frame1, frame, frame5. cbn [dump map join fst snd].
  rewrite <- !app_assoc. reflexivity.
Qed.

Lemma record4_inv f i o t c : dump 1 (record4 f i o t) = dump 1 (witness_body c) ->
  f = Str (bin c) /\ i = Array (map Str (ins c)) /\ o = Str (out c) /\ t = Str (tag c).
Proof.
  rewrite witness_body_eq, !dump_record4. intros E.
  apply app_inv_head, dump_Str_prefix in E as [-> E].
  apply app_inv_head, dump_strings_prefix in E as [-> E].
  apply app_inv_head, dump_Str_prefix in E as [-> E].
  apply app_inv_head, dump_Str_prefix in E as [-> _]. done.
Qed.

(** [w] has the four fields of the record of [c]. *)
Definition carries (w : JSON) (c : witness_context) : Prop :=
  at_key w (L "FUNC") = Str (bin c) /\ at_key w (L "IN") = Array (map Str (ins c)) /\
  at_key w (L "OUT") = Str (out c) /\ at_key w (L "TAG") = Str (tag c).

(** A forgery against a signer: a valid signature on a text that is none of the
    records it has signed and none of the epoch numbers, which the manager
    signs with the same key. *)
Definition forgery (records : list witness_context) (m sig : str) : Prop :=
  ed25519_verify pkey m sig = true /\
  (forall c, c ∈ records -> m <> dump 1 (witness_body c)) /\ (forall e : Z, m <> to_string e).

Lemma record_not_epoch f i o t e : dump 1 (record4 f i o t) <> to_string e.
Proof.
  rewrite dump_record4. intros E. pose proof (to_string_num e) as Hn. rewrite <- E in Hn.
  apply Forall_cons_iff in Hn as [Hn _]. by vm_compute in Hn.
Qed.

Lemma escape_no_newline s : Forall (fun c => b2z c <> 10%Z) (json_escape s).
Proof.
  induction s as [|c s IH]; [constructor|]. apply Forall_app. split; [|exact IH].
  destruct c as [[] [] [] [] [] [] [] []]; repeat constructor; done.
Qed.

Lemma epoch_not_record s f i o t : json_escape s <> dump 1 (record4 f i o t).
Proof.
  rewrite dump_record4. intros E. pose proof (escape_no_newline s) as H1. rewrite E in H1.
  apply Forall_cons_iff in H1 as [_ H1]. apply Forall_cons_iff in H1 as [H1 _]. done.
Qed.

(** The text whose signature is checked. *)
Definition checked_text (w : JSON) : str :=
  dump 1 (record4 (at_key w (L "FUNC")) (at_key w (L "IN")) (at_key w (L "OUT")) (at_key w (L "TAG"))).

(** It has the fields of a record exactly when it is the text of the record. *)
Lemma checked_text_carries w c : checked_text w = dump 1 (witness_body c) <-> carries w c.
Proof.
  split; [apply record4_inv|]. intros (E1 & E2 & E3 & E4). unfold checked_text. by rewrite witness_body_eq, E1, E2, E3, E4.
Qed.

#[global] Instance carries_dec w c : Decision (carries w c).
Proof. destruct (decide (checked_text w = dump 1 (witness_body c))) as [E|E]; [left|right]; by rewrite <- checked_text_carries. Defined.

Lemma check_witness_text s w b : Load s = Ret w -> check_witness s = Ret b ->
  exists sig, ed25519_string_to_sig (ToString (at_key w (L "SIG"))) = Ret sig /\ ed25519_verify pkey (checked_text w) sig = b.
Proof.
  intros Hw Hc. unfold check_witness in Hc. rewrite Hw, bind_ret, check_record_eq in Hc.
  apply bind_Ret_inv in Hc as (sig & Hs & Hv). apply Ret_inj in Hv. by exists sig.
Qed.

Lemma check_witness_bound records s w : Load s = Ret w -> check_witness s = Ret true ->
  (exists c, c ∈ records /\ carries w c) \/
  exists sig, ed25519_string_to_sig (ToString (at_key w (L "SIG"))) = Ret sig /\ forgery records (checked_text w) sig.
Proof.
  intros Hw Hc. destruct (check_witness_text s w true Hw Hc) as (sig & Hs & Hv).
  destruct (decide (Exists (carries w) records)) as [He|He]; [left; by apply Exists_exists in He|right].
  exists sig. split; [done|]. split; [done|]. split; [|intros e; apply record_not_epoch].
  intros c Hin E. apply He, Exists_exists. exists c. split; [done|]. by apply checked_text_carries.
Qed.

Lemma carries_finalized c sig c' :
  carries (record5 (Str (bin c)) (Array (map Str (ins c))) (Str (out c)) sig (Str (tag c))) c' <->
    bin c' = bin c /\ ins c' = ins c /\ out c' = out c /\ tag c' = tag c.
Proof.
  change (Str (bin c) = Str (bin c') /\ Array (map Str (ins c)) = Array (map Str (ins c')) /\
    Str (out c) = Str (out c') /\ Str (tag c) = Str (tag c') <->
    bin c' = bin c /\ ins c' = ins c /\ out c' = out c /\ tag c' = tag c).
  split; [|by intros (-> & -> & -> & ->)]. intros ([= ->] & [= E] & [= ->] & [= ->]). split_and!; try done.
  revert E. generalize (ins c') as l'. induction (ins c) as [|x l IH]; intros [|y l'] E; try done. injection E as -> E. by rewrite (IH l' E).
Qed.

(** ** The enclaves' witnesses *)

Lemma inputs_fold l : forall c,
  foldl witness_input c l =
    mk_ctx (tag c) (ins c ++ map sha256_string l) (out c) (bin c) (match l with [] => stage c | _ => 2%Z end).
Proof.
  induction l as [|x l IH]; intros c; cbn [foldl map].
  - rewrite app_nil_r. by destruct c.
  - rewrite IH. cbn. rewrite <- app_assoc. by destruct l.
Qed.

(** The context an enclave finalizes. *)
Definition work (t : str) (inputs : list str) (output func : str) : witness_context :=
  mk_ctx t (map sha256_string inputs) (sha256_string output) (sha256_string func) 4.

Lemma crawler_work inputs output :
  create_cralwer_witness inputs output =
    snd (witness_finalize (work (L "STEEMIT CRAWLER") inputs output CRAWLER_TAG) []).
Proof. unfold create_cralwer_witness. rewrite inputs_fold. by destruct inputs. Qed.

Lemma indexer_work inputs index :
  create_indexer_witness inputs index =
    snd (witness_finalize (work (L "STEEMIT INDEXER") inputs index INDEXER_TAG) []).
Proof. unfold create_indexer_witness. rewrite inputs_fold. by destruct inputs. Qed.

Lemma reducer_work g n r :
  create_reducer_witness g n r =
    snd (witness_finalize (work (L "STEEMIT REDUCER") [g; n] r REDUCER_TAG) []).
Proof. done. Qed.

End Witness.

(** ** Properties *)

(** Every witness an enclave finalizes passes the auditor's check: the
    check rebuilds from the loaded record exactly the text that was signed. *)
Lemma check_witness_finalize `{CryptoLaws} c o : stage c <> 5%Z ->
  check_witness (snd (witness_finalize c o)) = Ret true.
Proof. by apply check_finalize. Qed.

(** C13. A witness that passes the check binds its fields.  Whatever else its
    text holds, either function, inputs, output and tag are those of one of the
    records that were signed, or its signature is a forgery: valid on a text that
    is none of the signed records, and no epoch number either, which the manager
    signs with the same key.  And every record that an enclave finalizes passes
    with exactly its own fields. *)
Theorem check_witness_binding `{CryptoLaws} (records : list witness_context) :
  (forall s w, Load s = Ret w -> check_witness s = Ret true ->
    (exists c, c ∈ records /\ carries w c) \/
    exists sig, ed25519_string_to_sig (ToString (at_key w (L "SIG"))) = Ret sig /\ forgery records (checked_text w) sig) /\
  (forall c, stage c <> 5%Z -> exists w, Load (snd (witness_finalize c [])) = Ret w /\
    check_witness (snd (witness_finalize c [])) = Ret true /\ forall c', carries w c' <->
      bin c' = bin c /\ ins c' = ins c /\ out c' = out c /\ tag c' = tag c).
Proof.
  split; [intros s w; apply check_witness_bound|]. intros c Hs. eexists. split; [by apply Load_witness|].
  split; [by apply check_finalize|]. intros c'. apply carries_finalized.
Qed.

Definition sample_context : witness_context := mk_ctx (L "t") [L "a"; L "b"] (L "o") (L "f") 4.

Lemma check_witness_binding_witness :
  let s := snd (@witness_finalize toy_crypto sample_context []) in
  exists w, Load s = Ret w /\ @check_witness toy_crypto s = Ret true /\ carries w sample_context /\
    ((exists c, c ∈ [mk_ctx [] [] [] [] 4] /\ carries w c) \/
     exists sig, ed25519_string_to_sig (ToString (at_key w (L "SIG"))) = Ret sig /\
       @forgery toy_crypto [mk_ctx [] [] [] [] 4] (checked_text w) sig).
Proof.
  intros s. destruct (@check_witness_binding toy_crypto toy_laws [mk_ctx [] [] [] [] 4]) as [Hbound Hown].
  destruct (Hown sample_context ltac:(discriminate)) as (w & Hw & Hc & Hfields). exists w. split; [exact Hw|]. split; [exact Hc|].
  split; [apply Hfields; split; [reflexivity|]; split; [reflexivity|]; split; reflexivity|]. exact (Hbound s w Hw Hc).
Defined.

(** The stage guards keep a repeated [witness_output] from changing the
    output only when nothing came in between: after [witness_func] a second
    output replaces the first. *)
Lemma witness_output_twice `{Crypto} c a b f : stage c <> 3%Z ->
  witness_output (witness_output c a) b = witness_output c a /\
  out (witness_output (witness_func (witness_output c a) f) b) = sha256_string b.
Proof.
  intros Hs. assert (E : witness_output c a = mk_ctx (tag c) (ins c) (sha256_string a) (bin c) 3).
  { unfold witness_output. by rewrite (proj2 (Z.eqb_neq _ _) Hs). }
  rewrite E. split; reflexivity.
Qed.

