(* ===== verification/Crawler.v ===== *)
(** * Crawler enclave

    src/executor/Enclave/enclave_crawler.cpp: raw Steemit blocks in, a JSON
    array of posts and a witness out. *)

From Stdlib Require Import String.
From S2P Require Import Prelude Json JsonFacts Codec Crypto Witness.

Import Json.

(** [trim_string] of src/executor/Enclave/enclave_common.hpp; the length
    argument of [substr] is clipped, so the wrap-around of [length()-2] does
    not show. *)
Definition trim_string (original_string : str) : outcome str :=
  substr original_string 1 (length original_string - 2).

(** [arr[pos++] = item] for all items, starting from a null value. *)
Fixpoint fill_array (pos : nat) (arr : JSON) (items : list str) : JSON :=
  match items with
  | [] => arr
  | item :: items => fill_array (S pos) (set_index arr pos (Str item)) items
  end.

Definition parse_fake_item (inputs : list str) : str := dump 1 (fill_array 0 Null inputs).

(** The posts of a transaction. *)
Definition txn_posts (txn : JSON) : list str :=
  let op := at_key txn (L "operations") in
  concat (map (fun post =>
    if decide (ToString (at_key post (L "type")) = L "comment_operation")
    then [ToString (at_key (at_key post (L "value")) (L "title")) ++ L "  "
            ++ ToString (at_key (at_key post (L "value")) (L "body"))]
    else []) (ArrayRange op)).

Definition item_posts (item : JSON) : list str :=
  let transactions := at_key (at_key (at_key item (L "result")) (L "block")) (L "transactions") in
  concat (map txn_posts (ArrayRange transactions)).

(** What the copy of a result leaves in a zeroed buffer of the caller, read as
    text or binary of its reported size: nothing when it does not fit. *)
Definition visible (capacity : Z) (result : str) : str :=
  if (Z.of_nat (length result) <? capacity)%Z then result else [].

Section Crawler.
Context `{Crypto}.

Definition parse_steemit_item (inputs : list str) : outcome str :=
  items ← mapMO Load inputs;
  let post_candidates := concat (map item_posts items) in
  post_candidates ← match post_candidates with
    | _ :: _ => Ret post_candidates
    | [] =>
      match inputs with
      | [] => Undef
      | i0 :: _ => item ← Load i0; Ret [sha256_string (dump 1 item)]
      end
    end;
  Ret (dump 1 (fill_array 0 Null post_candidates)).

(** The static [item_candidates] goes in and comes out; the results are the
    caller's output and witness buffers. *)
Definition ecall_parse_items (item_candidates : list str) (app_input : str)
    (app_input_size app_output_size app_witness_size : Z) : outcome (str * str * list str) :=
  item_candidates ← Binary2Digest app_input app_input_size item_candidates;
  output ← parse_steemit_item item_candidates;
  let witness := create_cralwer_witness item_candidates output in
  Ret (visible app_output_size output, visible app_witness_size witness, []).

End Crawler.

(** * Theorems *)

Lemma fill_array_from items : forall l,
  fill_array (length l) (Array l) items = Array (l ++ map Str items).
Proof.
  induction items as [|i items IH]; intros l; cbn [fill_array map]; [by rewrite app_nil_r|].
  assert (E : set_index (Array l) (length l) (Str i) = Array (l ++ [Str i])).
  { unfold set_index. cbn [as_array]. rewrite decide_True by lia.
    replace (S (length l) - length l)%nat with 1%nat by lia. cbn [replicate].
    by rewrite insert_app_r_alt, Nat.sub_diag by lia. }
  rewrite E. replace (S (length l)) with (length (l ++ [Str i])) by (rewrite length_app; cbn; lia).
  by rewrite IH, <- app_assoc.
Qed.

Lemma fill_array_eq i items : fill_array 0 Null (i :: items) = Array (map Str (i :: items)).
Proof. cbn [fill_array]. change (set_index Null 0 (Str i)) with (Array [Str i]). apply (fill_array_from items [Str i]). Qed.

(** What the indexer reads back from the crawler's output. *)
Lemma Load_posts i items :
  Load (dump 1 (fill_array 0 Null (i :: items))) = Ret (Array (map Str (i :: items))).
Proof. rewrite fill_array_eq. apply Load_dump_eq; [apply wf_strings|exact I]. Qed.

Lemma trim_dump_str s : trim_string (dump 1 (Str s)) = Ret (json_escape s).
Proof.
  change (dump 1 (Str s)) with (DQ :: json_escape s ++ [DQ]). unfold trim_string, substr.
  rewrite decide_True by (cbn; lia). f_equal.
  replace (length (DQ :: json_escape s ++ [DQ]) - 2)%nat with (length (json_escape s))
    by (cbn; rewrite length_app; cbn; lia).
  apply take_app_length.
Qed.

(** Numbers need no escapes. *)
Lemma escape_num z : json_escape (to_string z) = to_string z.
Proof.
  pose proof (to_string_num z) as H. induction H as [|c s Hc _ IH]; [done|]. cbn [json_escape].
  assert (E : escape_char c = [c]); [|by rewrite E, IH].
  destruct c as [[] [] [] [] [] [] [] []]; first [reflexivity|by vm_compute in Hc].
Qed.

Section Run.
Context `{Crypto}.

(** The posts the crawler takes from its blocks, and what it puts out when
    there are none: the digest of the first block. *)
Definition found_posts (blocks : list JSON) : list str :=
  match concat (map item_posts blocks), blocks with
  | [], b :: _ => [sha256_string (dump 1 b)]
  | posts, _ => posts
  end.

Lemma parse_items_posts inputs blocks :
  mapMO Load inputs = Ret blocks -> inputs <> [] ->
  exists p ps, found_posts blocks = p :: ps /\
    parse_steemit_item inputs = Ret (dump 1 (fill_array 0 Null (p :: ps))).
Proof.
  intros Hl Hne. destruct inputs as [|i inputs]; [done|]. unfold parse_steemit_item, found_posts.
  pose proof Hl as Hl'. cbn [mapMO] in Hl'. apply bind_Ret_inv in Hl' as (b & Hb & Hl').
  apply bind_Ret_inv in Hl' as (bs & _ & E). apply Ret_inj in E as <-.
  rewrite Hl, bind_ret. destruct (concat (map item_posts (b :: bs))) as [|p ps].
  - rewrite Hb, bind_ret, bind_ret. by eexists _, _.
  - rewrite bind_ret. by eexists _, _.
Qed.

Lemma ecall_parse_items_posts inputs blocks bin cap wcap :
  Forall digest_ok inputs -> Digest2Binary inputs = Ret bin ->
  mapMO Load inputs = Ret blocks -> inputs <> [] ->
  exists output,
    ecall_parse_items [] bin (Z.of_nat (length bin)) cap wcap =
      Ret (visible cap output, visible wcap (create_cralwer_witness inputs output), []) /\
    Load output = Ret (Array (map Str (found_posts blocks))).
Proof.
  intros Hok Hb Hl Hne. destruct (parse_items_posts inputs blocks Hl Hne) as (p & ps & E & Ep).
  exists (dump 1 (fill_array 0 Null (p :: ps))). rewrite E, Load_posts. split; [|done].
  unfold ecall_parse_items. rewrite (Binary2Digest_back inputs bin Hok Hb), bind_ret. by rewrite Ep, bind_ret.
Qed.

End Run.

(** ** What is in a block

    Read off the text of a Steemit block, independently of the code. *)

Definition field (j : JSON) (k : string) (v : JSON) : Prop := exists m, j = Object m /\ map_find (L k) m = Some v.

(** The title and the body of an operation that is a post. *)
Inductive op_has : JSON -> list (str * str) -> Prop :=
  | op_comment op v t b :
      field op "type" (Str (L "comment_operation")) -> field op "value" v -> field v "title" (Str t) -> field v "body" (Str b) ->
      op_has op [(t, b)]
  | op_other op ty : field op "type" (Str ty) -> ty <> L "comment_operation" -> op_has op [].

Definition txn_has (txn : JSON) (posts : list (str * str)) : Prop :=
  exists ops ps, field txn "operations" (Array ops) /\ Forall2 op_has ops ps /\ posts = concat ps.

Definition block_has (block : JSON) (posts : list (str * str)) : Prop :=
  exists r b txns ps, field block "result" r /\ field r "block" b /\ field b "transactions" (Array txns) /\
    Forall2 txn_has txns ps /\ posts = concat ps.

(** A post as one line: title, two spaces, body, in the escapes of JSON. *)
Definition post_line (p : str * str) : str := json_escape (fst p) ++ L "  " ++ json_escape (snd p).

Lemma field_at j k v : field j k v -> at_key j (L k) = v.
Proof. intros (m & -> & E). unfold at_key. cbn [as_object]. by rewrite E. Qed.

(** Only a text without escapes escapes to a text without backslashes. *)
Lemma escape_inv s : Forall (fun c => c <> BS) (json_escape s) -> json_escape s = s.
Proof.
  induction s as [|c s IH]; intros Hs; [done|]. cbn [json_escape] in *. apply Forall_app in Hs as [Hc Hs]. rewrite (IH Hs).
  assert (E : escape_char c = [c]); [|by rewrite E].
  revert Hc. unfold escape_char. repeat case_match; intros Hc; try done; by apply Forall_cons_iff in Hc as [Hc _].
Qed.

Lemma op_posts op ps : op_has op ps ->
  (if decide (ToString (at_key op (L "type")) = L "comment_operation")
   then [ToString (at_key (at_key op (L "value")) (L "title")) ++ L "  " ++ ToString (at_key (at_key op (L "value")) (L "body"))]
   else []) = map post_line ps.
Proof.
  intros [op' v t b H1 H2 H3 H4|op' ty H1 Hn].
  - by rewrite (field_at _ _ _ H1), (field_at _ _ _ H2), (field_at _ _ _ H3), (field_at _ _ _ H4), decide_True.
  - rewrite (field_at _ _ _ H1), decide_False; [done|]. cbn [ToString]. intros E. apply Hn. rewrite <- E, escape_inv; [done|].
    rewrite E. apply (bool_decide_unpack _). vm_compute. exact I.
Qed.

Lemma concat_posts {A} (f : A -> list str) (P : A -> list (str * str) -> Prop) l ps :
  (forall x p, P x p -> f x = map post_line p) -> Forall2 P l ps -> concat (map f l) = map post_line (concat ps).
Proof.
  intros HP. induction 1 as [|x p l ps Hx _ IH]; [done|]. cbn [map concat]. by rewrite (HP x p Hx), IH, map_app.
Qed.

Lemma block_posts block ps : block_has block ps -> item_posts block = map post_line ps.
Proof.
  intros (r & b & txns & pss & H1 & H2 & H3 & Hp & ->). unfold item_posts.
  rewrite (field_at _ _ _ H1), (field_at _ _ _ H2), (field_at _ _ _ H3). apply (concat_posts _ txn_has); [|done].
  intros txn p (ops & qs & Ho & Hq & ->). unfold txn_posts. rewrite (field_at _ _ _ Ho).
  apply (concat_posts _ op_has); [apply op_posts|done].
Qed.

(** ** Properties *)

(** C32. The crawler enclave turns any non-empty batch of blocks that fit its input
    format into a JSON array of exactly the posts of the blocks, in order: one
    line, title and body, for every operation whose type is "comment_operation",
    and nothing for the others.  When there is no such operation the array has
    the hash of the first block instead.  The caller gets the array if it fits
    the caller's buffer, with a witness over the inputs and the array, and the
    enclave keeps nothing. *)
Theorem crawler_output `{Crypto} inputs blocks posts bin cap wcap :
  Forall digest_ok inputs -> Digest2Binary inputs = Ret bin ->
  mapMO Load inputs = Ret blocks -> inputs <> [] -> Forall2 block_has blocks posts ->
  exists output,
    ecall_parse_items [] bin (Z.of_nat (length bin)) cap wcap =
      Ret (visible cap output, visible wcap (create_cralwer_witness inputs output), []) /\
    (concat posts <> [] -> Load output = Ret (Array (map Str (map post_line (concat posts))))) /\
    (concat posts = [] -> exists b, head blocks = Some b /\ Load output = Ret (Array [Str (sha256_string (dump 1 b))])).
Proof.
  intros Hok Hb Hl Hne Hp. destruct (ecall_parse_items_posts inputs blocks bin cap wcap Hok Hb Hl Hne) as (output & E & Ho).
  exists output. split; [done|]. unfold found_posts in Ho. rewrite (concat_posts _ _ _ _ block_posts Hp) in Ho.
  destruct (concat posts) as [|p ps]; [|done]. split; [done|]. intros _. destruct blocks as [|b blocks]; [|by exists b].
  destruct inputs as [|i inputs]; [done|]. cbn [mapMO] in Hl. apply bind_Ret_inv in Hl as (x & _ & Hl). by apply bind_Ret_inv in Hl as (xs & _ & Hl).
Qed.

(** A block with one comment among its operations. *)
Definition sample_block : JSON :=
  let op k t b := Object [(L "type", Str k); (L "value", Object [(L "body", Str b); (L "title", Str t)])] in
  let txn := Object [(L "operations",
    Array [op (L "vote_operation") (L "x") (L "y"); op (L "comment_operation") (L "News") (L "all well")])] in
  Object [(L "result", Object [(L "block", Object [(L "transactions", Array [txn])])])].

Definition sample_bin : str := Eval vm_compute in
  match Digest2Binary [dump 1 sample_block] with Ret b => b | _ => [] end.

Lemma sample_block_has : block_has sample_block [(L "News", L "all well")].
Proof.
  eexists _, _, _, [[(L "News", L "all well")]]. split; [eexists; split; reflexivity|]. split; [eexists; split; reflexivity|].
  split; [eexists; split; reflexivity|]. split; [|done]. constructor; [|constructor].
  eexists _, [[]; [(L "News", L "all well")]]. split; [eexists; split; reflexivity|]. split; [|done]. constructor; [|constructor; [|constructor]].
  - apply (op_other _ (L "vote_operation")); [eexists; split; reflexivity|done].
  - eapply op_comment; (eexists; split; reflexivity).
Qed.

Lemma crawler_output_witness : exists output,
  @ecall_parse_items toy_crypto [] sample_bin (Z.of_nat (length sample_bin)) 1000 1000 =
    Ret (visible 1000 output, visible 1000 (@create_cralwer_witness toy_crypto [dump 1 sample_block] output), []) /\
  Load output = Ret (Array (map Str [L "News  all well"])).
Proof.
  destruct (@crawler_output toy_crypto [dump 1 sample_block] [sample_block] [[(L "News", L "all well")]] sample_bin 1000 1000)
    as (output & E & Ho & _).
  - constructor; [|constructor]. apply digest_ok_check. vm_compute. reflexivity.
  - vm_compute. reflexivity.
  - vm_compute. reflexivity.
  - done.
  - constructor; [exact sample_block_has|constructor].
  - exists output. split; [exact E|]. apply Ho. discriminate.
Defined.
