(* ===== verification/Indexer.v ===== *)
(** * Indexer enclave

    src/executor/Enclave/enclave_indexer.cpp: the crawlers' posts in, an
    inverted index and a witness out.

    Two inputs of the model stand for what the C++ leaves open: [order], the
    order in which a hash table is iterated over, and [stack_tail], the bytes
    up to the next zero after the one-character array [STX], which
    [build_index] hashes as if it were a zero-terminated string. *)

From Stdlib Require Import String.
From stdpp Require Import fin_maps.
From S2P Require Import Prelude Json JsonFacts Codec Tokenizer TokenizerFacts Crypto Witness Stopwords Crawler.

Import Json Sphinx.

Definition DIGEST_MAX_LENGTH : nat := 256.

(** [push_back(docID)], undone when the last two entries are equal. *)
Definition push_unique (l : list Z) (docID : Z) : list Z :=
  let l' := l ++ [docID] in
  if decide (1 < length l' /\ l' !! (length l' - 1) = l' !! (length l' - 2))%nat
  then removelast l' else l'.

Definition yield_word (docID : Z) (i_index_tbl : index_table) (wordID : Z) : index_table :=
  <[wordID := push_unique (default [] (i_index_tbl !! wordID)) (u32 docID)]> i_index_tbl.

Definition yield_index (pTok : option ISphTokenizer) (docID : Z) (doc : str)
    (i_index_tbl : index_table) : outcome index_table :=
  ids ← wordIDs pTok doc;
  Ret (foldl (yield_word docID) i_index_tbl ids).

Definition resize_digest (doc : str) : str :=
  if decide (DIGEST_MAX_LENGTH < length doc)%nat then take DIGEST_MAX_LENGTH doc else doc.

(** The loop over the documents: the digests they leave, and the index.  The code
    counts them in an [int]; it would overflow at the 2^31-th document, which the
    enclave's buffers are too small for, and is not modelled. *)
Fixpoint index_docs (pTok : option ISphTokenizer) (docID : Z) (docs : list str)
    (i_index_tbl : index_table) : outcome (list str * index_table) :=
  match docs with
  | [] => Ret ([], i_index_tbl)
  | doc :: docs =>
    i_index_tbl ← yield_index pTok docID doc i_index_tbl;
    r ← index_docs pTok (docID + 1)%Z docs i_index_tbl;
    Ret (resize_digest doc :: fst r, snd r)
  end.

Definition stopwordIDs : list Z := map sphCRC32_cstr stopwords.

Definition erase_words (ids : list Z) (i_index_tbl : index_table) : index_table :=
  foldl (fun t w => delete w t) i_index_tbl ids.

(** The documents of the inputs. *)
Definition input_docs (i_inputs : list str) : outcome (list str) :=
  js ← mapMO Load i_inputs;
  mapMO (fun item => trim_string (dump 1 item)) (concat (map ArrayRange js)).

Definition build_index (pTok : option ISphTokenizer) (stack_tail : str) (i_inputs : list str)
    (i_digest_tbl : list str) (i_index_tbl : index_table) : outcome (list str * index_table) :=
  docs ← input_docs i_inputs;
  r ← index_docs pTok 1 (i_digest_tbl ++ docs) i_index_tbl;
  let tbl := erase_words stopwordIDs (snd r) in
  Ret (fst r, delete (sphCRC32_cstr (z2b 2 :: stack_tail)) tbl).

(** The three static tables of the enclave. *)
Record indexer_state := mk_indexer {
  i_inputs : list str;
  i_digest_tbl : list str;
  i_index_tbl : index_table
}.

Definition ecall_build_index `{Crypto} (order : index_table -> list (Z * list Z))
    (pTok : option ISphTokenizer) (stack_tail : str) (st : indexer_state)
    (index_inputs : str) (index_inputs_size index_output_size index_witness_size : Z)
  : outcome (str * Z * str * indexer_state) :=
  inputs ← Binary2Digest index_inputs index_inputs_size (i_inputs st);
  r ← build_index pTok stack_tail inputs (i_digest_tbl st) (i_index_tbl st);
  output ← Merge2Binary (fst r) (order (snd r));
  let witness := create_indexer_witness inputs output in
  Ret (visible index_output_size output, Z.of_nat (length output),
       visible index_witness_size witness, mk_indexer [] [] ∅).

(** * Theorems *)

#[global] Opaque stopwordIDs.

Local Open Scope Z_scope.

(** ** Reference: the posting list of a word *)

(** The numbers, from [docID] on, of the documents that contain the word. *)
Fixpoint postings (w : Z) (docID : Z) (docs : list (list Z)) : list Z :=
  match docs with
  | [] => []
  | ids :: docs => (if decide (w ∈ ids) then [docID] else []) ++ postings w (docID + 1) docs
  end.

(** [m] is the index of [docs] without the words of [stop]. *)
Definition is_index (stop : list Z) (docs : list (list Z)) (m : index_table) : Prop :=
  forall w, m !! w = if decide (w ∈ stop) then None
                     else match postings w 1 docs with [] => None | l => Some l end.

Definition extend (o : option (list Z)) (l : list Z) : option (list Z) :=
  match l with [] => o | _ => Some (default [] o ++ l) end.

Lemma extend_extend o l1 l2 : extend (extend o l1) l2 = extend o (l1 ++ l2).
Proof. destruct l1 as [|a l1], l2 as [|b l2]; cbn; rewrite ?app_nil_r, <- ?app_assoc; done. Qed.

Lemma push_unique_eq l d : push_unique l d = if decide (last l = Some d) then l else l ++ [d].
Proof.
  unfold push_unique. destruct l as [|x l _] using rev_ind.
  { cbn. rewrite decide_False by lia. by rewrite decide_False. }
  rewrite last_snoc, length_app, length_app. cbn [length].
  replace (length l + 1 + 1 - 1)%nat with (length (l ++ [x])) by (rewrite length_app; cbn; lia).
  replace (length l + 1 + 1 - 2)%nat with (length l) by lia.
  rewrite lookup_app_r, Nat.sub_diag by lia. rewrite <- app_assoc.
  rewrite (lookup_app_r l) by lia. rewrite Nat.sub_diag. cbn [lookup list_lookup app].
  destruct (decide (x = d)) as [->|N].
  - rewrite decide_True by (split; [rewrite ?length_app; cbn; lia|done]).
    rewrite decide_True by done. change [d; d] with ([d] ++ [d]). rewrite app_assoc. apply removelast_last.
  - rewrite decide_False by (intros [_ E]; congruence).
    by rewrite decide_False by congruence.
Qed.

(** ** One document *)

Lemma yield_words d ids : forall tbl w, is_u32 d ->
  foldl (yield_word d) tbl ids !! w =
    if decide (w ∈ ids /\ last (default [] (tbl !! w)) <> Some d)
    then Some (default [] (tbl !! w) ++ [d]) else
    if decide (w ∈ ids) then Some (default [] (tbl !! w)) else tbl !! w.
Proof.
  induction ids as [|x ids IH]; intros tbl w Hd; cbn [foldl].
  { rewrite !decide_False by (try intros [? _]; set_solver). done. }
  rewrite IH by done. unfold yield_word. rewrite (u32_small d) by done. rewrite push_unique_eq.
  destruct (decide (w = x)) as [->|N].
  - rewrite lookup_insert_eq. cbn [default from_option id]. destruct (decide (last _ = Some d)) as [E|E].
    + rewrite (decide_False (P := _ /\ _ <> _)) by (intros [_ F]; done).
      rewrite (decide_False (P := _ /\ _ <> _)) by (intros [_ F]; done).
      rewrite (decide_True (P := x ∈ x :: ids)) by set_solver. by case_decide.
    + rewrite (decide_False (P := _ /\ _ <> _)) by (intros [_ F]; by rewrite last_snoc in F).
      rewrite (decide_True (P := _ /\ _ <> _)) by (split; [set_solver|done]). by case_decide.
  - rewrite lookup_insert_ne by done.
    destruct (decide (w ∈ ids)) as [Hi|Hi].
    + destruct (decide (last (default [] (tbl !! w)) = Some d)) as [E|E].
      * rewrite !(decide_False (P := _ /\ _ <> _)) by (intros [_ F]; done).
        by rewrite (decide_True (P := w ∈ x :: ids)) by set_solver.
      * rewrite !(decide_True (P := _ /\ _ <> _)) by (split; [set_solver|done]). done.
    + rewrite !(decide_False (P := _ /\ _ <> _)) by (intros [F _]; set_solver).
      by rewrite (decide_False (P := w ∈ x :: ids)) by set_solver.
Qed.

(** All postings are older than [docID]. *)
Definition below (docID : Z) (tbl : index_table) : Prop :=
  map_Forall (fun _ l => Forall (fun d => d < docID) l) tbl.

Lemma below_last docID tbl w : below docID tbl -> last (default [] (tbl !! w)) <> Some docID.
Proof.
  intros Hb E. destruct (tbl !! w) as [l|] eqn:Hl; [|done]. cbn in E.
  specialize (Hb w l Hl). apply last_Some in E as [l' ->].
  apply Forall_app in Hb as [_ Hb]. apply Forall_cons_iff in Hb as [Hb _]. lia.
Qed.

Lemma yield_doc docID tbl ids w : is_u32 docID -> below docID tbl ->
  foldl (yield_word docID) tbl ids !! w =
    extend (tbl !! w) (if decide (w ∈ ids) then [docID] else []).
Proof.
  intros Hd Hb. rewrite yield_words by done. pose proof (below_last docID tbl w Hb).
  destruct (decide (w ∈ ids)).
  - by rewrite decide_True.
  - by rewrite decide_False by (intros []; done).
Qed.

Lemma below_yield docID tbl ids : is_u32 docID -> below docID tbl ->
  below (docID + 1) (foldl (yield_word docID) tbl ids).
Proof.
  intros Hd Hb w l. rewrite yield_doc by done. intros E.
  assert (Ho : forall l0, tbl !! w = Some l0 -> Forall (fun d => d < docID + 1) l0).
  { intros l0 Hl. eapply Forall_weaken; [exact (Hb w l0 Hl)|]. cbn. lia. }
  case_decide; cbn in E; [|auto]. injection E as <-. apply Forall_app.
  split; [|constructor; [lia|constructor]]. destruct (tbl !! w); cbn; [auto|constructor].
Qed.

Lemma index_docs_spec pTok docs idss : forall docID tbl,
  Forall2 (fun doc ids => wordIDs pTok doc = Ret ids) docs idss ->
  0 <= docID -> docID + Z.of_nat (length docs) <= 2 ^ 32 -> below docID tbl ->
  exists tbl', index_docs pTok docID docs tbl = Ret (map resize_digest docs, tbl') /\
    forall w, tbl' !! w = extend (tbl !! w) (postings w docID idss).
Proof.
  intros docID tbl H. revert docID tbl. induction H as [|doc ids docs idss Hd _ IH]; intros docID tbl H0 Hn Hb.
  { exists tbl. done. }
  cbn [length] in Hn. assert (Hu : is_u32 docID) by (unfold is_u32; lia).
  destruct (IH (docID + 1) (foldl (yield_word docID) tbl ids)) as (tbl' & E & Hw);
    [lia|lia|by apply below_yield|].
  exists tbl'. split.
  - cbn [index_docs]. unfold yield_index. rewrite Hd, bind_ret. cbn [mbind outcome_bind]. by rewrite E.
  - intros w. rewrite Hw, yield_doc by done. cbn [postings]. apply extend_extend.
Qed.

Lemma erase_words_lookup ids : forall tbl w,
  erase_words ids tbl !! w = if decide (w ∈ ids) then None else tbl !! w.
Proof.
  induction ids as [|x ids IH]; intros tbl w; cbn [erase_words foldl].
  { by rewrite decide_False by set_solver. }
  unfold erase_words in IH. rewrite IH. destruct (decide (w ∈ ids)).
  - by rewrite decide_True by set_solver.
  - destruct (decide (w = x)) as [->|].
    + by rewrite lookup_delete_eq, decide_True by set_solver.
    + by rewrite lookup_delete_ne, decide_False by set_solver.
Qed.

(** The words that never reach an index. *)
Definition stop_ids (stack_tail : str) : list Z := sphCRC32_cstr (z2b 2 :: stack_tail) :: stopwordIDs.

Lemma erase_last x ids tbl w :
  delete x (erase_words ids tbl) !! w = if decide (w ∈ x :: ids) then None else tbl !! w.
Proof.
  destruct (decide (w = x)) as [->|N].
  - by rewrite lookup_delete_eq, decide_True by set_solver.
  - rewrite lookup_delete_ne, erase_words_lookup by done.
    destruct (decide (w ∈ ids)); [by rewrite decide_True by set_solver|by rewrite decide_False by set_solver].
Qed.

(** ** The whole index *)

Lemma build_index_spec pTok stack_tail inputs docs idss :
  input_docs inputs = Ret docs ->
  Forall2 (fun doc ids => wordIDs pTok doc = Ret ids) docs idss ->
  1 + Z.of_nat (length docs) <= 2 ^ 32 ->
  exists tbl, build_index pTok stack_tail inputs [] ∅ = Ret (map resize_digest docs, tbl) /\
    is_index (stop_ids stack_tail) idss tbl.
Proof.
  intros Hi Hids Hn.
  destruct (index_docs_spec pTok docs idss 1 ∅ Hids) as (tbl & E & Hw); [lia|lia|done|].
  eexists. split.
  - unfold build_index. rewrite Hi, bind_ret. cbn [app mbind outcome_bind]. by rewrite E.
  - intros w. cbn [snd]. rewrite erase_last, Hw, lookup_empty. fold (stop_ids stack_tail).
    case_decide; [done|]. by destruct (postings w 1 idss).
Qed.

(** ** Facts about posting lists *)

Lemma postings_elem w docs : forall k d,
  d ∈ postings w k docs <-> exists i ids, d = k + Z.of_nat i /\ docs !! i = Some ids /\ w ∈ ids.
Proof.
  induction docs as [|ids docs IH]; intros k d; cbn [postings].
  { split; [by intros ?%elem_of_nil|]. intros (i & ? & _ & ? & _). done. }
  rewrite elem_of_app, IH. split.
  - intros [Hd|(i & ids' & -> & Hi & Hw)].
    + case_decide; [|by apply elem_of_nil in Hd]. apply list_elem_of_singleton in Hd as ->.
      exists 0%nat, ids. split; [lia|done].
    + exists (S i), ids'. split; [lia|done].
  - intros ([|i] & ids' & -> & Hi & Hw); cbn in Hi.
    + left. injection Hi as ->. rewrite decide_True by done. apply list_elem_of_singleton. lia.
    + right. exists i, ids'. split; [lia|done].
Qed.

Lemma postings_sorted w docs : forall k,
  Sorted.StronglySorted Z.lt (postings w k docs) /\
  Forall (fun d => k <= d < k + Z.of_nat (length docs)) (postings w k docs).
Proof.
  induction docs as [|ids docs IH]; intros k; cbn [postings length]; [by repeat constructor|].
  destruct (IH (k + 1)) as [Hs Hr].
  assert (Hr' : Forall (fun d => k <= d < k + Z.of_nat (S (length docs))) (postings w (k + 1) docs)).
  { eapply Forall_weaken; [exact Hr|]. cbn. lia. }
  case_decide; cbn [app]; [|done]. split; constructor; auto; [|lia].
  eapply Forall_weaken; [exact Hr|]. cbn. lia.
Qed.

Lemma postings_app w a b : forall k,
  postings w k (a ++ b) = postings w k a ++ postings w (k + Z.of_nat (length a)) b.
Proof.
  induction a as [|ids a IH]; intros k; cbn [app postings length].
  { f_equal. lia. }
  rewrite IH, app_assoc. do 2 f_equal. lia.
Qed.

Lemma postings_shift w b n : forall k, postings w (k + n) b = map (fun d => d + n) (postings w k b).
Proof.
  induction b as [|ids b IH]; intros k; cbn [postings map]; [done|].
  rewrite map_app, <- IH. f_equal; [by case_decide|]. f_equal. lia.
Qed.

(** Such an index survives the binary format. *)
Lemma is_index_ok stop idss m : is_index stop idss m -> Forall (Forall is_u32) idss ->
  1 + Z.of_nat (length idss) <= 2 ^ 32 -> index_ok m.
Proof.
  intros Hm Hu Hn w l Hl. rewrite Hm in Hl. case_decide; [done|].
  destruct (postings w 1 idss) as [|d l'] eqn:E; [done|]. injection Hl as <-. split_and!; [|rewrite <- E|done].
  - assert (Hd : d ∈ postings w 1 idss) by (rewrite E; left).
    apply postings_elem in Hd as (i & ids & _ & Hi & Hw).
    eapply (Forall_lookup_1 _ idss) in Hi; [|exact Hu]. rewrite Forall_forall in Hi. by apply Hi.
  - destruct (postings_sorted w idss 1) as [_ Hr]. eapply Forall_weaken; [exact Hr|]. cbn. lia.
Qed.

Lemma is_index_unique stop idss m1 m2 : is_index stop idss m1 -> is_index stop idss m2 -> m1 = m2.
Proof. intros H1 H2. apply map_eq. intros w. by rewrite H1, H2. Qed.

(** ** Properties *)

(** C18. The index an indexer builds is the reference inverted index: every word
    outside the stop words maps to the strictly increasing list of the numbers
    of exactly the documents containing it, the first document being number
    one, and the digest table has the documents cut at 256 bytes, in order. *)
Theorem build_index_reference pTok stack_tail inputs docs idss :
  input_docs inputs = Ret docs ->
  Forall2 (fun doc ids => wordIDs pTok doc = Ret ids) docs idss ->
  1 + Z.of_nat (length docs) <= 2 ^ 32 ->
  exists tbl, build_index pTok stack_tail inputs [] ∅ = Ret (map resize_digest docs, tbl) /\
    forall w, match tbl !! w with
              | Some l => w ∉ stop_ids stack_tail /\ l <> [] /\ Sorted.StronglySorted Z.lt l /\
                  forall d, d ∈ l <-> exists i ids, d = 1 + Z.of_nat i /\ idss !! i = Some ids /\ w ∈ ids
              | None => w ∈ stop_ids stack_tail \/ forall i ids, idss !! i = Some ids -> w ∉ ids
              end.
Proof.
  intros Hi Hids Hn. destruct (build_index_spec pTok stack_tail inputs docs idss Hi Hids Hn) as (tbl & E & Hw).
  exists tbl. split; [done|]. intros w. rewrite Hw. case_decide as Hs; [by left|].
  pose proof (postings_elem w idss 1) as He. destruct (postings_sorted w idss 1) as [Hso _].
  destruct (postings w 1 idss) as [|d l].
  - right. intros i ids H1 H2. apply (not_elem_of_nil (1 + Z.of_nat i)), He. by exists i, ids.
  - by split_and!.
Qed.

(** One crawler output with one post. *)
Definition sample_posts : list str := [dump 1 (Array [Str (L "Fuel for birds")])].

Lemma build_index_reference_witness : exists tbl,
  build_index (Some the_tokenizer) [] sample_posts [] ∅ = Ret ([L "Fuel for birds"], tbl) /\
  forall l, tbl !! sphCRC32 (L "birds") = Some l -> 1 ∈ l.
Proof.
  destruct (build_index_reference (Some the_tokenizer) [] sample_posts [L "Fuel for birds"]
    [map sphCRC32 [L "fuel"; L "for"; L "birds"]]) as (tbl & E & H).
  - vm_compute. reflexivity.
  - constructor; [|constructor]. cbn [wordIDs]. rewrite tokens_plain_eq by repeat constructor. reflexivity.
  - cbn. lia.
  - exists tbl. split; [exact E|]. intros l Hl. specialize (H (sphCRC32 (L "birds"))). rewrite Hl in H.
    apply H. exists 0%nat. eexists. split_and!; [done|done|]. right. right. left.
Defined.
