(* ===== verification/Shard.v ===== *)
(** * What an index blob stands for

    The contract between the index pipeline's stages.  A shard is abstractly a
    list of documents, each with the digest shown to users and the wordIDs it
    contains; [shard] relates it to the blob that the indexer and the reducer
    put on Kanban and that the reducer and the querier read. *)

From Stdlib Require Import String.
From stdpp Require Import fin_maps.
From S2P Require Import Prelude Json JsonFacts Codec Tokenizer TokenizerFacts Crypto Witness Crawler Indexer.

Import Json Sphinx.

Local Open Scope Z_scope.

(** A document: digest and wordIDs. *)
Notation document := (str * list Z)%type.

Definition doc_ok (d : document) : Prop := digest_ok (fst d) /\ Forall is_u32 (snd d).

(** [blob] holds exactly [docs], indexed by all words but those of [stop]. *)
Definition shard (stop : list Z) (docs : list document) (blob : str) : Prop :=
  Forall doc_ok docs /\ 1 + Z.of_nat (length docs) <= 2 ^ 31 /\
  Z.of_nat (length blob) < 2 ^ 31 /\
  exists m l, is_index stop (map snd docs) m /\ l ≡ₚ map_to_list m /\
    Merge2Binary (map fst docs) l = Ret blob.

Lemma docs_digests docs : Forall doc_ok docs -> Forall digest_ok (map fst docs).
Proof. intros H. apply Forall_map. eapply Forall_weaken; [exact H|]. by intros d []. Qed.

Lemma docs_words docs : Forall doc_ok docs -> Forall (Forall is_u32) (map snd docs).
Proof. intros H. apply Forall_map. eapply Forall_weaken; [exact H|]. by intros d []. Qed.

(** Taking a shard's blob apart gives its digests and its index. *)
Lemma shard_split stop docs blob : shard stop docs blob ->
  exists m, is_index stop (map snd docs) m /\ index_ok m /\
    Split_binary blob (Z.of_nat (length blob)) = Ret (map fst docs, m).
Proof.
  intros (Hok & Hn & _ & m & l & Hm & Hl & Hb). exists m. split; [done|].
  assert (Hi : index_ok m).
  { eapply is_index_ok; [exact Hm|by apply docs_words|]. rewrite length_map. lia. }
  split; [done|]. eapply Split_Merge; eauto using docs_digests.
Qed.

Lemma Merge2Binary_length ds l blob : Merge2Binary ds l = Ret blob -> Z.of_nat (length blob) < 2 ^ 31.
Proof.
  intros H. unfold Merge2Binary in H. apply bind_Ret_inv in H as (b1 & _ & H).
  apply bind_Ret_inv in H as (b2 & _ & H). case_decide; [|done]. apply Ret_inj in H as <-.
  rewrite !length_app, length_le_bytes. lia.
Qed.

Lemma shard_intro stop docs m l blob :
  Forall doc_ok docs -> 1 + Z.of_nat (length docs) <= 2 ^ 31 ->
  is_index stop (map snd docs) m -> l ≡ₚ map_to_list m ->
  Merge2Binary (map fst docs) l = Ret blob -> shard stop docs blob.
Proof.
  intros H1 H2 H3 H4 H5. split; [done|]. split; [done|].
  split; [by eapply Merge2Binary_length|]. by exists m, l.
Qed.

(** ** The indexer produces shards *)

(** The documents of an indexer's inputs, abstractly. *)
Definition abstract_docs (pTok : option ISphTokenizer) (docs : list str) (ds : list document) : Prop :=
  Forall2 (fun doc d => fst d = resize_digest doc /\ wordIDs pTok doc = Ret (snd d)) docs ds.

Lemma abstract_docs_split pTok docs ds : abstract_docs pTok docs ds ->
  map fst ds = map resize_digest docs /\
  Forall2 (fun doc ids => wordIDs pTok doc = Ret ids) docs (map snd ds) /\ length ds = length docs.
Proof.
  induction 1 as [|doc d docs ds [H1 H2] _ (IH1 & IH2 & IH3)]; [done|].
  cbn [map length]. split_and!; [by rewrite H1, IH1|by constructor|by rewrite IH3].
Qed.

Definition no_nul (s : str) : Prop := Forall (fun c => b2z c <> 0) s.

Lemma resize_digest_ok doc : no_nul doc -> digest_ok (resize_digest doc).
Proof.
  intros H. unfold resize_digest, digest_ok, TEMP_DIGEST_LEN, DIGEST_MAX_LENGTH.
  case_decide; split; try done.
  - by apply Forall_take.
  - rewrite length_take. lia.
  - lia.
Qed.

Lemma abstract_docs_ok pTok docs ds : abstract_docs pTok docs ds -> Forall no_nul docs -> Forall doc_ok ds.
Proof.
  induction 1 as [|doc d docs ds [H1 H2] _ IH]; intros Hn; [constructor|].
  apply Forall_cons_iff in Hn as [Hd Hn]. constructor; [|auto]. split.
  - rewrite H1. by apply resize_digest_ok.
  - by eapply wordIDs_u32.
Qed.

(** Sizes: a document adds at most three DWORDs per word to the index. *)

Lemma length_push_unique l d : (length (push_unique l d) <= length l + 1)%nat.
Proof. rewrite push_unique_eq. case_decide; rewrite ?length_app; cbn; lia. Qed.

Lemma weight_yield docID ids : forall m, (weight (foldl (yield_word docID) m ids) <= weight m + 3 * length ids)%nat.
Proof.
  induction ids as [|w ids IH]; intros m; cbn [foldl length]; [lia|].
  specialize (IH (yield_word docID m w)).
  assert (weight (yield_word docID m w) <= weight m + 3)%nat; [|lia].
  unfold yield_word. rewrite weight_insert, (weight_delete m w).
  pose proof (length_push_unique (default [] (m !! w)) (u32 docID)).
  destruct (m !! w); cbn [default from_option id length] in *; lia.
Qed.

Lemma weight_delete_le m k : (weight (delete k m) <= weight m)%nat.
Proof. rewrite (weight_delete m k). lia. Qed.

Lemma weight_erase ids : forall m, (weight (erase_words ids m) <= weight m)%nat.
Proof.
  induction ids as [|w ids IH]; intros m; [done|]. cbn [erase_words foldl].
  pose proof (weight_delete_le m w). specialize (IH (delete w m)). unfold erase_words in IH. lia.
Qed.

(** An upper bound for the blob of a list of documents. *)
Definition docs_size (ds : list document) : Z :=
  foldr (fun d n => 12 * Z.of_nat (length (snd d)) + Z.of_nat (length (fst d)) + 1 + n) 4 ds.

Lemma docs_size_pos ds : 4 <= docs_size ds.
Proof. induction ds as [|d ds IH]; [done|]. unfold docs_size in *. cbn [foldr]. lia. Qed.

Lemma index_docs_weight pTok docs ds : abstract_docs pTok docs ds -> forall docID m r,
  index_docs pTok docID docs m = Ret r ->
  4 * Z.of_nat (weight (snd r)) + digest_sum (fst r) + 4 <= 4 * Z.of_nat (weight m) + docs_size ds.
Proof.
  induction 1 as [|doc d docs ds [H1 H2] _ IH]; intros docID m r Hr; cbn [index_docs] in Hr.
  { apply Ret_inj in Hr as <-. cbn. lia. }
  unfold yield_index in Hr. rewrite H2, bind_ret, bind_ret in Hr.
  apply bind_Ret_inv in Hr as ([gs m'] & Hi & Hr). apply Ret_inj in Hr as <-. cbn [fst snd].
  specialize (IH _ _ _ Hi). cbn [fst snd] in IH. pose proof (weight_yield docID (snd d) m).
  cbn [digest_sum foldr docs_size]. unfold digest_sum, docs_size in *. rewrite <- H1. lia.
Qed.

Section Indexer.
Context `{Crypto} (order : index_table -> list (Z * list Z)).
Hypothesis order_perm : forall m, order m ≡ₚ map_to_list m.

Lemma build_index_shard stack_tail inputs docs ds :
  input_docs inputs = Ret docs -> Forall no_nul docs ->
  abstract_docs CreateTokenizer docs ds -> 1 + Z.of_nat (length docs) <= 2 ^ 31 ->
  docs_size ds < 2 ^ 31 ->
  exists gs m blob, build_index CreateTokenizer stack_tail inputs [] ∅ = Ret (gs, m) /\
    Merge2Binary gs (order m) = Ret blob /\ shard (stop_ids stack_tail) ds blob /\
    Z.of_nat (length blob) <= docs_size ds.
Proof.
  intros Hi Hn Ha Hl Hsz. destruct (abstract_docs_split _ _ _ Ha) as (E1 & E2 & E3).
  destruct (build_index_spec CreateTokenizer stack_tail inputs docs (map snd ds) Hi E2) as (tbl & E & Hix);
    [lia|].
  assert (Hw : 4 * Z.of_nat (weight tbl) + digest_sum (map resize_digest docs) + 4 <= docs_size ds).
  { unfold build_index in E. rewrite Hi, bind_ret in E.
    apply bind_Ret_inv in E as ([gs m] & Hd & E). apply Ret_inj, pair_equal_spec in E as [E4 E5].
    apply (index_docs_weight _ _ _ Ha) in Hd. change (weight ∅) with 0%nat in Hd. cbn [fst snd] in *.
    subst. pose proof (weight_erase stopwordIDs m).
    pose proof (weight_delete_le (erase_words stopwordIDs m) (sphCRC32_cstr (z2b 2 :: stack_tail))). lia. }
  destruct (Merge2Binary_total (map resize_digest docs) (order tbl)) as [blob HB].
  { rewrite flatten_length, (entries_weight_perm _ _ (order_perm tbl)). unfold weight in Hw. lia. }
  exists (map resize_digest docs), tbl, blob. split; [done|]. split; [done|]. split.
  2:{ apply blob_length in HB. rewrite (entries_weight_perm _ _ (order_perm tbl)) in HB. unfold weight in Hw. lia. }
  eapply (shard_intro _ ds tbl (order tbl)); eauto.
  - by eapply abstract_docs_ok.
  - lia.
  - by rewrite E1.
Qed.

(** The enclave call, on inputs marshalled by the untrusted side. *)
Lemma ecall_build_index_shard stack_tail inputs bin docs ds cap wcap :
  Forall digest_ok inputs -> Digest2Binary inputs = Ret bin ->
  input_docs inputs = Ret docs -> Forall no_nul docs ->
  abstract_docs CreateTokenizer docs ds -> 1 + Z.of_nat (length docs) <= 2 ^ 31 ->
  docs_size ds < 2 ^ 31 ->
  exists blob, shard (stop_ids stack_tail) ds blob /\ Z.of_nat (length blob) <= docs_size ds /\
    ecall_build_index order CreateTokenizer stack_tail (mk_indexer [] [] ∅) bin (Z.of_nat (length bin)) cap wcap =
      Ret (visible cap blob, Z.of_nat (length blob),
           visible wcap (create_indexer_witness inputs blob), mk_indexer [] [] ∅).
Proof.
  intros Hok Hb Hi Hn Ha Hl Hsz.
  destruct (build_index_shard stack_tail inputs docs ds Hi Hn Ha Hl Hsz) as (gs & m & blob & E1 & E2 & E3 & E4).
  exists blob. split; [done|]. split; [done|]. unfold ecall_build_index. cbn [i_inputs i_digest_tbl i_index_tbl].
  rewrite (Binary2Digest_back inputs bin Hok Hb), bind_ret, E1, bind_ret. cbn [fst snd].
  by rewrite E2, bind_ret.
Qed.
End Indexer.

(** ** Concrete shards *)

Definition sample_doc (g : string) (w : Z) : document := (L g, [w]).

Definition sample_blob (g : string) (w : Z) : str :=
  match Merge2Binary [L g] [(w, [1])] with Ret b => b | _ => [] end.

Lemma sample_index w : is_index [] [[w]] {[ w := [1] ]}.
Proof.
  intros x. cbn. destruct (decide (x = w)) as [->|N].
  - rewrite lookup_singleton_eq. by rewrite (decide_True (P := w ∈ [w])) by set_solver.
  - rewrite lookup_singleton_ne by done. by rewrite (decide_False (P := x ∈ [w])) by set_solver.
Qed.

Lemma sample_shard g w : digest_ok (L g) -> is_u32 w ->
  (match Merge2Binary [L g] [(w, [1])] with Ret _ => true | _ => false end) = true ->
  shard [] [sample_doc g w] (sample_blob g w).
Proof.
  intros Hg Hw Hb. apply (shard_intro _ _ {[ w := [1] ]} [(w, [1])]).
  - constructor; [|constructor]. split; [done|]. constructor; [done|constructor].
  - cbn. lia.
  - apply sample_index.
  - by rewrite map_to_list_singleton.
  - unfold sample_blob. cbn [map fst sample_doc]. by destruct (Merge2Binary _ _).
Qed.

