(* ===== verification/Reducer.v ===== *)
(** * Reducer enclave

    src/executor/Enclave/enclave_reducer.cpp: merges the index of an epoch into
    the global index of the epochs before. *)

From Stdlib Require Import String.
From stdpp Require Import fin_maps.
From S2P Require Import Prelude Json JsonFacts Codec Tokenizer TokenizerFacts Crypto Witness Crawler Indexer Shard.

Local Open Scope Z_scope.

(** The inner loop: the postings of one word of the second index. *)
Definition merge_entry (offset : Z) (new_index_tbl : index_table) (index : Z * list Z) : index_table :=
  let wordID := i32 (fst index) in
  foldl (fun t docID => push_doc (u32 wordID) (u32 (docID + offset)) t) new_index_tbl (snd index).

Definition merge_indexes (index_tbl1 : index_table) (index_tbl2 : list (Z * list Z)) (offset : Z)
  : index_table := foldl (merge_entry offset) index_tbl1 index_tbl2.

(** [order] is the order of the loop over the second table and of the loop
    that flattens the merged one. *)
Definition ecall_do_merge `{Crypto} (order : index_table -> list (Z * list Z))
    (index1 : str) (sz_1 : Z) (index2 : str) (sz_2 : Z) (new_sz reducer_witness_size : Z)
  : outcome (str * Z * str) :=
  hd1 ← read_at index1 0 4;
  hd2 ← read_at index2 0 4;
  let index_sz1 := i32 (le_val hd1) in
  let index_sz2 := i32 (le_val hd2) in
  index_tbl1 ← Binary2Index (drop 4 index1) index_sz1 ∅;
  index_tbl2 ← Binary2Index (drop 4 index2) index_sz2 ∅;
  let digest_sz1 := i32 (sz_1 - (4 + index_sz1)) in
  let digest_sz2 := i32 (sz_2 - (4 + index_sz2)) in
  digest_tbl1 ← Binary2Digest (drop (4 + Z.to_nat index_sz1) index1) digest_sz1 [];
  digest_tbl2 ← Binary2Digest (drop (4 + Z.to_nat index_sz2) index2) digest_sz2 [];
  let new_digest_tbl := digest_tbl1 ++ digest_tbl2 in
  let offset := Z.of_nat (length digest_tbl1) in
  let new_index_tbl := merge_indexes index_tbl1 (order index_tbl2) offset in
  _new_index ← Merge2Binary new_digest_tbl (order new_index_tbl);
  let witness := create_reducer_witness (take (Z.to_nat sz_1) index1) (take (Z.to_nat sz_2) index2) _new_index in
  Ret (visible new_sz _new_index, Z.of_nat (length _new_index), visible reducer_witness_size witness).

(** * Theorems *)

Lemma push_docs_lookup key l : forall tbl w,
  foldl (fun t i => push_doc key i t) tbl l !! w = if decide (w = key) then extend (tbl !! w) l else tbl !! w.
Proof.
  induction l as [|i l IH]; intros tbl w; cbn [foldl]; [by case_decide|].
  rewrite IH. unfold push_doc. case_decide as E.
  - subst. rewrite lookup_insert_eq. change (Some (default [] (tbl !! key) ++ [i])) with (extend (tbl !! key) [i]).
    by rewrite extend_extend.
  - by rewrite lookup_insert_ne.
Qed.

Lemma merge_entry_lookup offset tbl k l w : is_u32 k ->
  merge_entry offset tbl (k, l) !! w =
    if decide (w = k) then extend (tbl !! w) (map (fun d => u32 (d + offset)) l) else tbl !! w.
Proof.
  intros Hk. unfold merge_entry. cbn [fst snd]. rewrite i32_u32, u32_small by done.
  rewrite <- push_docs_lookup. f_equal. clear. revert tbl.
  induction l as [|d l IH]; intros tbl; [done|]. cbn. by rewrite IH.
Qed.

Lemma merge_indexes_lookup offset l : forall tbl w,
  Forall (fun e => is_u32 (fst e)) l -> NoDup (fst <$> l) ->
  merge_indexes tbl l offset !! w =
    extend (tbl !! w) (map (fun d => u32 (d + offset)) (default [] (list_to_map (M := index_table) l !! w))).
Proof.
  induction l as [|[k vs] l IH]; intros tbl w Hu Hnd; [done|].
  apply Forall_cons_iff in Hu as [Hk Hu]. apply NoDup_cons in Hnd as [Hf Hnd].
  change (merge_indexes tbl ((k, vs) :: l) offset) with (merge_indexes (merge_entry offset tbl (k, vs)) l offset).
  rewrite IH, merge_entry_lookup by done. cbn [list_to_map foldr]. cbn [fst snd] in *.
  destruct (decide (w = k)) as [->|N].
  - rewrite (not_elem_of_list_to_map_1 l k), lookup_insert_eq by done. done.
  - by rewrite lookup_insert_ne.
Qed.

(** Merging the indexes of two document lists gives the index of the list of
    all documents. *)
Lemma merge_is_index stop a b m1 m2 l2 :
  is_index stop a m1 -> is_index stop b m2 -> Forall (Forall is_u32) b ->
  1 + Z.of_nat (length a + length b) <= 2 ^ 31 -> l2 ≡ₚ map_to_list m2 ->
  is_index stop (a ++ b) (merge_indexes m1 l2 (Z.of_nat (length a))).
Proof.
  intros H1 H2 Hb Hn Hl w.
  destruct (index_ok_entries m2 l2) as (Hu & Hnd & Hm); [by eapply is_index_ok; eauto; lia|done|].
  rewrite merge_indexes_lookup; [|eapply Forall_weaken; [exact Hu|]; by intros e []|done].
  rewrite Hm, H1, H2. case_decide; [done|].
  rewrite postings_app, postings_shift. destruct (postings_sorted w b 1) as [_ Hr].
  assert (E : map (fun d => u32 (d + Z.of_nat (length a))) (postings w 1 b) =
              map (fun d => d + Z.of_nat (length a)) (postings w 1 b)).
  { apply map_ext_in. intros d Hd. apply u32_small. rewrite Forall_forall in Hr.
    apply list_elem_of_In, Hr in Hd. unfold is_u32. lia. }
  destruct (postings w 1 b) as [|d l]; cbn [default from_option id map extend].
  - rewrite app_nil_r. by destruct (postings w 1 a).
  - cbn [map] in E. rewrite E. by destruct (postings w 1 a).
Qed.

(** ** Sizes: a merged blob is never larger than its two parts together *)

Lemma weight_push k i m : (weight (push_doc k i m) <= weight m + 1 + match m !! k with Some _ => 0 | None => 2 end)%nat.
Proof.
  unfold push_doc. rewrite weight_insert, length_app. rewrite (weight_delete m k).
  destruct (m !! k); cbn; lia.
Qed.

Lemma weight_entry offset m e : (weight (merge_entry offset m e) <= weight m + 2 + length (snd e))%nat.
Proof.
  unfold merge_entry. set (k := u32 (i32 (fst e))).
  assert (H : forall l m, (weight (foldl (fun t d => push_doc k (u32 (d + offset)) t) m l)
     <= weight m + length l + match m !! k with Some _ => 0 | None => 2 end)%nat).
  { induction l as [|d l IH]; intros m0; cbn [foldl length]; [lia|].
    specialize (IH (push_doc k (u32 (d + offset)) m0)). pose proof (weight_push k (u32 (d + offset)) m0).
    assert (E : push_doc k (u32 (d + offset)) m0 !! k = Some (default [] (m0 !! k) ++ [u32 (d + offset)]))
      by apply lookup_insert_eq.
    rewrite E in IH. lia. }
  specialize (H (snd e) m). destruct (m !! k); lia.
Qed.

Lemma weight_merge offset l : forall m, (weight (merge_indexes m l offset) <= weight m + entries_weight l)%nat.
Proof.
  induction l as [|e l IH]; intros m; cbn [entries_weight foldr]; [cbn; lia|].
  specialize (IH (merge_entry offset m e)). pose proof (weight_entry offset m e).
  unfold merge_indexes, entries_weight in *. cbn [foldl]. lia.
Qed.

(** ** The reducer concatenates shards *)

Section Reduce.
Context `{Crypto} (order : index_table -> list (Z * list Z)).
Hypothesis order_perm : forall m, order m ≡ₚ map_to_list m.

(** The decoding steps of the enclave are those of [Split_binary]. *)
Lemma Split_steps blob sz ds m :
  Split_binary blob sz = Ret (ds, m) ->
  exists hd, read_at blob 0 4 = Ret hd /\ Binary2Index (drop 4 blob) (i32 (le_val hd)) ∅ = Ret m /\
    Binary2Digest (drop (4 + Z.to_nat (i32 (le_val hd))) blob) (i32 (sz - (4 + i32 (le_val hd)))) [] = Ret ds.
Proof.
  unfold Split_binary. intros H1. apply bind_Ret_inv in H1 as (hd & E1 & H1).
  apply bind_Ret_inv in H1 as (m' & E2 & H1). apply bind_Ret_inv in H1 as (ds' & E3 & H1).
  apply Ret_inj in H1. injection H1 as -> ->. by exists hd.
Qed.

Lemma do_merge_shard stop a b blob1 blob2 cap wcap :
  shard stop a blob1 -> shard stop b blob2 ->
  1 + Z.of_nat (length a + length b) <= 2 ^ 31 ->
  Z.of_nat (length blob1) + Z.of_nat (length blob2) < 2 ^ 31 ->
  exists blob, shard stop (a ++ b) blob /\
    Z.of_nat (length blob) <= Z.of_nat (length blob1) + Z.of_nat (length blob2) /\
    ecall_do_merge order blob1 (Z.of_nat (length blob1)) blob2 (Z.of_nat (length blob2)) cap wcap =
      Ret (visible cap blob, Z.of_nat (length blob), visible wcap (create_reducer_witness blob1 blob2 blob)).
Proof.
  intros S1 S2 Hn Hsz.
  destruct (shard_split _ _ _ S1) as (m1 & Hm1 & Hi1 & E1). destruct (shard_split _ _ _ S2) as (m2 & Hm2 & Hi2 & E2).
  destruct S1 as (Ok1 & N1 & L1 & m1' & l1 & Hm1' & P1 & B1). destruct S2 as (Ok2 & N2 & L2 & m2' & l2 & Hm2' & P2 & B2).
  rewrite (is_index_unique _ _ _ _ Hm1' Hm1) in *. rewrite (is_index_unique _ _ _ _ Hm2' Hm2) in *.
  set (mm := merge_indexes m1 (order m2) (Z.of_nat (length a))).
  assert (Hmm : is_index stop (map snd (a ++ b)) mm).
  { rewrite map_app. unfold mm. rewrite <- (length_map snd a). apply merge_is_index with m2; auto using docs_words.
    rewrite !length_map. lia. }
  assert (Hsum : 4 + 4 * Z.of_nat (entries_weight (order mm)) + digest_sum (map fst (a ++ b)) <=
    Z.of_nat (length blob1) + Z.of_nat (length blob2)).
  { apply blob_length in B1, B2. rewrite (entries_weight_perm _ _ (order_perm mm)).
    pose proof (weight_merge (Z.of_nat (length a)) (order m2) m1) as W. fold mm in W. unfold weight at 2 in W.
    rewrite (entries_weight_perm _ _ (order_perm m2)) in W.
    rewrite <- (entries_weight_perm _ _ P1), <- (entries_weight_perm _ _ P2) in W.
    unfold weight in W. rewrite map_app, digest_sum_app. lia. }
  destruct (Merge2Binary_total (map fst (a ++ b)) (order mm)) as [blob HB]; [rewrite flatten_length; lia|].
  exists blob. split.
  { eapply (shard_intro _ _ mm); eauto; [by apply Forall_app|rewrite length_app; lia]. }
  split; [rewrite (blob_length _ _ _ HB); lia|].
  destruct (Split_steps _ _ _ _ E1) as (hd1 & R1 & X1 & D1).
  destruct (Split_steps _ _ _ _ E2) as (hd2 & R2 & X2 & D2).
  unfold ecall_do_merge. rewrite R1, bind_ret, R2, bind_ret. cbv zeta.
  rewrite X1, bind_ret, X2, bind_ret, D1, bind_ret, D2, bind_ret, length_map, <- map_app. fold mm.
  rewrite HB, bind_ret, !Nat2Z.id, !take_ge by lia. done.
Qed.
End Reduce.

(** ** Properties *)

(** C17. Merging the blobs of two shards gives the blob of the concatenated
    document list: the reducer computes exactly the index an indexer would
    have built from all documents at once, with a witness over both inputs,
    whenever the two blobs together stay below 2^31 bytes. *)
Theorem do_merge_concatenates `{Crypto} (order : index_table -> list (Z * list Z)) stop a b blob1 blob2 cap wcap :
  (forall m, order m ≡ₚ map_to_list m) ->
  shard stop a blob1 -> shard stop b blob2 ->
  1 + Z.of_nat (length a + length b) <= 2 ^ 31 ->
  Z.of_nat (length blob1) + Z.of_nat (length blob2) < 2 ^ 31 ->
  exists blob, shard stop (a ++ b) blob /\
    ecall_do_merge order blob1 (Z.of_nat (length blob1)) blob2 (Z.of_nat (length blob2)) cap wcap =
      Ret (visible cap blob, Z.of_nat (length blob), visible wcap (create_reducer_witness blob1 blob2 blob)).
Proof.
  intros Ho S1 S2 H1 H2. destruct (do_merge_shard order Ho stop a b blob1 blob2 cap wcap S1 S2 H1 H2)
    as (blob & Hs & _ & E). by exists blob.
Qed.

Lemma do_merge_concatenates_witness : exists blob,
  shard [] [sample_doc "rust" 7; sample_doc "C" 7] blob /\
  @ecall_do_merge toy_crypto map_to_list (sample_blob "rust" 7) (Z.of_nat (length (sample_blob "rust" 7)))
      (sample_blob "C" 7) (Z.of_nat (length (sample_blob "C" 7))) 4096 4096 =
    Ret (visible 4096 blob, Z.of_nat (length blob),
         visible 4096 (@create_reducer_witness toy_crypto (sample_blob "rust" 7) (sample_blob "C" 7) blob)).
Proof.
  apply (@do_merge_concatenates toy_crypto map_to_list [] [sample_doc "rust" 7] [sample_doc "C" 7]).
  - done.
  - apply sample_shard; [by apply digest_ok_check|done|by vm_compute].
  - apply sample_shard; [by apply digest_ok_check|done|by vm_compute].
  - cbn. lia.
  - vm_compute. done.
Defined.
