(* ===== verification/Querier.v ===== *)
(** * Querier enclave

    src/executor/Enclave/enclave_querier.cpp: loads the global index of a
    shard and answers keyword queries, ten results a page, with a witness that
    links the answer to the index and the query. *)

From Stdlib Require Import String.
From stdpp Require Import fin_maps.
From S2P Require Import Prelude Json JsonFacts Codec Tokenizer TokenizerFacts Crypto Witness Crawler Indexer Shard.

Import Json Sphinx.

Local Open Scope Z_scope.

(** The static data of the enclave. *)
Record querier_state := mk_querier {
  q_digest_tbl : list str;
  q_index_tbl : index_table;
  querier_context_template : witness_context
}.

Definition ecall_querier_setup `{Crypto} (st : querier_state) (b_index_input : str)
    (b_index_input_size : Z) : outcome querier_state :=
  r ← Split_binary b_index_input b_index_input_size;
  let c := witness_clear (querier_context_template st) in
  let c := witness_init c (L "STEEMIT QUERIER") in
  let c := witness_input c (take (Z.to_nat b_index_input_size) b_index_input) in
  Ret (mk_querier (fst r) (snd r) c).

(** [std::set_intersection]. *)
Fixpoint set_intersection (v1 : list Z) : list Z -> list Z :=
  fix go (v2 : list Z) : list Z :=
    match v1, v2 with
    | x :: v1', y :: v2' =>
      if x <? y then set_intersection v1' v2
      else if y <? x then go v2'
      else x :: set_intersection v1' v2'
    | _, _ => []
    end.

(** Step 1: at most 32 words are served. *)
Definition query_words (pTok : option ISphTokenizer) (q : str) : outcome (list Z) :=
  ids ← wordIDs pTok q; Ret (take 32 ids).

(** Step 2: [q_index_tbl[wordID]] inserts an empty list for a new word. *)
Fixpoint docID_lists (words : list Z) (tbl : index_table) : list (list Z) * index_table :=
  match words with
  | [] => ([], tbl)
  | w :: words =>
    let l := default [] (tbl !! w) in
    let '(ls, tbl) := docID_lists words (<[w := l]> tbl) in (l :: ls, tbl)
  end.

(** Step 3: [prev] is the list of the word before, [_this_vec] the result so far. *)
Fixpoint intersect_lists (prev : option (list Z)) (_this_vec : list Z) (lists : list (list Z)) : list Z :=
  match lists with
  | [] => _this_vec
  | l :: lists =>
    intersect_lists (Some l)
      (match prev with Some p => set_intersection p l | None => l end) lists
  end.

(** [q_digest_tbl[docID - 1]]. *)
Definition digest_of (digests : list str) (docID : Z) : outcome str :=
  match digests !! Z.to_nat (u32 (docID - 1)) with Some s => Ret s | None => Undef end.

(** Step 4: the page from position [(page-1)*10] on.  Positions are compared
    as integers; following an iterator outside the vector is undefined. *)
Definition page_results (digests : list str) (_this_vec : list Z) (page : Z) : outcome (list str) :=
  let pos := (page - 1) * 10 in
  if decide (is_i32 (page - 1) /\ is_i32 pos) then
    if pos <? Z.of_nat (length _this_vec) then
      if pos <? 0 then Undef
      else mapMO (digest_of digests) (take 10 (drop (Z.to_nat pos) _this_vec))
    else Ret []
  else Undef.

(** Step 5. *)
Definition dummy : str := replicate DIGEST_MAX_LENGTH (z2b 88).

Definition pad_results (q_results_list : list str) : list str :=
  q_results_list ++ replicate (10 - length q_results_list) dummy.

(** The JSON list of the ten results, entries from number [i] on. *)
Fixpoint add_results (i : Z) (results : list str) (response1 : JSON) : JSON :=
  match results with
  | [] => response1
  | s :: results =>
    let result := set_key (set_key Null (L "number") (Str (to_string (i + 1)))) (L "answer") (Str s) in
    add_results (i + 1) results
      (set_key response1 (L "results") (append (at_key response1 (L "results")) result))
  end.

Definition response_of (results : list str) : JSON :=
  add_results 0 (take 10 results) (set_key Null (L "results") (Array [])).

Section Query.
Context `{Crypto}.

Definition querier_witness_of (template : witness_context) (request : str) (response1 : JSON) : str :=
  let c := witness_input template request in
  let c := witness_output c (dump 1 response1) in
  let c := witness_func c QUERIER_TAG in
  snd (witness_finalize c []).

(** The enclave call: the state and the response buffer afterwards. *)
Definition ecall_do_query (pTok : option ISphTokenizer) (st : querier_state) (querier_request : str)
    (querier_request_size querier_response_size : Z) : outcome (querier_state * str) :=
  let s_request := c_str querier_request in
  j ← Load s_request;
  let q_keywords := dump 1 (at_key j (L "keywords")) in
  q_page ← trim_string (dump 1 (at_key j (L "page")));
  if decide (q_keywords = [] \/ q_page = []) then Ret (st, [])
  else
    let page := i32 (strtol 10 q_page) in
    words ← query_words pTok q_keywords;
    let '(lists, tbl) := docID_lists words (q_index_tbl st) in
    let _this_vec := intersect_lists None [] lists in
    results ← page_results (q_digest_tbl st) _this_vec page;
    let response1 := response_of (pad_results results) in
    let witness := querier_witness_of (querier_context_template st)
      (take (Z.to_nat querier_request_size) querier_request) response1 in
    w ← Load witness;
    let final_response := set_key (set_key Null (L "response") response1) (L "witness") w in
    Ret (mk_querier (q_digest_tbl st) tbl (querier_context_template st),
         visible querier_response_size (dump 1 final_response)).

End Query.

(** * Theorems *)

(** ** Intersection *)

Lemma set_intersection_nil_r v1 : set_intersection v1 [] = [].
Proof. by destruct v1. Qed.

Lemma set_intersection_cons x v1 y v2 :
  set_intersection (x :: v1) (y :: v2) =
    if x <? y then set_intersection v1 (y :: v2)
    else if y <? x then set_intersection (x :: v1) v2
    else x :: set_intersection v1 v2.
Proof. done. Qed.

(** Reference: the elements of the first list that are in the second. *)
Definition common (v1 v2 : list Z) : list Z := List.filter (fun x => bool_decide (x ∈ v2)) v1.

Lemma common_lt y v1 v2 : Forall (fun x => y < x) v1 -> common v1 (y :: v2) = common v1 v2.
Proof.
  intros H. unfold common. apply List.filter_ext_in. intros x Hx.
  rewrite Forall_forall in H. apply list_elem_of_In in Hx. specialize (H x Hx).
  apply bool_decide_ext. set_solver by lia.
Qed.

Lemma set_intersection_common v1 : forall v2,
  Sorted.StronglySorted Z.lt v1 -> Sorted.StronglySorted Z.lt v2 ->
  set_intersection v1 v2 = common v1 v2.
Proof.
  induction v1 as [|x v1 IH1]; intros v2 H1; [by destruct v2|].
  induction v2 as [|y v2 IH2]; intros H2.
  { unfold common. cbn. rewrite bool_decide_eq_false_2 by set_solver.
    symmetry. clear. induction v1 as [|z v1 IH]; [done|]. cbn. by rewrite bool_decide_eq_false_2 by set_solver. }
  pose proof H1 as H1'. pose proof H2 as H2'.
  apply Sorted.StronglySorted_inv in H1' as [S1 F1]. apply Sorted.StronglySorted_inv in H2' as [S2 F2].
  rewrite set_intersection_cons. destruct (Z.ltb_spec x y) as [Hl|Hl].
  - rewrite IH1 by done. unfold common. cbn [List.filter].
    rewrite bool_decide_eq_false_2; [done|]. rewrite elem_of_cons. intros [->|Hx]; [lia|].
    rewrite Forall_forall in F2. specialize (F2 x Hx). lia.
  - destruct (Z.ltb_spec y x) as [Hg|Hg].
    + rewrite IH2 by done. symmetry. apply common_lt. constructor; [done|].
      eapply Forall_weaken; [exact F1|]. cbn. lia.
    + assert (x = y) as -> by lia. rewrite IH1 by done. unfold common at 2. cbn [List.filter].
      rewrite bool_decide_eq_true_2 by set_solver. f_equal. symmetry. apply (common_lt y). exact F1.
Qed.

(** ** Reference: the documents that match *)

Definition matches (stop ws ids : list Z) : bool :=
  forallb (fun w => negb (bool_decide (w ∈ stop)) && bool_decide (w ∈ ids)) ws.

(** The numbers, from [k] on, of the documents that contain all words of [ws]
    as indexed words. *)
Fixpoint hits (stop ws : list Z) (k : Z) (docs : list (list Z)) : list Z :=
  match docs with
  | [] => []
  | ids :: docs => (if matches stop ws ids then [k] else []) ++ hits stop ws (k + 1) docs
  end.

Lemma hits_sorted stop ws docs : forall k,
  Sorted.StronglySorted Z.lt (hits stop ws k docs) /\
  Forall (fun d => k <= d < k + Z.of_nat (length docs)) (hits stop ws k docs).
Proof.
  induction docs as [|ids docs IH]; intros k; cbn [hits length]; [by repeat constructor|].
  destruct (IH (k + 1)) as [Hs Hr].
  assert (Hr' : Forall (fun d => k <= d < k + Z.of_nat (S (length docs))) (hits stop ws (k + 1) docs)).
  { eapply Forall_weaken; [exact Hr|]. cbn. lia. }
  destruct (matches stop ws ids); cbn [app]; [|done]. split; constructor; auto; [|lia].
  eapply Forall_weaken; [exact Hr|]. cbn. lia.
Qed.

Lemma hits_common stop ws1 ws2 docs : forall k,
  common (hits stop ws1 k docs) (hits stop ws2 k docs) = hits stop (ws1 ++ ws2) k docs.
Proof.
  induction docs as [|ids docs IH]; intros k; [done|]. cbn [hits].
  destruct (hits_sorted stop ws1 docs (k + 1)) as [_ R1]. destruct (hits_sorted stop ws2 docs (k + 1)) as [_ R2].
  assert (L1 : Forall (fun d => k < d) (hits stop ws1 (k + 1) docs)) by (eapply Forall_weaken; [exact R1|]; cbn; lia).
  assert (L2 : k ∉ hits stop ws2 (k + 1) docs).
  { intros Hk. rewrite Forall_forall in R2. specialize (R2 k Hk). cbn in R2. lia. }
  specialize (IH (k + 1)).
  assert (Em : matches stop (ws1 ++ ws2) ids = matches stop ws1 ids && matches stop ws2 ids) by apply forallb_app.
  rewrite Em. destruct (matches stop ws1 ids), (matches stop ws2 ids); cbn [andb app].
  - unfold common. cbn [List.filter]. rewrite bool_decide_eq_true_2 by set_solver. f_equal.
    rewrite <- IH. by apply (common_lt k).
  - unfold common. cbn [List.filter]. rewrite bool_decide_eq_false_2 by done. exact IH.
  - rewrite common_lt by done. exact IH.
  - exact IH.
Qed.

(** The list the index has for one word. *)
Lemma index_hits stop docs m w : is_index stop docs m -> default [] (m !! w) = hits stop [w] 1 docs.
Proof.
  intros Hm. rewrite Hm. assert (H : forall k, hits stop [w] k docs = if decide (w ∈ stop) then [] else postings w k docs).
  { clear. induction docs as [|ids docs IH]; intros k; cbn [hits postings]; [by case_decide|].
    rewrite IH. unfold matches. cbn [forallb]. rewrite andb_true_r. case_decide as Hs.
    - by rewrite bool_decide_eq_true_2.
    - rewrite bool_decide_eq_false_2 by done. cbn [negb andb].
      case_decide; [by rewrite bool_decide_eq_true_2|by rewrite bool_decide_eq_false_2]. }
  rewrite H. case_decide; [done|]. by destruct (postings w 1 docs).
Qed.

(** ** Steps 2 and 3 *)

Lemma docID_lists_fst words : forall tbl,
  fst (docID_lists words tbl) = map (fun w => default [] (tbl !! w)) words.
Proof.
  induction words as [|w words IH]; intros tbl; [done|]. cbn [docID_lists map].
  specialize (IH (<[w := default [] (tbl !! w)]> tbl)).
  destruct (docID_lists words _) as [ls tbl']. cbn [fst] in *. subst. f_equal.
  apply map_ext. intros w'. destruct (decide (w' = w)) as [->|N];
    [by rewrite lookup_insert_eq|by rewrite lookup_insert_ne].
Qed.

Definition last2 {A} (l : list A) : list A := drop (length l - 2) l.

Lemma last2_cons {A} (a b c : A) l : last2 (a :: b :: c :: l) = last2 (b :: c :: l).
Proof. unfold last2. cbn [length]. replace (S (S (S (length l))) - 2)%nat with (S (length l)) by lia.
  replace (S (S (length l)) - 2)%nat with (length l) by lia. done. Qed.

(** Only the last two lists are ever intersected. *)
Lemma intersect_last2 lists : forall p t,
  intersect_lists (Some p) t lists =
    match lists with
    | [] => t
    | _ => match last2 (p :: lists) with [a; b] => set_intersection a b | _ => [] end
    end.
Proof.
  induction lists as [|l lists IH]; intros p t; [done|]. cbn [intersect_lists]. rewrite IH.
  destruct lists as [|l' lists]; [done|]. by rewrite (last2_cons p l l').
Qed.

Lemma map_last2 {A B} (f : A -> B) l : map f (last2 l) = last2 (map f l).
Proof. unfold last2. rewrite length_map. symmetry. apply skipn_map. Qed.

Lemma intersect_words stop docs words : words <> [] ->
  intersect_lists None [] (map (fun w => hits stop [w] 1 docs) words) = hits stop (last2 words) 1 docs.
Proof.
  intros Hne. destruct words as [|w words]; [done|]. cbn [map intersect_lists].
  rewrite intersect_last2. destruct words as [|w' words]; [done|]. cbn [map].
  rewrite <- (map_cons (fun w => hits stop [w] 1 docs) w'), <- (map_cons (fun w => hits stop [w] 1 docs) w).
  rewrite <- map_last2.
  assert (H2 : exists a b, last2 (w :: w' :: words) = [a; b]).
  { clear. revert w w'. induction words as [|w'' words IH]; intros w w'; [by exists w, w'|].
    rewrite last2_cons. apply IH. }
  destruct H2 as (a & b & ->). cbn [map]. rewrite set_intersection_common by apply hits_sorted.
  apply (hits_common stop [a] [b]).
Qed.

(** ** Step 4 *)

(** The digests of a page of documents, given by number. *)
Definition page_of (page : Z) (h : list Z) : list Z := take 10 (drop (Z.to_nat ((page - 1) * 10)) h).

Definition digests_at (digests : list str) (ds : list Z) : list str :=
  map (fun d => nth (Z.to_nat (d - 1)) digests []) ds.

Lemma digest_of_nth digests d : 1 <= d < 1 + Z.of_nat (length digests) -> 1 + Z.of_nat (length digests) <= 2 ^ 32 ->
  digest_of digests d = Ret (nth (Z.to_nat (d - 1)) digests []).
Proof.
  intros Hd Hn. unfold digest_of. rewrite u32_small by (unfold is_u32; lia).
  destruct (digests !! Z.to_nat (d - 1)) as [s|] eqn:E.
  - f_equal. symmetry. by apply nth_lookup_Some.
  - apply lookup_ge_None in E. lia.
Qed.

Lemma digest_of_all digests ds :
  Forall (fun d => 1 <= d < 1 + Z.of_nat (length digests)) ds -> 1 + Z.of_nat (length digests) <= 2 ^ 32 ->
  mapMO (digest_of digests) ds = Ret (digests_at digests ds).
Proof.
  intros Hd Hn. induction Hd as [|d ds Hd _ IH]; [done|]. cbn [mapMO]. unfold digests_at in *.
  rewrite digest_of_nth by done. rewrite bind_ret, IH. done.
Qed.

Lemma page_results_spec digests h page :
  Forall (fun d => 1 <= d < 1 + Z.of_nat (length digests)) h -> 1 + Z.of_nat (length digests) <= 2 ^ 32 ->
  1 <= page -> is_i32 ((page - 1) * 10) ->
  page_results digests h page = Ret (digests_at digests (page_of page h)).
Proof.
  intros Hh Hn Hp Hi. unfold page_results. rewrite decide_True by (unfold is_i32 in *; lia).
  destruct (Z.ltb_spec ((page - 1) * 10) (Z.of_nat (length h))) as [Hl|Hl].
  - rewrite (proj2 (Z.ltb_ge _ _)) by lia. apply digest_of_all; [|done]. by apply Forall_take, Forall_drop.
  - unfold page_of. by rewrite drop_ge by lia.
Qed.

Lemma page_results_undef digests h page : page <= 0 -> page_results digests h page = Undef.
Proof.
  intros Hp. unfold page_results. case_decide; [|done].
  rewrite (proj2 (Z.ltb_lt ((page - 1) * 10) (Z.of_nat (length h)))) by lia.
  by rewrite (proj2 (Z.ltb_lt _ 0)) by lia.
Qed.

Lemma pad_results_length r : (length r <= 10)%nat -> length (pad_results r) = 10%nat.
Proof. intros H. unfold pad_results. rewrite length_app, length_replicate. lia. Qed.

(** ** A querier that serves a shard *)

Section Serving.
Context `{Crypto}.

Definition template_of (blob : str) : witness_context :=
  mk_ctx (L "STEEMIT QUERIER") [sha256_string blob] [] [] 2.

Definition serves (stop : list Z) (docs : list document) (blob : str) (st : querier_state) : Prop :=
  q_digest_tbl st = map fst docs /\ 1 + Z.of_nat (length docs) <= 2 ^ 31 /\
  (forall w, default [] (q_index_tbl st !! w) = hits stop [w] 1 (map snd docs)) /\
  querier_context_template st = template_of blob.

Lemma setup_serves stop docs blob st : shard stop docs blob ->
  exists st', ecall_querier_setup st blob (Z.of_nat (length blob)) = Ret st' /\ serves stop docs blob st'.
Proof.
  intros S. destruct (shard_split _ _ _ S) as (m & Hm & _ & E). destruct S as (_ & Hn & _).
  unfold ecall_querier_setup. rewrite E, bind_ret, Nat2Z.id, take_ge by lia. eexists. split; [done|].
  split; [done|]. split; [done|]. split; [|done]. intros w. cbn [q_index_tbl snd]. by apply index_hits.
Qed.

(** What the answer to [ws] on [page] is, for a shard of [docs]. *)
Definition answers (stop : list Z) (docs : list document) (ws : list Z) (page : Z) : list str :=
  pad_results (digests_at (map fst docs) (page_of page (hits stop (last2 ws) 1 (map snd docs)))).

Definition query_context (blob request : str) (response1 : JSON) : witness_context :=
  mk_ctx (L "STEEMIT QUERIER") [sha256_string blob; sha256_string request]
    (sha256_string (dump 1 response1)) (sha256_string QUERIER_TAG) 4.

Definition witness_record (c : witness_context) : JSON :=
  record5 (Str (bin c)) (Array (map Str (ins c))) (Str (out c)) (Str (signature_of c)) (Str (tag c)).

(** The whole response for [results]. *)
Definition full_response (blob request : str) (results : list str) : JSON :=
  set_key (set_key Null (L "response") (response_of results)) (L "witness")
    (witness_record (query_context blob request (response_of results))).

Lemma docID_lists_snd words : forall tbl w,
  default [] (snd (docID_lists words tbl) !! w) = default [] (tbl !! w).
Proof.
  induction words as [|x words IH]; intros tbl w; [done|]. cbn [docID_lists].
  specialize (IH (<[x := default [] (tbl !! x)]> tbl) w).
  destruct (docID_lists words _) as [ls tbl']. cbn [snd] in *. rewrite IH.
  destruct (decide (w = x)) as [->|N]; [by rewrite lookup_insert_eq|by rewrite lookup_insert_ne].
Qed.

Lemma serves_lists stop docs blob st words : serves stop docs blob st -> words <> [] ->
  intersect_lists None [] (fst (docID_lists words (q_index_tbl st))) = hits stop (last2 words) 1 (map snd docs).
Proof.
  intros (_ & _ & Hw & _) Hne. rewrite docID_lists_fst.
  set (m := q_index_tbl st) in *.
  assert (E : map (fun w => default [] (m !! w)) words = map (fun w => hits stop [w] 1 (map snd docs)) words)
    by (apply map_ext; intros w; apply Hw).
  rewrite E. by apply intersect_words.
Qed.

(** A query on a page that exists as a number: the answer, and the querier
    goes on serving. *)
Lemma do_query_serves pTok stop docs blob st request j q_page words cap :
  serves stop docs blob st ->
  Load (c_str request) = Ret j ->
  trim_string (dump 1 (at_key j (L "page"))) = Ret q_page -> q_page <> [] ->
  query_words pTok (dump 1 (at_key j (L "keywords"))) = Ret words -> words <> [] ->
  let page := i32 (strtol 10 q_page) in
  1 <= page -> is_i32 ((page - 1) * 10) ->
  exists st', ecall_do_query pTok st request (Z.of_nat (length request)) cap =
      Ret (st', visible cap (dump 1 (full_response blob request (answers stop docs words page)))) /\
    serves stop docs blob st'.
Proof.
  intros Hs Hj Hp Hne Hw Hwne page Hp1 Hp2. pose proof (serves_lists _ _ _ _ words Hs Hwne) as Hl.
  pose proof (docID_lists_snd words (q_index_tbl st)) as Hsnd.
  destruct Hs as (Hd & Hn & Hix & Ht). unfold ecall_do_query. rewrite Hj, bind_ret, Hp, bind_ret.
  rewrite decide_False.
  2:{ intros [E|E]; [|done]. destruct (dump_first 1 (at_key j (L "keywords"))) as (c & r & E' & _). congruence. }
  rewrite Hw, bind_ret. fold page. destruct (docID_lists words (q_index_tbl st)) as [lists tbl].
  cbn [fst snd] in *. rewrite Hl, Hd.
  rewrite page_results_spec; try done; [|destruct (hits_sorted stop (last2 words) (map snd docs) 1) as [_ Hr];
    rewrite length_map in *; exact Hr|rewrite length_map; lia].
  rewrite bind_ret, Nat2Z.id, take_ge by lia. rewrite Ht.
  fold (answers stop docs words page).
  assert (Ew : querier_witness_of (template_of blob) request (response_of (answers stop docs words page)) =
    snd (witness_finalize (query_context blob request (response_of (answers stop docs words page))) [])) by done.
  rewrite Ew, Load_witness by done. rewrite bind_ret. eexists. split; [reflexivity|].
  split; [done|]. split; [done|]. split; [|done]. intros w. cbn [q_index_tbl]. by rewrite Hsnd.
Qed.


(** What the client sends: a query object, then filler. *)
Definition search_request (keywords : str) (page : Z) : JSON :=
  set_key (set_key Null (L "keywords") (Str keywords)) (L "page") (Str (to_string page)).

Lemma escape_no_nul s : no_nul s -> no_nul (json_escape s).
Proof.
  induction 1 as [|c s Hc _ IH]; [constructor|]. cbn [json_escape]. apply Forall_app. split; [|exact IH].
  unfold escape_char. repeat case_match; repeat constructor; cbn; try done; lia.
Qed.

Lemma request_text kw page : dump 1 (search_request kw page) =
  L "{" ++ [NL] ++ L "  " ++ [DQ] ++ L "keywords" ++ [DQ] ++ L " : " ++ dump 1 (Str kw) ++
  L "," ++ [NL] ++ L "  " ++ [DQ] ++ L "page" ++ [DQ] ++ L " : " ++ dump 1 (Str (to_string page)) ++ [NL] ++ L "}".
Proof.
  change (search_request kw page) with
    (Object [(L "keywords", Str kw); (L "page", Str (to_string page))]).
  cbn -[json_escape to_string]. rewrite <- !app_assoc. cbn -[json_escape to_string]. rewrite <- !app_assoc. reflexivity.
Qed.

Lemma dump_str_no_nul s : no_nul s -> no_nul (dump 1 (Str s)).
Proof.
  intros H0. change (dump 1 (Str s)) with ([DQ] ++ json_escape s ++ [DQ]). unfold no_nul.
  rewrite !Forall_app. split_and!; try (by repeat constructor). by apply escape_no_nul.
Qed.

Lemma request_no_nul kw page : no_nul kw -> no_nul (dump 1 (search_request kw page)).
Proof.
  intros Hk. rewrite request_text. pose proof (dump_str_no_nul kw Hk).
  pose proof (dump_str_no_nul (to_string page) (to_string_no_nul page)). unfold no_nul in *.
  rewrite !Forall_app. split_and!; try done; by repeat constructor.
Qed.

Lemma Load_request kw page pad : no_nul kw -> no_nul pad ->
  Load (c_str (dump 1 (search_request kw page) ++ pad)) = Ret (search_request kw page).
Proof.
  intros Hk Hp. rewrite c_str_no_nul by (apply Forall_app; split; [by apply request_no_nul|done]).
  eapply (Load_back _ 1 _ pad); [|exact I|done].
  change (search_request kw page) with (Object [(L "keywords", Str kw); (L "page", Str (to_string page))]).
  split; [by repeat constructor|]. repeat split; by apply plain_key.
Qed.

Lemma request_page kw page : trim_string (dump 1 (at_key (search_request kw page) (L "page"))) = Ret (to_string page).
Proof.
  change (at_key (search_request kw page) (L "page")) with (Str (to_string page)).
  by rewrite trim_dump_str, escape_num.
Qed.

(** The querier's answer to a client. *)
Lemma query_client pTok stop docs blob st kw page pad words cap :
  serves stop docs blob st -> no_nul kw -> no_nul pad ->
  query_words pTok (dump 1 (Str kw)) = Ret words -> words <> [] ->
  1 <= page -> is_i32 ((page - 1) * 10) ->
  let request := dump 1 (search_request kw page) ++ pad in
  exists st', ecall_do_query pTok st request (Z.of_nat (length request)) cap =
      Ret (st', visible cap (dump 1 (full_response blob request (answers stop docs words page)))) /\
    serves stop docs blob st'.
Proof.
  intros Hs Hk Hp Hw Hne H1 H2 request.
  assert (Ep : i32 (strtol 10 (to_string page)) = page).
  { unfold is_i32 in H2. rewrite strtol_to_string by lia. apply i32_small. unfold is_i32. lia. }
  destruct (do_query_serves pTok stop docs blob st request (search_request kw page) (to_string page) words cap)
    as (st' & E & Hs'); rewrite ?Ep; try done.
  - by apply Load_request.
  - apply request_page.
  - apply to_string_nonempty.
  - rewrite Ep in E. by exists st'.
Qed.

End Serving.

(** ** The pages of an answer *)

Lemma take_drop_pages {A} n : forall (h : list A) k,
  concat (map (fun i => take 10 (drop (k + i * 10) h)) (seq 0 n)) = take (n * 10) (drop k h).
Proof.
  induction n as [|n IH]; intros h k; [done|]. cbn [seq map concat].
  rewrite Nat.add_0_r, <- seq_shift, map_map.
  rewrite (map_ext _ (fun i => take 10 (drop (k + 10 + i * 10) h))) by (intros i; do 2 f_equal; lia).
  rewrite IH, <- drop_drop. replace (S n * 10)%nat with (10 + n * 10)%nat by lia.
  generalize (drop k h). intros l. do 10 (destruct l as [|? l]; [cbn; by rewrite take_nil|cbn; f_equal]).
Qed.

Lemma pages_all h n : (length h <= n * 10)%nat ->
  concat (map (fun i => page_of (1 + Z.of_nat i) h) (seq 0 n)) = h.
Proof.
  intros Hn. rewrite (map_ext _ (fun i => take 10 (drop (0 + i * 10) h))).
  - rewrite take_drop_pages. by rewrite take_ge.
  - intros i. unfold page_of. do 2 f_equal. lia.
Qed.

(** ** From the blob to the answer *)

Lemma query_shard `{Crypto} pTok stop docs blob st0 kw page pad words cap :
  shard stop docs blob -> no_nul kw -> no_nul pad ->
  query_words pTok (dump 1 (Str kw)) = Ret words -> words <> [] ->
  1 <= page -> is_i32 ((page - 1) * 10) ->
  let request := dump 1 (search_request kw page) ++ pad in
  let results := answers stop docs words page in
  length results = 10%nat /\
  exists st st', ecall_querier_setup st0 blob (Z.of_nat (length blob)) = Ret st /\
    ecall_do_query pTok st request (Z.of_nat (length request)) cap =
      Ret (st', visible cap (dump 1 (full_response blob request results))) /\
    serves stop docs blob st'.
Proof.
  intros S Hk Hp Hw Hne H1 H2 request results. split.
  { apply pad_results_length. unfold digests_at, page_of. rewrite length_map, length_take. lia. }
  destruct (setup_serves stop docs blob st0 S) as (st & E & Hs).
  destruct (query_client pTok stop docs blob st kw page pad words cap) as (st' & E' & Hs'); try done.
  by exists st, st'.
Qed.

(** ** Properties *)

(** C16. After loading the blob of a shard, the querier answers a search request
    with at least one word in it, for a page from 1 on (whose first position is
    an [int]), by ten results, which are the requested page of the documents that
    contain the last two of the first 32 words of the search, padded with
    dummies.  Words are compared by their CRC-32, and no document is found for a
    stop word.  The response carries a witness over exactly the loaded blob, the
    request and the results; it is left out when it does not fit the caller's
    buffer.  The querier keeps serving the same shard.  (Pages below 1 are
    undefined: see [page_below_one].) *)
Theorem do_query_answers `{Crypto} stop docs blob st0 kw page pad words cap :
  shard stop docs blob -> no_nul kw -> no_nul pad ->
  query_words CreateTokenizer (dump 1 (Str kw)) = Ret words -> words <> [] ->
  1 <= page -> is_i32 ((page - 1) * 10) ->
  let request := dump 1 (search_request kw page) ++ pad in
  let results := answers stop docs words page in
  length results = 10%nat /\
  exists st st', ecall_querier_setup st0 blob (Z.of_nat (length blob)) = Ret st /\
    ecall_do_query CreateTokenizer st request (Z.of_nat (length request)) cap =
      Ret (st', visible cap (dump 1 (full_response blob request results))) /\
    serves stop docs blob st'.
Proof. apply query_shard. Qed.

Lemma do_query_answers_witness :
  let request := dump 1 (search_request (L "rust") 1) ++ L "xx" in
  let results := answers [] [sample_doc "rust" (sphCRC32 (L "rust"))] [sphCRC32 (L "rust")] 1 in
  let blob := sample_blob "rust" (sphCRC32 (L "rust")) in
  length results = 10%nat /\
  exists st st', @ecall_querier_setup toy_crypto (mk_querier [] ∅ (mk_ctx [] [] [] [] 0)) blob
      (Z.of_nat (length blob)) = Ret st /\
    @ecall_do_query toy_crypto CreateTokenizer st request (Z.of_nat (length request)) 4096 =
      Ret (st', visible 4096 (dump 1 (@full_response toy_crypto blob request results))) /\
    @serves toy_crypto [] [sample_doc "rust" (sphCRC32 (L "rust"))] blob st'.
Proof.
  apply (@do_query_answers toy_crypto).
  - apply sample_shard; [by apply digest_ok_check|split; [vm_compute; done|reflexivity]|by vm_compute].
  - by repeat constructor.
  - by repeat constructor.
  - rewrite CreateTokenizer_eq. unfold query_words, wordIDs. rewrite tokens_plain_eq by repeat constructor.
    reflexivity.
  - done.
  - lia.
  - unfold is_i32. lia.
Defined.

(** A page below one makes the querier follow an iterator before the
    beginning of the result vector, whatever the query found. *)
Lemma page_below_one digests found page : page <= 0 -> page_results digests found page = Undef.
Proof. apply page_results_undef. Qed.

(** The pages partition the answer: concatenating the first [n] pages
    gives the digests of all documents found, each once and in order. *)
Lemma pages_partition digests found n :
  Forall (fun d => 1 <= d < 1 + Z.of_nat (length digests)) found ->
  1 + Z.of_nat (length digests) <= 2 ^ 32 ->
  (length found <= n * 10)%nat -> Z.of_nat n * 10 < 2 ^ 31 ->
  exists pages, mapMO (fun i => page_results digests found (1 + Z.of_nat i)) (seq 0 n) = Ret pages /\
    concat pages = digests_at digests found.
Proof.
  intros Hf Hd Hn Hb. exists (map (fun i => digests_at digests (page_of (1 + Z.of_nat i) found)) (seq 0 n)). split.
  - apply mapMO_Ret. intros i Hi. apply list_elem_of_In, in_seq in Hi. apply page_results_spec; auto; unfold is_i32; lia.
  - transitivity (digests_at digests (concat (map (fun i => page_of (1 + Z.of_nat i) found) (seq 0 n)))).
    + unfold digests_at. by rewrite concat_map, map_map.
    + by rewrite pages_all.
Qed.

(** With one or two keywords the documents found are exactly those that
    contain all of them; every further keyword replaces the first of the two
    that count, since a list is intersected with the previous list instead of
    the result so far. *)
Lemma keywords_found stop docs m w1 w2 w3 ws : is_index stop docs m ->
  let found ws := intersect_lists None [] (fst (docID_lists ws m)) in
  found [w1] = hits stop [w1] 1 docs /\ found [w1; w2] = hits stop [w1; w2] 1 docs /\
  found (w1 :: w2 :: w3 :: ws) = found (w2 :: w3 :: ws).
Proof.
  intros Hm found.
  assert (E : forall l, found l = intersect_lists None [] (map (fun w => hits stop [w] 1 docs) l)).
  { intros l. unfold found. rewrite docID_lists_fst. f_equal. apply map_ext. intros w. by apply index_hits. }
  rewrite !E, !intersect_words by done. split_and!; [done|done|]. by rewrite last2_cons.
Qed.

