(* ===== verification/Pipeline.v ===== *)
(** * The index pipeline end to end

    Composition of the enclaves: posts put out by crawlers are indexed per
    epoch, the indexes of two epochs are reduced to one, a querier loads the
    result and answers a search. *)

From Stdlib Require Import String.
From stdpp Require Import fin_maps.
From S2P Require Import Prelude Json JsonFacts Codec Tokenizer TokenizerFacts Crypto Witness Crawler Indexer Shard Reducer Querier.

Import Json Sphinx.

Local Open Scope Z_scope.

(** The text a crawler stores for a batch of posts. *)
Definition post_text (posts : list str) : str := dump 1 (fill_array 0 Null posts).

Lemma mapMO_posts batches : Forall (fun b => b <> []) batches ->
  mapMO Load (map post_text batches) = Ret (map (fun b => Array (map Str b)) batches).
Proof.
  induction 1 as [|b batches Hb _ IH]; [done|]. cbn [map mapMO]. destruct b as [|p b]; [done|].
  change (post_text (p :: b)) with (dump 1 (fill_array 0 Null (p :: b))). rewrite Load_posts, bind_ret, IH, bind_ret. done.
Qed.

(** The documents an indexer sees are the escaped posts. *)
Lemma input_docs_posts batches : Forall (fun b => b <> []) batches ->
  input_docs (map post_text batches) = Ret (map json_escape (concat batches)).
Proof.
  intros H. unfold input_docs. rewrite mapMO_posts, bind_ret by done.
  assert (E : concat (map ArrayRange (map (fun b => Array (map Str b)) batches)) = map Str (concat batches)).
  { rewrite map_map. cbn [ArrayRange]. by rewrite concat_map. }
  rewrite E. generalize (concat batches). clear. intros l.
  induction l as [|p l IH]; [done|]. cbn [map mapMO]. by rewrite trim_dump_str, bind_ret, IH.
Qed.

Lemma escaped_posts_no_nul l : Forall no_nul l -> Forall no_nul (map json_escape l).
Proof. intros H. apply Forall_map. eapply Forall_weaken; [exact H|]. intros p. apply escape_no_nul. Qed.

Lemma visible_all cap s : Z.of_nat (length s) < cap -> visible cap s = s.
Proof. intros H. unfold visible. by rewrite (proj2 (Z.ltb_lt _ _) H). Qed.

Section Pipeline.
Context `{Crypto} (order : index_table -> list (Z * list Z)).
Hypothesis order_perm : forall m, order m ≡ₚ map_to_list m.

(** An indexer's run over the stored batches of an epoch. *)
Definition index_run (stack_tail : str) (batches : list (list str)) (cap : Z) : outcome str :=
  bin ← Digest2Binary (map post_text batches);
  r ← ecall_build_index order CreateTokenizer stack_tail (mk_indexer [] [] ∅) bin (Z.of_nat (length bin)) cap cap;
  let '(output, _, _, _) := r in Ret output.

(** The posts of an epoch are fit for the enclaves' input formats. *)
Record epoch_ok (batches : list (list str)) (ds : list document) : Prop := {
  ep_batches : Forall (fun b => b <> []) batches;
  ep_texts : Forall digest_ok (map post_text batches);
  ep_bin : exists bin, Digest2Binary (map post_text batches) = Ret bin;
  ep_posts : Forall no_nul (concat batches);
  ep_docs : abstract_docs CreateTokenizer (map json_escape (concat batches)) ds;
  ep_count : 1 + Z.of_nat (length ds) <= 2 ^ 31
}.

Lemma index_run_shard stack_tail batches ds cap : epoch_ok batches ds ->
  docs_size ds < cap -> cap <= 2 ^ 31 ->
  exists blob, index_run stack_tail batches cap = Ret blob /\ shard (stop_ids stack_tail) ds blob /\
    Z.of_nat (length blob) <= docs_size ds.
Proof.
  intros [H1 H2 [bin Hb] H4 H5 H6] Hc Hc'.
  pose proof (abstract_docs_split _ _ _ H5) as (_ & _ & El).
  destruct (ecall_build_index_shard order order_perm stack_tail (map post_text batches) bin
    (map json_escape (concat batches)) ds cap cap) as (blob & Hs & Hl & E); auto using escaped_posts_no_nul.
  - by apply input_docs_posts.
  - by rewrite <- El.
  - lia.
  - exists blob. split_and!; [|done|done]. unfold index_run. rewrite Hb, bind_ret, E, bind_ret.
    by rewrite visible_all by lia.
Qed.

(** Two epochs, reduced, loaded and searched. *)
Definition search_run (stack_tail : str) (batches1 batches2 : list (list str)) (st0 : querier_state)
    (request : str) (cap : Z) : outcome (str * str) :=
  index1 ← index_run stack_tail batches1 cap;
  index2 ← index_run stack_tail batches2 cap;
  r ← ecall_do_merge order index1 (Z.of_nat (length index1)) index2 (Z.of_nat (length index2)) cap cap;
  let '(index, _, _) := r in
  st ← ecall_querier_setup st0 index (Z.of_nat (length index));
  r ← ecall_do_query CreateTokenizer st request (Z.of_nat (length request)) cap;
  Ret (index, snd r).

Lemma search_run_eq stack_tail b1 b2 ds1 ds2 st0 kw page pad words cap :
  epoch_ok b1 ds1 -> epoch_ok b2 ds2 -> 1 + Z.of_nat (length ds1 + length ds2) <= 2 ^ 31 ->
  docs_size ds1 + docs_size ds2 < cap -> cap <= 2 ^ 31 ->
  no_nul kw -> no_nul pad ->
  query_words CreateTokenizer (dump 1 (Str kw)) = Ret words -> words <> [] ->
  1 <= page -> is_i32 ((page - 1) * 10) ->
  let request := dump 1 (search_request kw page) ++ pad in
  exists index, shard (stop_ids stack_tail) (ds1 ++ ds2) index /\
    search_run stack_tail b1 b2 st0 request cap =
      Ret (index, visible cap (dump 1 (full_response index request
        (answers (stop_ids stack_tail) (ds1 ++ ds2) words page)))).
Proof.
  intros E1 E2 Hn Hc Hc' Hk Hp Hw Hne H1 H2 request.
  pose proof (docs_size_pos ds1) as P1. pose proof (docs_size_pos ds2) as P2.
  destruct (index_run_shard stack_tail b1 ds1 cap E1) as (i1 & R1 & S1 & L1); [lia|lia|].
  destruct (index_run_shard stack_tail b2 ds2 cap E2) as (i2 & R2 & S2 & L2); [lia|lia|].
  destruct (do_merge_shard order order_perm _ ds1 ds2 i1 i2 cap cap S1 S2 Hn) as (index & S & L & R); [lia|].
  exists index. split; [done|]. unfold search_run. rewrite R1, bind_ret, R2, bind_ret, R, bind_ret.
  rewrite visible_all by lia.
  destruct (query_shard CreateTokenizer _ _ index st0 kw page pad words cap S Hk Hp Hw Hne H1 H2)
    as (_ & st & st' & Es & Eq & _).
  rewrite Es, bind_ret. fold request in Eq. by rewrite Eq.
Qed.

End Pipeline.

(** ** Properties *)


(** An epoch of crawled posts of plain text, one a batch. *)
Definition plain_post (p : str) : Prop :=
  plain p /\ json_escape p = p /\ digest_ok (post_text [p]) /\ no_nul p.

Definition plain_doc (p : str) : document := (resize_digest p, map sphCRC32_cstr (words [] p)).

Ltac plain_posts := repeat first [exact (Forall_nil_2 _)
  |constructor; [split_and!; [by repeat constructor|done|by apply digest_ok_check; vm_compute|by repeat constructor]|]].

Lemma plain_epoch ps : Forall plain_post ps -> 1 + Z.of_nat (length ps) <= 2 ^ 31 ->
  digest_sum (map (fun p => post_text [p]) ps) < 2 ^ 31 -> epoch_ok (map (fun p => [p]) ps) (map plain_doc ps).
Proof.
  intros Hp Hn Hs. assert (Ec : concat (map (fun p : str => [p]) ps) = ps).
  { clear. induction ps as [|p ps IH]; [done|]. cbn. by rewrite IH. }
  split.
  - apply Forall_map, Forall_true. done.
  - rewrite map_map. apply Forall_map. eapply Forall_weaken; [exact Hp|]. by intros p (_ & _ & ? & _).
  - rewrite map_map. unfold Digest2Binary. rewrite decide_True by done. by eexists.
  - rewrite Ec. eapply Forall_weaken; [exact Hp|]. by intros p (_ & _ & _ & ?).
  - rewrite Ec. clear Ec Hn Hs. induction Hp as [|p ps (H1 & H2 & _) _ IH]; [constructor|].
    constructor; [|exact IH]. split; [by rewrite H2|]. rewrite H2, CreateTokenizer_eq. cbn [wordIDs snd plain_doc].
    by rewrite tokens_plain_eq.
  - by rewrite length_map.
Qed.

