(* ===== verification/Executors.v ===== *)
(** * The untrusted side of the executors

    src/executor/App: the rounds that crawler, indexer, reducer and querier
    nodes run around their enclaves, as programs over Kanban.  [sleep] and
    output to the terminal leave no trace in the model.

    Downloads are a parameter: [fetch] gives the pieces [fgets] reads for a
    block number.  Buffers that the C++ allocates zeroed and fills through an
    enclave call are modelled by their content. *)

From Stdlib Require Import String.
From stdpp Require Import fin_maps.
From S2P Require Import Prelude Json JsonFacts Codec Tokenizer TokenizerFacts Crypto Witness Kanban Crawler Indexer Shard Reducer Querier.

Import Json Sphinx.

Local Open Scope Z_scope.

(** ** Configuration (src/config.hpp) *)

Definition WITNESS_MAX_LENGTH : Z := 2 ^ 20.
Definition ITEMS_BULK_MAX : Z := 64.
Definition ITEMS_POOL_MAX : Z := 16.
Definition INDEX_BULK_MAX : Z := 4.
Definition INDEX_POOL_MAX : Z := ITEMS_POOL_MAX / INDEX_BULK_MAX.
Definition OUTPUT_MAX_LENGTH : Z := 16 * 1024 * 1024.
Definition INDEX_OUTPUT_MAX_LENGTH : Z := 64 * 1024 * 1024.
Definition REDUCER_OUTPUT_MAX_LENGTH : Z := 256 * 1024 * 1024.

(** ** Kanban mailbox (common.hpp) *)

Definition o_check_key (key : str) : prog bool :=
  value ← call (GET key); PRet (bool_decide (is_Some value)).

Definition o_put_key (key value : str) : prog unit := call (SET key value).

Definition o_get_key (key : str) : prog str := call (AWAIT_GET key).

(** [value_size] bytes of a buffer of [capacity] bytes that starts with
    [content] and is zero after it. *)
Definition buffer_prefix (capacity : Z) (content : str) (value_size : Z) : outcome str :=
  if decide (value_size <= capacity)
  then Ret (take (Z.to_nat value_size) (content ++ replicate (Z.to_nat value_size) NUL))
  else Undef.

Definition o_append_witness (epoch_value witness_value : str) : prog unit :=
  j ← pure (Load witness_value);
  witness_key ← pure (trim_string (dump 1 (at_key j (L "OUT"))));
  call (HSET (L "witness") witness_key witness_value) ;;
  call (SADD (epoch_key "WITNESS-#EPOCH" epoch_value) witness_key).

(** ** Epochs (epoch.cpp) *)

Section Executors.
Context `{Crypto}.

Definition get_epoch : prog str :=
  _epoch_packet ← call (GET (L "EPOCH"));
  match _epoch_packet with
  | None => PRet (L "-1")
  | Some string_epoch_packet =>
    epoch_packet ← pure (Load string_epoch_packet);
    let string_epoch := ToString (at_key epoch_packet (L "EPOCH")) in
    _sig ← pure (ed25519_string_to_sig (ToString (at_key epoch_packet (L "SIG"))));
    PRet (if ed25519_verify pkey string_epoch _sig then string_epoch else L "-1")
  end.

Definition get_epoch_int : prog Z := s ← get_epoch; pure (stoi s).

(** ** Crawler (crawler.cpp) *)

(** The downloaded text: C strings appended one after the other. *)
Definition get_steemit_item (fetch : Z -> list str) (steemit_block_id : Z) : str :=
  concat (map c_str (fetch steemit_block_id)).

(** The body of the loop over the batches of an epoch. *)
Definition crawl_batch (fetch : Z -> list str) (current_epoch : str) (__steemit_block_id i : Z) : prog unit :=
  let item_key := shard_key "ITEMS-#EPOCH" current_epoch (to_string i) in
  exists_ ← o_check_key item_key;
  if (exists_ : bool) then PRet tt
  else
    let item_candidates := map (fun j =>
      get_steemit_item fetch (__steemit_block_id + (i - 1) * ITEMS_BULK_MAX + Z.of_nat j))
      (seq 1 (Z.to_nat ITEMS_BULK_MAX)) in
    input ← pure (Digest2Binary item_candidates);
    r ← pure (ecall_parse_items [] input (Z.of_nat (length input)) OUTPUT_MAX_LENGTH WITNESS_MAX_LENGTH);
    let '(output, crawler_witness, _) := r in
    o_put_key item_key (c_str output) ;;
    o_append_witness current_epoch (c_str crawler_witness).

Definition do_crawl (fetch : Z -> list str) : prog unit :=
  int_current_epoch ← get_epoch_int;
  if int_current_epoch =? -1 then PRet tt
  else
    offset ← call (GET (L "Steemit-Block-ID"));
    offset ← pure (deref offset);
    __steemit_block_id ← pure (stoi offset);
    loop (Z.to_nat ITEMS_POOL_MAX) 1 (crawl_batch fetch (to_string int_current_epoch) __steemit_block_id).

(** ** Indexer (indexer.cpp)

    The zero that ends an item is written one byte past the block that
    [o_get_key] allocates; the model takes the item as terminated. *)

Fixpoint get_items (n : nat) (epoch : str) (j : Z) : prog (list str) :=
  match n with
  | O => PRet []
  | S n =>
    items_value ← o_get_key (shard_key "ITEMS-#EPOCH" epoch (to_string j));
    inputs ← get_items n epoch (j + 1);
    PRet (c_str items_value :: inputs)
  end.

(** The body of the loop over the shards: [items_pos] goes in and comes out. *)
Definition index_shard (order : index_table -> list (Z * list Z)) (stack_tail : str)
    (int_current_epoch i items_pos : Z) : prog Z :=
  let current_epoch := to_string int_current_epoch in
  let index_key := shard_key "INDEX-#EPOCH" current_epoch (to_string i) in
  exists_ ← o_check_key index_key;
  if (exists_ : bool) then PRet items_pos
  else
    inputs ← get_items (Z.to_nat INDEX_BULK_MAX) (to_string (int_current_epoch - 1)) items_pos;
    index_inputs ← pure (Digest2Binary inputs);
    r ← pure (ecall_build_index order CreateTokenizer stack_tail (mk_indexer [] [] ∅)
      index_inputs (Z.of_nat (length index_inputs)) INDEX_OUTPUT_MAX_LENGTH WITNESS_MAX_LENGTH);
    let '(index_output, index_output_size, indexer_witness, _) := r in
    value ← pure (buffer_prefix INDEX_OUTPUT_MAX_LENGTH index_output index_output_size);
    o_put_key index_key value ;;
    o_append_witness current_epoch (c_str indexer_witness) ;;
    (if int_current_epoch =? 2
     then o_put_key (shard_key "GLOBAL-INDEX-#EPOCH" current_epoch (to_string i)) value
     else PRet tt) ;;
    PRet (items_pos + INDEX_BULK_MAX).

Fixpoint index_shards (order : index_table -> list (Z * list Z)) (stack_tail : str)
    (int_current_epoch : Z) (n : nat) (i items_pos : Z) : prog unit :=
  match n with
  | O => PRet tt
  | S n =>
    items_pos ← index_shard order stack_tail int_current_epoch i items_pos;
    index_shards order stack_tail int_current_epoch n (i + 1) items_pos
  end.

Definition do_index (order : index_table -> list (Z * list Z)) (stack_tail : str) : prog unit :=
  int_current_epoch ← get_epoch_int;
  if int_current_epoch =? -1 then PRet tt
  else if int_current_epoch <=? 1 then PRet tt
  else index_shards order stack_tail int_current_epoch (Z.to_nat INDEX_POOL_MAX) 1 1.

(** ** Reducer (reducer.cpp) *)

Definition reduce_shard (order : index_table -> list (Z * list Z)) (int_current_epoch i : Z) : prog unit :=
  let current_epoch := to_string int_current_epoch in
  let new_global_index_key := shard_key "GLOBAL-INDEX-#EPOCH" current_epoch (to_string i) in
  exists_ ← o_check_key new_global_index_key;
  if (exists_ : bool) then PRet tt
  else
    global_index ← o_get_key (shard_key "GLOBAL-INDEX-#EPOCH" (to_string (int_current_epoch - 1)) (to_string i));
    new_index ← o_get_key (shard_key "INDEX-#EPOCH" current_epoch (to_string i));
    r ← pure (ecall_do_merge order global_index (Z.of_nat (length global_index))
      new_index (Z.of_nat (length new_index)) REDUCER_OUTPUT_MAX_LENGTH WITNESS_MAX_LENGTH);
    let '(new_global_index, new_global_index_sz, reducer_witness) := r in
    value ← pure (buffer_prefix REDUCER_OUTPUT_MAX_LENGTH new_global_index new_global_index_sz);
    o_put_key new_global_index_key value ;;
    o_append_witness current_epoch (c_str reducer_witness).

Definition do_reduce (order : index_table -> list (Z * list Z)) : prog unit :=
  int_current_epoch ← get_epoch_int;
  if int_current_epoch =? -1 then PRet tt
  else if int_current_epoch <=? 2 then PRet tt
  else loop (Z.to_nat INDEX_POOL_MAX) 1 (reduce_shard order int_current_epoch).

(** ** Querier (querier.cpp, live_node.hpp) *)

Definition get_sharding_max : prog Z :=
  value ← call (GET (L "SHARDING-MAX"));
  value ← pure (deref value);
  pure (stoi value).

(** The counter is a [long long] narrowed to [int]. *)
Definition get_sharding_counter : prog Z := n ← call (INCR (L "SHARD_COUNTER")); PRet (i32 n).

Definition register_live_querier (epoch partition addr : str) : prog unit :=
  call (RPUSH (shard_key "NODE-#EPOCH" epoch partition) addr).

Definition self_addr_info (addr : str) (port : Z) : JSON :=
  set_key (set_key Null (L "addr") (Str addr)) (L "port") (Integral port).

(** [get_sharding_counter() % max_partiton + 1]; the remainder of C++ has the
    sign of the dividend and is undefined for a zero divisor. *)
Definition partition_of (counter max_partiton : Z) : outcome Z :=
  if decide (max_partiton = 0) then Undef else Ret (Z.rem counter max_partiton + 1).

(** The set-up of a querier around the call of its enclave, whose state goes in
    and comes out. *)
Definition setup_with {A} (st : A) (ecall : str -> outcome A) (addr : str) (port : Z) : prog A :=
  current_epoch_int ← get_epoch_int;
  if current_epoch_int <? 3 then PRet st
  else
    max_partiton ← get_sharding_max;
    counter ← get_sharding_counter;
    id ← pure (partition_of counter max_partiton);
    b_index_input ← o_get_key (shard_key "GLOBAL-INDEX-#EPOCH" (to_string (current_epoch_int - 1)) (to_string id));
    st ← pure (ecall b_index_input);
    register_live_querier (to_string current_epoch_int) (to_string id) (dump 1 (self_addr_info addr port)) ;;
    PRet st.

Definition querier_setup (st : querier_state) (addr : str) (port : Z) : prog querier_state :=
  setup_with st (fun b_index_input => ecall_querier_setup st b_index_input (Z.of_nat (length b_index_input))) addr port.

(** A round of the thread that follows the epochs: [last_epoch] and the
    enclave's state go in and come out. *)
Definition do_update_round (last_epoch : Z) (st : querier_state) (addr : str) (port : Z)
  : prog (Z * querier_state) :=
  current_epoch_int ← get_epoch_int;
  if current_epoch_int <? 3 then PRet (last_epoch, st)
  else if current_epoch_int =? last_epoch then PRet (last_epoch, st)
  else st ← querier_setup st addr port; PRet (current_epoch_int, st).

Definition BUFFER_SIZE : Z := 10240.

(** The response buffer is zeroed before the call and sent up to its first
    zero. *)
Definition do_query (st : querier_state) (request : str) : prog (querier_state * str) :=
  current_epoch_int ← get_epoch_int;
  if current_epoch_int <? 3 then PRet (st, [])
  else
    r ← pure (ecall_do_query CreateTokenizer st request (Z.of_nat (length request)) BUFFER_SIZE);
    PRet (fst r, c_str (snd r)).

(** The request is received into a buffer of [BUFFER_SIZE] bytes and a zero is
    written after it. *)
Definition serve_request (st : querier_state) (received : str) : prog (querier_state * str) :=
  if Z.of_nat (length received) <? BUFFER_SIZE then do_query st received else PUndef.

(** The body of the loop over the shards; [std::shuffle] of the nodes of each. *)
Fixpoint live_of_shards (shuffle : list str -> list str) (epoch : str) (n : nat) (partition : Z) : prog (list str) :=
  match n with
  | O => PRet []
  | S n =>
    partition_list ← call (LRANGE (shard_key "NODE-#EPOCH" epoch (to_string partition)) 0 (-1));
    rest ← live_of_shards shuffle epoch n (partition + 1);
    PRet (match shuffle partition_list with [] => rest | node :: _ => node :: rest end)
  end.

Definition get_live_querier (shuffle : list str -> list str) (epoch : str) : prog (list str) :=
  live_of_shards shuffle epoch (Z.to_nat INDEX_POOL_MAX) 1.

End Executors.

(** * Theorems *)

(** The mailbox operations on a store. *)

Lemma run_check_key k db : run (o_check_key k) db = (v ← getCommand db k; Ret (bool_decide (is_Some v), db)).
Proof. unfold o_check_key. run_steps. by destruct (getCommand db k). Qed.

Lemma run_put_key k v db : run (o_put_key k v) db = Ret (tt, <[k := OBJ_STRING v]> db).
Proof. reflexivity. Qed.

Lemma run_get_key k v db : db !! k = Some (OBJ_STRING v) -> run (o_get_key k) db = Ret (v, db).
Proof. intros E. unfold o_get_key. run_steps. by rewrite (getCommand_str _ _ _ E). Qed.

Lemma run_pure_Ret {A} (m : outcome A) a db : m = Ret a -> run (pure m) db = Ret (a, db).
Proof. by intros ->. Qed.

(** Sequencing by the result of the first part. *)
Lemma run_bind_eq {A B} (p : prog A) (f : A -> prog B) db a db' :
  run p db = Ret (a, db') -> run (p ≫= f) db = run (f a) db'.
Proof. intros E. rewrite run_bind, E. done. Qed.

