(* ===== verification/Manager.v ===== *)
(** * The manager and the root hashes

    src/manager: a node that counts epochs.  When all witnesses of an epoch
    are registered it stores a root hash over their keys and signs the next
    epoch number.  [check_root_hash] of src/client/utility.hpp is the
    auditor's side.

    [sort] stands for [std::sort] with the comparison of the last
    characters: what it makes of keys that end in the same character is up to
    the library, so the manager and the auditor have to run the same one. *)

From Stdlib Require Import String.
From stdpp Require Import fin_maps sorting.
From S2P Require Import Prelude Json JsonFacts Codec Crypto Witness Kanban Crawler Indexer Querier Executors.

Import Json.

Local Open Scope Z_scope.

(** ** [std::set<string>] *)

Definition str_le (a b : str) : Prop := a = b \/ str_ltb a b = true.

#[export] Instance str_le_dec a b : Decision (str_le a b).
Proof. unfold str_le. solve_decision. Defined.

(** The keys in the order of the set. *)
Definition set_elems (s : gset str) : list str := merge_sort str_le (elements s).

Section Manager.
Context `{Crypto} (sort : list str -> list str).

(** The keys sorted once more; [back()] of an empty string is undefined. *)
Definition sort_witness_keys (witness_keys : gset str) : outcome (list str) :=
  if decide ((2 <= size witness_keys)%nat /\ [] ∈ witness_keys) then Undef
  else Ret (sort (set_elems witness_keys)).

Definition root_hash_of (witness_keys : gset str) : outcome str :=
  string_witness_keys ← sort_witness_keys witness_keys;
  Ret (sha256_string (concat string_witness_keys)).

(** ** Epochs (manager.cpp) *)

Definition epoch_packet (epoch : str) : str :=
  let sig := ed25519_sig_to_string (ed25519_sign skey epoch) in
  dump 1 (set_key (set_key Null (L "EPOCH") (Str epoch)) (L "SIG") (Str sig)).

Definition init_epoch : prog unit :=
  e ← get_epoch;
  if decide (e = L "-1") then call (SET (L "EPOCH") (epoch_packet (L "1"))) else PRet tt.

Definition expected_key_size (current_epoch_int : Z) : Z :=
  if 1 =? current_epoch_int then ITEMS_POOL_MAX
  else if 2 =? current_epoch_int then ITEMS_POOL_MAX + INDEX_POOL_MAX
  else ITEMS_POOL_MAX + INDEX_POOL_MAX * 2.

Definition increment_epoch : prog unit :=
  e ← get_epoch;
  (if decide (e = L "-1") then init_epoch else PRet tt) ;;
  current_epoch ← get_epoch;
  current_epoch_int ← get_epoch_int;
  witness_keys ← call (AWAIT_SMEMBERS (epoch_key "WITNESS-#EPOCH" current_epoch) (expected_key_size current_epoch_int));
  root_hash ← pure (root_hash_of witness_keys);
  call (SET (epoch_key "ROOT-HASH-#EPOCH" current_epoch) root_hash) ;;
  e ← get_epoch_int;
  if decide (is_i32 (e + 1)) then call (SET (L "EPOCH") (epoch_packet (to_string (e + 1)))) else PUndef.

(** ** Main loop (main.cpp) *)

Definition START_STEEM_BLOCK_ID : Z := 62396745.

(** [n] rounds of the loop. *)
Fixpoint manager_rounds (n : nat) (steemit_block_id : Z) : prog unit :=
  match n with
  | O => PRet tt
  | S n =>
    call (SET (L "Steemit-Block-ID") (to_string steemit_block_id)) ;;
    if decide (is_i32 (steemit_block_id + ITEMS_BULK_MAX * ITEMS_POOL_MAX)) then
      increment_epoch ;;
      manager_rounds n (steemit_block_id + ITEMS_BULK_MAX * ITEMS_POOL_MAX)
    else PUndef
  end.

Definition manager_main (n : nat) : prog unit :=
  call (SET (L "SHARDING-MAX") (to_string INDEX_POOL_MAX)) ;;
  manager_rounds n START_STEEM_BLOCK_ID.

(** ** The auditor's check of an epoch (src/client/utility.hpp) *)

(** [strncmp(a, b, n) == 0]. *)
Definition strncmp_eq (n : nat) (a b : str) : bool := bool_decide (take n (c_str a) = take n (c_str b)).

Definition check_root_hash (epoch : Z) : prog bool :=
  witness_keys ← call (SMEMBERS (epoch_key "WITNESS-#EPOCH" (to_string epoch)));
  _root_hash ← pure (root_hash_of witness_keys);
  root_hash ← call (GET (epoch_key "ROOT-HASH-#EPOCH" (to_string epoch)));
  root_hash ← pure (deref root_hash);
  PRet (strncmp_eq 64 root_hash _root_hash).

End Manager.

(** * Theorems *)

(** ** Epoch packets *)

Section Epochs.
Context `{CryptoLaws}.

Lemma packet_Load e : Load (epoch_packet e) =
  Ret (Object [(L "EPOCH", Str e); (L "SIG", Str (ed25519_sig_to_string (ed25519_sign skey e)))]).
Proof.
  apply (Load_dump_eq (Object [(L "EPOCH", Str e); (L "SIG", Str (ed25519_sig_to_string (ed25519_sign skey e)))]));
    [|exact I].
  split; [by repeat constructor|]. repeat split; by apply plain_key.
Qed.

(** The store has epoch [z], signed. *)
Definition at_epoch (db : redisDb) (z : Z) : Prop :=
  db !! L "EPOCH" = Some (OBJ_STRING (epoch_packet (to_string z))).

(** The signature in a packet passes the check of the epoch in it. *)
Lemma packet_verifies z :
  let j := Object [(L "EPOCH", Str (to_string z));
                   (L "SIG", Str (ed25519_sig_to_string (ed25519_sign skey (to_string z))))] in
  ToString (at_key j (L "EPOCH")) = to_string z /\
  exists sig, ed25519_string_to_sig (ToString (at_key j (L "SIG"))) = Ret sig /\
    ed25519_verify pkey (to_string z) sig = true.
Proof.
  cbn zeta. set (sig := ed25519_sign skey (to_string z)). split; [exact (escape_num z)|]. exists sig.
  change (ToString (at_key (Object [(L "EPOCH", Str (to_string z)); (L "SIG", Str (ed25519_sig_to_string sig))]) (L "SIG")))
    with (json_escape (ed25519_sig_to_string sig)).
  unfold ed25519_sig_to_string. rewrite escape_hex by apply print_hex_chars. split.
  - apply sig_text_back0. unfold sig, ed25519_sign. apply sign_length.
  - unfold sig, ed25519_verify, ed25519_sign. apply verify_sign.
Qed.

Lemma get_epoch_at db z : at_epoch db z -> run get_epoch db = Ret (to_string z, db).
Proof.
  intros Hz. unfold get_epoch. run_steps. unfold getCommand. rewrite Hz. run_steps.
  rewrite packet_Load. run_steps. destruct (packet_verifies z) as (E1 & sig & E2 & E3).
  rewrite E1, E2. run_steps. by rewrite E3.
Qed.

Lemma get_epoch_int_at db z : at_epoch db z -> is_i32 z -> run get_epoch_int db = Ret (z, db).
Proof.
  intros Hz Hi. unfold get_epoch_int. rewrite run_bind, (get_epoch_at db z Hz). run_steps.
  by rewrite stoi_to_string.
Qed.

Lemma to_string_minus1 : L "-1" = to_string (-1).
Proof. reflexivity. Qed.

Lemma not_minus1 z : z <> -1 -> to_string z <> L "-1".
Proof. rewrite to_string_minus1. intros Hz E. by apply to_string_inj in E. Qed.

Section Sort.
Variable sort : list str -> list str.

(** The store after an epoch has been closed. *)
Definition closed_epoch (db : redisDb) (z : Z) (root : str) : redisDb :=
  <[L "EPOCH" := OBJ_STRING (epoch_packet (to_string (z + 1)))]>
    (<[epoch_key "ROOT-HASH-#EPOCH" (to_string z) := OBJ_STRING root]> db).

Lemma at_epoch_other db z k o : k <> L "EPOCH" -> at_epoch db z -> at_epoch (<[k := o]> db) z.
Proof. intros Hk Hz. unfold at_epoch. by rewrite lookup_insert_ne. Qed.

Lemma increment_epoch_run db z s root :
  at_epoch db z -> 1 <= z -> is_i32 (z + 1) ->
  db !! epoch_key "WITNESS-#EPOCH" (to_string z) = Some (OBJ_SET s) ->
  expected_key_size z <= Z.of_nat (size s) -> root_hash_of sort s = Ret root ->
  run (increment_epoch sort) db = Ret (tt, closed_epoch db z root).
Proof.
  intros Hz H1 Hi Hs Hn Hr. assert (Hi' : is_i32 z) by (unfold is_i32 in *; lia).
  unfold increment_epoch. rewrite run_bind, (get_epoch_at db z Hz). cbn [mbind outcome_bind fst snd].
  rewrite decide_False by (apply not_minus1; lia). rewrite run_bind. cbn [run mbind outcome_bind fst snd].
  rewrite run_bind, (get_epoch_at db z Hz). cbn [mbind outcome_bind fst snd].
  rewrite run_bind, (get_epoch_int_at db z Hz Hi'). cbn [mbind outcome_bind fst snd]. run_steps.
  rewrite (smembersCommand_set _ _ _ Hs). run_steps. rewrite decide_True by done. run_steps.
  rewrite Hr. run_steps. set (db1 := setCommand db _ root).
  assert (Hz1 : at_epoch db1 z) by by apply at_epoch_other.
  rewrite run_bind, (get_epoch_int_at db1 z Hz1 Hi'). cbn [mbind outcome_bind fst snd].
  by rewrite decide_True.
Qed.

(** ** Root hashes *)

Lemma sha256_hex m : Forall (fun c => hex_char c = true) (sha256_string m) /\ length (sha256_string m) = 64%nat.
Proof.
  split; [apply print_hex_chars|]. unfold sha256_string. by rewrite length_print_hex, SHA256_length.
Qed.

Lemma hex_c_str s : Forall (fun c => hex_char c = true) s -> c_str s = s.
Proof. intros Hs. apply c_str_no_nul. eapply Forall_weaken; [exact Hs|]. apply hex_not_nul. Qed.

Lemma strncmp_sha a b : strncmp_eq 64 (sha256_string a) (sha256_string b) = bool_decide (SHA256 a = SHA256 b).
Proof.
  destruct (sha256_hex a) as [Ha La]. destruct (sha256_hex b) as [Hb Lb].
  unfold strncmp_eq. rewrite !hex_c_str, !take_ge by (done || lia). apply bool_decide_ext.
  split; [apply print_hex_inj|intros E; unfold sha256_string; by rewrite E].
Qed.

Lemma root_hash_inv s root : root_hash_of sort s = Ret root -> root = sha256_string (concat (sort (set_elems s))).
Proof.
  unfold root_hash_of, sort_witness_keys. case_decide; [done|]. rewrite bind_ret. by intros E%Ret_inj.
Qed.

(** The store has the witness keys [s] and the root hash of [s0] for epoch [e]. *)
Lemma check_root_hash_run db e s s0 root0 root :
  db !! epoch_key "WITNESS-#EPOCH" (to_string e) = Some (OBJ_SET s) ->
  db !! epoch_key "ROOT-HASH-#EPOCH" (to_string e) = Some (OBJ_STRING root0) ->
  root_hash_of sort s0 = Ret root0 -> root_hash_of sort s = Ret root ->
  run (check_root_hash sort e) db =
    Ret (bool_decide (SHA256 (concat (sort (set_elems s0))) = SHA256 (concat (sort (set_elems s)))), db).
Proof.
  intros Hs Hr R0 R1. unfold check_root_hash. run_steps.
  rewrite (smembersCommand_set _ _ _ Hs). run_steps. rewrite R1. run_steps.
  unfold getCommand. rewrite Hr. run_steps. rewrite (root_hash_inv _ _ R0), (root_hash_inv _ _ R1).
  by rewrite strncmp_sha.
Qed.

Lemma concat_inj n (l1 : list str) : forall l2,
  Forall (fun s => length s = S n) l1 -> Forall (fun s => length s = S n) l2 ->
  concat l1 = concat l2 -> l1 = l2.
Proof.
  induction l1 as [|a l1 IH]; intros [|b l2] H1 H2 E; [done| | |].
  - apply Forall_cons_iff in H2 as [Hb _]. by destruct b.
  - apply Forall_cons_iff in H1 as [Ha _]. by destruct a.
  - apply Forall_cons_iff in H1 as [Ha H1]. apply Forall_cons_iff in H2 as [Hb H2]. cbn in E.
    apply app_inj_1 in E as [-> E]; [|congruence]. by rewrite (IH l2).
Qed.

Hypothesis sort_perm : forall l, sort l ≡ₚ l.

Lemma sort_elems s : sort (set_elems s) ≡ₚ elements s.
Proof. rewrite sort_perm. apply merge_sort_Permutation. Qed.

(** Two sets of keys of equal length with the same text are the same. *)
Lemma root_text_inj s s' :
  (forall k, k ∈ s -> length k = 64%nat) -> (forall k, k ∈ s' -> length k = 64%nat) ->
  concat (sort (set_elems s)) = concat (sort (set_elems s')) -> s = s'.
Proof.
  intros H1 H2 E.
  assert (Hl : forall t, (forall k, k ∈ t -> length k = 64%nat) ->
    Forall (fun k => length k = 64%nat) (sort (set_elems t))).
  { intros t Ht. rewrite sort_elems. apply Forall_forall. intros k Hk. by apply Ht, elem_of_elements. }
  apply (concat_inj 63) in E; [|by apply Hl..].
  apply set_eq. intros k. rewrite <- !elem_of_elements, <- (sort_elems s), <- (sort_elems s'). by rewrite E.
Qed.

End Sort.

End Epochs.

(** ** Properties *)

(** C34. When all expected witnesses of an epoch are registered, the manager's
    round stores the root hash of exactly their keys and a validly signed
    packet with the next epoch number, and changes nothing else. *)
Theorem increment_epoch_closes `{CryptoLaws} (sort : list str -> list str) db z s root :
  at_epoch db z -> 1 <= z -> is_i32 (z + 1) ->
  db !! epoch_key "WITNESS-#EPOCH" (to_string z) = Some (OBJ_SET s) ->
  expected_key_size z <= Z.of_nat (size s) -> root_hash_of sort s = Ret root ->
  run (increment_epoch sort) db = Ret (tt, closed_epoch db z root) /\
  run get_epoch_int (closed_epoch db z root) = Ret (z + 1, closed_epoch db z root).
Proof.
  intros Hz H1 Hi Hs Hn Hr. split; [by eapply increment_epoch_run|].
  apply get_epoch_int_at; [|done]. apply lookup_insert_eq.
Qed.

(** Sixteen keys for the first epoch. *)
Definition sample_keys : gset str :=
  list_to_set (map (fun i => replicate 64 (z2b (97 + Z.of_nat i))) (seq 0 16)).

Definition sample_db : redisDb :=
  <[L "EPOCH" := OBJ_STRING (@epoch_packet toy_crypto (to_string 1))]>
    {[ epoch_key "WITNESS-#EPOCH" (to_string 1) := OBJ_SET sample_keys ]}.

Lemma sample_key_length k : k ∈ sample_keys -> length k = 64%nat.
Proof.
  unfold sample_keys. intros Hk. apply elem_of_list_to_set, list_elem_of_fmap in Hk as (i & -> & _).
  by rewrite length_replicate.
Qed.

Lemma sample_root : @root_hash_of toy_crypto id sample_keys =
  Ret (@sha256_string toy_crypto (concat (set_elems sample_keys))).
Proof.
  unfold root_hash_of, sort_witness_keys. rewrite decide_False; [done|].
  intros [_ Hk]. by apply sample_key_length in Hk.
Qed.

Lemma sample_size : size sample_keys = 16%nat.
Proof.
  unfold sample_keys. rewrite size_list_to_set; [done|]. apply (bool_decide_unpack _). vm_compute. exact I.
Qed.

Lemma increment_epoch_closes_witness :
  let root := @sha256_string toy_crypto (concat (set_elems sample_keys)) in
  let closed := @closed_epoch toy_crypto sample_db 1 root in
  run (@increment_epoch toy_crypto id) sample_db = Ret (tt, closed) /\
  run (@get_epoch_int toy_crypto) closed = Ret (1 + 1, closed).
Proof.
  apply (@increment_epoch_closes toy_crypto toy_laws id sample_db 1 sample_keys).
  - apply lookup_insert_eq.
  - lia.
  - unfold is_i32. lia.
  - unfold sample_db. rewrite lookup_insert_ne by done. apply lookup_singleton_eq.
  - rewrite sample_size. vm_compute. done.
  - apply sample_root.
Defined.

(** C35. The auditor accepts the root hash of an epoch exactly when the witness
    keys registered for it now are the ones the manager saw: one key more,
    less or other makes the check fail (unless SHA-256 collides on the two
    texts).  In particular a witness that arrives after the epoch was closed
    makes its whole epoch fail. *)
Theorem check_root_hash_binds `{CryptoLaws} (sort : list str -> list str) db e s s0 root0 root :
  (forall l, sort l ≡ₚ l) ->
  db !! epoch_key "WITNESS-#EPOCH" (to_string e) = Some (OBJ_SET s) ->
  db !! epoch_key "ROOT-HASH-#EPOCH" (to_string e) = Some (OBJ_STRING root0) ->
  root_hash_of sort s0 = Ret root0 -> root_hash_of sort s = Ret root ->
  (forall k, k ∈ s -> length k = 64%nat) -> (forall k, k ∈ s0 -> length k = 64%nat) ->
  (SHA256 (concat (sort (set_elems s0))) = SHA256 (concat (sort (set_elems s))) ->
     concat (sort (set_elems s0)) = concat (sort (set_elems s))) ->
  run (check_root_hash sort e) db = Ret (bool_decide (s = s0), db).
Proof.
  intros Hp Hs Hr R0 R1 L1 L0 Hc. rewrite (check_root_hash_run sort db e s s0 root0 root) by done.
  f_equal. f_equal. apply bool_decide_ext. split; [|by intros ->].
  intros E. symmetry. apply (root_text_inj sort Hp s0 s); auto.
Qed.

Lemma check_root_hash_binds_witness :
  let root := @sha256_string toy_crypto (concat (set_elems sample_keys)) in
  let closed := @closed_epoch toy_crypto sample_db 1 root in
  run (@check_root_hash toy_crypto id 1) closed = Ret (bool_decide (sample_keys = sample_keys), closed).
Proof.
  intros root closed.
  apply (@check_root_hash_binds toy_crypto toy_laws id closed 1 sample_keys sample_keys root root).
  - done.
  - unfold closed, closed_epoch, sample_db. rewrite !lookup_insert_ne by done. apply lookup_singleton_eq.
  - unfold closed, closed_epoch. rewrite lookup_insert_ne by done. apply lookup_insert_eq.
  - apply sample_root.
  - apply sample_root.
  - apply sample_key_length.
  - apply sample_key_length.
  - intros _. reflexivity.
Defined.
