(* ===== verification/System.v ===== *)
(** * The whole system: any number of nodes on one Kanban

    The rounds of crawlers, indexers, reducers, queriers and managers,
    interleaved command by command in any order, and what holds of the store
    in every state they reach. *)

From Stdlib Require Import String.
From stdpp Require Import fin_maps relations.
From S2P Require Import Prelude Json JsonFacts Codec Tokenizer TokenizerFacts Crypto Witness Kanban Crawler Indexer Shard Reducer Querier Executors Manager.

Import Json Sphinx.

Local Open Scope Z_scope.

(** ** The roles

    A querier with any enclave: its enclave does not write to Kanban. *)

Inductive role `{Crypto} : prog unit -> Prop :=
  | role_crawler fetch : role (do_crawl fetch)
  | role_indexer order stack_tail : role (do_index order stack_tail)
  | role_reducer order : role (do_reduce order)
  | role_querier A (st : A) ecall addr port : role (setup_with st ecall addr port ;; PRet tt)
  | role_manager sort n : role (manager_main sort n).

(** * Theorems *)

(** ** The texts of the enclaves' witnesses fit their buffers *)

Lemma dump_record5 f i o g t :
  dump 1 (record5 f i o g t) =
    frame1 ++ dump 2 f ++ frame "IN" ++ dump 2 i ++ frame "OUT" ++ dump 2 o
      ++ frame "SIG" ++ dump 2 g ++ frame "TAG" ++ dump 2 t ++ frame5.
Proof.
  unfold record5, frame1, frame, frame5. cbn [dump map join fst snd].
  rewrite <- !app_assoc. reflexivity.
Qed.

(** No zero byte, and at most [n] bytes. *)
Definition small (n : nat) (s : str) : Prop := no_nul s /\ (length s <= n)%nat.

Lemma small_app n m a b : small n a -> small m b -> small (n + m) (a ++ b).
Proof. intros [Ha La] [Hb Lb]. split; [by apply Forall_app|]. rewrite length_app. lia. Qed.

Lemma small_weaken n m a : small n a -> (n <= m)%nat -> small m a.
Proof. intros [Ha La] H. split; [done|lia]. Qed.

Lemma small_hex s d : Forall (fun c => hex_char c = true) s -> small (length s + 2) (dump d (Str s)).
Proof.
  intros Hs. change (dump d (Str s)) with ([DQ] ++ json_escape s ++ [DQ]). rewrite escape_hex by done. split.
  - unfold no_nul. rewrite !Forall_app. split_and!; try by repeat constructor.
    eapply Forall_weaken; [exact Hs|]. apply hex_not_nul.
  - rewrite !length_app. cbn. lia.
Qed.

Lemma small_array l d n : Forall (fun s => small n (dump (S d) (Str s))) l ->
  small (length l * (n + 2) + 2) (dump d (Array (map Str l))).
Proof.
  intros Hl. change (dump d (Array (map Str l))) with
    (L "[" ++ join (L ", ") (map (dump (S d)) (map Str l)) ++ L "]").
  assert (Hj : small (length l * (n + 2)) (join (L ", ") (map (dump (S d)) (map Str l)))).
  { induction Hl as [|s l Hs Hl IH]; [by split; [constructor|cbn]|]. cbn [map].
    destruct l as [|s' l]; [eapply small_weaken; [exact Hs|cbn; lia]|].
    rewrite join_cons by done. eapply small_weaken.
    - apply small_app; [exact Hs|]. apply (small_app 2); [by split; [repeat constructor|cbn]|exact IH].
    - cbn [length]. lia. }
  eapply small_weaken; [apply (small_app 1); [|apply small_app; [exact Hj|]]|].
  - by split; [repeat constructor|cbn].
  - instantiate (1 := 1%nat). by split; [repeat constructor|cbn].
  - lia.
Qed.

Section Texts.
Context `{CryptoLaws}.

Lemma small_sha m d : small 66 (dump d (Str (sha256_string m))).
Proof. destruct (sha256_hex m) as [Hx Hl]. rewrite <- (Nat.add_0_l 66). eapply small_weaken; [by apply small_hex|lia]. Qed.

(** What the enclaves sign on behalf of the pipeline: the hashes of the inputs and
    of the output of a computation they have done.  The crawler has taken the
    posts out of its inputs; the indexer has built the index of its inputs and
    printed it as a blob; the reducer has merged two blobs. *)
Inductive enclave_context : witness_context -> Prop :=
  | ctx_crawler inputs output :
      parse_steemit_item inputs = Ret output ->
      enclave_context (work (L "STEEMIT CRAWLER") inputs output CRAWLER_TAG)
  | ctx_indexer (order : index_table -> list (Z * list Z)) stack_tail inputs digests index output :
      build_index CreateTokenizer stack_tail inputs [] ∅ = Ret (digests, index) ->
      Merge2Binary digests (order index) = Ret output ->
      enclave_context (work (L "STEEMIT INDEXER") inputs output INDEXER_TAG)
  | ctx_reducer (order : index_table -> list (Z * list Z)) index1 index2 output witness :
      ecall_do_merge order index1 (Z.of_nat (length index1)) index2 (Z.of_nat (length index2))
        (Z.of_nat (length output) + 1) WITNESS_MAX_LENGTH = Ret (output, Z.of_nat (length output), witness) ->
      enclave_context (work (L "STEEMIT REDUCER") [index1; index2] output REDUCER_TAG).

Lemma frame_small : small 24 frame1 /\ (forall k, no_nul (L k) -> (length (L k) <= 8)%nat -> small 24 (frame k)) /\ small 24 frame5.
Proof.
  split_and!.
  - split; [apply (bool_decide_unpack _); vm_compute; exact I|vm_compute; lia].
  - intros k Hk Hl. unfold frame. split.
    + unfold no_nul. rewrite !Forall_app. split_and!; try done; apply (bool_decide_unpack _); vm_compute; exact I.
    + rewrite !length_app. change (length (pad_of 1)) with 2%nat. cbn. lia.
  - split; [apply (bool_decide_unpack _); vm_compute; exact I|vm_compute; lia].
Qed.

Lemma work_small t inputs output func : no_nul (json_escape t) -> (length (json_escape t) <= 64)%nat ->
  (length inputs <= 64)%nat ->
  small 4900 (snd (witness_finalize (work t inputs output func) [])).
Proof.
  intros Ht Lt Hn. rewrite witness_finalize_eq by done. cbn [snd]. rewrite dump_record5.
  destruct frame_small as (F1 & Fk & F5). cbn [bin ins out tag work].
  assert (Ft : small 66 (dump 2 (Str t))).
  { change (dump 2 (Str t)) with ([DQ] ++ json_escape t ++ [DQ]). split; [|rewrite !length_app; cbn; lia].
    unfold no_nul. rewrite !Forall_app. split_and!; try done; by repeat constructor. }
  assert (Fs : small 130 (dump 2 (Str (signature_of (work t inputs output func))))).
  { eapply small_weaken; [apply small_hex, print_hex_chars|]. unfold signature_of, ed25519_sig_to_string.
    rewrite length_print_hex, length_take. lia. }
  assert (Fi : small 4354 (dump 2 (Array (map Str (map sha256_string inputs))))).
  { eapply small_weaken; [apply (small_array _ _ 66)|rewrite length_map; lia].
    apply Forall_map, Forall_true. intros m. apply small_sha. }
  eapply small_weaken.
  { repeat (apply small_app; [first [exact F1|exact Ft|exact Fs|exact Fi|apply small_sha
      |apply Fk; [by repeat constructor|cbn; lia]]|]). exact F5. }
  lia.
Qed.

(** ** What a program may do *)

(** [w] is an enclave's witness with key [k]. *)
Definition good (w k : str) : Prop :=
  exists c, enclave_context c /\ w = snd (witness_finalize c []) /\ k = out c.

(** Keys that hold no witnesses start with another letter. *)
Definition other_key (key : str) : Prop :=
  match key with c :: _ => b2z c <> 119 /\ b2z c <> 87 | [] => False end.

Definition is_packet (v : str) : Prop := exists z, 1 <= z /\ v = epoch_packet (to_string z).

(** What a program knows of the store, whatever the others do. *)
Inductive fact :=
  | Registered (k : str)
  | Epoch_set.

Definition cmd_ok (K : list fact) (c : cmd) : Prop :=
  match c with
  | SET key v => other_key key /\ (key = L "EPOCH" -> is_packet v)
  | RPUSH key _ | INCR key => other_key key /\ key <> L "EPOCH"
  | HSET key f v => key = L "witness" /\ good v f
  | SADD key m => Registered m ∈ K /\ exists e, key = epoch_key "WITNESS-#EPOCH" e
  | _ => True
  end.

Definition reply_ok (K : list fact) (c : cmd) : reply c -> Prop :=
  match c return reply c -> Prop with
  | GET key => fun r => key = L "EPOCH" -> match r with Some v => is_packet v | None => Epoch_set ∉ K end
  | _ => fun _ => True
  end.

(** What a program learns from a command and its reply. *)
Definition learns (c : cmd) : reply c -> list fact :=
  match c return reply c -> list fact with
  | HSET _ f _ => fun _ => [Registered f]
  | SET key _ => fun _ => if decide (key = L "EPOCH") then [Epoch_set] else []
  | GET key => fun r => if decide (key = L "EPOCH" /\ is_Some r) then [Epoch_set] else []
  | _ => fun _ => []
  end.

(** [p] does only what is [cmd_ok], and returns with [Q]. *)
Fixpoint allowed {A} (K : list fact) (p : prog A) (Q : list fact -> A -> Prop) : Prop :=
  match p with
  | PRet a => Q K a
  | PCmd c k => cmd_ok K c /\ forall r, reply_ok K c r -> allowed (learns c r ++ K) (k r) Q
  | _ => True
  end.

Notation keeps K p := (allowed K p (fun _ _ => True)).

Lemma cmd_ok_mono K K' c : K ⊆ K' -> cmd_ok K c -> cmd_ok K' c.
Proof. intros HK. destruct c; cbn; try done. intros [Hm Hc]. split; [by apply HK|done]. Qed.

Lemma reply_ok_mono K K' c r : K ⊆ K' -> reply_ok K' c r -> reply_ok K c r.
Proof. intros HK. destruct c; cbn; try done. intros Hr Hk. specialize (Hr Hk). destruct r; [done|set_solver]. Qed.

Lemma allowed_bind {A B} (p : prog A) (f : A -> prog B) Q R : forall K0 K, K0 ⊆ K ->
  allowed K p Q -> (forall K' a, K0 ⊆ K' -> Q K' a -> allowed K' (f a) R) -> allowed K (p ≫= f) R.
Proof.
  induction p as [a|e| |c k IH]; intros K0 K HK Hp Hf; [by apply Hf|exact I|exact I|].
  destruct Hp as [Hc Hk]. split; [done|]. intros r Hr. apply (IH r K0); [set_solver|by apply Hk|done].
Qed.

Lemma allowed_seq {A B} (p : prog A) (f : A -> prog B) Q K :
  keeps K p -> (forall K' a, K ⊆ K' -> allowed K' (f a) Q) -> allowed K (p ≫= f) Q.
Proof. intros Hp Hf. eapply (allowed_bind _ _ _ _ K K); [done|exact Hp|auto]. Qed.

Lemma allowed_pure {A B} (m : outcome A) (f : A -> prog B) Q K :
  (forall a, m = Ret a -> allowed K (f a) Q) -> allowed K (pure m ≫= f) Q.
Proof. destruct m; cbn; auto. Qed.

Lemma keeps_loop n body : (forall K i, keeps K (body i)) -> forall K first, keeps K (loop n first body).
Proof.
  intros Hb. induction n as [|n IH]; intros K first; [exact I|]. cbn [loop].
  apply allowed_seq; [apply Hb|]. intros K' _ _. apply IH.
Qed.

(** An epoch is read as -1, when none is set, or as a positive number. *)
Lemma allowed_get_epoch {B} (f : str -> prog B) K Q :
  (Epoch_set ∉ K -> allowed K (f (L "-1")) Q) ->
  (forall z, 1 <= z -> allowed (Epoch_set :: K) (f (to_string z)) Q) -> allowed K (get_epoch ≫= f) Q.
Proof.
  intros Hm Hz. split; [exact I|]. intros [v|] Hr; cbn [learns].
  - rewrite decide_True by (split; [done|by eexists]). cbn [app].
    destruct (Hr eq_refl) as (z & H1 & ->). cbn [mbind prog_mbind prog_bind]. rewrite packet_Load.
    cbn [pure mbind prog_mbind prog_bind]. destruct (packet_verifies z) as (E1 & sig & E2 & E3).
    rewrite E1, E2. cbn [pure mbind prog_mbind prog_bind]. rewrite E3. by apply Hz.
  - rewrite decide_False by (intros [_ []]; done). cbn [app]. apply Hm, Hr, eq_refl.
Qed.

Lemma stoi_minus1 : stoi (L "-1") = Ret (-1).
Proof. reflexivity. Qed.

Lemma allowed_get_epoch_int {B} (f : Z -> prog B) K Q :
  (Epoch_set ∉ K -> allowed K (f (-1)) Q) ->
  (forall z, 1 <= z -> is_i32 z -> allowed (Epoch_set :: K) (f z) Q) -> allowed K (get_epoch_int ≫= f) Q.
Proof.
  intros Hm Hz. split; [exact I|]. intros [v|] Hr; cbn [learns].
  - rewrite decide_True by (split; [done|by eexists]). cbn [app].
    destruct (Hr eq_refl) as (z & H1 & ->). cbn [mbind prog_mbind prog_bind]. rewrite packet_Load.
    cbn [pure mbind prog_mbind prog_bind]. destruct (packet_verifies z) as (E1 & sig & E2 & E3).
    rewrite E1, E2. cbn [pure mbind prog_mbind prog_bind]. rewrite E3.
    unfold stoi. rewrite c_str_no_nul by apply to_string_no_nul. rewrite scan_long_to_string.
    case_decide; [|exact I]. by apply Hz.
  - rewrite decide_False by (intros [_ []]; done). cbn [app mbind prog_mbind prog_bind]. rewrite stoi_minus1.
    apply Hm, Hr, eq_refl.
Qed.

(** Keys the roles write. *)
Lemma other_shard_key prefix e i c r : L prefix = c :: r -> b2z c <> 119 -> b2z c <> 87 ->
  other_key (shard_key prefix e i).
Proof. intros E H1 H2. unfold shard_key. by rewrite E. Qed.

Lemma shard_key_not_epoch prefix e i c r : L prefix = c :: r -> b2z c <> 69 -> shard_key prefix e i <> L "EPOCH".
Proof. unfold shard_key. intros -> Hc E. injection E as -> _. done. Qed.

Lemma keeps_put K prefix e i v c r : L prefix = c :: r -> b2z c <> 119 -> b2z c <> 87 -> b2z c <> 69 ->
  keeps K (o_put_key (shard_key prefix e i) v).
Proof.
  intros E H1 H2 H3. split; [|done]. split; [by eapply other_shard_key|].
  intros F. by eapply shard_key_not_epoch in F.
Qed.

(** ** Publishing a witness *)

Lemma keeps_append K e w k : good w k -> keeps K (o_append_witness e w).
Proof.
  intros (c & Hc & Ew & ->). unfold o_append_witness.
  assert (Hs : stage c <> 5) by by destruct Hc.
  assert (Ho : exists m, out c = sha256_string m) by (destruct Hc; by eexists).
  rewrite Ew, Load_witness by done. apply allowed_pure. intros j [= <-].
  apply allowed_pure. intros key Hk.
  assert (Ek : key = out c).
  { destruct Ho as [m Ho]. change (trim_string (dump 1 (Str (out c))) = Ret key) in Hk.
    rewrite trim_dump_str in Hk. apply Ret_inj in Hk as <-. rewrite Ho. apply escape_hex, print_hex_chars. }
  subst key. split; [split; [done|by exists c]|]. intros [] _. cbn [prog_bind].
  split; [|done]. split; [cbn; set_solver|by exists e].
Qed.

(** A witness of at most 64 inputs comes out of its buffer unchanged. *)
Lemma witness_buffer t inputs output func : no_nul (json_escape t) -> (length (json_escape t) <= 64)%nat ->
  (length inputs <= 64)%nat ->
  let w := snd (witness_finalize (work t inputs output func) []) in
  c_str (visible WITNESS_MAX_LENGTH w) = w.
Proof.
  intros Ht Lt Hn w. destruct (work_small t inputs output func Ht Lt Hn) as [Hw Hl]. fold w in Hw, Hl.
  unfold visible. rewrite (proj2 (Z.ltb_lt _ _)) by (unfold WITNESS_MAX_LENGTH; lia). by apply c_str_no_nul.
Qed.

(** ** The roles keep to it *)

Lemma c_str_clean s : no_nul (c_str s).
Proof.
  induction s as [|c s IH]; [constructor|]. cbn. destruct (Z.eqb_spec (b2z c) 0); [constructor|by constructor].
Qed.

Lemma item_clean fetch id : no_nul (get_steemit_item fetch id).
Proof.
  unfold get_steemit_item. induction (fetch id) as [|s l IH]; [constructor|].
  cbn. apply Forall_app. split; [apply c_str_clean|exact IH].
Qed.

Lemma crawler_good inputs output : parse_steemit_item inputs = Ret output ->
  good (create_cralwer_witness inputs output) (sha256_string output).
Proof. intros E. rewrite crawler_work. eexists. split; [by apply ctx_crawler|done]. Qed.

Lemma indexer_good order stack_tail inputs r output :
  build_index CreateTokenizer stack_tail inputs [] ∅ = Ret r -> Merge2Binary (fst r) (order (snd r)) = Ret output ->
  good (create_indexer_witness inputs output) (sha256_string output).
Proof. intros E1 E2. rewrite indexer_work. destruct r. eexists. split; [by eapply ctx_indexer|done]. Qed.

(** A merge that returns has signed what it returns. *)
Lemma reducer_good order a b cap wcap o sz w :
  ecall_do_merge order a (Z.of_nat (length a)) b (Z.of_nat (length b)) cap wcap = Ret (o, sz, w) ->
  exists output, o = visible cap output /\ sz = Z.of_nat (length output) /\
    w = visible wcap (create_reducer_witness a b output) /\ good (create_reducer_witness a b output) (sha256_string output).
Proof.
  unfold ecall_do_merge. rewrite !Nat2Z.id, !firstn_all. intros E. repeat (apply bind_Ret_inv in E as (? & ?E1 & E); cbv zeta in E).
  injection E as <- <- <-. eexists. split_and!; [done..|]. rewrite reducer_work. eexists. split; [|done].
  eapply (ctx_reducer order).
  unfold ecall_do_merge. rewrite !Nat2Z.id, !firstn_all.
  repeat match goal with H : ?m = Ret _ |- context [?m] => rewrite H, bind_ret; cbv zeta end.
  unfold visible at 1. by rewrite (proj2 (Z.ltb_lt _ _)) by lia.
Qed.

Lemma tag_small : Forall (fun t => no_nul (json_escape t) /\ (length (json_escape t) <= 64)%nat)
  [L "STEEMIT CRAWLER"; L "STEEMIT INDEXER"; L "STEEMIT REDUCER"].
Proof. apply (bool_decide_unpack _). vm_compute. exact I. Qed.

Lemma keeps_crawl_batch fetch e id K i : keeps K (crawl_batch fetch e id i).
Proof.
  unfold crawl_batch. apply allowed_seq; [done|]. intros K1 [|] _; [exact I|].
  apply allowed_pure. intros input Hin. apply allowed_pure. intros [[output w] l] Hr.
  unfold ecall_parse_items in Hr. apply bind_Ret_inv in Hr as (ds & Hds & Hr).
  apply bind_Ret_inv in Hr as (out & Hout & Hr). apply Ret_inj in Hr as [= <- <- <-].
  apply Binary2Digest_inv with (ds := map (fun j => get_steemit_item fetch
    (id + (i - 1) * ITEMS_BULK_MAX + Z.of_nat j)) (seq 1 (Z.to_nat ITEMS_BULK_MAX))) in Hds;
    [|apply Forall_map, Forall_true; intros j; apply item_clean|done].
  apply allowed_seq; [by eapply keeps_put|]. intros K2 _ _.
  pose proof tag_small as Ht. apply Forall_cons_iff in Ht as [[Ht1 Ht2] _].
  rewrite crawler_work, witness_buffer; [|done|done|subst ds; rewrite length_map, length_seq; done].
  rewrite <- crawler_work. by eapply keeps_append, crawler_good.
Qed.

Lemma keeps_crawl fetch K : keeps K (do_crawl fetch).
Proof.
  unfold do_crawl. apply allowed_get_epoch_int; [done|]. intros z H1 Hi.
  rewrite (proj2 (Z.eqb_neq _ _)) by lia. apply allowed_seq; [done|]. intros K1 o _.
  apply allowed_pure. intros off _. apply allowed_pure. intros id _. apply keeps_loop. intros K2 i.
  apply keeps_crawl_batch.
Qed.

Lemma get_items_allowed n : forall epoch j K,
  allowed K (get_items n epoch j) (fun _ l => length l = n /\ Forall no_nul l).
Proof.
  induction n as [|n IH]; intros epoch j K; [by split|]. cbn [get_items].
  apply allowed_seq; [done|]. intros K1 v _. eapply (allowed_bind _ _ _ _ K1); [done|apply IH|].
  intros K2 l _ [Hl Hn]. split; [cbn; lia|]. constructor; [apply c_str_clean|done].
Qed.

Lemma keeps_index_shard order tail e i pos K : keeps K (index_shard order tail e i pos).
Proof.
  unfold index_shard. apply allowed_seq; [done|]. intros K1 [|] _; [exact I|].
  eapply (allowed_bind _ _ _ _ K1); [done|apply get_items_allowed|].
  intros K2 inputs _ [Hl Hn]. apply allowed_pure. intros bin Hb. apply allowed_pure. intros [[[o sz] w] st] Hr.
  unfold ecall_build_index in Hr. apply bind_Ret_inv in Hr as (ds & Hds & Hr).
  apply bind_Ret_inv in Hr as (r & Hbuild & Hr). apply bind_Ret_inv in Hr as (out & Hblob & Hr).
  cbv zeta in Hr. apply Ret_inj in Hr as [= <- <- <- <-].
  apply (Binary2Digest_inv inputs) in Hds; [subst ds|done|done].
  pose proof tag_small as Ht. apply Forall_cons_iff in Ht as [_ Ht]. apply Forall_cons_iff in Ht as [[Ht1 Ht2] _].
  apply allowed_pure. intros v _. apply allowed_seq; [by eapply keeps_put|]. intros K3 _ _.
  apply allowed_seq.
  - rewrite indexer_work, witness_buffer; [|done|done|rewrite Hl; vm_compute; lia].
    rewrite <- indexer_work. by eapply keeps_append, indexer_good.
  - intros K4 _ _. apply allowed_seq; [|done]. case_match; [by eapply keeps_put|exact I].
Qed.

Lemma keeps_index_shards order tail e n : forall i pos K, keeps K (index_shards order tail e n i pos).
Proof.
  induction n as [|n IH]; intros i pos K; [exact I|]. cbn [index_shards].
  apply allowed_seq; [apply keeps_index_shard|]. intros K' pos' _. apply IH.
Qed.

Lemma keeps_index order tail K : keeps K (do_index order tail).
Proof.
  unfold do_index. apply allowed_get_epoch_int; [done|]. intros z H1 Hi.
  rewrite (proj2 (Z.eqb_neq _ _)) by lia. case_match; [exact I|]. apply keeps_index_shards.
Qed.

Lemma keeps_reduce_shard order e K i : keeps K (reduce_shard order e i).
Proof.
  unfold reduce_shard. apply allowed_seq; [done|]. intros K1 [|] _; [exact I|].
  apply allowed_seq; [done|]. intros K2 g _. apply allowed_seq; [done|]. intros K3 x _.
  apply allowed_pure. intros [[o sz] w] Hr. apply reducer_good in Hr as (output & -> & -> & -> & Hg).
  pose proof tag_small as Ht. do 2 apply Forall_cons_iff in Ht as [_ Ht]. apply Forall_cons_iff in Ht as [[Ht1 Ht2] _].
  apply allowed_pure. intros v _. apply allowed_seq; [by eapply keeps_put|]. intros K4 _ _.
  rewrite reducer_work, witness_buffer; [|done|done|cbn; lia].
  rewrite <- reducer_work. by eapply keeps_append.
Qed.

Lemma keeps_reduce order K : keeps K (do_reduce order).
Proof.
  unfold do_reduce. apply allowed_get_epoch_int; [done|]. intros z H1 Hi.
  rewrite (proj2 (Z.eqb_neq _ _)) by lia. case_match; [exact I|]. apply keeps_loop. intros K' i.
  apply keeps_reduce_shard.
Qed.

Lemma keeps_querier A (st : A) ecall addr port K : keeps K (setup_with st ecall addr port ;; PRet tt).
Proof.
  apply allowed_seq; [|done]. unfold setup_with. apply allowed_get_epoch_int; [done|]. intros z H1 Hi.
  case_match; [exact I|]. apply allowed_seq.
  { unfold get_sharding_max. apply allowed_seq; [done|]. intros K1 v _. apply allowed_pure. intros v' _.
    by destruct (stoi v'). }
  intros K1 mx _. apply allowed_seq; [by split|]. intros K2 n _. apply allowed_pure. intros id _.
  apply allowed_seq; [done|]. intros K3 b _. apply allowed_pure. intros st' _.
  apply allowed_seq; [|done]. split; [|done]. split; [by eapply other_shard_key|by eapply shard_key_not_epoch].
Qed.

(** The manager has an epoch when it increments it. *)
Lemma init_epoch_sets K : allowed K init_epoch (fun K' _ => Epoch_set ∈ K').
Proof.
  unfold init_epoch. apply allowed_get_epoch.
  - intros _. rewrite decide_True by done. split.
    + split; [done|]. intros _. exists 1. split; [lia|done].
    + intros [] _. cbn. set_solver.
  - intros z Hz. rewrite decide_False by (apply not_minus1; lia). set_solver.
Qed.

Lemma keeps_increment sort K : keeps K (increment_epoch sort).
Proof.
  unfold increment_epoch.
  assert (Hrest : forall K', Epoch_set ∈ K' -> keeps K' (current_epoch ← get_epoch;
    current_epoch_int ← get_epoch_int;
    witness_keys ← call (AWAIT_SMEMBERS (epoch_key "WITNESS-#EPOCH" current_epoch) (expected_key_size current_epoch_int));
    root_hash ← pure (root_hash_of sort witness_keys);
    call (SET (epoch_key "ROOT-HASH-#EPOCH" current_epoch) root_hash) ;;
    e ← get_epoch_int;
    if decide (is_i32 (e + 1)) then call (SET (L "EPOCH") (epoch_packet (to_string (e + 1)))) else PUndef)).
  { intros K' HK. apply allowed_get_epoch; [done|]. intros z Hz.
    apply allowed_get_epoch_int; [set_solver|]. intros z' Hz' _. apply allowed_seq; [done|]. intros K1 wk HK1.
    apply allowed_pure. intros root _. apply allowed_seq; [by split|]. intros K2 _ HK2.
    apply allowed_get_epoch_int; [set_solver|]. intros z2 Hz2 _. case_decide; [|exact I].
    split; [|done]. split; [done|]. intros _. exists (z2 + 1). split; [lia|done]. }
  apply allowed_get_epoch.
  - intros HK. rewrite decide_True by done. eapply (allowed_bind _ _ _ _ K); [done|apply init_epoch_sets|].
    intros K' [] _ HK'. by apply Hrest.
  - intros z Hz. rewrite decide_False by (apply not_minus1; lia). apply allowed_seq; [exact I|].
    intros K' [] HK'. apply Hrest. set_solver.
Qed.

Lemma keeps_manager sort n K : keeps K (manager_main sort n).
Proof.
  unfold manager_main. apply allowed_seq; [by split|]. intros K' [] _.
  revert K'. generalize START_STEEM_BLOCK_ID as id. induction n as [|n IH]; intros id K'; [exact I|].
  cbn [manager_rounds]. apply allowed_seq; [by split|]. intros K1 _ _. case_decide; [|exact I].
  apply allowed_seq; [apply keeps_increment|]. intros K2 _ _. apply IH.
Qed.

Lemma keeps_role p K : role p -> keeps K p.
Proof.
  intros []; auto using keeps_crawl, keeps_index, keeps_reduce, keeps_querier, keeps_manager.
Qed.

(** ** The invariant of the store *)

Definition registered (db : redisDb) (k : str) : Prop :=
  exists m w, db !! L "witness" = Some (OBJ_HASH m) /\ m !! k = Some w.

Record store_ok (db : redisDb) : Prop := {
  ok_witness : forall o, db !! L "witness" = Some o ->
    exists m, o = OBJ_HASH m /\ forall k w, m !! k = Some w -> good w k;
  ok_epochs : forall e o, db !! epoch_key "WITNESS-#EPOCH" e = Some o ->
    exists s, o = OBJ_SET s /\ forall k, k ∈ s -> registered db k;
  ok_epoch : forall o, db !! L "EPOCH" = Some o -> exists v, o = OBJ_STRING v /\ is_packet v
}.

Definition fact_holds (db : redisDb) (f : fact) : Prop :=
  match f with Registered k => registered db k | Epoch_set => is_Some (db !! L "EPOCH") end.

Lemma other_not_witness key : other_key key -> key <> L "witness".
Proof. destruct key as [|c key]; [done|]. intros [H1 _] E. injection E as -> _. by vm_compute in H1. Qed.

Lemma other_not_epoch_key key e : other_key key -> key <> epoch_key "WITNESS-#EPOCH" e.
Proof. destruct key as [|c key]; [done|]. intros [_ H1] E. injection E as -> _. by vm_compute in H1. Qed.

(** A key that holds no witnesses is written. *)
Lemma store_other db key o : store_ok db -> other_key key ->
  (key = L "EPOCH" -> exists v, o = OBJ_STRING v /\ is_packet v) ->
  store_ok (<[key := o]> db) /\ forall f, fact_holds db f -> fact_holds (<[key := o]> db) f.
Proof.
  intros [H1 H2 H3] Hk He. pose proof (other_not_witness key Hk) as N1.
  assert (Hr : forall k, registered (<[key := o]> db) k <-> registered db k).
  { intros k. unfold registered. by rewrite lookup_insert_ne. }
  split; [split|].
  - intros o'. rewrite lookup_insert_ne by done. apply H1.
  - intros e o'. rewrite lookup_insert_ne by by apply other_not_epoch_key. intros Ho.
    destruct (H2 e o' Ho) as (s & -> & Hs). exists s. split; [done|]. intros k Hks. by apply Hr, Hs.
  - intros o'. destruct (decide (key = L "EPOCH")) as [->|N].
    + rewrite lookup_insert_eq. intros [= <-]. by apply He.
    + rewrite lookup_insert_ne by done. apply H3.
  - intros [k|]; cbn; [apply Hr|]. intros [o' Ho]. destruct (decide (key = L "EPOCH")) as [->|N].
    + rewrite lookup_insert_eq. by eexists.
    + rewrite lookup_insert_ne by done. by eexists.
Qed.

(** A witness is stored. *)
Lemma store_hset db k w db' : store_ok db -> good w k -> hsetCommand db (L "witness") k w = Ret db' ->
  store_ok db' /\ registered db' k /\ forall f, fact_holds db f -> fact_holds db' f.
Proof.
  intros [H1 H2 H3] Hg Hs.
  assert (exists m, db' = <[L "witness" := OBJ_HASH (<[k := w]> m)]> db /\
    (forall k' w', m !! k' = Some w' -> good w' k') /\
    forall k', registered db k' -> exists w', m !! k' = Some w') as (m & -> & Hm & Hr).
  { unfold hsetCommand in Hs. destruct (db !! L "witness") as [o|] eqn:E.
    - destruct (H1 o eq_refl) as (m & -> & Hm). apply Ret_inj in Hs as <-. exists m. split_and!; [done|done|].
      intros k' (m' & w' & E' & Hk'). rewrite E in E'. injection E' as <-. by exists w'.
    - apply Ret_inj in Hs as <-. exists ∅. split_and!; [done|by intros ? ?; rewrite lookup_empty|].
      intros k' (m' & w' & E' & _). by rewrite E in E'. }
  assert (Hr' : forall k', registered db k' \/ k' = k -> registered (<[L "witness" := OBJ_HASH (<[k := w]> m)]> db) k').
  { intros k' Hk'. destruct (decide (k' = k)) as [->|N].
    - exists (<[k := w]> m), w. by rewrite !lookup_insert_eq.
    - destruct Hk' as [Hk'|]; [|done]. destruct (Hr k' Hk') as [w' Hw']. exists (<[k := w]> m), w'.
      rewrite lookup_insert_eq, lookup_insert_ne by done. done. }
  split; [split|split].
  - intros o. rewrite lookup_insert_eq. intros [= <-]. eexists. split; [done|]. intros k' w'.
    destruct (decide (k' = k)) as [->|N]; [rewrite lookup_insert_eq; by intros [= <-]|].
    rewrite lookup_insert_ne by done. apply Hm.
  - intros e o. rewrite lookup_insert_ne by done. intros Ho. destruct (H2 e o Ho) as (s & -> & Hs').
    exists s. split; [done|]. intros k' Hk'. apply Hr'. left. by apply Hs'.
  - intros o. rewrite lookup_insert_ne by done. apply H3.
  - apply Hr'. by right.
  - intros [k'|]; cbn; [intros Hk'; apply Hr'; by left|]. by rewrite lookup_insert_ne.
Qed.

(** A registered witness joins an epoch. *)
Lemma store_sadd db e k db' : store_ok db -> registered db k ->
  saddCommand db (epoch_key "WITNESS-#EPOCH" e) k = Ret db' ->
  store_ok db' /\ forall f, fact_holds db f -> fact_holds db' f.
Proof.
  intros [H1 H2 H3] Hk Hs.
  assert (exists s, db' = <[epoch_key "WITNESS-#EPOCH" e := OBJ_SET s]> db /\ forall k', k' ∈ s -> registered db k')
    as (s & -> & Hr).
  { unfold saddCommand in Hs. destruct (db !! epoch_key "WITNESS-#EPOCH" e) as [o|] eqn:E.
    - destruct (H2 e o E) as (s & -> & Hs'). apply Ret_inj in Hs as <-. eexists. split; [done|]. set_solver.
    - apply Ret_inj in Hs as <-. eexists. split; [done|]. set_solver. }
  assert (Hr' : forall k', registered db k' -> registered (<[epoch_key "WITNESS-#EPOCH" e := OBJ_SET s]> db) k').
  { intros k'. unfold registered. by rewrite lookup_insert_ne. }
  split; [split|].
  - intros o. rewrite lookup_insert_ne by done. apply H1.
  - intros e' o Ho. destruct (decide (e' = e)) as [->|N].
    + rewrite lookup_insert_eq in Ho. injection Ho as <-. exists s. split; [done|]. intros k' Hk'. by apply Hr', Hr.
    + rewrite lookup_insert_ne in Ho by (intros E; apply N; by apply app_inv_head in E).
      destruct (H2 e' o Ho) as (s' & -> & Hs'). exists s'. split; [done|]. intros k' Hk'. by apply Hr', Hs'.
  - intros o. rewrite lookup_insert_ne by done. apply H3.
  - intros [k'|]; cbn; [apply Hr'|]. by rewrite lookup_insert_ne.
Qed.

Lemma exec_read {R} (m : outcome R) (db db' : redisDb) r : (r0 ← m; Ret (r0, db)) = Ret (r, db') -> m = Ret r /\ db' = db.
Proof. intros Hr. apply bind_Ret_inv in Hr as (r0 & E & Hr). apply Ret_inj in Hr as [= -> ->]. done. Qed.

Lemma exec_write (m : outcome redisDb) db' (r : unit) : (db ← m; Ret (tt, db)) = Ret (r, db') -> m = Ret db'.
Proof. intros Hr. apply bind_Ret_inv in Hr as (r0 & E & Hr). apply Ret_inj in Hr as [= _ ->]. done. Qed.

(** Every command a program may do keeps the invariant, everything any program
    knows of the store, and tells the program what it may rely on. *)
Lemma exec_ok c K db r db' : store_ok db -> Forall (fact_holds db) K -> cmd_ok K c -> exec c db = Ret (r, db') ->
  store_ok db' /\ (forall f, fact_holds db f -> fact_holds db' f) /\
  reply_ok K c r /\ Forall (fact_holds db') (learns c r).
Proof.
  intros Hdb HK Hc He. destruct c; cbn [exec] in He; cbn [cmd_ok reply_ok learns] in *.
  - apply exec_read in He as [Hg ->]. split_and!; [done|done| |].
    + intros ->. unfold getCommand in Hg. destruct (db !! L "EPOCH") as [o|] eqn:E.
      * destruct (ok_epoch db Hdb o E) as (v & -> & Hv). by apply Ret_inj in Hg as <-.
      * apply Ret_inj in Hg as <-. intros HE. rewrite Forall_forall in HK. destruct (HK _ HE) as [o Ho]. congruence.
    + case_decide as Hd; [|constructor]. destruct Hd as [-> [v ->]]. constructor; [|constructor].
      unfold getCommand in Hg. unfold fact_holds. destruct (db !! L "EPOCH"); [by eexists|by apply Ret_inj in Hg].
  - apply Ret_inj in He as [= _ <-]. destruct Hc as [Hk Hp].
    destruct (store_other db key (OBJ_STRING val) Hdb Hk) as [H1 H2]; [intros E; exists val; auto|].
    split_and!; [done|done|done|]. case_decide as Hd; [|constructor]. constructor; [|constructor]. subst key.
    cbn. unfold setCommand. rewrite lookup_insert_eq. by eexists.
  - apply exec_write in He. destruct Hc as [Hm [e ->]]. rewrite Forall_forall in HK.
    destruct (store_sadd db e member db' Hdb (HK _ Hm) He) as [H1 H2]. by split_and!.
  - apply exec_read in He as [_ ->]. by split_and!.
  - apply exec_write in He. destruct Hc as [-> Hg].
    destruct (store_hset db field val db' Hdb Hg He) as (H1 & H2 & H3). split_and!; [done|done|done|by repeat constructor].
  - apply exec_read in He as [_ ->]. by split_and!.
  - apply exec_write in He. destruct Hc as [Hk Hne].
    assert (exists o, db' = <[key := o]> db) as [o ->].
    { unfold rpushCommand in He. repeat case_match; try done; apply Ret_inj in He as <-; by eexists. }
    destruct (store_other db key o Hdb Hk) as [H1 H2]; [by intros E; destruct (Hne E)|]. by split_and!.
  - apply exec_read in He as [_ ->]. by split_and!.
  - destruct Hc as [Hk Hne]. unfold incrCommand in He. apply bind_Ret_inv in He as (old & _ & He).
    case_decide as Hov; [done|]. apply Ret_inj in He as [= _ <-].
    destruct (store_other db key (OBJ_STRING (to_string (old + 1))) Hdb Hk) as [H1 H2]; [by intros E; destruct (Hne E)|]. by split_and!.
  - apply bind_Ret_inv in He as ([v|] & _ & He); [|done]. apply Ret_inj in He as [= _ <-]. by split_and!.
  - apply bind_Ret_inv in He as (v & _ & He). case_decide; [|done]. apply Ret_inj in He as [= _ <-]. by split_and!.
Qed.

(** Running alone keeps the invariant, too. *)
Lemma keeps_run {A} (p : prog A) : forall K db a db', store_ok db -> Forall (fact_holds db) K -> keeps K p ->
  run p db = Ret (a, db') -> store_ok db'.
Proof.
  induction p as [a|e| |c k IH]; intros K db a' db' Hdb HK Hp Hr; cbn [run] in Hr; try done.
  - by apply Ret_inj in Hr as [= _ <-].
  - apply bind_Ret_inv in Hr as ([r db1] & He & Hr). destruct Hp as [Hc Hk].
    destruct (exec_ok c K db r db1 Hdb HK Hc He) as (H1 & H2 & H3 & H4).
    eapply (IH r (learns c r ++ K)); [exact H1| |by apply Hk|exact Hr].
    apply Forall_app. split; [done|]. eapply Forall_weaken; [exact HK|]. apply H2.
Qed.

(** A program in a store: some of what it knows suffices for what it does. *)
Definition prog_ok (db : redisDb) (p : prog unit) : Prop := exists K, Forall (fact_holds db) K /\ keeps K p.

Lemma reachable_ok db0 s : store_ok db0 -> reachable role db0 s -> store_ok (fst s).
Proof.
  intros Hdb Hr.
  apply (reachable_invariant role store_ok prog_ok) with (db0 := db0) in Hr as [Hs _]; [done| | | |done].
  - intros db p _ Hp. exists []. split; [constructor|by apply keeps_role].
  - intros db c k r db' Hi (K & HK & Hc & Hk) He.
    destruct (exec_ok c K db r db' Hi HK Hc He) as (H1 & H2 & H3 & H4). split; [done|].
    exists (learns c r ++ K). split; [|by apply Hk]. apply Forall_app. split; [done|].
    eapply Forall_weaken; [exact HK|]. apply H2.
  - intros db c k r db' p Hi (K & HK & Hc & _) He (K2 & HK2 & Hp).
    destruct (exec_ok c K db r db' Hi HK Hc He) as (_ & H2 & _). exists K2. split; [|done].
    eapply Forall_weaken; [exact HK2|]. apply H2.
Qed.

Lemma store_empty : store_ok ∅.
Proof. split; intros *; by rewrite lookup_empty. Qed.

(** What [good] means to the auditor. *)
Lemma good_checks w k : good w k -> check_witness w = Ret true /\
  exists c, enclave_context c /\ out c = k /\ Load w = Ret (witness_record c).
Proof.
  intros (c & Hc & -> & ->). assert (Hs : stage c <> 5) by by destruct Hc.
  split; [by apply check_finalize|]. exists c. split_and!; [done|done|]. by rewrite Load_witness.
Qed.

End Texts.

(** ** Properties *)

(** The store after a manager has started up. *)
Definition started : redisDb :=
  <[L "EPOCH" := OBJ_STRING (@epoch_packet toy_crypto (L "1"))]>
    (<[L "Steemit-Block-ID" := OBJ_STRING (to_string START_STEEM_BLOCK_ID)]>
      {[ L "SHARDING-MAX" := OBJ_STRING (to_string INDEX_POOL_MAX) ]}).

Ltac one_step := eapply rtc_l; [eapply (step_cmd _ _ _ 0); [reflexivity|reflexivity]|];
  cbn [insert list_insert mbind prog_mbind prog_bind call].

Lemma manager_reaches : exists ps, reachable (@role toy_crypto) ∅ (started, ps).
Proof.
  eexists. unfold reachable. eapply rtc_l; [apply (step_start _ ∅ [] (@manager_main toy_crypto id 1)), role_manager|].
  unfold manager_main. cbn [app]. one_step. one_step.
  rewrite decide_True by (split; vm_compute; done).
  unfold increment_epoch, get_epoch at 1. cbn [mbind prog_mbind prog_bind call]. one_step.
  rewrite decide_True by done. unfold init_epoch, get_epoch at 1. cbn [mbind prog_mbind prog_bind call]. one_step.
  rewrite decide_True by done. cbn [mbind prog_mbind prog_bind call]. one_step.
  apply rtc_refl.
Qed.

(** C33. In every reachable state the EPOCH key is absent or holds a positive
    number with a valid signature: reading the epoch gives -1 or that number
    and never fails, so no node acts on an unsigned epoch. *)
Theorem epoch_always_valid `{CryptoLaws} db ps :
  reachable role ∅ (db, ps) ->
  (db !! L "EPOCH" = None /\ run get_epoch db = Ret (L "-1", db)) \/
  exists z, 1 <= z /\ run get_epoch db = Ret (to_string z, db).
Proof.
  intros Hr. destruct (reachable_ok ∅ (db, ps) store_empty Hr) as [_ _ H3]. cbn [fst] in *.
  destruct (db !! L "EPOCH") as [o|] eqn:E.
  - right. destruct (H3 _ eq_refl) as (v & -> & z & Hz & ->). exists z. split; [done|]. by apply get_epoch_at.
  - left. split; [done|]. unfold get_epoch. run_steps. unfold getCommand. by rewrite E.
Qed.

Lemma epoch_always_valid_witness :
  (started !! L "EPOCH" = None /\ run (@get_epoch toy_crypto) started = Ret (L "-1", started)) \/
  exists z, 1 <= z /\ run (@get_epoch toy_crypto) started = Ret (to_string z, started).
Proof.
  destruct manager_reaches as [ps Hr]. apply (@epoch_always_valid toy_crypto toy_laws started ps Hr).
Defined.
