(* ===== verification/Rounds.v ===== *)
(** * Rounds of the executors

    What one turn of each executor's loop does to a store in which the
    witness tables are well formed, when it runs undisturbed: the stages of
    the pipeline at the level of the keys on Kanban. *)

From Stdlib Require Import String.
From stdpp Require Import fin_maps relations.
From S2P Require Import Prelude Json JsonFacts Codec Tokenizer TokenizerFacts Crypto Witness Kanban Crawler Indexer Shard Reducer Querier Pipeline Executors Manager System.

Import Json Sphinx.

Local Open Scope Z_scope.

(** The keys of shard [i] for epoch [e]. *)
Notation gkey e i := (shard_key "GLOBAL-INDEX-#EPOCH" (to_string e) (to_string i)).
Notation ikey e i := (shard_key "INDEX-#EPOCH" (to_string e) (to_string i)).
Notation tkey e i := (shard_key "ITEMS-#EPOCH" (to_string e) (to_string i)).

Section Mailbox.
Context `{CryptoLaws}.

(** [k] is published for epoch [e] with witness [w]. *)
Definition published (db : redisDb) (e k w : str) : Prop :=
  (exists m, db !! L "witness" = Some (OBJ_HASH m) /\ m !! k = Some w) /\
  (exists s, db !! epoch_key "WITNESS-#EPOCH" e = Some (OBJ_SET s) /\ k ∈ s).

Lemma append_run db e w k : store_ok db -> good w k ->
  exists db', run (o_append_witness e w) db = Ret (tt, db') /\ published db' e k w /\
    forall key, other_key key -> db' !! key = db !! key.
Proof.
  intros [H1 H2 _] Hg. pose proof Hg as (c & Hc & Ew & ->).
  assert (Hs : stage c <> 5) by by destruct Hc.
  assert (Ho : exists m, out c = sha256_string m) by (destruct Hc; by eexists).
  assert (HL : Load w = Ret (witness_record c)) by (rewrite Ew; by apply Load_witness).
  unfold o_append_witness. rewrite HL. run_steps.
  change (at_key (witness_record c) (L "OUT")) with (Str (out c)). rewrite trim_dump_str.
  destruct Ho as [m Ho]. rewrite Ho, escape_hex by apply print_hex_chars. rewrite <- Ho. run_steps.
  assert (exists mm, hsetCommand db (L "witness") (out c) w = Ret (<[L "witness" := OBJ_HASH mm]> db) /\
    mm !! out c = Some w) as (mm & -> & Hm).
  { unfold hsetCommand. destruct (db !! L "witness") as [o|].
    - destruct (H1 o eq_refl) as (mm & -> & _). eexists. split; [done|]. apply lookup_insert_eq.
    - eexists. split; [done|]. apply lookup_singleton_eq. }
  run_steps. set (ek := epoch_key "WITNESS-#EPOCH" e).
  assert (exists s, saddCommand (<[L "witness" := OBJ_HASH mm]> db) ek (out c) =
    Ret (<[ek := OBJ_SET s]> (<[L "witness" := OBJ_HASH mm]> db)) /\ out c ∈ s) as (s & -> & Hs').
  { unfold saddCommand. rewrite lookup_insert_ne by done. destruct (db !! ek) as [o|] eqn:E.
    - destruct (H2 e o E) as (s & -> & _). eexists. split; [done|]. set_solver.
    - eexists. split; [done|]. set_solver. }
  run_steps. eexists. split; [done|]. split.
  - split; [exists mm; by rewrite lookup_insert_ne, lookup_insert_eq|exists s; by rewrite lookup_insert_eq].
  - intros key Hk. rewrite !lookup_insert_ne; [done| |].
    + intros E. by apply (other_not_witness key Hk).
    + intros E. by apply (other_not_epoch_key key e Hk).
Qed.

Lemma put_store_ok db prefix e i v c r : L prefix = c :: r -> b2z c <> 119 -> b2z c <> 87 -> b2z c <> 69 ->
  store_ok db -> store_ok (<[shard_key prefix e i := OBJ_STRING v]> db).
Proof.
  intros E H1 H2 H3 Hdb. apply store_other; [done|by eapply other_shard_key|].
  intros F. by eapply shard_key_not_epoch in F.
Qed.

Lemma buffer_prefix_all cap s : Z.of_nat (length s) <= cap -> buffer_prefix cap s (Z.of_nat (length s)) = Ret s.
Proof.
  intros Hl. unfold buffer_prefix. rewrite decide_True by done. rewrite Nat2Z.id, take_app_le, take_ge by lia. done.
Qed.

Lemma visible_inj cap a b : visible cap a = visible cap b -> Z.of_nat (length a) = Z.of_nat (length b) -> Z.of_nat (length a) < cap -> a = b.
Proof. intros E Hl Ha. unfold visible in E. by rewrite !(proj2 (Z.ltb_lt _ _)) in E by lia. Qed.

(** What the enclaves return is what they have signed. *)
Lemma merged_good order a b blob cap wcap w : Z.of_nat (length blob) < cap ->
  ecall_do_merge order a (Z.of_nat (length a)) b (Z.of_nat (length b)) cap wcap = Ret (visible cap blob, Z.of_nat (length blob), w) ->
  good (create_reducer_witness a b blob) (sha256_string blob).
Proof.
  intros Hc E. apply reducer_good in E as (output & Eo & El & _ & Hg). by rewrite (visible_inj cap blob output).
Qed.

Lemma indexed_good order tail inputs bin blob cap wcap w st : Forall digest_ok inputs -> Digest2Binary inputs = Ret bin ->
  Z.of_nat (length blob) < cap ->
  ecall_build_index order CreateTokenizer tail (mk_indexer [] [] ∅) bin (Z.of_nat (length bin)) cap wcap =
    Ret (visible cap blob, Z.of_nat (length blob), w, st) ->
  good (create_indexer_witness inputs blob) (sha256_string blob).
Proof.
  intros Hok Hb Hc E. unfold ecall_build_index in E. cbn [i_inputs i_digest_tbl i_index_tbl] in E.
  rewrite (Binary2Digest_back inputs bin Hok Hb), bind_ret in E. apply bind_Ret_inv in E as (r & Er & E).
  apply bind_Ret_inv in E as (output & Eo & E). cbv zeta in E. injection E as E1 E2 _ _.
  rewrite (visible_inj cap blob output); [by eapply indexer_good|by rewrite E1|lia|done].
Qed.

End Mailbox.

Section Indexes.
Context `{CryptoLaws} (order : index_table -> list (Z * list Z)).
Hypothesis order_perm : forall m, order m ≡ₚ map_to_list m.

(** ** Reducer *)


Lemma reduce_shard_run stop a b blob1 blob2 db e i :
  store_ok db -> db !! gkey e i = None ->
  db !! gkey (e - 1) i = Some (OBJ_STRING blob1) -> db !! ikey e i = Some (OBJ_STRING blob2) ->
  shard stop a blob1 -> shard stop b blob2 -> 1 + Z.of_nat (length a + length b) <= 2 ^ 31 ->
  Z.of_nat (length blob1) + Z.of_nat (length blob2) < REDUCER_OUTPUT_MAX_LENGTH ->
  exists db' blob, run (reduce_shard order e i) db = Ret (tt, db') /\ shard stop (a ++ b) blob /\
    db' !! gkey e i = Some (OBJ_STRING blob) /\ store_ok db' /\
    Z.of_nat (length blob) <= Z.of_nat (length blob1) + Z.of_nat (length blob2) /\
    published db' (to_string e) (sha256_string blob) (create_reducer_witness blob1 blob2 blob) /\
    forall key, other_key key -> key <> gkey e i -> db' !! key = db !! key.
Proof.
  intros Hdb Hn H1 H2 S1 S2 Hc Hsz.
  destruct (do_merge_shard order order_perm stop a b blob1 blob2 REDUCER_OUTPUT_MAX_LENGTH WITNESS_MAX_LENGTH S1 S2 Hc)
    as (blob & Hs & Hl & E); [unfold REDUCER_OUTPUT_MAX_LENGTH in *; lia|].
  assert (Hdb1 : store_ok (<[gkey e i := OBJ_STRING blob]> db)) by by eapply put_store_ok.
  assert (Hcap : Z.of_nat (length blob) < REDUCER_OUTPUT_MAX_LENGTH) by lia.
  destruct (append_run _ (to_string e) _ _ Hdb1 (merged_good order _ _ _ _ _ _ Hcap E)) as (db' & Er & Hp & Ho).
  assert (Hrun : run (reduce_shard order e i) db = Ret (tt, db')).
  { unfold reduce_shard. cbv zeta. rewrite (run_bind_eq _ _ _ false db).
    2:{ rewrite run_check_key, (getCommand_none _ _ Hn), bind_ret. by rewrite bool_decide_eq_false_2 by by intros []. }
    rewrite (run_bind_eq _ _ _ _ _ (run_get_key _ _ _ H1)), (run_bind_eq _ _ _ _ _ (run_get_key _ _ _ H2)).
    rewrite (run_bind_eq _ _ _ _ _ (run_pure_Ret _ _ _ E)).
    rewrite (visible_all REDUCER_OUTPUT_MAX_LENGTH blob) by lia.
    rewrite (run_bind_eq _ _ _ _ _ (run_pure_Ret _ _ _ (buffer_prefix_all REDUCER_OUTPUT_MAX_LENGTH blob ltac:(lia)))).
    rewrite (run_bind_eq _ _ _ _ _ (run_put_key _ _ _)).
    pose proof tag_small as Ht. do 2 apply Forall_cons_iff in Ht as [_ Ht].
    apply Forall_cons_iff in Ht as [[Ht1 Ht2] _].
    rewrite reducer_work, witness_buffer; [|done|done|cbn; lia]. rewrite <- reducer_work. exact Er. }
  exists db', blob. split_and!; try done.
  - rewrite Ho by by eapply other_shard_key. apply lookup_insert_eq.
  - eapply (keeps_run _ []); [exact Hdb|constructor|apply keeps_reduce_shard|exact Hrun].
  - intros key Hk Hne. rewrite Ho by done. by rewrite lookup_insert_ne.
Qed.

Lemma gkey_inj e e' i : gkey e i = gkey e' i -> e = e'.
Proof. unfold shard_key. intros E. apply app_inv_head, app_inv_tail in E. by apply to_string_inj. Qed.

(** Reducing epoch after epoch collects all documents of the shard. *)
Lemma reduce_epochs_run stop i (blobs : list (list document * str)) : forall docs0 blob0 db e,
  store_ok db -> db !! gkey (e - 1) i = Some (OBJ_STRING blob0) -> shard stop docs0 blob0 ->
  (forall t docs blob, blobs !! t = Some (docs, blob) -> shard stop docs blob /\
     db !! ikey (e + Z.of_nat t) i = Some (OBJ_STRING blob) /\ db !! gkey (e + Z.of_nat t) i = None) ->
  1 + Z.of_nat (length docs0 + length (concat (map fst blobs))) <= 2 ^ 31 ->
  Z.of_nat (length blob0) + Z.of_nat (length (concat (map snd blobs))) < REDUCER_OUTPUT_MAX_LENGTH ->
  exists db' blob, run (loop (length blobs) e (fun e => reduce_shard order e i)) db = Ret (tt, db') /\
    shard stop (docs0 ++ concat (map fst blobs)) blob /\
    db' !! gkey (e + Z.of_nat (length blobs) - 1) i = Some (OBJ_STRING blob).
Proof.
  induction blobs as [|[docs1 blob1] blobs IH]; intros docs0 blob0 db e Hdb G0 S0 Hb Hn Hsz.
  { exists db, blob0. cbn [map concat]. rewrite app_nil_r. split_and!; [done|done|].
    by replace (e + Z.of_nat (length (@nil (list document * str))) - 1) with (e - 1) by (cbn; lia). }
  cbn [map concat fst snd length] in *. rewrite length_app in Hn, Hsz.
  destruct (Hb 0%nat docs1 blob1 eq_refl) as (S1 & I1 & G1). rewrite Z.add_0_r in I1, G1.
  destruct (reduce_shard_run stop docs0 docs1 blob0 blob1 db e i) as (db1 & blob & Er & Hs & Hg & Hdb1 & Hl & _ & Ho);
    try done; [lia|lia|].
  destruct (IH (docs0 ++ docs1) blob db1 (e + 1)) as (db' & blob' & Er' & Hs' & Hg'); try done.
  - by replace (e + 1 - 1) with e by lia.
  - intros t docs bl Ht. destruct (Hb (S t) docs bl Ht) as (St & It & Gt).
    replace (e + Z.of_nat (S t)) with (e + 1 + Z.of_nat t) in It, Gt by lia.
    rewrite !Ho; [done|by eapply other_shard_key| |by eapply other_shard_key|done].
    intros E. apply gkey_inj in E. lia.
  - rewrite length_app. lia.
  - lia.
  - exists db', blob'. split_and!.
    + cbn [loop]. rewrite (run_bind_eq _ _ _ _ _ Er). exact Er'.
    + by rewrite <- app_assoc in Hs'.
    + rewrite <- Hg'. f_equal. f_equal. f_equal. f_equal. lia.
Qed.

(** ** Indexer *)


(** The values of consecutive item keys. *)
Fixpoint items_at (db : redisDb) (e j : Z) (vs : list str) : Prop :=
  match vs with
  | [] => True
  | v :: vs => db !! tkey e j = Some (OBJ_STRING v) /\ items_at db e (j + 1) vs
  end.

Lemma get_items_run db e vs : forall j, items_at db e j vs ->
  run (get_items (length vs) (to_string e) j) db = Ret (map c_str vs, db).
Proof.
  induction vs as [|v vs IH]; intros j Hv; [done|]. destruct Hv as [H1 Hv]. cbn [length get_items].
  unfold o_get_key. run_steps. rewrite (getCommand_str _ _ _ H1). run_steps. rewrite run_bind, (IH _ Hv). done.
Qed.

Lemma clean_texts l : Forall digest_ok l -> map c_str l = l.
Proof. induction 1 as [|s l [Hs _] _ IH]; [done|]. cbn. by rewrite c_str_no_nul, IH. Qed.

Lemma index_shard_run tail batches ds db e i pos :
  store_ok db -> db !! ikey e i = None -> length batches = Z.to_nat INDEX_BULK_MAX ->
  items_at db (e - 1) pos (map post_text batches) -> epoch_ok batches ds ->
  docs_size ds < INDEX_OUTPUT_MAX_LENGTH ->
  exists db' blob, run (index_shard order tail e i pos) db = Ret (pos + INDEX_BULK_MAX, db') /\
    shard (stop_ids tail) ds blob /\ db' !! ikey e i = Some (OBJ_STRING blob) /\
    published db' (to_string e) (sha256_string blob) (create_indexer_witness (map post_text batches) blob) /\
    (e = 2 -> db' !! gkey e i = Some (OBJ_STRING blob)).
Proof.
  intros Hdb Hn Hl Hit [B1 B2 [bin Hb] B4 B5 B6] Hsz.
  pose proof (abstract_docs_split _ _ _ B5) as (_ & _ & El).
  destruct (ecall_build_index_shard order order_perm tail (map post_text batches) bin
    (map json_escape (concat batches)) ds INDEX_OUTPUT_MAX_LENGTH WITNESS_MAX_LENGTH) as (blob & Hs & Hlen & E);
    auto using escaped_posts_no_nul; [by apply input_docs_posts|by rewrite <- El|unfold INDEX_OUTPUT_MAX_LENGTH in *; lia|].
  assert (Hdb1 : store_ok (<[ikey e i := OBJ_STRING blob]> db)) by by eapply put_store_ok.
  assert (Hcap : Z.of_nat (length blob) < INDEX_OUTPUT_MAX_LENGTH) by lia.
  destruct (append_run _ (to_string e) _ _ Hdb1 (indexed_good order _ _ _ _ _ _ _ _ B2 Hb Hcap E)) as (db1 & Er & Hp & Ho).
  assert (Hi : db1 !! ikey e i = Some (OBJ_STRING blob)).
  { rewrite Ho by by eapply other_shard_key. apply lookup_insert_eq. }
  set (db2 := if e =? 2 then <[gkey e i := OBJ_STRING blob]> db1 else db1).
  exists db2, blob. split_and!; [|done| | |].
  - unfold index_shard, o_check_key. run_steps. rewrite (getCommand_none _ _ Hn). run_steps.
    rewrite bool_decide_eq_false_2 by by intros []. cbn iota. rewrite run_bind, <- Hl, <- (length_map post_text).
    rewrite (get_items_run _ _ _ _ Hit), clean_texts by done. run_steps. rewrite Hb. run_steps. rewrite E. run_steps.
    rewrite (visible_all INDEX_OUTPUT_MAX_LENGTH blob) by lia. rewrite buffer_prefix_all by lia. run_steps.
    pose proof tag_small as Ht. apply Forall_cons_iff in Ht as [_ Ht]. apply Forall_cons_iff in Ht as [[Ht1 Ht2] _].
    rewrite indexer_work, witness_buffer; [|done|done|rewrite length_map, Hl; vm_compute; lia]. rewrite <- indexer_work.
    unfold o_put_key. run_steps. rewrite run_bind. unfold setCommand. rewrite Er. run_steps. unfold db2. by destruct (e =? 2).
  - unfold db2. destruct (e =? 2); [|done]. by rewrite lookup_insert_ne.
  - unfold db2. destruct (e =? 2); [|done]. destruct Hp as [(m & Hm) (s & Hs')].
    split; [exists m|exists s]; by rewrite lookup_insert_ne.
  - intros ->. unfold db2. cbn. apply lookup_insert_eq.
Qed.

End Indexes.

Section Ends.
Context `{CryptoLaws}.

(** ** Querier *)

Lemma sharding_max_run db z : db !! L "SHARDING-MAX" = Some (OBJ_STRING (to_string z)) -> is_i32 z ->
  run get_sharding_max db = Ret (z, db).
Proof.
  intros Hm Hz. unfold get_sharding_max. run_steps. rewrite (getCommand_str _ _ _ Hm). run_steps.
  by rewrite stoi_to_string.
Qed.

Lemma sharding_counter_run db cnt : counter_value db (L "SHARD_COUNTER") = Ret cnt -> 0 <= cnt < 2 ^ 31 - 1 ->
  run get_sharding_counter db =
    Ret (cnt + 1, <[L "SHARD_COUNTER" := OBJ_STRING (to_string (cnt + 1))]> db).
Proof.
  intros Hc Hcnt. unfold get_sharding_counter. run_steps. unfold incrCommand. rewrite Hc. run_steps.
  rewrite decide_False by lia. run_steps. rewrite i32_small by (unfold is_i32; lia). done.
Qed.

(** The partition a querier picks by the counter, and what it does with it when its
    enclave loads the index. *)
Lemma setup_with_run {A} (st st' : A) ecall blob db addr port e cnt :
  at_epoch db e -> 3 <= e -> is_i32 e ->
  db !! L "SHARDING-MAX" = Some (OBJ_STRING (to_string INDEX_POOL_MAX)) ->
  counter_value db (L "SHARD_COUNTER") = Ret cnt -> 0 <= cnt < 2 ^ 31 - 1 ->
  let id := (cnt + 1) mod INDEX_POOL_MAX + 1 in
  db !! gkey (e - 1) id = Some (OBJ_STRING blob) -> ecall blob = Ret st' ->
  match db !! shard_key "NODE-#EPOCH" (to_string e) (to_string id) with
  | None | Some (OBJ_LIST _) => True
  | _ => False
  end ->
  exists db', run (setup_with st ecall addr port) db = Ret (st', db') /\
    1 <= id <= INDEX_POOL_MAX /\
    exists nodes, db' !! shard_key "NODE-#EPOCH" (to_string e) (to_string id) =
      Some (OBJ_LIST (nodes ++ [dump 1 (self_addr_info addr port)])).
Proof.
  intros He H3 Hi Hm Hc Hcnt id Hb Est Hn.
  assert (Hid : 1 <= id <= INDEX_POOL_MAX).
  { pose proof (Z.mod_pos_bound (cnt + 1) INDEX_POOL_MAX ltac:(vm_compute; done)). unfold id. lia. }
  set (db1 := <[L "SHARD_COUNTER" := OBJ_STRING (to_string (cnt + 1))]> db).
  assert (Hn1 : exists nodes, rpushCommand db1 (shard_key "NODE-#EPOCH" (to_string e) (to_string id))
      (dump 1 (self_addr_info addr port)) =
    Ret (<[shard_key "NODE-#EPOCH" (to_string e) (to_string id) :=
      OBJ_LIST (nodes ++ [dump 1 (self_addr_info addr port)])]> db1)).
  { unfold rpushCommand. unfold db1 at 1. rewrite lookup_insert_ne by done.
    destruct (db !! shard_key "NODE-#EPOCH" _ _) as [[]|]; try done; [by eexists|by exists []]. }
  destruct Hn1 as [nodes Hn1]. eexists. split; [|split; [done|]].
  - unfold setup_with. rewrite (run_bind_eq _ _ _ _ _ (get_epoch_int_at _ _ He Hi)).
    rewrite (proj2 (Z.ltb_ge _ _)) by lia.
    rewrite (run_bind_eq _ _ _ _ _ (sharding_max_run _ _ Hm ltac:(unfold is_i32; vm_compute; done))).
    rewrite (run_bind_eq _ _ _ _ _ (sharding_counter_run _ _ Hc Hcnt)).
    rewrite (run_bind_eq _ _ _ id db1).
    2:{ apply run_pure_Ret. unfold partition_of. rewrite decide_False by done. f_equal. unfold id.
        rewrite Z.rem_mod_nonneg; [done|lia|vm_compute; done]. }
    rewrite (run_bind_eq _ _ _ blob db1).
    2:{ apply run_get_key. unfold db1. by rewrite lookup_insert_ne. }
    rewrite (run_bind_eq _ _ _ _ _ (run_pure_Ret _ _ _ Est)).
    unfold register_live_querier. run_steps. rewrite Hn1. run_steps. done.
  - exists nodes. apply lookup_insert_eq.
Qed.

(** ** Crawler *)

(** The downloaded items of a batch. *)
Definition batch_items (fetch : Z -> list str) (id i : Z) : list str :=
  map (fun j => get_steemit_item fetch (id + (i - 1) * ITEMS_BULK_MAX + Z.of_nat j)) (seq 1 (Z.to_nat ITEMS_BULK_MAX)).

Lemma crawl_batch_run fetch id i e blocks bin db :
  store_ok db -> db !! tkey e i = None ->
  Forall digest_ok (batch_items fetch id i) -> Digest2Binary (batch_items fetch id i) = Ret bin ->
  mapMO Load (batch_items fetch id i) = Ret blocks -> no_nul (post_text (found_posts blocks)) ->
  Z.of_nat (length (post_text (found_posts blocks))) < OUTPUT_MAX_LENGTH ->
  exists db', run (crawl_batch fetch (to_string e) id i) db = Ret (tt, db') /\
    db' !! tkey e i = Some (OBJ_STRING (post_text (found_posts blocks))) /\
    published db' (to_string e) (sha256_string (post_text (found_posts blocks)))
      (create_cralwer_witness (batch_items fetch id i) (post_text (found_posts blocks))).
Proof.
  intros Hdb Hn Hok Hb Hl Hnul Hsz. set (items := batch_items fetch id i) in *.
  destruct (parse_items_posts items blocks Hl) as (p & ps & Ef & Ep); [done|].
  rewrite Ef in *. set (output := post_text (p :: ps)) in *.
  assert (E : ecall_parse_items [] bin (Z.of_nat (length bin)) OUTPUT_MAX_LENGTH WITNESS_MAX_LENGTH =
    Ret (visible OUTPUT_MAX_LENGTH output, visible WITNESS_MAX_LENGTH (create_cralwer_witness items output), [])).
  { unfold ecall_parse_items. rewrite (Binary2Digest_back items bin Hok Hb), bind_ret. by rewrite Ep, bind_ret. }
  assert (Hdb1 : store_ok (<[tkey e i := OBJ_STRING output]> db)) by by eapply put_store_ok.
  destruct (append_run _ (to_string e) _ _ Hdb1 (crawler_good items output Ep)) as (db' & Er & Hp & Ho).
  exists db'. split; [|split; [|done]].
  - unfold crawl_batch. cbv zeta. rewrite (run_bind_eq _ _ _ false db).
    2:{ rewrite run_check_key, (getCommand_none _ _ Hn), bind_ret. by rewrite bool_decide_eq_false_2 by by intros []. }
    fold (batch_items fetch id i). fold items. rewrite (run_bind_eq _ _ _ _ _ (run_pure_Ret _ _ _ Hb)).
    rewrite (run_bind_eq _ _ _ _ _ (run_pure_Ret _ _ _ E)).
    rewrite (visible_all OUTPUT_MAX_LENGTH output), (c_str_no_nul output) by done.
    rewrite (run_bind_eq _ _ _ _ _ (run_put_key _ _ _)).
    pose proof tag_small as Ht. apply Forall_cons_iff in Ht as [[Ht1 Ht2] _].
    rewrite crawler_work, witness_buffer; [|done|done|unfold items, batch_items; rewrite length_map, length_seq; done].
    rewrite <- crawler_work. exact Er.
  - rewrite Ho by by eapply other_shard_key. apply lookup_insert_eq.
Qed.

End Ends.

(** ** Properties *)


(** A crawler's turn on a batch no one has done puts the posts of exactly
    the 64 blocks of the batch under the batch's key and publishes a witness
    over those blocks and that output. *)
Lemma crawl_batch_publishes `{CryptoLaws} fetch id i e blocks bin db :
  store_ok db -> db !! tkey e i = None ->
  Forall digest_ok (batch_items fetch id i) -> Digest2Binary (batch_items fetch id i) = Ret bin ->
  mapMO Load (batch_items fetch id i) = Ret blocks -> no_nul (post_text (found_posts blocks)) ->
  Z.of_nat (length (post_text (found_posts blocks))) < OUTPUT_MAX_LENGTH ->
  exists db', run (crawl_batch fetch (to_string e) id i) db = Ret (tt, db') /\
    db' !! tkey e i = Some (OBJ_STRING (post_text (found_posts blocks))) /\
    published db' (to_string e) (sha256_string (post_text (found_posts blocks)))
      (create_cralwer_witness (batch_items fetch id i) (post_text (found_posts blocks))).
Proof. apply crawl_batch_run. Qed.

(** An indexer's turn on a shard no one has done indexes four consecutive
    batches of the epoch before into a well-formed shard, publishes a witness
    over exactly those batches, advances by four batches, and in epoch 2 also
    starts the global index with it. *)
Lemma index_shard_publishes `{CryptoLaws} (order : index_table -> list (Z * list Z)) tail batches ds db e i pos :
  (forall m, order m ≡ₚ map_to_list m) ->
  store_ok db -> db !! ikey e i = None -> length batches = Z.to_nat INDEX_BULK_MAX ->
  items_at db (e - 1) pos (map post_text batches) -> epoch_ok batches ds ->
  docs_size ds < INDEX_OUTPUT_MAX_LENGTH ->
  exists db' blob, run (index_shard order tail e i pos) db = Ret (pos + INDEX_BULK_MAX, db') /\
    shard (stop_ids tail) ds blob /\ db' !! ikey e i = Some (OBJ_STRING blob) /\
    published db' (to_string e) (sha256_string blob) (create_indexer_witness (map post_text batches) blob) /\
    (e = 2 -> db' !! gkey e i = Some (OBJ_STRING blob)).
Proof. intros Ho. by apply index_shard_run. Qed.

(** Four batches of one post each. *)
Definition sample_texts : list str := [L "Birds fly"; L "Old birds"; L "Fuel prices"; L "No news"].

Definition sample_items : redisDb :=
  <[tkey 1 1 := OBJ_STRING (post_text [L "Birds fly"])]> (<[tkey 1 2 := OBJ_STRING (post_text [L "Old birds"])]>
    (<[tkey 1 3 := OBJ_STRING (post_text [L "Fuel prices"])]> (<[tkey 1 4 := OBJ_STRING (post_text [L "No news"])]> ∅))).

Lemma sample_items_ok : @store_ok toy_crypto sample_items.
Proof. unfold sample_items. repeat (eapply put_store_ok; [reflexivity|done|done|done|]). apply store_empty. Qed.

(** When the index of a shard exists already, the indexer skips it without
    advancing in the items, so the next shard is built from the items of the
    skipped one. *)
Lemma index_shard_skips `{Crypto} order tail e n i pos v db :
  db !! ikey e i = Some (OBJ_STRING v) ->
  run (index_shards order tail e (S n) i pos) db = run (index_shards order tail e n (i + 1) pos) db.
Proof.
  intros Hi. cbn [index_shards]. apply run_bind_eq. unfold index_shard. cbv zeta.
  rewrite (run_bind_eq _ _ _ true db); [done|].
  rewrite run_check_key, (getCommand_str _ _ _ Hi), bind_ret. rewrite bool_decide_eq_true_2; [done|by eexists].
Qed.

(** C36. Reducing a shard epoch after epoch accumulates, as long as the blobs of
    the first global index and of the indexes of all the epochs together are
    shorter than the 256 megabytes of the reducer's output buffer, and there are
    fewer than 2^31 documents: the global index of the last epoch holds the
    documents of the first global index followed by those of every epoch's
    index, in order. *)
Theorem global_index_accumulates `{CryptoLaws} (order : index_table -> list (Z * list Z))
    stop i (blobs : list (list document * str)) docs0 blob0 db e :
  (forall m, order m ≡ₚ map_to_list m) ->
  store_ok db -> db !! gkey (e - 1) i = Some (OBJ_STRING blob0) -> shard stop docs0 blob0 ->
  (forall t docs blob, blobs !! t = Some (docs, blob) -> shard stop docs blob /\
     db !! ikey (e + Z.of_nat t) i = Some (OBJ_STRING blob) /\ db !! gkey (e + Z.of_nat t) i = None) ->
  1 + Z.of_nat (length docs0 + length (concat (map fst blobs))) <= 2 ^ 31 ->
  Z.of_nat (length blob0) + Z.of_nat (length (concat (map snd blobs))) < REDUCER_OUTPUT_MAX_LENGTH ->
  exists db' blob, run (loop (length blobs) e (fun e => reduce_shard order e i)) db = Ret (tt, db') /\
    shard stop (docs0 ++ concat (map fst blobs)) blob /\
    db' !! gkey (e + Z.of_nat (length blobs) - 1) i = Some (OBJ_STRING blob).
Proof. intros Ho. by apply reduce_epochs_run. Qed.

(** A shard of one document and, for the next epoch, one more. *)
Definition sample_global : redisDb :=
  <[gkey 2 1 := OBJ_STRING (sample_blob "rust" 7)]> (<[ikey 3 1 := OBJ_STRING (sample_blob "C" 7)]> ∅).

Lemma global_index_accumulates_witness : exists db' blob,
  run (loop 1 3 (fun e => @reduce_shard toy_crypto map_to_list e 1)) sample_global = Ret (tt, db') /\
  shard [] ([sample_doc "rust" 7] ++ concat (map fst [([sample_doc "C" 7], sample_blob "C" 7)])) blob /\
  db' !! gkey (3 + Z.of_nat 1 - 1) 1 = Some (OBJ_STRING blob).
Proof.
  apply (@global_index_accumulates toy_crypto toy_laws map_to_list [] 1 [([sample_doc "C" 7], sample_blob "C" 7)]
    [sample_doc "rust" 7] (sample_blob "rust" 7) sample_global 3).
  - done.
  - unfold sample_global. repeat (eapply put_store_ok; [reflexivity|done|done|done|]). apply store_empty.
  - apply lookup_insert_eq.
  - apply sample_shard; [by apply digest_ok_check|done|by vm_compute].
  - intros [|[|t]] docs blob Ht; [|done..]. cbn in Ht. injection Ht as <- <-. unfold sample_global. split_and!.
    + apply sample_shard; [by apply digest_ok_check|done|by vm_compute].
    + by rewrite lookup_insert_ne, lookup_insert_eq.
    + by rewrite !lookup_insert_ne.
  - vm_compute. done.
  - vm_compute. done.
Defined.

(** A querier that sets up in epoch [e] picks the next of the shards in
    turn, loads the global index of the epoch before, serves exactly its
    documents from then on, and registers its address for that shard. *)
Lemma querier_setup_serves `{CryptoLaws} stop docs blob db st addr port e cnt :
  at_epoch db e -> 3 <= e -> is_i32 e ->
  db !! L "SHARDING-MAX" = Some (OBJ_STRING (to_string INDEX_POOL_MAX)) ->
  counter_value db (L "SHARD_COUNTER") = Ret cnt -> 0 <= cnt < 2 ^ 31 - 1 ->
  let id := (cnt + 1) mod INDEX_POOL_MAX + 1 in
  db !! gkey (e - 1) id = Some (OBJ_STRING blob) -> shard stop docs blob ->
  match db !! shard_key "NODE-#EPOCH" (to_string e) (to_string id) with
  | None | Some (OBJ_LIST _) => True
  | _ => False
  end ->
  exists db' st', run (querier_setup st addr port) db = Ret (st', db') /\ serves stop docs blob st' /\
    1 <= id <= INDEX_POOL_MAX /\
    exists nodes, db' !! shard_key "NODE-#EPOCH" (to_string e) (to_string id) =
      Some (OBJ_LIST (nodes ++ [dump 1 (self_addr_info addr port)])).
Proof.
  intros He H3 Hi Hm Hc Hcnt id Hb Hs Hn. destruct (setup_serves stop docs blob st Hs) as (st' & Est & Hsv).
  destruct (setup_with_run st st' (fun b => ecall_querier_setup st b (Z.of_nat (length b))) blob db addr port e cnt He H3 Hi Hm Hc Hcnt Hb Est Hn) as (db' & Hr & Hid & Hl).
  exists db', st'. split; [exact Hr|]. split; [exact Hsv|]. split; [exact Hid|exact Hl].
Qed.

Definition sample_serving : redisDb :=
  <[L "EPOCH" := OBJ_STRING (@epoch_packet toy_crypto (to_string 3))]>
    (<[L "SHARDING-MAX" := OBJ_STRING (to_string INDEX_POOL_MAX)]> {[ gkey 2 2 := OBJ_STRING (sample_blob "rust" 7) ]}).

(** ** A crawler at work *)

(** A program that runs to its end undisturbed does so among the others, too. *)
Lemma run_reaches role {A} (p : prog A) (f : A -> prog unit) ps : forall db a db',
  run p db = Ret (a, db') -> rtc (step role) (db, ps ++ [p ≫= f]) (db', ps ++ [f a]).
Proof.
  induction p as [a|e| |c k IH]; intros db a' db' Hr; cbn [run] in Hr; try done.
  - injection Hr as <- <-. apply rtc_refl.
  - apply bind_Ret_inv in Hr as ([r db1] & He & Hr). eapply rtc_l; [|by apply (IH r)].
    assert (Hi : <[length ps := k r ≫= f]> (ps ++ [PCmd c k ≫= f]) = ps ++ [k r ≫= f]).
    { rewrite insert_app_r_alt, Nat.sub_diag by lia. done. }
    rewrite <- Hi. apply (step_cmd role db _ (length ps) c (fun r => k r ≫= f) r db1); [|exact He]. by rewrite lookup_app_r, Nat.sub_diag by lia.
Qed.

(** One block with a post among empty ones. *)
Definition sample_fetch (id : Z) : list str := if id =? START_STEEM_BLOCK_ID + 1 then [dump 1 sample_block] else [L "{}"].

Definition sample_batch : list str := Eval vm_compute in batch_items sample_fetch START_STEEM_BLOCK_ID 1.

Lemma sample_batch_eq : batch_items sample_fetch START_STEEM_BLOCK_ID 1 = sample_batch.
Proof. vm_compute. reflexivity. Qed.

Lemma sample_batch_ok : Forall digest_ok sample_batch.
Proof. repeat (constructor; [apply digest_ok_check; vm_compute; reflexivity|]). constructor. Qed.

Lemma sample_batch_blocks : mapMO Load sample_batch = Ret (sample_block :: replicate 63 (Object [])).
Proof. vm_compute. reflexivity. Qed.

Lemma sample_batch_posts : @found_posts toy_crypto (sample_block :: replicate 63 (Object [])) = [L "News  all well"].
Proof. vm_compute. reflexivity. Qed.

Lemma started_at : @at_epoch toy_crypto started 1.
Proof. unfold at_epoch, started. change (to_string 1) with (L "1"). apply lookup_insert_eq. Qed.

Lemma started_i32 : is_i32 1.
Proof. unfold is_i32. lia. Qed.

Lemma started_block_i32 : is_i32 START_STEEM_BLOCK_ID.
Proof. unfold is_i32, START_STEEM_BLOCK_ID. lia. Qed.

Lemma started_block : run (call (GET (L "Steemit-Block-ID"))) started = Ret (Some (to_string START_STEEM_BLOCK_ID), started).
Proof.
  rewrite run_call. cbn [exec]. rewrite (getCommand_str _ _ (to_string START_STEEM_BLOCK_ID)); [done|].
  unfold started. rewrite lookup_insert_ne by discriminate. apply lookup_insert_eq.
Qed.

Lemma crawler_reaches : exists db ps, reachable (@role toy_crypto) ∅ (db, ps) /\
  @published db (to_string 1) (@sha256_string toy_crypto (post_text [L "News  all well"]))
    (@create_cralwer_witness toy_crypto sample_batch (post_text [L "News  all well"])).
Proof.
  destruct manager_reaches as [ps Hm].
  assert (Hdb : @store_ok toy_crypto started) by exact (@reachable_ok toy_crypto toy_laws ∅ (started, ps) store_empty Hm).
  destruct (Digest2Binary sample_batch) as [bin| | |] eqn:Eb; [|by vm_compute in Eb..].
  destruct (@crawl_batch_run toy_crypto toy_laws sample_fetch START_STEEM_BLOCK_ID 1 1 (sample_block :: replicate 63 (Object [])) bin started Hdb)
    as (db' & Hr & _ & Hp); rewrite ?sample_batch_eq, ?sample_batch_posts in *;
    [reflexivity|exact sample_batch_ok|exact Eb|exact sample_batch_blocks|by repeat constructor|vm_compute; reflexivity|].
  eexists db', _. split; [|exact Hp]. unfold reachable in *. etrans; [exact Hm|].
  eapply rtc_l; [apply (step_start _ _ _ (@do_crawl toy_crypto sample_fetch)), role_crawler|]. unfold do_crawl.
  etrans; [apply (run_reaches _ (@get_epoch_int toy_crypto) _ _ _ _ _ (@get_epoch_int_at toy_crypto toy_laws started 1 started_at started_i32))|].
  cbn [Z.eqb Pos.eqb].
  etrans; [apply (run_reaches _ (call (GET (L "Steemit-Block-ID"))) _ _ _ _ _ started_block)|].
  cbn [deref pure mbind prog_mbind prog_bind]. rewrite stoi_to_string by exact started_block_i32. cbn [pure mbind prog_mbind prog_bind].
  change (Z.to_nat ITEMS_POOL_MAX) with 16%nat. cbn [loop].
  etrans; [apply (run_reaches _ (@crawl_batch toy_crypto sample_fetch (to_string 1) START_STEEM_BLOCK_ID 1) _ _ _ _ _ Hr)|].
  apply rtc_refl.
Qed.


