(* ===== verification/Auditor.v ===== *)
(** * The auditor

    src/client/local_auditor.cpp: given the inputs named by a querier's
    witness, walk the witnesses on Kanban back to crawled items and compare
    with the items all sealed epochs have crawled.

    Parameters: [sort], the library's sort (see Manager); [iter], the order in
    which a hash table of witnesses is iterated over; [fuel], a bound for the
    turns of the walk, which has none of its own. *)

From Stdlib Require Import String.
From stdpp Require Import fin_maps relations.
From S2P Require Import Prelude Json JsonFacts Codec Tokenizer Crypto Witness Kanban Crawler Indexer Querier Executors Manager System.

Import Json.

Local Open Scope Z_scope.

(** The statics of the file. *)
Record verify_state := mk_verify { verify_cache : list str; verify_epoch : Z }.

(** The names in the "IN" field of a record. *)
Definition in_list (j : JSON) : list str := map ToString (ArrayRange (at_key j (L "IN"))).

(** [s.find(sub) != npos]. *)
Fixpoint contains (sub s : str) : bool :=
  bool_decide (take (length sub) s = sub) || match s with [] => false | _ :: s => contains sub s end.

Section Auditor.
Context `{Crypto} (sort : list str -> list str) (iter : gmap str str -> list (str * str)).

(** Step 1.  A witness that fails the check is erased from the table the loop
    iterates over, and the loop goes on from the erased entry. *)
Definition check_all (kb_witness : gmap str str) : outcome unit :=
  foldM (fun _ w => b ← check_witness (snd w); if (b : bool) then Ret tt else Undef) (iter kb_witness) tt.

(** Step 2.  The top of the stack is the last element of [scratch_pad]. *)
Fixpoint traverse (fuel : nat) (kb_witness : gmap str str) (stack : list str) (leaves_set : gset str)
  : outcome (gset str) :=
  match fuel with
  | O => NoFuel
  | S fuel =>
    match stack with
    | [] => Ret leaves_set
    | top :: stack =>
      match kb_witness !! top with
      | None => traverse fuel kb_witness stack ({[ top ]} ∪ leaves_set)
      | Some parent =>
        j ← Load parent;
        traverse fuel kb_witness (rev (in_list j) ++ stack) leaves_set
      end
    end
  end.

(** Step 3: the keys of the epochs from [e] on whose root hash is right. *)
Fixpoint sealed_keys (n : nat) (e : Z) : prog (gset str) :=
  match n with
  | O => PRet ∅
  | S n =>
    ok ← check_root_hash sort e;
    keys ← (if (ok : bool) then call (SMEMBERS (epoch_key "WITNESS-#EPOCH" (to_string e))) else PRet ∅);
    rest ← sealed_keys n (e + 1);
    PRet (keys ∪ rest)
  end.

(** Step 4: a key without witness reads as an empty text. *)
Definition add_items (kb_witness : gmap str str) (items_set : gset str) (k : str) : outcome (gset str) :=
  let w := default [] (kb_witness !! k) in
  if contains (sha256_string CRAWLER_TAG) w
  then j ← Load w; Ret (list_to_set (in_list j) ∪ items_set)
  else Ret items_set.

Definition crawled_items (kb_witness : gmap str str) (witness_keys : gset str) : outcome (gset str) :=
  foldM (add_items kb_witness) (elements witness_keys) ∅.

Definition verdict (current_epoch : str) (pass : bool) : str :=
  L "epoch " ++ current_epoch ++
  (if pass then L ": end-to-end witness (completeness + freshness) verification pass"
   else L ": end-to-end witness (completeness + freshness) verification fail").

(** Steps 1 to 5 on the names to verify. *)
Definition audit (fuel : nat) (current_epoch_int : Z) (scratch_pad : list str) : prog bool :=
  kb_witness ← call (HGETALL (L "witness"));
  pure (check_all kb_witness) ;;
  leaves_set ← pure (traverse fuel kb_witness (rev scratch_pad) ∅);
  witness_keys ← sealed_keys (Z.to_nat (current_epoch_int - 2)) 1;
  items_set ← pure (crawled_items kb_witness witness_keys);
  PRet (bool_decide (items_set ∖ leaves_set = ∅)).

(** The result text goes in and comes out. *)
Definition do_local_verify (fuel : nat) (st : verify_state) (needs_to_verify verify_results : str)
  : prog (verify_state * str) :=
  current_epoch ← get_epoch;
  current_epoch_int ← get_epoch_int;
  if current_epoch_int <? 3 then PRet (st, verify_results)
  else
    j ← pure (Load needs_to_verify);
    let scratch_pad := in_list j in
    let cnt_v := length (filter (fun s => s ∈ verify_cache st) scratch_pad) in
    e ← get_epoch_int;
    if decide (e = verify_epoch st /\ verify_cache st <> [] /\ length (verify_cache st) = cnt_v)
    then PRet (st, verdict current_epoch true)
    else
      e ← get_epoch_int;
      let cache := if decide (e = verify_epoch st) then verify_cache st else [] in
      pass ← audit fuel current_epoch_int scratch_pad;
      if (pass : bool) then
        e ← get_epoch_int;
        PRet (mk_verify scratch_pad e, verdict current_epoch true)
      else PRet (mk_verify cache (verify_epoch st), verdict current_epoch false).

End Auditor.

(** * Theorems *)

(** ** The walk *)

(** [y] is named as an input by the record stored under [x]. *)
Definition edge (m : gmap str str) (x y : str) : Prop :=
  exists w j, m !! x = Some w /\ Load w = Ret j /\ y ∈ in_list j.

Definition loads (m : gmap str str) : Prop := forall k w, m !! k = Some w -> exists j, Load w = Ret j.

(** The leaves below [x]. *)
Definition leaf_of (m : gmap str str) (x y : str) : Prop := rtc (edge m) x y /\ m !! y = None.

Lemma leaf_missing m x y : m !! x = None -> leaf_of m x y <-> y = x.
Proof.
  intros Hx. split.
  - intros [Hr _]. destruct Hr as [|x' y' z (w & j & Hw & _)]; congruence.
  - intros ->. by split.
Qed.

Lemma leaf_present m x w j y : m !! x = Some w -> Load w = Ret j ->
  leaf_of m x y <-> exists i, i ∈ in_list j /\ leaf_of m i y.
Proof.
  intros Hw Hj. split.
  - intros [Hr Hy]. inversion Hr as [|x' i z (w' & j' & Hw' & Hj' & Hi) Hr']; subst; [congruence|].
    assert (j' = j) as -> by congruence. exists i. by split.
  - intros (i & Hi & Hr & Hy). split; [|done]. eapply rtc_l; [|exact Hr]. by exists w, j.
Qed.

(** A walk that ends has collected exactly the leaves below its names. *)
Lemma traverse_leaves m fuel : forall stack leaves r, traverse fuel m stack leaves = Ret r ->
  forall y, y ∈ r <-> y ∈ leaves \/ exists x, x ∈ stack /\ leaf_of m x y.
Proof.
  induction fuel as [|fuel IH]; intros stack leaves r Hr y; [done|]. destruct stack as [|top stack]; cbn [traverse] in Hr.
  { apply Ret_inj in Hr as <-. split; [by left|]. intros [?|(x & Hx & _)]; [done|by apply elem_of_nil in Hx]. }
  destruct (m !! top) as [w|] eqn:Hw.
  - apply bind_Ret_inv in Hr as (j & Hj & Hr). rewrite (IH _ _ _ Hr y).
    assert (E : (exists x, x ∈ rev (in_list j) ++ stack /\ leaf_of m x y) <->
                exists x, x ∈ top :: stack /\ leaf_of m x y); [|by rewrite E].
    setoid_rewrite elem_of_app. setoid_rewrite elem_of_cons. setoid_rewrite list_elem_of_In.
    setoid_rewrite <- in_rev. setoid_rewrite <- list_elem_of_In. split.
    + intros (x & [Hx|Hx] & Hl); [|by eauto]. exists top. split; [by left|]. apply (leaf_present m top w j y Hw Hj). eauto.
    + intros (x & [->|Hx] & Hl); [|by eauto]. apply (leaf_present m top w j y Hw Hj) in Hl as (i & Hi & Hl). eauto.
  - rewrite (IH _ _ _ Hr y), elem_of_union, elem_of_singleton. split.
    + intros [[->|?]|(x & Hx & Hl)]; [|by left|].
      * right. exists top. split; [left|]. by apply leaf_missing.
      * right. exists x. split; [by right|done].
    + intros [?|(x & Hx & Hl)]; [by left; right|]. apply elem_of_cons in Hx as [->|Hx].
      * apply leaf_missing in Hl as ->; [|done]. by left; left.
      * right. by exists x.
Qed.

(** *** Termination *)

(** A walk through [l] takes [f] turns and leaves the rest of the stack. *)
Definition walks (m : gmap str str) (l : list str) : Prop :=
  exists f, forall leaves, exists leaves', forall stack k,
    traverse (f + k) m (l ++ stack) leaves = traverse k m stack leaves'.

Lemma walks_list m l : Forall (fun x => walks m [x]) l -> walks m l.
Proof.
  induction 1 as [|x l [f Hx] _ [g Hl]].
  { exists 0%nat. intros leaves. by exists leaves. }
  exists (f + g)%nat. intros leaves. destruct (Hx leaves) as [leaves1 H1]. destruct (Hl leaves1) as [leaves2 H2].
  exists leaves2. intros stack k. rewrite <- Nat.add_assoc. etrans; [apply (H1 (l ++ stack) (g + k)%nat)|apply H2].
Qed.

Lemma walks_rank m (rank : str -> nat) : loads m -> (forall x y, edge m x y -> (rank y < rank x)%nat) ->
  forall n x, (rank x < n)%nat -> walks m [x].
Proof.
  intros Hm Hr. induction n as [|n IH]; intros x Hx; [lia|]. destruct (m !! x) as [w|] eqn:Hw.
  - destruct (Hm x w Hw) as [j Hj]. destruct (walks_list m (rev (in_list j))) as [f Hf].
    { apply Forall_forall. intros i Hi. apply IH. apply list_elem_of_In, in_rev, list_elem_of_In in Hi.
      assert (rank i < rank x)%nat; [|lia]. apply Hr. by exists w, j. }
    exists (S f). intros leaves. destruct (Hf leaves) as [leaves' E]. exists leaves'. intros stack k.
    cbn [Nat.add app traverse]. rewrite Hw, Hj, bind_ret. apply E.
  - exists 1%nat. intros leaves. exists ({[ x ]} ∪ leaves). intros stack k. cbn [Nat.add app traverse]. by rewrite Hw.
Qed.

Lemma traverse_ends m (rank : str -> nat) stack leaves :
  loads m -> (forall x y, edge m x y -> (rank y < rank x)%nat) ->
  exists f, forall fuel, (f <= fuel)%nat -> exists r, traverse fuel m stack leaves = Ret r.
Proof.
  intros Hm Hr. destruct (walks_list m stack) as [f Hf].
  { apply Forall_true. intros x. apply (walks_rank m rank Hm Hr (S (rank x))). lia. }
  destruct (Hf leaves) as [leaves' E]. exists (f + 1)%nat. intros fuel Hfuel. exists leaves'.
  specialize (E [] (fuel - f)%nat). rewrite app_nil_r in E. replace (f + (fuel - f))%nat with fuel in E by lia.
  rewrite E. destruct (fuel - f)%nat eqn:Ek; [lia|done].
Qed.

(** A walk that ends has followed every path to its end. *)
Lemma traverse_paths m fuel : forall stack leaves r, traverse fuel m stack leaves = Ret r ->
  forall x n y, x ∈ stack -> nsteps (edge m) n x y -> (n < fuel)%nat.
Proof.
  induction fuel as [|fuel IH]; intros stack leaves r Hr x n y Hx Hp; [done|].
  destruct stack as [|top stack]; cbn [traverse] in Hr; [by apply elem_of_nil in Hx|].
  destruct (m !! top) as [w|] eqn:Hw.
  - apply bind_Ret_inv in Hr as (j & Hj & Hr). apply elem_of_cons in Hx as [->|Hx].
    + inversion Hp as [|n' x' i z (w' & j' & Hw' & Hj' & Hi) Hp']; subst; [lia|].
      assert (j' = j) as -> by congruence.
      assert (n' < fuel)%nat; [|lia]. eapply (IH _ _ _ Hr i); [|exact Hp'].
      apply elem_of_app. left. by apply list_elem_of_In, in_rev; rewrite rev_involutive; apply list_elem_of_In.
    + assert (n < fuel)%nat; [|lia]. eapply (IH _ _ _ Hr x); [|exact Hp]. apply elem_of_app. by right.
  - apply elem_of_cons in Hx as [->|Hx].
    + inversion Hp as [|n' x' i z (w' & j' & Hw' & _) Hp']; subst; [lia|congruence].
    + assert (n < fuel)%nat; [|lia]. by eapply (IH _ _ _ Hr x).
Qed.

Lemma cycle_paths {A} (R : A -> A -> Prop) x : tc R x x -> forall n, exists y, nsteps R n x y.
Proof.
  intros Hc n. apply tc_nsteps in Hc as (c & Hc0 & Hc).
  assert (Hn : nsteps R (n * c) x x).
  { induction n as [|n IH]; [constructor|]. cbn. by eapply nsteps_trans. }
  replace (n * c)%nat with (n + (n * c - n))%nat in Hn by nia.
  apply nsteps_add_inv in Hn as (y & Hy & _). by exists y.
Qed.

Lemma traverse_cycle m fuel stack leaves r x y : traverse fuel m stack leaves = Ret r ->
  x ∈ stack -> rtc (edge m) x y -> ~ tc (edge m) y y.
Proof.
  intros Hr Hx Hxy Hc. apply rtc_nsteps in Hxy as [k Hk].
  destruct (cycle_paths (edge m) y Hc fuel) as [z Hz].
  pose proof (traverse_paths m fuel stack leaves r Hr x (k + fuel) z Hx) as Hlt.
  assert (k + fuel < fuel)%nat; [|lia]. apply Hlt. by eapply nsteps_trans.
Qed.

(** A walk over records that can be read ends or runs out of fuel. *)
Lemma traverse_outcome m fuel : (forall k w, m !! k = Some w -> exists j, Load w = Ret j) -> forall stack leaves,
  (exists r, traverse fuel m stack leaves = Ret r) \/ traverse fuel m stack leaves = NoFuel.
Proof.
  intros Hm. induction fuel as [|fuel IH]; intros stack leaves; [by right|]. destruct stack as [|top stack]; cbn [traverse]; [left; by eexists|].
  destruct (m !! top) as [w|] eqn:Hw; [|apply IH]. destruct (Hm _ _ Hw) as [j ->]. rewrite bind_ret. apply IH.
Qed.

Lemma checked_load `{Crypto} (m : gmap str str) : (forall k w, m !! k = Some w -> check_witness w = Ret true) ->
  forall k w, m !! k = Some w -> exists j, Load w = Ret j.
Proof. intros Hm k w Hw. specialize (Hm k w Hw). unfold check_witness in Hm. apply bind_Ret_inv in Hm as (j & Hj & _). by exists j. Qed.

(** ** The other steps *)

(** Programs that only read. *)
Definition reads (c : cmd) : Prop :=
  match c with
  | GET _ | SMEMBERS _ | HGETALL _ | LRANGE _ _ _ | AWAIT_GET _ | AWAIT_SMEMBERS _ _ => True
  | _ => False
  end.

Fixpoint readonly {A} (p : prog A) : Prop :=
  match p with
  | PCmd c k => reads c /\ forall r, readonly (k r)
  | _ => True
  end.

Lemma readonly_bind {A B} (p : prog A) (f : A -> prog B) :
  readonly p -> (forall a, readonly (f a)) -> readonly (p ≫= f).
Proof.
  intros Hp Hf. induction p as [a|e| |c k IH]; [by apply Hf|exact I|exact I|].
  destruct Hp as [Hc Hk]. split; [done|]. intros r. by apply IH.
Qed.

Lemma readonly_pure {A} (m : outcome A) : readonly (pure m).
Proof. by destruct m. Qed.

Lemma readonly_run {A} (p : prog A) : forall db a db', readonly p -> run p db = Ret (a, db') -> db' = db.
Proof.
  induction p as [a|e| |c k IH]; intros db a' db' Hp Hr; cbn [run] in Hr; try done.
  - by apply Ret_inj in Hr as [= _ <-].
  - apply bind_Ret_inv in Hr as ([r db1] & He & Hr). destruct Hp as [Hc Hk].
    assert (db1 = db) as ->.
    { destruct c; try done; cbn [exec] in He; apply bind_Ret_inv in He as (r0 & _ & He); repeat case_match; try done;
        by apply Ret_inj in He as [= _ <-]. }
    by eapply IH.
Qed.

Section Reading.
Context `{Crypto} (sort : list str -> list str).

Lemma readonly_root e : readonly (check_root_hash sort e).
Proof.
  unfold check_root_hash. apply readonly_bind; [done|]. intros s. apply readonly_bind; [apply readonly_pure|]. intros r.
  apply readonly_bind; [done|]. intros o. apply readonly_bind; [apply readonly_pure|done].
Qed.

(** Binds of a program that only reads happen in one store. *)
Lemma readonly_bind_inv {A B} (p : prog A) (f : A -> prog B) db b db' : readonly p ->
  run (p ≫= f) db = Ret (b, db') -> exists a, run p db = Ret (a, db) /\ run (f a) db = Ret (b, db').
Proof.
  intros Hp Hr. rewrite run_bind in Hr. apply bind_Ret_inv in Hr as ([a db1] & Ha & Hr).
  pose proof (readonly_run p db a db1 Hp Ha) as ->. by exists a.
Qed.

Lemma pure_run_inv {A} (m : outcome A) db a db' : run (pure m) db = Ret (a, db') -> m = Ret a.
Proof. destruct m; cbn; try done. by intros [= -> _]. Qed.

Lemma sealed_keys_inv n : forall e db s db', run (sealed_keys sort n e) db = Ret (s, db') ->
  db' = db /\ forall e' t, e <= e' < e + Z.of_nat n -> run (check_root_hash sort e') db = Ret (true, db) ->
    db !! epoch_key "WITNESS-#EPOCH" (to_string e') = Some (OBJ_SET t) -> t ⊆ s.
Proof.
  induction n as [|n IH]; intros e db s db' Hr; cbn [sealed_keys] in Hr.
  { apply Ret_inj in Hr as [= <- <-]. split; [done|]. lia. }
  apply readonly_bind_inv in Hr as (ok & Hok & Hr); [|apply readonly_root].
  apply readonly_bind_inv in Hr as (keys & Hk & Hr); [|by destruct ok].
  rewrite run_bind in Hr. apply bind_Ret_inv in Hr as ([rest db1] & Hrest & Hr). apply IH in Hrest as [-> Hrest].
  apply Ret_inj in Hr as [= <- <-]. split; [done|]. intros e' t He' Hc Ht. destruct (decide (e' = e)) as [->|N].
  - assert (ok = true) as -> by congruence. cbn [run call exec] in Hk.
    rewrite (smembersCommand_set _ _ _ Ht) in Hk. cbn in Hk. apply Ret_inj in Hk as [= <-]. set_solver.
  - apply (union_subseteq_r' keys), (Hrest e' t); [lia|done|done].
Qed.

Lemma smembers_run_inv key db keys db' : run (call (SMEMBERS key)) db = Ret (keys, db') ->
  forall k, k ∈ keys <-> exists t, db !! key = Some (OBJ_SET t) /\ k ∈ t.
Proof.
  intros Hkeys k. cbn [run call exec] in Hkeys. apply bind_Ret_inv in Hkeys as ([keys' db2] & Hkeys & E).
  apply Ret_inj in E as [= <- _]. apply bind_Ret_inv in Hkeys as (t & Ht & [= -> _]%Ret_inj).
  unfold smembersCommand, sinterGenericCommand in Ht. cbn [mapMO] in Ht. unfold lookup_set in Ht.
  destruct (db !! _) as [[| t' | |]|]; try done; cbn in Ht; apply Ret_inj in Ht as <-; [|set_solver].
  split; [by exists t'|]. by intros (t & [= ->] & Hk).
Qed.

(** Sealed keys are registered keys. *)
Lemma sealed_keys_registered n : forall e db s db' k, run (sealed_keys sort n e) db = Ret (s, db') -> k ∈ s ->
  exists e' t, db !! epoch_key "WITNESS-#EPOCH" e' = Some (OBJ_SET t) /\ k ∈ t.
Proof.
  induction n as [|n IH]; intros e db s db' k Hr Hk; cbn [sealed_keys] in Hr.
  { apply Ret_inj in Hr as [= <- _]. set_solver. }
  apply readonly_bind_inv in Hr as (ok & Hok & Hr); [|apply readonly_root].
  apply readonly_bind_inv in Hr as (keys & Hkeys & Hr); [|by destruct ok].
  rewrite run_bind in Hr. apply bind_Ret_inv in Hr as ([rest db1] & Hrest & Hr).
  apply Ret_inj in Hr as [= <- _]. cbn [fst] in Hk. apply elem_of_union in Hk as [Hk|Hk]; [|by eapply IH].
  destruct ok; [|apply Ret_inj in Hkeys as [= <-]; set_solver].
  apply (smembers_run_inv _ _ _ _ Hkeys) in Hk as (t & Ht & Hk). by exists (to_string e), t.
Qed.

(** Sealed keys are read off without fail when every root hash is there. *)
Lemma sealed_keys_run n : forall e db,
  (forall e', e <= e' < e + Z.of_nat n -> exists b, run (check_root_hash sort e') db = Ret (b, db)) ->
  exists s, run (sealed_keys sort n e) db = Ret (s, db) /\
    forall k, k ∈ s <-> exists e' t, e <= e' < e + Z.of_nat n /\ run (check_root_hash sort e') db = Ret (true, db) /\
      db !! epoch_key "WITNESS-#EPOCH" (to_string e') = Some (OBJ_SET t) /\ k ∈ t.
Proof.
  induction n as [|n IH]; intros e db Hall; cbn [sealed_keys].
  { exists ∅. split; [done|]. intros k. split; [set_solver|]. intros (e' & t & He & _). lia. }
  destruct (Hall e ltac:(lia)) as [b Hb]. destruct (IH (e + 1) db) as (s & Hs & Hk).
  { intros e' He'. apply Hall. lia. }
  assert (Hm : exists keys, run (if b then call (SMEMBERS (epoch_key "WITNESS-#EPOCH" (to_string e))) else PRet ∅) db
      = Ret (keys, db) /\ forall k, k ∈ keys <-> b = true /\ exists t,
        db !! epoch_key "WITNESS-#EPOCH" (to_string e) = Some (OBJ_SET t) /\ k ∈ t).
  { destruct b; [|exists ∅; split; [done|]; set_solver].
    unfold check_root_hash in Hb. apply readonly_bind_inv in Hb as (keys & Hkeys & _); [|done]. exists keys.
    split; [done|]. intros k. rewrite (smembers_run_inv _ _ _ _ Hkeys). naive_solver. }
  destruct Hm as (keys & Hm & Hkeys). exists (keys ∪ s).
  rewrite (run_bind_eq _ _ _ _ _ Hb), (run_bind_eq _ _ _ _ _ Hm), (run_bind_eq _ _ _ _ _ Hs). split; [done|].
  intros k. rewrite elem_of_union, Hkeys, Hk. split.
  - intros [(-> & t & Ht & Hin)|(e' & t & He' & Hr & Ht & Hin)]; [exists e, t|exists e', t]; split_and!; by try lia.
  - intros (e' & t & He' & Hr & Ht & Hin). destruct (decide (e' = e)) as [->|N].
    + left. split; [congruence|]. by exists t.
    + right. exists e', t. split_and!; by try lia.
Qed.

End Reading.

Lemma not_diff_in (X Y : gset str) i : X ∖ Y = ∅ -> i ∈ X -> i ∈ Y.
Proof.
  intros E Hx. destruct (decide (i ∈ Y)) as [|Hy]; [done|]. exfalso. apply (not_elem_of_empty (C := gset str) i).
  rewrite <- E. by apply elem_of_difference.
Qed.

Section Steps.
Context `{Crypto} (sort : list str -> list str) (iter : gmap str str -> list (str * str)).
Hypothesis iter_perm : forall m, iter m ≡ₚ map_to_list m.

Lemma check_all_inv m : check_all iter m = Ret tt -> forall k w, m !! k = Some w -> check_witness w = Ret true.
Proof.
  unfold check_all. intros Hr k w Hw.
  assert (Hin : (k, w) ∈ iter m) by (rewrite iter_perm; by apply elem_of_map_to_list).
  revert Hr Hin. generalize (iter m). induction l as [|[k' w'] l IH]; intros Hr Hin; [by apply elem_of_nil in Hin|].
  cbn [foldM snd] in Hr. apply bind_Ret_inv in Hr as ([] & Hc & Hr).
  apply bind_Ret_inv in Hc as ([|] & Hc & Hb); [|done].
  apply elem_of_cons in Hin as [[= -> ->]|Hin]; [done|by apply IH].
Qed.

Lemma check_all_ok m : (forall k w, m !! k = Some w -> check_witness w = Ret true) -> check_all iter m = Ret tt.
Proof.
  unfold check_all. intros Hm.
  assert (Hall : Forall (fun kw => check_witness (snd kw) = Ret true) (iter m)).
  { apply Forall_forall. intros [k w] Hin. rewrite iter_perm in Hin. by apply elem_of_map_to_list, Hm in Hin. }
  induction Hall as [|kw l Hc _ IH]; [done|]. cbn [foldM]. by rewrite Hc.
Qed.

(** [i] is an input of the crawler witness stored under [k]. *)
Definition crawled_by (m : gmap str str) (k i : str) : Prop :=
  exists w j, m !! k = Some w /\ contains (sha256_string CRAWLER_TAG) w = true /\ Load w = Ret j /\ i ∈ in_list j.

Lemma add_items_run `{!CryptoLaws} m acc k : loads m -> exists items, add_items m acc k = Ret items /\
  forall i, i ∈ items <-> i ∈ acc \/ crawled_by m k i.
Proof.
  intros Hm. unfold add_items, crawled_by. destruct (m !! k) as [w|] eqn:Hw; cbn [default from_option id].
  - destruct (contains _ w) eqn:Hc.
    2:{ exists acc. split; [done|]. intros i. split; [by left|]. intros [?|(w' & j & [= <-] & Hw' & _)]; [done|congruence]. }
    destruct (Hm k w Hw) as [j Hj].
    rewrite Hj, bind_ret. eexists. split; [done|]. intros i. rewrite elem_of_union, elem_of_list_to_set. split.
    + intros [?|?]; [right; by exists w, j|by left].
    + intros [?|(w' & j' & [= <-] & _ & Hj' & Hi)]; [by right|]. left. by replace j with j' by congruence.
  - assert (Hl := proj2 (sha256_hex CRAWLER_TAG)). destruct (sha256_string CRAWLER_TAG); [done|].
    exists acc. split; [done|]. intros i. split; [by left|]. by intros [?|(w' & j & [=] & _)].
Qed.

Lemma fold_items_run `{!CryptoLaws} m l : forall acc, loads m -> exists items, foldM (add_items m) l acc = Ret items /\
  forall i, i ∈ items <-> i ∈ acc \/ Exists (fun k => crawled_by m k i) l.
Proof.
  induction l as [|k l IH]; intros acc Hm.
  { exists acc. split; [done|]. intros i. rewrite Exists_nil. tauto. }
  cbn [foldM]. destruct (add_items_run m acc k Hm) as (acc' & Ha & Hacc).
  destruct (IH acc' Hm) as (items & Hi & Hitems). exists items.
  rewrite Ha, bind_ret. split; [done|]. intros i. rewrite Hitems, Hacc, Exists_cons. tauto.
Qed.

(** The crawled items of the keys are exactly the inputs of their crawler witnesses. *)
Lemma crawled_items_run `{!CryptoLaws} m keys : loads m -> exists items, crawled_items m keys = Ret items /\
  forall i, i ∈ items <-> exists k, k ∈ keys /\ crawled_by m k i.
Proof.
  intros Hm. destruct (fold_items_run m (elements keys) ∅ Hm) as (items & Hi & Hitems). exists items. split; [done|].
  intros i. rewrite Hitems, Exists_exists. setoid_rewrite elem_of_elements.
  split; [|by right]. intros [Hx|?]; [by apply elem_of_empty in Hx|done].
Qed.

Lemma check_witness_loads m : (forall k w, m !! k = Some w -> check_witness w = Ret true) -> loads m.
Proof. intros Hm k w Hw. apply Hm in Hw. by apply bind_Ret_inv in Hw as (j & Hj & _); exists j. Qed.

(** ** The audit *)

Lemma audit_inv fuel z pad db b db' : run (audit sort iter fuel z pad) db = Ret (b, db') ->
  exists m leaves keys items, hgetallCommand db (L "witness") = Ret m /\
    check_all iter m = Ret tt /\ traverse fuel m (rev pad) ∅ = Ret leaves /\
    run (sealed_keys sort (Z.to_nat (z - 2)) 1) db = Ret (keys, db) /\
    crawled_items m keys = Ret items /\ b = bool_decide (items ∖ leaves = ∅).
Proof.
  intros Hr. unfold audit in Hr. apply readonly_bind_inv in Hr as (m & Hm & Hr); [|done].
  apply readonly_bind_inv in Hr as ([] & Hc & Hr); [|apply readonly_pure].
  apply readonly_bind_inv in Hr as (leaves & Hl & Hr); [|apply readonly_pure].
  rewrite run_bind in Hr. apply bind_Ret_inv in Hr as ([keys db1] & Hk & Hr).
  pose proof (sealed_keys_inv _ _ _ _ _ _ Hk) as [-> _]. cbn [fst snd] in Hr.
  apply readonly_bind_inv in Hr as (items & Hi & Hr); [|apply readonly_pure].
  apply Ret_inj in Hr as [= <- _]. apply pure_run_inv in Hc, Hl, Hi.
  exists m, leaves, keys, items. split_and!; try done.
  cbn [run call exec] in Hm. apply bind_Ret_inv in Hm as ([m' db2] & Hm & E). apply Ret_inj in E as [= <- _].
  by apply bind_Ret_inv in Hm as (m'' & Hm & [= <- _]%Ret_inj).
Qed.

(** [i] is an input of a crawler witness registered for an epoch up to two
    before [z] whose root hash is right. *)
Definition sealed_item (db : redisDb) (z : Z) (m : gmap str str) (i : str) : Prop :=
  exists e s k, 1 <= e <= z - 2 /\ run (check_root_hash sort e) db = Ret (true, db) /\
    db !! epoch_key "WITNESS-#EPOCH" (to_string e) = Some (OBJ_SET s) /\ k ∈ s /\ crawled_by m k i.

(** What a passed audit says. *)
Lemma audit_covers `{!CryptoLaws} fuel z pad db db' m : run (audit sort iter fuel z pad) db = Ret (true, db') ->
  db !! L "witness" = Some (OBJ_HASH m) ->
  (forall k w, m !! k = Some w -> check_witness w = Ret true) /\
  forall i, sealed_item db z m i -> exists x, x ∈ pad /\ leaf_of m x i.
Proof.
  intros Hr Hm. apply audit_inv in Hr as (m' & leaves & keys & items & Hm' & Hc & Hl & Hk & Hi & Hb).
  unfold hgetallCommand in Hm'. rewrite Hm in Hm'. apply Ret_inj in Hm' as <-.
  assert (Hall := check_all_inv m Hc). split; [done|]. intros i (e & s & k & He & Hroot & Hs & Hks & Hin).
  apply sealed_keys_inv in Hk as [_ Hk]. specialize (Hk e s ltac:(lia) Hroot Hs).
  destruct (crawled_items_run m keys (check_witness_loads m Hall)) as (items' & Hi' & Hspec).
  assert (items' = items) as -> by congruence. assert (Hii : i ∈ items) by (apply Hspec; exists k; split; [by apply Hk|done]).
  symmetry in Hb. apply bool_decide_eq_true in Hb.
  assert (Hil : i ∈ leaves) by by apply (not_diff_in items).
  apply (traverse_leaves _ _ _ _ _ Hl) in Hil as [Hil|(x & Hx & Hlf)]; [by apply elem_of_empty in Hil|].
  exists x. split; [|done]. apply list_elem_of_In, in_rev. by apply list_elem_of_In.
Qed.

(** On checked, acyclic witnesses the audit ends and decides completeness. *)
Lemma audit_decides `{!CryptoLaws} z pad db m (rank : str -> nat) :
  db !! L "witness" = Some (OBJ_HASH m) ->
  (forall k w, m !! k = Some w -> check_witness w = Ret true) -> (forall x y, edge m x y -> (rank y < rank x)%nat) ->
  (forall e, 1 <= e <= z - 2 -> exists b, run (check_root_hash sort e) db = Ret (b, db)) ->
  exists f, forall fuel, (f <= fuel)%nat -> exists b, run (audit sort iter fuel z pad) db = Ret (b, db) /\
    (b = true <-> forall i, sealed_item db z m i -> exists x, x ∈ pad /\ leaf_of m x i).
Proof.
  intros Hw Hm Hrank Hroot. pose proof (check_witness_loads m Hm) as Hl.
  destruct (traverse_ends m rank (rev pad) ∅ Hl Hrank) as [f Hf]. exists f. intros fuel Hle.
  destruct (Hf fuel Hle) as [leaves Ht].
  destruct (sealed_keys_run sort (Z.to_nat (z - 2)) 1 db) as (keys & Hk & Hkeys).
  { intros e He. apply Hroot. lia. }
  destruct (crawled_items_run m keys Hl) as (items & Hi & Hitems).
  exists (bool_decide (items ∖ leaves = ∅)). split.
  - unfold audit. rewrite (run_bind_eq _ _ _ m db).
    2:{ cbn [run call exec]. unfold hgetallCommand. by rewrite Hw. }
    rewrite (run_bind_eq _ _ _ _ _ (run_pure_Ret _ _ _ (check_all_ok m Hm))), (run_bind_eq _ _ _ _ _ (run_pure_Ret _ _ _ Ht)).
    by rewrite (run_bind_eq _ _ _ _ _ Hk), (run_bind_eq _ _ _ _ _ (run_pure_Ret _ _ _ Hi)).
  - rewrite bool_decide_eq_true. pose proof (traverse_leaves _ _ _ _ _ Ht) as Hlv.
    setoid_rewrite list_elem_of_In in Hlv. setoid_rewrite <- in_rev in Hlv. setoid_rewrite <- list_elem_of_In in Hlv. split.
    + intros E i (e & s & k & He & Hr & Hs & Hks & Hin). assert (Hii : i ∈ items).
      { apply Hitems. exists k. split; [|done]. apply Hkeys. exists e, s. split_and!; try done; lia. }
      assert (Hil : i ∈ leaves) by by apply (not_diff_in items).
      apply Hlv in Hil as [Hil|?]; [by apply elem_of_empty in Hil|done].
    + intros Hall. apply elem_of_equiv_empty_L. intros i [Hii Hil]%elem_of_difference. apply Hil, Hlv. right.
      apply Hitems in Hii as (k & Hkk & Hin). apply Hkeys in Hkk as (e & s & He & Hr & Hs & Hks).
      apply Hall. exists e, s, k. split_and!; by try lia.
Qed.

End Steps.

Section Swap.
Context `{Crypto} (sort : list str -> list str).

(** ** Substituted keys *)

Lemma edge_other m h w x y : m !! h = None -> x <> h -> edge (<[h := w]> m) x y <-> edge m x y.
Proof. intros Hh Hx. unfold edge. by rewrite lookup_insert_ne. Qed.

(** A name that no record mentions does not disturb a walk from others. *)
Lemma traverse_fresh m h w fuel : m !! h = None -> (forall x, ~ edge m x h) ->
  forall stack leaves, h ∉ stack -> traverse fuel (<[h := w]> m) stack leaves = traverse fuel m stack leaves.
Proof.
  intros Hh He. induction fuel as [|fuel IH]; intros stack leaves Hs; [done|].
  destruct stack as [|top stack]; [done|]. apply not_elem_of_cons in Hs as [Ht Hs]. cbn [traverse].
  rewrite lookup_insert_ne by done. destruct (m !! top) as [v|] eqn:Hv; [|by apply IH].
  destruct (Load v) as [j| | |] eqn:Hj; try done. rewrite !bind_ret. apply IH.
  apply not_elem_of_app. split; [|done]. intros Hin. apply (He top). exists v, j. split_and!; [done|done|].
  apply list_elem_of_In, in_rev in Hin. by apply list_elem_of_In.
Qed.

Lemma traverse_swap m h k w fuel : m !! h = None -> (forall x, ~ edge m x h) -> m !! k = Some w ->
  traverse fuel (<[h := w]> m) [h] ∅ = traverse fuel m [k] ∅.
Proof.
  intros Hh He Hk. destruct fuel as [|fuel]; [done|]. cbn [traverse]. rewrite lookup_insert_eq, Hk.
  destruct (Load w) as [j| | |] eqn:Hj; try done. rewrite !bind_ret, !app_nil_r. apply traverse_fresh; [done|done|].
  intros Hin. apply (He k). exists w, j. split_and!; [done|done|].
  apply list_elem_of_In, in_rev in Hin. by apply list_elem_of_In.
Qed.

(** A key that a program does not touch does not matter to it. *)
Definition touches (key : str) (c : cmd) : Prop :=
  match c with
  | GET k | SMEMBERS k | HGETALL k | LRANGE k _ _ | AWAIT_GET k | AWAIT_SMEMBERS k _ => k = key
  | _ => True
  end.

Fixpoint avoids {A} (key : str) (p : prog A) : Prop :=
  match p with
  | PCmd c k => ~ touches key c /\ forall r, avoids key (k r)
  | _ => True
  end.

Lemma avoids_bind {A B} key (p : prog A) (f : A -> prog B) :
  avoids key p -> (forall a, avoids key (f a)) -> avoids key (p ≫= f).
Proof.
  intros Hp Hf. induction p as [a|e| |c k IH]; [by apply Hf|exact I|exact I|].
  destruct Hp as [Hc Hk]. split; [done|]. intros r. by apply IH.
Qed.

Lemma avoids_run {A} key o (p : prog A) : forall db a db', avoids key p -> run p db = Ret (a, db') ->
  run p (<[key := o]> db) = Ret (a, <[key := o]> db').
Proof.
  induction p as [a|e| |c k IH]; intros db a' db' Hp Hr; cbn [run] in *; try done.
  - by apply Ret_inj in Hr as [= -> ->].
  - apply bind_Ret_inv in Hr as ([r db1] & He & Hr). destruct Hp as [Hc Hk].
    assert (E : exec c (<[key := o]> db) = Ret (r, <[key := o]> db1)).
    { assert (Hl : forall k, k <> key -> (<[key := o]> db : redisDb) !! k = db !! k) by (intros; by rewrite lookup_insert_ne).
      destruct c; cbn [touches] in Hc; try (by destruct Hc); cbn [exec] in *;
        unfold getCommand, smembersCommand, sinterGenericCommand, hgetallCommand, lrangeCommand in *; cbn [mapMO] in *;
        unfold lookup_set in *; rewrite (Hl _ Hc); apply bind_Ret_inv in He as (r0 & E0 & He); rewrite E0, bind_ret;
        repeat case_match; try done; by apply Ret_inj in He as [= -> ->]. }
    rewrite E, bind_ret. by apply IH.
Qed.

Lemma avoids_sealed n : forall e, avoids (L "witness") (sealed_keys sort n e).
Proof.
  induction n as [|n IH]; intros e; [exact I|]. cbn [sealed_keys].
  assert (Hp : forall A (m : outcome A), avoids (L "witness") (pure m)) by by intros A [].
  apply avoids_bind.
  { unfold check_root_hash. apply avoids_bind; [by split|]. intros s. apply avoids_bind; [apply Hp|]. intros r.
    apply avoids_bind; [by split|]. intros o. by apply avoids_bind; [apply Hp|]. }
  intros [|]; (apply avoids_bind; [by try split|]; intros keys; apply avoids_bind; [apply IH|done]).
Qed.

Lemma crawled_items_fresh m h w keys : h ∉ keys -> crawled_items (<[h := w]> m) keys = crawled_items m keys.
Proof.
  intros Hh. unfold crawled_items. assert (Hl : h ∉ elements keys) by by rewrite elem_of_elements.
  revert Hl. generalize (∅ : gset str). induction (elements keys) as [|k l IH]; intros acc Hl; [done|].
  apply not_elem_of_cons in Hl as [Hk Hl]. cbn [foldM].
  assert (E : add_items (<[h := w]> m) acc k = add_items m acc k) by (unfold add_items; by rewrite lookup_insert_ne).
  rewrite E. destruct (add_items m acc k) as [acc'| | |]; try done. rewrite !bind_ret. by apply IH.
Qed.

End Swap.

(** ** The whole verification *)

Section Verify.
Context `{CryptoLaws} (sort : list str -> list str) (iter : gmap str str -> list (str * str)).
Hypothesis iter_perm : forall m, iter m ≡ₚ map_to_list m.

Lemma audit_same_store fuel z pad db b db' : run (audit sort iter fuel z pad) db = Ret (b, db') -> db' = db.
Proof.
  apply readonly_run. unfold audit. apply readonly_bind; [done|]. intros m.
  apply readonly_bind; [apply readonly_pure|]. intros _. apply readonly_bind; [apply readonly_pure|]. intros leaves.
  apply readonly_bind; [|intros keys; apply readonly_bind; [apply readonly_pure|done]].
  generalize 1 as e. induction (Z.to_nat (z - 2)) as [|n IH]; intros e; [exact I|]. cbn [sealed_keys].
  apply readonly_bind; [apply readonly_root|]. intros ok. apply readonly_bind; [by destruct ok|]. intros keys.
  apply readonly_bind; [apply IH|done].
Qed.

(** The verdict for names [pad] in epoch [z] is taken from the cache. *)
Definition cached (st : verify_state) (z : Z) (pad : list str) : Prop :=
  verify_epoch st = z /\ verify_cache st <> [] /\ length (verify_cache st) = length (filter (fun s => s ∈ verify_cache st) pad).

Lemma verify_cached fuel st needs results j db z :
  at_epoch db z -> is_i32 z -> 3 <= z -> cached st z (in_list j) -> Load needs = Ret j ->
  run (do_local_verify sort iter fuel st needs results) db = Ret (st, verdict (to_string z) true, db).
Proof.
  intros Hz Hi H3 (E & Hne & Hl) Hj. unfold do_local_verify.
  rewrite (run_bind_eq _ _ _ _ _ (get_epoch_at _ _ Hz)), (run_bind_eq _ _ _ _ _ (get_epoch_int_at _ _ Hz Hi)).
  rewrite (proj2 (Z.ltb_ge _ _)) by lia. rewrite (run_bind_eq _ _ _ _ _ (run_pure_Ret _ _ _ Hj)). cbv zeta.
  by rewrite (run_bind_eq _ _ _ _ _ (get_epoch_int_at _ _ Hz Hi)), decide_True.
Qed.

Lemma verify_uncached fuel st needs results j db z :
  at_epoch db z -> is_i32 z -> 3 <= z -> ~ cached st z (in_list j) -> Load needs = Ret j ->
  run (do_local_verify sort iter fuel st needs results) db =
    (r ← run (audit sort iter fuel z (in_list j)) db;
     Ret (if (fst r : bool) then mk_verify (in_list j) z
          else mk_verify (if decide (z = verify_epoch st) then verify_cache st else []) (verify_epoch st),
          verdict (to_string z) (fst r), snd r)).
Proof.
  intros Hz Hi H3 Hne Hj. unfold do_local_verify.
  rewrite (run_bind_eq _ _ _ _ _ (get_epoch_at _ _ Hz)), (run_bind_eq _ _ _ _ _ (get_epoch_int_at _ _ Hz Hi)).
  rewrite (proj2 (Z.ltb_ge _ _)) by lia. rewrite (run_bind_eq _ _ _ _ _ (run_pure_Ret _ _ _ Hj)). cbv zeta.
  rewrite (run_bind_eq _ _ _ _ _ (get_epoch_int_at _ _ Hz Hi)), decide_False by (intros (E & E1 & E2); by apply Hne).
  rewrite (run_bind_eq _ _ _ _ _ (get_epoch_int_at _ _ Hz Hi)).
  rewrite run_bind. destruct (run (audit _ _ _ _ _) db) as [[b db']| | |] eqn:E; try done. rewrite !bind_ret.
  cbn [fst snd]. apply audit_same_store in E as ->. destruct b; [|done].
  by rewrite (run_bind_eq _ _ _ _ _ (get_epoch_int_at _ _ Hz Hi)).
Qed.

Lemma verify_total st needs results j db z m (rank : str -> nat) :
  at_epoch db z -> is_i32 z -> 3 <= z -> Load needs = Ret j ->
  db !! L "witness" = Some (OBJ_HASH m) ->
  (forall k w, m !! k = Some w -> check_witness w = Ret true) -> (forall x y, edge m x y -> (rank y < rank x)%nat) ->
  (forall e, 1 <= e <= z - 2 -> exists b, run (check_root_hash sort e) db = Ret (b, db)) ->
  exists f, forall fuel, (f <= fuel)%nat -> exists st' b,
    run (do_local_verify sort iter fuel st needs results) db = Ret (st', verdict (to_string z) b, db) /\
    (b = true <-> cached st z (in_list j) \/ forall i, sealed_item sort db z m i -> exists x, x ∈ in_list j /\ leaf_of m x i).
Proof.
  intros Hz Hi H3 Hj Hw Hm Hrank Hroot. assert (Hdec : Decision (cached st z (in_list j))) by apply _. destruct Hdec as [Hc|Hc].
  { exists 0%nat. intros fuel _. exists st, true. split; [by apply (verify_cached fuel st needs results j)|]. split; [by left|done]. }
  destruct (audit_decides sort iter iter_perm z (in_list j) db m rank Hw Hm Hrank Hroot) as [f Hf].
  exists f. intros fuel Hle. destruct (Hf fuel Hle) as (b & Hb & Hiff). eexists _, b. split; [|rewrite Hiff; tauto].
  rewrite (verify_uncached fuel st needs results j db z) by done. by rewrite Hb, bind_ret.
Qed.

Lemma verdict_pass e b : verdict e b = verdict e true -> b = true.
Proof. destruct b; [done|]. unfold verdict. intros E. by apply app_inv_head, app_inv_head in E. Qed.

End Verify.

(** *** A small audited store

    One crawled item, one sealed epoch, and the user's list naming the crawler's output. *)

Definition sample_key : str := @sha256_string toy_crypto (L "posts").
Definition sample_item : str := @sha256_string toy_crypto (L "block").
Definition sample_witness : str := @create_cralwer_witness toy_crypto [L "block"] (L "posts").
Definition sample_table : gmap str str := {[ sample_key := sample_witness ]}.
Definition sample_needs : JSON := Object [(L "IN", Array [Str sample_key])].

Definition sample_sealed : redisDb :=
  <[L "EPOCH" := OBJ_STRING (@epoch_packet toy_crypto (to_string 3))]>
    (<[L "witness" := OBJ_HASH sample_table]>
      (<[epoch_key "WITNESS-#EPOCH" (to_string 1) := OBJ_SET {[ sample_key ]}]>
        {[ epoch_key "ROOT-HASH-#EPOCH" (to_string 1) := OBJ_STRING (@sha256_string toy_crypto sample_key) ]})).

Lemma sample_at : @at_epoch toy_crypto sample_sealed 3.
Proof. apply lookup_insert_eq. Qed.

Lemma sample_witnesses : sample_sealed !! L "witness" = Some (OBJ_HASH sample_table).
Proof. unfold sample_sealed. rewrite lookup_insert_ne by done. apply lookup_insert_eq. Qed.

Lemma sample_lookup k w : sample_table !! k = Some w <-> sample_key = k /\ sample_witness = w.
Proof. apply lookup_singleton_Some. Qed.

Lemma sample_checked k w : sample_table !! k = Some w -> @check_witness toy_crypto w = Ret true.
Proof.
  intros [<- <-]%sample_lookup. unfold sample_witness. rewrite crawler_work.
  by apply (@check_finalize toy_crypto toy_laws).
Qed.

Lemma sample_load : exists j, Load sample_witness = Ret j /\ in_list j = [sample_item].
Proof.
  unfold sample_witness. rewrite crawler_work, Load_witness by done. eexists. split; [done|].
  change (map json_escape (ins (@work toy_crypto (L "STEEMIT CRAWLER") [L "block"] (L "posts") CRAWLER_TAG)) = [sample_item]).
  cbn [ins work map]. by rewrite escape_hex by apply print_hex_chars.
Qed.

Lemma sample_edge x y : edge sample_table x y <-> x = sample_key /\ y = sample_item.
Proof.
  destruct sample_load as (j & Hj & Hin). split.
  - intros (w & j' & [<- <-]%sample_lookup & Hj' & Hy). assert (j' = j) as -> by congruence.
    rewrite Hin in Hy. apply list_elem_of_singleton in Hy. exact (conj eq_refl Hy).
  - intros [-> ->]. exists sample_witness, j. split_and!; [apply sample_lookup; exact (conj eq_refl eq_refl)|exact Hj|]. rewrite Hin. left.
Qed.

Lemma sample_distinct : sample_item <> sample_key.
Proof. intros E. by apply (f_equal (fun s => bool_decide (s = sample_item))) in E; vm_compute in E. Qed.

Lemma sample_leaf : leaf_of sample_table sample_key sample_item.
Proof. split; [apply rtc_once, sample_edge; exact (conj eq_refl eq_refl)|]. apply lookup_singleton_ne, not_eq_sym, sample_distinct. Qed.

Lemma sample_needs_load : Load (dump 1 sample_needs) = Ret sample_needs /\ in_list sample_needs = [sample_key].
Proof.
  split; [|vm_compute; reflexivity]. apply Load_dump_eq; [|exact I].
  split; [by repeat constructor|]. repeat split; by apply plain_key.
Qed.

Lemma sample_root_hash : @root_hash_of toy_crypto id {[ sample_key ]} = Ret (@sha256_string toy_crypto sample_key).
Proof.
  unfold root_hash_of, sort_witness_keys, set_elems. rewrite decide_False.
  - rewrite bind_ret, elements_singleton. change (concat (id (merge_sort str_le [sample_key]))) with (sample_key ++ []).
    by rewrite app_nil_r.
  - intros [_ Hk]. by apply elem_of_singleton in Hk.
Qed.

Lemma sample_root_check e : 1 <= e <= 3 - 2 -> exists b, run (@check_root_hash toy_crypto id e) sample_sealed = Ret (b, sample_sealed).
Proof.
  intros He. assert (e = 1) as -> by lia. eexists.
  apply (@check_root_hash_run toy_crypto toy_laws id sample_sealed 1 {[ sample_key ]} {[ sample_key ]}
    (@sha256_string toy_crypto sample_key) (@sha256_string toy_crypto sample_key)).
  - unfold sample_sealed. rewrite !(lookup_insert_ne _ _ (epoch_key "WITNESS-#EPOCH" (to_string 1))) by done.
    apply lookup_insert_eq.
  - unfold sample_sealed. rewrite !lookup_insert_ne by done. apply lookup_singleton_eq.
  - apply sample_root_hash.
  - apply sample_root_hash.
Qed.

Lemma sample_no_fake : sample_table !! L "fake" = None.
Proof. apply lookup_singleton_ne. intros E. by apply (f_equal length) in E; vm_compute in E. Qed.

Lemma sample_not_fake : L "fake" <> sample_item.
Proof. intros E. by apply (f_equal length) in E; vm_compute in E. Qed.

Lemma sample_fake_key' : L "fake" <> sample_key.
Proof. intros E. by apply (f_equal length) in E; vm_compute in E. Qed.

Lemma sample_fake_key : L "fake" ∉ ({[ sample_key ]} : gset str).
Proof. intros E%elem_of_singleton. exact (sample_fake_key' E). Qed.

Lemma sample_sets x s : sample_sealed !! x = Some (OBJ_SET s) -> s = {[ sample_key ]}.
Proof.
  unfold sample_sealed. intros [[_ ?]|[_ H]]%lookup_insert_Some; [discriminate|].
  apply lookup_insert_Some in H as [[_ ?]|[_ H]]; [discriminate|].
  apply lookup_insert_Some in H as [[_ E]|[_ H]]; [congruence|].
  apply lookup_singleton_Some in H as [_ ?]. discriminate.
Qed.

Lemma sample_crawled k i : @crawled_by toy_crypto sample_table k i -> k = sample_key /\ i = sample_item.
Proof. intros (w & j & Hw & _ & Hj & Hi). apply sample_edge. by exists w, j. Qed.

Lemma sample_covered i : @sealed_item toy_crypto id sample_sealed 3 sample_table i ->
  exists x, x ∈ [sample_key] /\ leaf_of sample_table x i.
Proof.
  intros (e & s & k & _ & _ & _ & _ & [_ ->]%sample_crawled). exists sample_key. split; [left|apply sample_leaf].
Qed.

Definition sample_rank (x : str) : nat := if decide (x = sample_key) then 1 else 0.

Lemma sample_ranked x y : edge sample_table x y -> (sample_rank y < sample_rank x)%nat.
Proof.
  intros [-> ->]%sample_edge. unfold sample_rank.
  rewrite decide_False, decide_True by (exact sample_distinct || reflexivity). lia.
Qed.

Lemma sample_audit : exists fuel, run (@audit toy_crypto id map_to_list fuel 3 [sample_key]) sample_sealed = Ret (true, sample_sealed).
Proof.
  destruct (@audit_decides toy_crypto id map_to_list (fun m => reflexivity _) toy_laws 3 [sample_key] sample_sealed
    sample_table sample_rank sample_witnesses sample_checked sample_ranked sample_root_check) as [f Hf].
  exists f. destruct (Hf f (le_n f)) as (b & Hr & Hb). by rewrite (proj2 Hb sample_covered) in Hr.
Qed.

Lemma sample_verify st : verify_epoch st <> 3 -> exists fuel st', run (@do_local_verify toy_crypto id map_to_list fuel st (dump 1 sample_needs) []) sample_sealed =
  Ret (st', verdict (to_string 3) true, sample_sealed).
Proof.
  intros Hst. destruct sample_audit as [fuel Ha]. destruct sample_needs_load as [Hn Hin]. eexists fuel, _.
  rewrite (@verify_uncached toy_crypto toy_laws id map_to_list fuel st (dump 1 sample_needs) [] sample_needs sample_sealed 3).
  - rewrite Hin, Ha. reflexivity.
  - exact sample_at.
  - unfold is_i32. lia.
  - lia.
  - intros [E _]; by apply Hst.
  - exact Hn.
Qed.

(** ** Properties *)

(** C8. When the auditor (with no cached verdict for the epoch) reports a
    pass, every witness it used is validly signed, and every item that a
    crawler witness of any epoch up to two ago with a matching root hash names
    as an input is a leaf of the witness graph below the names the user
    submitted: no sealed item was left out of the answer's index. *)
Theorem verify_pass_complete `{CryptoLaws} (sort : list str -> list str) (iter : gmap str str -> list (str * str))
    fuel st needs results j db z m st' db' :
  (forall m, iter m ≡ₚ map_to_list m) ->
  at_epoch db z -> is_i32 z -> 3 <= z -> verify_epoch st <> z -> Load needs = Ret j ->
  db !! L "witness" = Some (OBJ_HASH m) ->
  run (do_local_verify sort iter fuel st needs results) db = Ret (st', verdict (to_string z) true, db') ->
  (forall k w, m !! k = Some w -> check_witness w = Ret true) /\
  forall i, sealed_item sort db z m i -> exists x, x ∈ in_list j /\ leaf_of m x i.
Proof.
  intros Hp Hz Hi H3 Hne Hj Hm Hr. rewrite (verify_uncached sort iter fuel st needs results j db z) in Hr by (done || by intros [E _]).
  apply bind_Ret_inv in Hr as ([b db1] & Ha & Hr). cbn [fst snd] in Hr. apply Ret_inj in Hr.
  apply pair_equal_spec in Hr as [Hr ->]. apply pair_equal_spec in Hr as [_ Hv]. apply verdict_pass in Hv as ->.
  by eapply audit_covers.
Qed.

Lemma verify_pass_complete_witness :
  (forall k w, sample_table !! k = Some w -> @check_witness toy_crypto w = Ret true) /\
  forall i, @sealed_item toy_crypto id sample_sealed 3 sample_table i -> exists x, x ∈ [sample_key] /\ leaf_of sample_table x i.
Proof.
  destruct (sample_verify (mk_verify [] 0) ltac:(done)) as (fuel & st' & Hr). destruct sample_needs_load as [Hn Hin].
  rewrite <- Hin.
  apply (@verify_pass_complete toy_crypto toy_laws id map_to_list fuel (mk_verify [] 0) (dump 1 sample_needs) []
    sample_needs sample_sealed 3 sample_table st' sample_sealed).
  - reflexivity.
  - exact sample_at.
  - unfold is_i32. lia.
  - lia.
  - discriminate.
  - exact Hn.
  - exact sample_witnesses.
  - exact Hr.
Defined.

(** C7. When the witnesses on Kanban are validly signed and do not name each
    other in a circle, and every epoch up to two ago has its root hash, the
    verification ends, changes nothing on Kanban, and its verdict is a pass
    exactly in two cases: every item crawled in a sealed epoch is a leaf below
    the names the user submitted, or the verdict is taken from the cache, because
    the last pass was in this epoch and as many of the submitted names are cached
    as the cache has.  (The second does not imply the first: see
    [verify_cache_extends].) *)
Theorem verify_decides `{CryptoLaws} (sort : list str -> list str) (iter : gmap str str -> list (str * str))
    st needs results j db z m (rank : str -> nat) :
  (forall m, iter m ≡ₚ map_to_list m) ->
  at_epoch db z -> is_i32 z -> 3 <= z -> Load needs = Ret j ->
  db !! L "witness" = Some (OBJ_HASH m) ->
  (forall k w, m !! k = Some w -> check_witness w = Ret true) -> (forall x y, edge m x y -> (rank y < rank x)%nat) ->
  (forall e, 1 <= e <= z - 2 -> exists b, run (check_root_hash sort e) db = Ret (b, db)) ->
  exists f, forall fuel, (f <= fuel)%nat -> exists st' b,
    run (do_local_verify sort iter fuel st needs results) db = Ret (st', verdict (to_string z) b, db) /\
    (b = true <-> cached st z (in_list j) \/ forall i, sealed_item sort db z m i -> exists x, x ∈ in_list j /\ leaf_of m x i).
Proof.
  intros Hp Hz Hi H3 Hj Hw Hm Hrank Hroot. by apply (verify_total sort iter Hp st needs results j db z m rank).
Qed.

Lemma verify_decides_witness :
  exists f, forall fuel, (f <= fuel)%nat -> exists st' b,
    run (@do_local_verify toy_crypto id map_to_list fuel (mk_verify [] 0) (dump 1 sample_needs) []) sample_sealed =
      Ret (st', verdict (to_string 3) b, sample_sealed) /\
    (b = true <-> cached (mk_verify [] 0) 3 (in_list sample_needs) \/
      forall i, @sealed_item toy_crypto id sample_sealed 3 sample_table i ->
        exists x, x ∈ in_list sample_needs /\ leaf_of sample_table x i).
Proof.
  destruct sample_needs_load as [Hn Hin].
  apply (@verify_decides toy_crypto toy_laws id map_to_list (mk_verify [] 0) (dump 1 sample_needs) []
    sample_needs sample_sealed 3 sample_table sample_rank).
  - reflexivity.
  - exact sample_at.
  - unfold is_i32. lia.
  - lia.
  - exact Hn.
  - exact sample_witnesses.
  - exact sample_checked.
  - exact sample_ranked.
  - exact sample_root_check.
Defined.

(** C40. From a name below which the witnesses form a cycle the walk never ends.
    When all witnesses are validly signed and two of them name each other's keys,
    directly or through others, and the walk comes to one of them, every witness
    passes the check of the first step and then the walk runs out of any amount
    of fuel: there is no visited set. *)
Theorem traverse_diverges `{Crypto} (iter : gmap str str -> list (str * str)) m stack leaves x y :
  (forall m, iter m ≡ₚ map_to_list m) -> (forall k w, m !! k = Some w -> check_witness w = Ret true) ->
  x ∈ stack -> rtc (edge m) x y -> tc (edge m) y y ->
  check_all iter m = Ret tt /\ forall fuel, traverse fuel m stack leaves = NoFuel.
Proof.
  intros Hp Hm Hx Hxy Hc. split; [by apply check_all_ok|]. intros fuel.
  destruct (traverse_outcome m fuel (checked_load m Hm) stack leaves) as [[r Hr]|E]; [|done].
  by destruct (traverse_cycle m fuel stack leaves r x y Hr Hx Hxy).
Qed.

(** Two signed records that name each other. *)
Definition vicious (own other : string) : str := snd (@witness_finalize toy_crypto (mk_ctx (L "STEEMIT REDUCER") [L other] (L own) (L "f") 4) []).
Definition vicious_table : gmap str str := <[L "a" := vicious "a" "b"]> {[ L "b" := vicious "b" "a" ]}.

Lemma vicious_edge own other : vicious_table !! L own = Some (vicious own other) -> json_escape (L other) = L other ->
  edge vicious_table (L own) (L other).
Proof.
  intros E Ee. eexists (vicious own other), _. split; [exact E|]. split; [by apply Load_witness|].
  unfold in_list. change (L other ∈ [json_escape (L other)]). rewrite Ee. left.
Qed.

Lemma traverse_diverges_witness :
  @check_all toy_crypto map_to_list vicious_table = Ret tt /\ forall fuel, traverse fuel vicious_table [L "a"] ∅ = NoFuel.
Proof.
  apply (@traverse_diverges toy_crypto map_to_list vicious_table [L "a"] ∅ (L "a") (L "a")).
  - reflexivity.
  - intros k w Hk. unfold vicious_table in Hk. apply lookup_insert_Some in Hk as [[_ <-]|[_ Hk]]; [|apply lookup_singleton_Some in Hk as [_ <-]];
      (apply (@check_finalize toy_crypto toy_laws); discriminate).
  - left.
  - apply rtc_refl.
  - apply (tc_l _ _ (L "b")); [|apply tc_once]; (apply vicious_edge; [|reflexivity]).
    + apply lookup_insert_eq.
    + unfold vicious_table. rewrite lookup_insert_ne by discriminate. apply lookup_singleton_eq.
Defined.

(** The auditor checks signatures but never that a record's "OUT" is the
    key it is stored under.  If it passes for key [k], then after anyone
    stores the (genuine) record of [k] once more under any other name [h] that
    no record mentions, it passes for [h] just as well, although no enclave
    ever produced an output with that hash. *)
Lemma audit_key_swap `{Crypto} (sort : list str -> list str) (iter : gmap str str -> list (str * str))
    fuel z k h w m db :
  (forall m, iter m ≡ₚ map_to_list m) ->
  db !! L "witness" = Some (OBJ_HASH m) -> m !! k = Some w -> m !! h = None -> (forall x, ~ edge m x h) ->
  (forall e s, db !! epoch_key "WITNESS-#EPOCH" e = Some (OBJ_SET s) -> h ∉ s) ->
  run (audit sort iter fuel z [k]) db = Ret (true, db) ->
  let db' := <[L "witness" := OBJ_HASH (<[h := w]> m)]> db in
  run (audit sort iter fuel z [h]) db' = Ret (true, db').
Proof.
  intros Hp Hm Hk Hh He Hs Hr db'.
  apply audit_inv in Hr as (m' & leaves & keys & items & Hm' & Hc & Hl & Hsk & Hi & Hb).
  unfold hgetallCommand in Hm'. rewrite Hm in Hm'. apply Ret_inj in Hm' as <-.
  assert (Hhk : h ∉ keys).
  { intros Hin. eapply (sealed_keys_registered sort) in Hsk as (e & t & Ht & Hht); [|exact Hin]. by apply (Hs e t Ht). }
  assert (Hc' : check_all iter (<[h := w]> m) = Ret tt).
  { apply check_all_ok; [done|]. intros k' w'. destruct (decide (k' = h)) as [->|N].
    - rewrite lookup_insert_eq. intros [= <-]. by apply (check_all_inv iter Hp m Hc k).
    - rewrite lookup_insert_ne by done. by apply (check_all_inv iter Hp m Hc). }
  assert (Hsk' : run (sealed_keys sort (Z.to_nat (z - 2)) 1) db' = Ret (keys, db')).
  { apply avoids_run; [apply avoids_sealed|done]. }
  unfold audit. rewrite (run_bind_eq _ _ _ (<[h := w]> m) db').
  2:{ cbn [run call exec]. unfold hgetallCommand, db'. by rewrite lookup_insert_eq. }
  rewrite (run_bind_eq _ _ _ _ _ (run_pure_Ret _ _ _ Hc')).
  rewrite (run_bind_eq _ _ _ leaves db').
  2:{ apply run_pure_Ret. cbn [rev app] in *. by rewrite (traverse_swap m h k w). }
  rewrite (run_bind_eq _ _ _ _ _ Hsk'), (run_bind_eq _ _ _ items db').
  2:{ apply run_pure_Ret. by rewrite crawled_items_fresh. }
  cbn [run]. by rewrite <- Hb.
Qed.

(** The cache of the auditor counts how many of the submitted names it
    knows and compares with its own size, so within an epoch any names may be
    added to a list that has passed: the longer list passes unchecked. *)
Lemma verify_cache_extends `{CryptoLaws} (sort : list str -> list str) (iter : gmap str str -> list (str * str))
    fuel st needs results j extra db z :
  at_epoch db z -> is_i32 z -> 3 <= z -> verify_epoch st = z -> verify_cache st <> [] ->
  Load needs = Ret j -> in_list j = verify_cache st ++ extra -> Forall (fun s => s ∉ verify_cache st) extra ->
  run (do_local_verify sort iter fuel st needs results) db = Ret (st, verdict (to_string z) true, db).
Proof.
  intros Hz Hi H3 He Hc Hj Hin Hx. unfold do_local_verify.
  rewrite (run_bind_eq _ _ _ _ _ (get_epoch_at _ _ Hz)), (run_bind_eq _ _ _ _ _ (get_epoch_int_at _ _ Hz Hi)).
  rewrite (proj2 (Z.ltb_ge _ _)) by lia. rewrite (run_bind_eq _ _ _ _ _ (run_pure_Ret _ _ _ Hj)). cbv zeta.
  rewrite (run_bind_eq _ _ _ _ _ (get_epoch_int_at _ _ Hz Hi)). rewrite decide_True; [done|].
  split_and!; [done|done|]. rewrite Hin, filter_app, length_app.
  rewrite (filter_keeps _ (verify_cache st)) by (apply Forall_forall; auto).
  rewrite (filter_drops _ extra) by done. cbn. lia.
Qed.

Definition sample_longer : JSON := Object [(L "IN", Array [Str sample_key; Str (L "fake")])].

Lemma sample_longer_load : Load (dump 1 sample_longer) = Ret sample_longer /\ in_list sample_longer = [sample_key] ++ [L "fake"].
Proof.
  split; [|vm_compute; reflexivity]. apply Load_dump_eq; [|exact I].
  split; [by repeat constructor|]. repeat split; by apply plain_key.
Qed.

(** A witness that fails the signature check makes the auditor erase the
    table entry its loop stands on and go on from there, which is undefined;
    the check is only well defined when it has nothing to find. *)
Lemma check_all_erases `{Crypto} (iter : gmap str str -> list (str * str)) m k w :
  (forall m, iter m ≡ₚ map_to_list m) ->
  (forall k w, m !! k = Some w -> exists b, check_witness w = Ret b) ->
  m !! k = Some w -> check_witness w = Ret false -> check_all iter m = Undef.
Proof.
  intros Hp Hm Hk Hw. unfold check_all.
  assert (Hin : (k, w) ∈ iter m) by (rewrite Hp; by apply elem_of_map_to_list).
  assert (Hall : Forall (fun kw => exists b, check_witness (snd kw) = Ret b) (iter m)).
  { apply Forall_forall. intros [k' w'] Hx. rewrite Hp in Hx. by apply elem_of_map_to_list, Hm in Hx. }
  induction Hall as [|[k' w'] l [b Hb] _ IH]; [by apply elem_of_nil in Hin|]. cbn [foldM snd] in *. rewrite Hb, bind_ret.
  destruct b; [|done]. rewrite bind_ret. apply IH. apply elem_of_cons in Hin as [[= <- <-]|Hin]; [congruence|done].
Qed.

(** A record with a signature that is not valid. *)
Definition forged : JSON := record5 (Str []) (Array []) (Str []) (Str (replicate 128 "0"%char)) (Str []).

Lemma forged_fails : @check_witness toy_crypto (dump 1 forged) = Ret false.
Proof.
  unfold check_witness. rewrite (Load_dump_eq forged); [|apply wf_record5; exact I|exact I].
  rewrite bind_ret, check_record_eq. vm_compute. reflexivity.
Qed.

Lemma forged_only k w : ({[ L "k" := dump 1 forged ]} : gmap str str) !! k = Some w -> @check_witness toy_crypto w = Ret false.
Proof. intros [_ <-]%lookup_singleton_Some. exact forged_fails. Qed.

(** As long as only the program's own nodes write to Kanban, however they
    interleave, step 1 of the audit is well defined and every witness passes. *)
Lemma audit_checks_pass `{CryptoLaws} (iter : gmap str str -> list (str * str)) db ps m :
  (forall m, iter m ≡ₚ map_to_list m) -> reachable role ∅ (db, ps) ->
  hgetallCommand db (L "witness") = Ret m -> check_all iter m = Ret tt.
Proof.
  intros Hp Hr Hm. apply check_all_ok; [done|]. intros k w Hw.
  destruct (reachable_ok ∅ (db, ps) store_empty Hr) as [H1 _ _]. cbn [fst] in H1.
  unfold hgetallCommand in Hm. destruct (db !! L "witness") as [o|] eqn:E.
  - destruct (H1 o eq_refl) as (m' & -> & Hg). apply Ret_inj in Hm as <-. by apply (good_checks w k), Hg.
  - apply Ret_inj in Hm as <-. by rewrite lookup_empty in Hw.
Qed.

