(* ===== verification/Oram.v ===== *)
(** * Circuit ORAM (ZeroTrace)

    src/sgx-executor/Enclave2/ZeroTrace and src/sgx-executor/App/ZeroTrace:
    the oblivious storage that the SGX querier keeps its digests and posting
    lists in, with one recursion level and the oblivious flag set, which is how
    oram_enclave_querier.cpp creates it.

    The tree of buckets lives outside the enclave, in [LocalStorage], block by
    block encrypted; the enclave has the position map and the stash.  A path is
    a list of buckets from the leaf to the root, as the storage returns it.
    Levels count from the root, which is level 1; the stash is level 0.

    Parameters: the class [AesCtr], the counter mode of the SGX library;
    [Crypto] for SHA-256; [uninit], the bytes of the n-th nonce buffer, which
    the code allocates and never fills; [beyond], what lies in memory behind
    the path buffer. *)

From S2P Require Import Prelude Crypto.

Local Open Scope Z_scope.

(** ** The SGX library's AES in counter mode *)

Class AesCtr := {
  sgx_aes_ctr_encrypt : str -> str -> str -> str;   (* key, counter, plaintext *)
  sgx_aes_ctr_decrypt : str -> str -> str -> str
}.

Class AesLaws `{AesCtr} : Prop := {
  decrypt_encrypt key ctr m : sgx_aes_ctr_decrypt key ctr (sgx_aes_ctr_encrypt key ctr m) = m
}.

(** ** Blocks (Block.cpp, ZT_Globals.hpp)

    A block without its nonce, which is only used under encryption. *)

Record Block := mk_Block { b_id : Z; treeLabel : Z; b_data : str }.

#[export] Instance Block_eqdec : EqDecision Block.
Proof. solve_decision. Defined.

Definition NONCE_LENGTH : nat := 16.

(** The filler of [reset] and [generate_data]: the alphabet over and over, and
    a zero at the end. *)
Definition filler (data_size : nat) : str :=
  <[(data_size - 1)%nat := NUL]> (map (fun i => z2b (Z.of_nat i mod 26 + 65)) (seq 0 data_size)).

Definition dummy_block (data_size : nat) (gN : Z) : Block := mk_Block gN 0 (filler data_size).

Definition serializeForAes (b : Block) : str :=
  le_bytes 4 (b_id b) ++ le_bytes 4 (treeLabel b) ++ b_data b.

(** [getId], [getTreeLabel] and [getDataPtr] of a serialized block. *)
Definition parse_block (s : str) : Block :=
  mk_Block (le_val (take 4 s)) (le_val (take 4 (drop 4 s))) (drop 8 s).

Section Cipher.
Context `{AesCtr} (aes_key : str).

Definition aes_enc_serialized (ctr : str) (b : Block) : str :=
  ctr ++ sgx_aes_ctr_encrypt aes_key ctr (serializeForAes b).

Definition aes_dec_serialized (encrypted_block : str) : Block :=
  parse_block (sgx_aes_ctr_decrypt aes_key (take NONCE_LENGTH encrypted_block) (drop NONCE_LENGTH encrypted_block)).

End Cipher.

(** ** The storage outside (LocalStorage.cpp)

    Bucket [v] is at offset [v - 1] of the tree and of the hash tree. *)

Record LocalStorage := mk_LS { inmem_tree : gmap Z (list str); inmem_hash : gmap Z str }.

Definition ls_uploadBucket (ls : LocalStorage) (bucket_id : Z) (bucket : list str) (hash : str) : LocalStorage :=
  mk_LS (<[bucket_id := bucket]> (inmem_tree ls)) (<[bucket_id := hash]> (inmem_hash ls)).

(** The loop of [uploadPath]: [D] turns from the leaf up. *)
Fixpoint ls_uploadPath (ls : LocalStorage) (temp : Z) (path : list (list str)) (path_hash : list str) : LocalStorage :=
  match path with
  | [] => ls
  | bucket :: path =>
    ls_uploadPath (ls_uploadBucket ls temp bucket (hd [] path_hash)) (Z.shiftr temp 1) path (tl path_hash)
  end.

Fixpoint ls_downloadBuckets (ls : LocalStorage) (D : nat) (temp : Z) : outcome (list (list str)) :=
  match D with
  | O => Ret []
  | S D =>
    bucket ← deref (inmem_tree ls !! temp);
    path ← ls_downloadBuckets ls D (Z.shiftr temp 1);
    Ret (bucket :: path)
  end.

(** The hashes of both children per level, and the one of the root. *)
Fixpoint ls_downloadHashes (ls : LocalStorage) (D : nat) (temp : Z) : list str :=
  let hash v := default [] (inmem_hash ls !! v) in
  match D with
  | O => []
  | S O => [hash temp]
  | S D =>
    (if Z.even temp then [hash temp; hash (temp + 1)] else [hash (temp - 1); hash temp])
      ++ ls_downloadHashes ls D (Z.shiftr temp 1)
  end.

(** ** Conditional moves (oblivious_functions.asm) *)

Definition oset_value (dest value : Z) (flag : bool) : Z := if flag then value else dest.
Definition oset_block_as_dummy (b : Block) (gN : Z) (flag : bool) : Block :=
  mk_Block (oset_value (b_id b) gN flag) (treeLabel b) (b_data b).

(** Buffers move in words of eight bytes, counted in sixteen bits. *)
Definition words (size : nat) : nat := (Z.to_nat (Z.of_nat size mod 65536 / 8))%nat.

Definition omove_buffer (dest source : str) (size : nat) (flag : bool) : str :=
  if flag then take (8 * words size) source ++ drop (8 * words size) dest else dest.

Definition omove_serialized_block (dest source : Block) (size : nat) (flag : bool) : Block :=
  mk_Block (oset_value (b_id dest) (b_id source) flag) (oset_value (treeLabel dest) (treeLabel source) flag)
    (omove_buffer (b_data dest) (b_data source) size flag).

(** ** Parameters (ORAMTree::SetParams, BuildTreeLevel) *)

Record params := mk_params { Zb : nat; max_blocks : Z; data_size : nat; stash_size : nat }.

(** The id of a dummy; with one level of recursion the number of blocks.  With more
    than 2^21 blocks the position map would exceed [MEM_POSMAP_LIMIT] and
    [SetParams] would make the tree recursive with other numbers; the program has
    ORAMs of 2^13 and 2^14 blocks, and recursive trees are not modelled. *)
Definition gN (P : params) : Z := max_blocks P.

(** [ceil(log(ceil(max_blocks / Z)) / log(2))].  The code divides logarithms in
    double precision; for the 2^13 and 2^14 blocks of the program the quotient is
    the integer it should be, and for other sizes rounding is not modelled. *)
Definition pD (P : params) : Z := Z.log2_up ((max_blocks P + Z.of_nat (Zb P) - 1) / Z.of_nat (Zb P)).
Definition N (P : params) : Z := 2 ^ pD P.
Definition D (P : params) : nat := S (Z.to_nat (pD P)).

(** The state of a [CircuitORAM], with the storage it talks to. *)
Record oram := mk_oram {
  posmap : list Z;
  stash : list Block;
  access_counter : Z;
  serialized_result_block : Block;
  serialized_block_hold : Block;
  serialized_block_write : Block;
  merkle_root_hash : str;
  path_hash : list str;
  new_path_hash : list str;
  storage : LocalStorage;
  mallocs : nat    (* nonce buffers allocated so far *)
}.

Section Oram.
Context `{Crypto} `{AesCtr} (aes_key : str) (uninit : nat -> str) (beyond : str) (P : params).

Definition isBlockDummy (b : Block) : bool := b_id b =? gN P.

(** ** Paths (ORAMTree.cpp) *)

Definition decryptPath (path : list (list str)) : list (list Block) := map (map (aes_dec_serialized aes_key)) path.

Fixpoint encrypt_blocks (n : nat) (bucket : list Block) : list str :=
  match bucket with
  | [] => []
  | b :: bucket => aes_enc_serialized aes_key (uninit n) b :: encrypt_blocks (S n) bucket
  end.

Fixpoint encryptPath (n : nat) (path : list (list Block)) : list (list str) :=
  match path with
  | [] => []
  | bucket :: path => encrypt_blocks n bucket :: encryptPath (n + length bucket) path
  end.

(** The results of the comparisons [verifyPath] makes, from the leaf up: the
    function has no other effect, and nobody looks at them.  At the root the
    hash from outside is compared, not the one computed from the bucket. *)
Fixpoint verify_levels (path : list (list str)) (hashes : list str) (temp : Z) (lchild rchild : str) (root : str)
  : list bool :=
  match path with
  | [] => []
  | [bucket] => [bool_decide (hd [] hashes = root)]
  | bucket :: path =>
    let parent_hash := SHA256 (concat bucket ++ lchild ++ rchild) in
    let lchild := nth 0 hashes [] in
    let rchild := nth 1 hashes [] in
    bool_decide (parent_hash = if Z.even temp then lchild else rchild)
      :: verify_levels path (drop 2 hashes) (Z.shiftr temp 1) lchild rchild root
  end.

Definition verifyPath (path : list (list str)) (hashes : list str) (leaf : Z) (root : str) : list bool :=
  match path with
  | [] => []
  | bucket :: path =>
    let lchild := nth 0 hashes [] in
    let rchild := nth 1 hashes [] in
    bool_decide (SHA256 (concat bucket) = if Z.even leaf then lchild else rchild)
      :: verify_levels path (drop 2 hashes) (Z.shiftr leaf 1) lchild rchild root
  end.

(** The hashes of a path from the leaf up.  The loop makes one turn more than
    there are buckets and hashes what lies behind the path. *)
Fixpoint hash_levels (path : list str) (old_path_hash : list str) (child : Z) (trail : str) : list str :=
  match path with
  | [] => []
  | bucket :: path =>
    let h := if Z.even child then SHA256 (bucket ++ trail ++ nth 1 old_path_hash [])
             else SHA256 (bucket ++ nth 0 old_path_hash [] ++ trail) in
    h :: hash_levels path (drop 2 old_path_hash) (Z.shiftr child 1) h
  end.

(** The new hashes, and the root among them. *)
Definition createNewPathHash (path : list (list str)) (old_path_hash : list str) (leaf : Z) : list str * str :=
  match map (fun bucket => concat bucket) path with
  | [] => ([], [])
  | bucket :: rest =>
    let h := SHA256 bucket in
    let hs := h :: hash_levels (rest ++ [beyond]) old_path_hash leaf h in
    (hs, nth (length path - 1) hs [])
  end.

Definition downloadPath (st : oram) (leaf : Z) : outcome (list (list Block) * oram) :=
  path ← ls_downloadBuckets (storage st) (D P) leaf;
  let hashes := ls_downloadHashes (storage st) (D P) leaf ++ drop (2 * D P - 1) (path_hash st) in
  let _ := verifyPath path hashes leaf (merkle_root_hash st) in
  Ret (decryptPath path,
       mk_oram (posmap st) (stash st) (access_counter st) (serialized_result_block st) (serialized_block_hold st)
         (serialized_block_write st) (merkle_root_hash st) hashes (new_path_hash st) (storage st) (mallocs st)).

Definition with_stash (st : oram) (s : list Block) : oram :=
  mk_oram (posmap st) s (access_counter st) (serialized_result_block st) (serialized_block_hold st)
    (serialized_block_write st) (merkle_root_hash st) (path_hash st) (new_path_hash st) (storage st) (mallocs st).

Definition with_counter (st : oram) (c : Z) : oram :=
  mk_oram (posmap st) (stash st) c (serialized_result_block st) (serialized_block_hold st)
    (serialized_block_write st) (merkle_root_hash st) (path_hash st) (new_path_hash st) (storage st) (mallocs st).

Definition with_result (st : oram) (b : Block) : oram :=
  mk_oram (posmap st) (stash st) (access_counter st) b (serialized_block_hold st)
    (serialized_block_write st) (merkle_root_hash st) (path_hash st) (new_path_hash st) (storage st) (mallocs st).

Definition with_buffers (st : oram) (hold write : Block) : oram :=
  mk_oram (posmap st) (stash st) (access_counter st) (serialized_result_block st) hold
    write (merkle_root_hash st) (path_hash st) (new_path_hash st) (storage st) (mallocs st).

Definition with_posmap (st : oram) (pm : list Z) : oram :=
  mk_oram pm (stash st) (access_counter st) (serialized_result_block st) (serialized_block_hold st)
    (serialized_block_write st) (merkle_root_hash st) (path_hash st) (new_path_hash st) (storage st) (mallocs st).

(** Encrypt the path, upload it with the hashes in [new_path_hash], and compute
    new hashes, in the order of [EvictionRoutine] for the left leaf. *)
Definition upload_then_hash (st : oram) (leaf : Z) (path : list (list Block)) : oram :=
  let encrypted_path := encryptPath (mallocs st) path in
  let '(hs, root) := createNewPathHash encrypted_path (path_hash st) leaf in
  mk_oram (posmap st) (stash st) (access_counter st) (serialized_result_block st) (serialized_block_hold st)
    (serialized_block_write st) root (path_hash st) hs
    (ls_uploadPath (storage st) leaf encrypted_path (new_path_hash st)) (mallocs st + length (concat path)).

(** The same with the hashes computed first, as everywhere else. *)
Definition hash_then_upload (st : oram) (leaf : Z) (path : list (list Block)) : oram :=
  let encrypted_path := encryptPath (mallocs st) path in
  let '(hs, root) := createNewPathHash encrypted_path (path_hash st) leaf in
  mk_oram (posmap st) (stash st) (access_counter st) (serialized_result_block st) (serialized_block_hold st)
    (serialized_block_write st) root (path_hash st) hs
    (ls_uploadPath (storage st) leaf encrypted_path hs) (mallocs st + length (concat path)).

(** ** The stash (Stash.cpp) *)

(** The first dummy slot takes the block; a full stash loses it. *)
Fixpoint pass_insert_loop (s : list Block) (b : Block) (is_dummy block_written : bool) : list Block :=
  match s with
  | [] => []
  | slot :: s =>
    let flag := negb is_dummy && isBlockDummy slot && negb block_written in
    omove_serialized_block slot b (data_size P) flag :: pass_insert_loop s b is_dummy (block_written || flag)
  end.

Definition pass_insert (s : list Block) (b : Block) (is_dummy : bool) : list Block :=
  pass_insert_loop s b is_dummy false.

Definition stashOccupancy (s : list Block) : nat := length (filter (fun b => isBlockDummy b = false) s).

(** ** Eviction (CircuitORAM_Enclave.cpp) *)

(** *** prepare_deepest *)

Record pd_state := mk_pd { local_deepest : Z; goal : Z; src : Z; pos : Z }.   (* pos: deepest_position[i] *)

(** The innermost loop: [n] turns that shift label and leaf towards the root. *)
Fixpoint deepest_turns (n : nat) (l1 l2 : Z) (dummy : bool) (k level_in_path : Z) (ld ps position_in_path : Z)
  : Z * Z * Z :=
  match n with
  | O => (ld, ps, position_in_path)
  | S n =>
    let flag_deepest := (l1 =? l2) && negb dummy && (ld <? l1) in
    deepest_turns n (Z.shiftr l1 1) (Z.shiftr l2 1) dummy k (level_in_path - 1)
      (oset_value ld l1 flag_deepest) (oset_value ps k flag_deepest) (oset_value position_in_path level_in_path flag_deepest)
  end.

(** One block at position [k] of level [i]. *)
Definition deepest_block (leaf i : Z) (n : nat) (s : pd_state) (k : Z) (b : Block) : pd_state :=
  let '(ld, ps, position_in_path) :=
    deepest_turns n (treeLabel b) leaf (isBlockDummy b) k (Z.of_nat (D P)) (local_deepest s) (pos s) 0 in
  let ps := oset_value ps k (u32 (goal s) <? position_in_path) in
  let flag := (goal s <? i32 position_in_path) && (i <? position_in_path) in
  mk_pd ld (oset_value (goal s) position_in_path flag) (oset_value (src s) i flag) ps.

Fixpoint deepest_blocks (leaf i : Z) (n : nat) (s : pd_state) (k : Z) (bs : list Block) : pd_state :=
  match bs with
  | [] => s
  | b :: bs => deepest_blocks leaf i n (deepest_block leaf i n s k b) (k + 1) bs
  end.

(** The levels from [i] on, root first; a bucket is scanned from its last slot. *)
Fixpoint deepest_levels (leaf i : Z) (s : pd_state) (levels : list (list Block)) : list Z * list Z :=
  match levels with
  | [] => ([], [])
  | bucket :: levels =>
    let d := oset_value (-1) (src s) (i <=? goal s) in
    let reached := goal s =? i in
    let s := mk_pd (local_deepest s) (oset_value (goal s) (-1) reached) (oset_value (src s) (-1) reached) (-1) in
    let s := deepest_blocks leaf i (D P - Z.to_nat i) s 0 (rev bucket) in
    let '(deepest, deepest_position) := deepest_levels leaf (i + 1) s levels in
    (d :: deepest, pos s :: deepest_position)
  end.

Definition prepare_deepest (leaf : Z) (s : list Block) (path : list (list Block)) : list Z * list Z :=
  let st := deepest_blocks leaf 0 (D P) (mk_pd 0 (-1) (-1) (-1)) 0 s in
  let '(deepest, deepest_position) := deepest_levels leaf 1 st (rev path) in
  (-1 :: deepest, pos st :: deepest_position).

(** *** prepare_target *)

(** The scan for a dummy slot: [flag_empty_slot], and the first one's number. *)
Fixpoint target_slot (k : Z) (bucket : list Block) (flag_empty_slot target_position_set : bool) (target_position : Z)
  : bool * Z :=
  match bucket with
  | [] => (flag_empty_slot, target_position)
  | b :: bucket =>
    let dummy_flag := isBlockDummy b in
    let flag_stp := dummy_flag && negb target_position_set in
    target_slot (k + 1) bucket (flag_empty_slot || dummy_flag) (target_position_set || flag_stp)
      (oset_value target_position k flag_stp)
  end.

(** From level [i] down to the stash; the results pile up in front of the
    entries of deeper levels. *)
Fixpoint target_levels (path : list (list Block)) (i : Z) (deepest : list Z) (src dest : Z) (target target_position : list Z)
  : list Z * list Z :=
  let t := oset_value (-1) dest (i =? src) in
  match path with
  | [] => (t :: target, -1 :: target_position)
  | bucket :: path =>
    let dest := oset_value dest (-1) (i =? src) in
    let src := oset_value src (-1) (i =? src) in
    let '(flag_empty_slot, tp) := target_slot 0 bucket false false (-1) in
    let d := nth (Z.to_nat i) deepest (-1) in
    let flag_pt := (dest =? -1) && flag_empty_slot && negb (d =? -1) in
    target_levels path (i - 1) deepest (oset_value src d flag_pt) (oset_value dest i flag_pt) (t :: target) (tp :: target_position)
  end.

Definition prepare_target (path : list (list Block)) (deepest : list Z) : list Z * list Z :=
  target_levels path (Z.of_nat (D P)) deepest (-1) (-1) [] [].

(** *** EvictOnceFast *)

Record ev := mk_ev { hold : Z; dest : Z; write_flag : bool; block_hold : Block; block_write : Block }.

(** A held block that has arrived becomes the block to write. *)
Definition arrive (i : Z) (e : ev) : ev :=
  let flag_1 := negb (hold e =? -1) && (i =? dest e) in
  mk_ev (oset_value (hold e) (-1) flag_1) (oset_value (dest e) (-1) flag_1) (write_flag e || flag_1)
    (block_hold e) (omove_serialized_block (block_write e) (block_hold e) (data_size P) flag_1).

Definition take_block (target : Z) (flag_hold : bool) (b : Block) (e : ev) : Block * ev :=
  (oset_block_as_dummy b (gN P) flag_hold,
   mk_ev (oset_value (hold e) target flag_hold) (oset_value (dest e) target flag_hold) (write_flag e)
     (omove_serialized_block (block_hold e) b (data_size P) flag_hold) (block_write e)).

Fixpoint hold_stash (k dpos target : Z) (s : list Block) (e : ev) : list Block * ev :=
  match s with
  | [] => ([], e)
  | b :: s =>
    let flag_hold := (k =? dpos) && negb (target =? -1) && negb (isBlockDummy b) in
    let '(b, e) := take_block target flag_hold b e in
    let '(s, e) := hold_stash (k + 1) dpos target s e in
    (b :: s, e)
  end.

(** Slots from the last one. *)
Fixpoint hold_bucket (k dpos target : Z) (slots : list Block) (e : ev) : list Block * ev :=
  match slots with
  | [] => ([], e)
  | b :: slots =>
    let flag_hold := (k =? dpos) && (hold e =? -1) && negb (target =? -1) in
    let '(b, e) := take_block target flag_hold b e in
    let '(slots, e) := hold_bucket (k + 1) dpos target slots e in
    (b :: slots, e)
  end.

(** Slots from the last one, which has number [k]. *)
Fixpoint write_bucket (k tpos : Z) (slots : list Block) (e : ev) : list Block * ev :=
  match slots with
  | [] => ([], e)
  | b :: slots =>
    let flag_w := write_flag e && (k =? tpos) in
    let b := omove_serialized_block b (block_write e) (data_size P) flag_w in
    let e := mk_ev (hold e) (dest e) (write_flag e && negb flag_w) (block_hold e) (block_write e) in
    let '(slots, e) := write_bucket (k - 1) tpos slots e in
    (b :: slots, e)
  end.

Definition retarget (target : Z) (e : ev) : ev :=
  mk_ev (hold e) (oset_value (dest e) target (negb (target =? -1))) (write_flag e) (block_hold e) (block_write e).

Definition evict_bucket (i target dpos tpos : Z) (bucket : list Block) (e : ev) : list Block * ev :=
  let e := arrive i e in
  let '(slots, e) := hold_bucket 0 dpos target (rev bucket) e in
  let e := retarget target e in
  let '(slots, e) := write_bucket (Z.of_nat (length bucket) - 1) tpos slots e in
  (rev slots, e).

(** The levels from [i] on, root first, with their entries of the arrays. *)
Fixpoint evict_levels (i : Z) (target dposs tposs : list Z) (levels : list (list Block)) (e : ev)
  : list (list Block) * ev :=
  match levels with
  | [] => ([], e)
  | bucket :: levels =>
    let '(bucket, e) := evict_bucket i (hd (-1) target) (hd (-1) dposs) (hd (-1) tposs) bucket e in
    let '(levels, e) := evict_levels (i + 1) (tl target) (tl dposs) (tl tposs) levels e in
    (bucket :: levels, e)
  end.

Definition EvictOnceFast (target dposs tposs : list Z) (s : list Block) (path : list (list Block)) (bh bw : Block)
  : list Block * list (list Block) * Block * Block :=
  let e := arrive 0 (mk_ev (-1) (-1) false bh bw) in
  let '(s, e) := hold_stash 0 (hd (-1) dposs) (hd (-1) target) s e in
  let e := retarget (hd (-1) target) e in
  let '(levels, e) := evict_levels 1 (tl target) (tl dposs) (tl tposs) (rev path) e in
  (s, rev levels, block_hold e, block_write e).

Definition evict_once (leaf : Z) (s : list Block) (path : list (list Block)) (bh bw : Block) :=
  let '(deepest, deepest_position) := prepare_deepest leaf s path in
  let '(target, target_position) := prepare_target path deepest in
  EvictOnceFast target deepest_position target_position s path bh bw.

(** *** The order of the eviction paths *)

Definition reverseBits (n : Z) : Z :=
  let swap (n k lo hi : Z) := u32 (Z.lor (Z.land (Z.shiftr n k) lo) (Z.land (u32 (Z.shiftl n k)) hi)) in
  let n := swap n 1 0x55555555 0xaaaaaaaa in
  let n := swap n 2 0x33333333 0xcccccccc in
  let n := swap n 4 0x0f0f0f0f 0xf0f0f0f0 in
  let n := swap n 8 0x00ff00ff 0xff00ff00 in
  swap n 16 0x0000ffff 0xffff0000.

(** Undefined for a shift by the full width. *)
Definition firstkbits (n k : Z) : outcome Z := if k =? 0 then Undef else Ret (Z.shiftr n (32 - k)).

(** One eviction; [left] tells the two halves of [EvictionRoutine] apart. *)
Definition evict_path (left : bool) (st : oram) (leaf : Z) : outcome oram :=
  '(path, st) ← downloadPath st leaf;
  let '(s, path, bh, bw) := evict_once leaf (stash st) path (serialized_block_hold st) (serialized_block_write st) in
  let st := with_buffers (with_stash st s) bh bw in
  Ret (if left then upload_then_hash st leaf path else hash_then_upload st leaf path).

(** The leaf that counter value [ac] stands for, and the next value. *)
Definition eviction_leaf (ac : Z) : outcome Z := firstkbits (reverseBits ac) (Z.of_nat (D P) - 1).
Definition next_counter (ac : Z) : Z := if ac =? N P then 0 else u32 (ac + 2).

Definition EvictionRoutine (st : oram) : outcome oram :=
  let ac := access_counter st in
  ll ← eviction_leaf ac;
  lr ← eviction_leaf (u32 (ac + 1));
  let st := with_counter st (next_counter ac) in
  st ← evict_path true st (N P + ll);
  evict_path false st (N P + lr).

(** ** Access *)

(** The scan of a path for block [id]: what is found is taken out. *)
Fixpoint fetch_bucket (id : Z) (bucket : list Block) (result : Block) : list Block * Block :=
  match bucket with
  | [] => ([], result)
  | b :: bucket =>
    let flag := b_id b =? id in
    let '(bucket, result) := fetch_bucket id bucket (omove_serialized_block result b (data_size P) flag) in
    (oset_block_as_dummy b (gN P) flag :: bucket, result)
  end.

Fixpoint fetch_path (id : Z) (path : list (list Block)) (result : Block) : list (list Block) * Block :=
  match path with
  | [] => ([], result)
  | bucket :: path =>
    let '(bucket, result) := fetch_bucket id bucket result in
    let '(path, result) := fetch_path id path result in
    (bucket :: path, result)
  end.

(** The scan of the stash; what is found stays there as well. *)
Fixpoint fetch_stash (id : Z) (s : list Block) (result : Block) : Block :=
  match s with
  | [] => result
  | b :: s =>
    fetch_stash id s (omove_serialized_block result b (data_size P) ((b_id b =? id) && negb (isBlockDummy b)))
  end.

Inductive opType := Op_r | Op_w.

Definition is_w (op : opType) : bool := match op with Op_w => true | Op_r => false end.

(** The path is uploaded without the block, and the block with its new label
    goes into the stash. *)
Definition CircuitORAM_FetchBlock (st : oram) (path : list (list Block)) (op : opType) (id leaf newleaf : Z)
    (data_in data_out : str) : oram * str :=
  let '(path, result) := fetch_path id path (serialized_result_block st) in
  let result := fetch_stash id (stash st) result in
  let data := omove_buffer (b_data result) data_in (data_size P) (is_w op) in
  let data_out := omove_buffer data_out data (data_size P) (negb (is_w op)) in
  let st := hash_then_upload st leaf path in
  let result := mk_Block (b_id result) newleaf data in
  let st := with_result st result in
  (with_stash st (pass_insert (stash st) result (isBlockDummy result)), data_out).

(** [access] at the only level.  [random_value] comes from [sgx_read_rand]. *)
Definition access (st : oram) (id : Z) (op : opType) (random_value : Z) (data_in data_out : str) : outcome (oram * str) :=
  if decide (words (data_size P) = 0%nat) then Undef else
  let newleaf := N P + random_value mod N P in
  leaf ← deref (if id <? 0 then None else posmap st !! Z.to_nat id);
  let st := with_posmap st (<[Z.to_nat id := newleaf]> (posmap st)) in
  '(path, st) ← downloadPath st leaf;
  let '(st, data_out) := CircuitORAM_FetchBlock st path op id leaf newleaf data_in data_out in
  st ← EvictionRoutine st;
  Ret (st, data_out).

(** ** Construction (ORAMTree::BuildTreeLevel, Stash::setup) *)

(** [Block::aes_enc] takes its nonce from [generate_r], a constant. *)
Definition aes_encryptBlocks (bucket : list Block) : list str :=
  map (aes_enc_serialized aes_key (replicate NONCE_LENGTH (z2b 65))) bucket.

(** One leaf bucket with [q] blocks from number [label] on. *)
Definition leaf_bucket (i label : Z) (q : nat) : list Block :=
  map (fun j => mk_Block (label + Z.of_nat j) i (filler (data_size P))) (seq 0 q)
    ++ replicate (Zb P - q) (dummy_block (data_size P) (gN P)).

Record build := mk_build { bd_ls : LocalStorage; bd_posmap : list Z; bd_label : Z }.

(** The last level: the first [c] buckets take one block more. *)
Fixpoint build_leaves (n : nat) (i per c : Z) (b : build) : outcome build :=
  match n with
  | O => Ret b
  | S n =>
    let q := Z.to_nat (per + (if i - N P <? c then 1 else 0)) in
    if (Zb P <? q)%nat then Undef else
    let bucket := aes_encryptBlocks (leaf_bucket i (bd_label b) q) in
    build_leaves n (i + 1) per c
      (mk_build (ls_uploadBucket (bd_ls b) i bucket (SHA256 (concat bucket)))
         (bd_posmap b ++ replicate q i) (bd_label b + Z.of_nat q))
  end.

(** The upper levels from bucket [i = n] down to the root, and the root hash. *)
Fixpoint build_upper (n : nat) (b : build) (root : str) : build * str :=
  match n with
  | O => (b, root)
  | S n =>
    let i := Z.of_nat (S n) in
    let bucket := aes_encryptBlocks (replicate (Zb P) (dummy_block (data_size P) (gN P))) in
    let child v := default [] (inmem_hash (bd_ls b) !! v) in
    let root := SHA256 (concat bucket ++ child (2 * i) ++ child (2 * i + 1)) in
    build_upper n (mk_build (ls_uploadBucket (bd_ls b) i bucket root) (bd_posmap b) (bd_label b)) root
  end.

Definition stash_setup : list Block := replicate (stash_size P) (dummy_block (data_size P) (gN P)).

(** [Create]; [junk] is what the buffers hold before they are first written. *)
Definition Create (ls : LocalStorage) (junk : Block) (junk_hashes : list str) : outcome oram :=
  let per := max_blocks P / N P in
  let c := max_blocks P - per * N P in
  b ← build_leaves (Z.to_nat (N P)) (N P) per c (mk_build ls [] 0);
  let '(b, root) := build_upper (Z.to_nat (N P) - 1) b [] in
  Ret (mk_oram (bd_posmap b) stash_setup 0 junk junk junk root junk_hashes junk_hashes (bd_ls b) 0).

End Oram.

(** The arguments of an access, with the number that is drawn for it. *)
Record request := mk_request { rq_id : Z; rq_op : opType; rq_random : Z; rq_in : str; rq_out : str }.
