(* ===== verification/OramEvict.v ===== *)
(** * Circuit ORAM: the eviction

    The three passes of an eviction ([prepare_deepest], [prepare_target],
    [EvictOnceFast]) move blocks from the stash and the path towards the leaf
    without losing, duplicating or altering one, and every block that moves
    ends in a bucket on the path to its own label. *)

From S2P Require Import Prelude Crypto Oram.

Local Open Scope Z_scope.

Lemma lookup_rev {A} (l : list A) i : (i < length l)%nat -> rev l !! i = l !! (length l - S i)%nat.
Proof. intros Hi. rewrite rev_alt. by apply reverse_lookup. Qed.

Lemma elem_of_insert_inv {A} (l : list A) i x y : y ∈ <[i := x]> l -> y = x \/ y ∈ l.
Proof.
  intros (j & Hj)%list_elem_of_lookup. apply list_lookup_insert_Some in Hj as [(_ & <- & _)|[_ Hj]]; [by left|].
  right. by eapply list_elem_of_lookup_2.
Qed.

Section Evict.
Context (P : params).

Definition live (b : Block) : Prop := b_id b <> gN P.

#[export] Instance live_dec b : Decision (live b).
Proof. unfold live. apply _. Defined.

(** The blocks among [bs] that are not dummies. *)
Definition lives (bs : list Block) : list Block := filter live bs.

Definition sized (b : Block) : Prop := length (b_data b) = data_size P.

(** [b] may reside at level [d] of the path to [leaf]. *)
Definition fits (leaf d : Z) (b : Block) : Prop :=
  Z.shiftr (treeLabel b) (Z.of_nat (D P) - d) = Z.shiftr leaf (Z.of_nat (D P) - d).

Lemma dummy_false b : isBlockDummy P b = false <-> live b.
Proof. unfold isBlockDummy, live. rewrite Z.eqb_neq. done. Qed.

Lemma dummy_true b : isBlockDummy P b = true <-> ~ live b.
Proof. unfold isBlockDummy, live. rewrite Z.eqb_eq. destruct (decide (b_id b = gN P)); tauto. Qed.

(** ** Lists of blocks *)

Definition lives1 (b : Block) : list Block := if decide (live b) then [b] else [].

Lemma lives_cons b bs : lives (b :: bs) = lives1 b ++ lives bs.
Proof. unfold lives, lives1. rewrite filter_cons. by destruct (decide (live b)). Qed.

Lemma lives_app l1 l2 : lives (l1 ++ l2) = lives l1 ++ lives l2.
Proof. apply filter_app. Qed.

Lemma lives_rev l : lives (rev l) ≡ₚ lives l.
Proof. unfold lives. by rewrite <- Permutation_rev. Qed.

Lemma lives_insert l i x y : l !! i = Some x -> lives1 x ++ lives (<[i := y]> l) ≡ₚ lives1 y ++ lives l.
Proof.
  intros Hx. assert (Hi := lookup_lt_Some _ _ _ Hx).
  rewrite insert_take_drop by done. rewrite <- (take_drop_middle l i x Hx) at 3.
  rewrite !lives_app, !lives_cons. solve_Permutation.
Qed.

Lemma lives1_live b : live b -> lives1 b = [b].
Proof. intros Hb. unfold lives1. by rewrite decide_True. Qed.

Lemma lives1_dummy b : ~ live b -> lives1 b = [].
Proof. intros Hb. unfold lives1. by rewrite decide_False. Qed.

(** ** Moves of whole blocks *)

Hypothesis data_words : (8 * words (data_size P) = data_size P)%nat.

Lemma omove_buffer_all d s : length d = data_size P -> length s = data_size P ->
  omove_buffer d s (data_size P) true = s.
Proof.
  intros Hd Hs. unfold omove_buffer. rewrite data_words, take_ge, drop_ge by lia. apply app_nil_r.
Qed.

Lemma omove_block_true d s : sized d -> sized s -> omove_serialized_block d s (data_size P) true = s.
Proof. intros Hd Hs. unfold omove_serialized_block. rewrite omove_buffer_all by done. by destruct s. Qed.

Lemma omove_block_false d s n : omove_serialized_block d s n false = d.
Proof. by destruct d. Qed.

Lemma oset_dummy_false b : oset_block_as_dummy b (gN P) false = b.
Proof. by destruct b. Qed.

Lemma oset_dummy_true b : ~ live (oset_block_as_dummy b (gN P) true).
Proof. unfold live. cbn. intros Hn. by apply Hn. Qed.

(** What is known of every block, dummies included. *)
Context (Q : Block -> Prop).
Hypothesis Q_sized : forall b, Q b -> sized b.
Hypothesis Q_dummy : forall b, Q b -> Q (oset_block_as_dummy b (gN P) true).

Lemma omove_block_Q d s : Q d -> Q s -> omove_serialized_block d s (data_size P) true = s.
Proof. intros Hd Hs. apply omove_block_true; by apply Q_sized. Qed.

(** ** prepare_deepest *)

Section Deepest.
Context (leaf : Z).
Hypothesis leaf_pos : 0 <= leaf.
Hypothesis D_small : Z.of_nat (D P) < 2 ^ 31.

Lemma shiftr_le a : 0 <= a -> Z.shiftr a 1 <= a /\ 0 <= Z.shiftr a 1.
Proof.
  clear. intros Ha. rewrite Z.shiftr_div_pow2 by lia. change (2 ^ 1) with 2.
  split; [apply Z.div_le_upper_bound; lia|by apply Z.div_pos; lia].
Qed.

(** Once the label is not above what has been seen, nothing happens. *)
Lemma deepest_turns_idle n : forall l1 l2 dummy k lvl ld ps pip, 0 <= l1 <= ld ->
  deepest_turns n l1 l2 dummy k lvl ld ps pip = (ld, ps, pip).
Proof.
  induction n as [|n IH]; intros l1 l2 dummy k lvl ld ps pip Hl; [done|]. cbn [deepest_turns].
  rewrite (proj2 (Z.ltb_ge _ _)), andb_false_r by lia. cbn [oset_value]. apply IH.
  pose proof (shiftr_le l1 ltac:(lia)). lia.
Qed.

Lemma deepest_turns_spec n : forall l1 l2 dummy k lvl ld ps pip, 0 <= l1 -> 0 <= ld ->
  deepest_turns n l1 l2 dummy k lvl ld ps pip = (ld, ps, pip) \/
  exists t, 0 <= t < Z.of_nat n /\ dummy = false /\ Z.shiftr l1 t = Z.shiftr l2 t /\ ld < Z.shiftr l2 t /\
    deepest_turns n l1 l2 dummy k lvl ld ps pip = (Z.shiftr l2 t, k, lvl - t).
Proof.
  induction n as [|n IH]; intros l1 l2 dummy k lvl ld ps pip Hl Hd; [by left|]. cbn [deepest_turns].
  destruct (_ && _ && _) eqn:F; cbn [oset_value].
  - apply andb_true_iff in F as [F F3]. apply andb_true_iff in F as [F1 F2].
    apply Z.eqb_eq in F1 as <-. apply Z.ltb_lt in F3. apply negb_true_iff in F2 as ->. right. exists 0.
    rewrite !Z.shiftr_0_r, Z.sub_0_r. pose proof (shiftr_le l1 Hl).
    rewrite deepest_turns_idle by lia. split_and!; try done; lia.
  - destruct (IH (Z.shiftr l1 1) (Z.shiftr l2 1) dummy k (lvl - 1) ld ps pip) as [E|(t & Ht & -> & E1 & E2 & E3)];
      [by apply shiftr_le|done|by left|].
    right. exists (t + 1). rewrite !Z.shiftr_shiftr in * by lia. rewrite !(Z.add_comm 1 t) in *.
    split_and!; try done; try lia. rewrite E3. f_equal. lia.
Qed.

Lemma shiftr_mono a m n : 0 <= a -> 0 <= m <= n -> Z.shiftr a n <= Z.shiftr a m.
Proof.
  clear. intros Ha Hn. rewrite !Z.shiftr_div_pow2 by lia. apply Z.div_le_compat_l; [done|].
  split; [by apply Z.pow_pos_nonneg; lia|]. apply Z.pow_le_mono_r; lia.
Qed.

Lemma fits_up d e b : 0 <= d <= e -> e <= Z.of_nat (D P) -> fits leaf e b -> fits leaf d b.
Proof.
  clear. intros Hd He. unfold fits. intros E.
  replace (Z.of_nat (D P) - d) with (Z.of_nat (D P) - e + (e - d)) by lia.
  rewrite <- !Z.shiftr_shiftr by lia. by rewrite E.
Qed.

(** A goal that stands belongs to the deepest bucket seen. *)
Definition standing (i : Z) (s : pd_state) : Prop :=
  0 <= local_deepest s /\
  (goal s = -1 \/ (i < goal s <= Z.of_nat (D P) /\ local_deepest s = Z.shiftr leaf (Z.of_nat (D P) - goal s))).

Lemma deepest_block_spec i n s k b : 0 <= i -> Z.of_nat n = Z.of_nat (D P) - i -> 0 <= treeLabel b -> standing i s ->
  deepest_block P leaf i n s k b = s \/
  exists g, i < g <= Z.of_nat (D P) /\ live b /\ fits leaf g b /\
    deepest_block P leaf i n s k b = mk_pd (Z.shiftr leaf (Z.of_nat (D P) - g)) g i k.
Proof.
  intros Hi Hn Hl [Hd Hg]. unfold deepest_block.
  destruct (deepest_turns_spec n (treeLabel b) leaf (isBlockDummy P b) k (Z.of_nat (D P)) (local_deepest s) (pos s) 0 Hl Hd)
    as [E|(t & Ht & Hb & E1 & E2 & E)]; rewrite E.
  - left. rewrite (proj2 (Z.ltb_ge (u32 (goal s)) 0)) by (pose proof (u32_range (goal s)); unfold is_u32 in *; lia).
    rewrite (proj2 (Z.ltb_ge i 0)), andb_false_r by lia. by destruct s.
  - right. exists (Z.of_nat (D P) - t). apply dummy_false in Hb.
    replace (Z.of_nat (D P) - (Z.of_nat (D P) - t)) with t by lia.
    assert (Hgt : goal s < Z.of_nat (D P) - t).
    { destruct Hg as [->|[Hg1 Hg2]]; [lia|]. destruct (Z_lt_le_dec (goal s) (Z.of_nat (D P) - t)); [done|].
      pose proof (shiftr_mono leaf (Z.of_nat (D P) - goal s) t leaf_pos ltac:(lia)). lia. }
    split_and!; try done; try lia.
    + unfold fits. by replace (Z.of_nat (D P) - (Z.of_nat (D P) - t)) with t by lia.
    + rewrite i32_small by (unfold is_i32; lia).
      rewrite (proj2 (Z.ltb_lt (goal s) _) Hgt), (proj2 (Z.ltb_lt i _)) by lia. cbn [andb oset_value].
      f_equal. by destruct (_ <? _).
Qed.

(** What a scan of the blocks [bs] of level [i] leaves. *)
Lemma deepest_blocks_spec i n bs : forall s k, 0 <= i -> Z.of_nat n = Z.of_nat (D P) - i ->
  Forall (fun b => 0 <= treeLabel b) bs -> standing i s ->
  deepest_blocks P leaf i n s k bs = s \/
  exists j b g, bs !! j = Some b /\ i < g <= Z.of_nat (D P) /\ live b /\ fits leaf g b /\
    deepest_blocks P leaf i n s k bs = mk_pd (Z.shiftr leaf (Z.of_nat (D P) - g)) g i (k + Z.of_nat j).
Proof.
  induction bs as [|b bs IH]; intros s k Hi Hn Hl Hs; [by left|]. apply Forall_cons_iff in Hl as [Hb Hl].
  cbn [deepest_blocks]. destruct (deepest_block_spec i n s k b Hi Hn Hb Hs) as [E|(g & Hg & Hlb & Hf & E)]; rewrite E.
  - destruct (IH s (k + 1) Hi Hn Hl Hs) as [E'|(j & b' & g & Hj & Hg & Hb' & Hf & E')]; [by left|].
    right. exists (S j), b', g. rewrite E'. split_and!; try done; try lia. f_equal. lia.
  - assert (Hs' : standing i (mk_pd (Z.shiftr leaf (Z.of_nat (D P) - g)) g i k)).
    { split; [by apply Z.shiftr_nonneg|]. right. cbn. split; [lia|done]. }
    destruct (IH _ (k + 1) Hi Hn Hl Hs') as [E'|(j & b' & g' & Hj & Hg' & Hb' & Hf' & E')]; right.
    + exists 0%nat, b, g. rewrite E'. split_and!; try done; try lia. f_equal. lia.
    + exists (S j), b', g'. rewrite E'. split_and!; try done; try lia. f_equal. lia.
Qed.

(** Level [d] holds, at its entry of [dps], a block that fits level [l]; [lvs]
    are the blocks of the levels in the order they are scanned. *)
Definition source_ok (l d : Z) (dps : list Z) (lvs : list (list Block)) : Prop :=
  0 <= d < l /\ exists bs p b, lvs !! Z.to_nat d = Some bs /\ dps !! Z.to_nat d = Some (Z.of_nat p) /\
    bs !! p = Some b /\ live b /\ fits leaf l b.

Lemma source_ok_app l d dps dps' lvs lvs' : source_ok l d dps lvs -> source_ok l d (dps ++ dps') (lvs ++ lvs').
Proof.
  intros (Hd & bs & p & b & Hbs & Hp & Hb & Hl & Hf). split; [done|]. exists bs, p, b.
  split_and!; try done; by apply lookup_app_l_Some.
Qed.

Definition pending (i : Z) (s : pd_state) (dps : list Z) (lvs : list (list Block)) : Prop :=
  0 <= local_deepest s /\
  (goal s = -1 \/ (i <= goal s <= Z.of_nat (D P) /\ local_deepest s = Z.shiftr leaf (Z.of_nat (D P) - goal s) /\
    0 <= src s < i /\ source_ok (goal s) (src s) dps lvs)).

Lemma deepest_levels_spec levels : forall i s dps lvs, 1 <= i -> i + Z.of_nat (length levels) = Z.of_nat (D P) + 1 ->
  Z.of_nat (length dps) = i -> Z.of_nat (length lvs) = i ->
  Forall (Forall (fun b => 0 <= treeLabel b)) levels -> pending i s dps lvs ->
  let '(ds, ps) := deepest_levels P leaf i s levels in
  length ds = length levels /\ length ps = length levels /\
  forall j d, ds !! j = Some d -> d <> -1 -> source_ok (i + Z.of_nat j) d (dps ++ ps) (lvs ++ map (@rev Block) levels).
Proof.
  induction levels as [|bucket levels IH]; intros i s dps lvs Hi Hlen Hdps Hlvs Hl [Hd Hs]; [done|].
  apply Forall_cons_iff in Hl as [Hb Hl]. cbn [length] in Hlen. cbn [deepest_levels].
  set (s0 := mk_pd _ _ _ (-1)).
  assert (Hst : standing i s0).
  { split; [done|]. unfold s0. cbn [goal local_deepest]. destruct (goal s =? i) eqn:E; [by left|]. cbn [oset_value].
    destruct Hs as [Hs|(Hg & Hld & _)]; [by left|]. apply Z.eqb_neq in E. right. split; [lia|done]. }
  set (s1 := deepest_blocks P leaf i (D P - Z.to_nat i) s0 0 (rev bucket)).
  assert (Hp1 : pending (i + 1) s1 (dps ++ [pos s1]) (lvs ++ [rev bucket])).
  { destruct (deepest_blocks_spec i (D P - Z.to_nat i) (rev bucket) s0 0) as [E|(j & b & g & Hj & Hg & Hlb & Hf & E)];
      [lia|lia|by apply Forall_rev|done| |]; fold s1 in E; rewrite E.
    - split; [done|]. unfold s0. cbn [goal local_deepest src]. destruct (goal s =? i) eqn:Eg; [by left|]. cbn [oset_value].
      destruct Hs as [Hs|(Hg & Hld & Hsrc & Hok)]; [by left|]. apply Z.eqb_neq in Eg. right.
      split_and!; try done; try lia. by apply source_ok_app.
    - split; [by apply Z.shiftr_nonneg|]. right. cbn [goal src local_deepest pos]. split_and!; try done; try lia.
      split; [lia|]. exists (rev bucket), j, b. split_and!; try done.
      + replace (Z.to_nat i) with (length lvs) by lia. by rewrite lookup_app_r, Nat.sub_diag.
      + replace (Z.to_nat i) with (length dps) by lia. rewrite lookup_app_r, Nat.sub_diag by lia. done. }
  specialize (IH (i + 1) s1 (dps ++ [pos s1]) (lvs ++ [rev bucket])).
  destruct (deepest_levels P leaf (i + 1) s1 levels) as [ds ps].
  destruct IH as (L1 & L2 & IH); try done; try lia; try (rewrite length_app; cbn; lia).
  cbn [length map]. split_and!; [by rewrite L1|by rewrite L2|]. intros [|j] d; cbn [lookup list_lookup].
  - intros [= <-] Hne. rewrite Z.add_0_r. destruct Hs as [E|(Hg & Hld & Hsrc & (Hok & bs & p & b & H1 & H2 & H3 & H4 & H5))].
    { rewrite E in Hne. destruct (i <=? -1) eqn:Ei; [apply Z.leb_le in Ei; lia|done]. }
    rewrite (proj2 (Z.leb_le _ _)) in * by lia. cbn [oset_value] in *. apply source_ok_app. split; [done|].
    exists bs, p, b. split_and!; try done. apply (fits_up i (goal s)); [lia|lia|done].
  - intros Hj Hne. specialize (IH j d Hj Hne). rewrite <- !app_assoc in IH.
    replace (i + Z.of_nat (S j)) with (i + 1 + Z.of_nat j) by lia. done.
Qed.

(** Every entry of [deepest] names a level above with a block that fits. *)
Lemma prepare_deepest_spec stash path :
  Forall (fun b => 0 <= treeLabel b) stash -> Forall (Forall (fun b => 0 <= treeLabel b)) path -> length path = D P ->
  let '(ds, dps) := prepare_deepest P leaf stash path in
  length ds = S (D P) /\ length dps = S (D P) /\
  forall l d, nth l ds (-1) = d -> d <> -1 ->
    Z.of_nat l <= Z.of_nat (D P) /\ source_ok (Z.of_nat l) d dps (stash :: map (@rev Block) (rev path)).
Proof.
  intros Hs Hp Hlen. unfold prepare_deepest. set (s1 := deepest_blocks _ _ _ _ _ _ _).
  assert (Hst : standing 0 (mk_pd 0 (-1) (-1) (-1))) by (split; [done|by left]).
  assert (Hp1 : pending 1 s1 [pos s1] [stash]).
  { destruct (deepest_blocks_spec 0 (D P) stash _ 0 ltac:(lia) ltac:(lia) Hs Hst) as [E|(j & b & g & Hj & Hg & Hlb & Hf & E)];
      fold s1 in E; rewrite E.
    - split; [done|by left].
    - split; [by apply Z.shiftr_nonneg|]. right. cbn [goal src local_deepest pos]. split_and!; try done; try lia.
      split; [lia|]. exists stash, j, b. split_and!; done. }
  pose proof (deepest_levels_spec (rev path) 1 s1 [pos s1] [stash]) as Hl.
  destruct (deepest_levels P leaf 1 s1 (rev path)) as [ds ps].
  destruct Hl as (L1 & L2 & Hl); try done; try (rewrite length_rev; lia); [by apply Forall_rev|].
  rewrite length_rev in *. cbn [length]. split_and!; [lia|lia|]. intros [|l] d; cbn [nth]; [by intros <-|].
  intros Hn Hne. destruct (ds !! l) as [d'|] eqn:E.
  - assert (d' = d) as -> by (rewrite <- Hn; symmetry; by apply nth_lookup_Some).
    split; [apply lookup_lt_Some in E; lia|]. specialize (Hl l d E Hne). by replace (Z.of_nat (S l)) with (1 + Z.of_nat l) by lia.
  - exfalso. apply Hne. rewrite <- Hn. apply nth_overflow. by apply lookup_ge_None.
Qed.

(** ** prepare_target *)

Lemma target_slot_set k bucket tp : forall fe, target_slot P k bucket fe true tp = (fe || existsb (isBlockDummy P) bucket, tp).
Proof.
  clear. revert k. induction bucket as [|b bucket IH]; intros k fe; cbn [target_slot existsb]; [by rewrite orb_false_r|].
  rewrite andb_false_r. cbn [orb oset_value]. by rewrite IH, orb_assoc.
Qed.

Lemma target_slot_spec bucket : forall k tp,
  target_slot P k bucket false false tp = (false, tp) \/
  exists j b, bucket !! j = Some b /\ ~ live b /\ target_slot P k bucket false false tp = (true, k + Z.of_nat j).
Proof.
  clear. induction bucket as [|b bucket IH]; intros k tp; [by left|]. cbn [target_slot orb negb]. rewrite andb_true_r.
  destruct (isBlockDummy P b) eqn:E; cbn [orb oset_value].
  - right. exists 0%nat, b. rewrite target_slot_set. split_and!; [done|by apply dummy_true|]. cbn. f_equal. lia.
  - destruct (IH (k + 1) tp) as [->|(j & b' & Hj & Hb & ->)]; [by left|]. right. exists (S j), b'.
    split_and!; [done|done|]. f_equal. lia.
Qed.

(** What the arrays must say for the levels from [i] on, root first, when a
    block for level [h] is held on arrival ([h = -1] if none). *)
Fixpoint plan (i h : Z) (tg dps tps : list Z) (levels : list (list Block)) : Prop :=
  match levels with
  | [] => h = -1
  | bucket :: levels =>
    let t := hd (-1) tg in
    (h = -1 \/ i <= h) /\
    (h = i -> exists slot b, hd (-1) tps = Z.of_nat slot /\ bucket !! slot = Some b /\ ~ live b) /\
    (h <> -1 -> h <> i -> t = -1) /\
    (t <> -1 -> i < t /\ exists p b, hd (-1) dps = Z.of_nat p /\ rev bucket !! p = Some b /\ live b /\ fits leaf t b) /\
    plan (i + 1) (if decide (t = -1) then if decide (h = i) then -1 else h else t) (tl tg) (tl dps) (tl tps) levels
  end.

Lemma drop_hd_tl {A} (l : list A) n d x : l !! n = Some x -> hd d (drop n l) = x /\ tl (drop n l) = drop (S n) l.
Proof. clear. intros E. by rewrite (drop_S l x n E). Qed.

Lemma drop_tl {A} (l : list A) n : tl (drop n l) = drop (S n) l.
Proof. clear. revert n. induction l as [|a l IH]; intros [|n]; cbn; try done; by destruct l. Qed.

Section Target.
Context (ds dps : list Z) (lvs : list (list Block)).
Hypothesis ds_ok : forall l d, nth l ds (-1) = d -> d <> -1 ->
  Z.of_nat l <= Z.of_nat (D P) /\ source_ok (Z.of_nat l) d dps lvs.

Lemma source_block t i bucket : source_ok t i dps lvs -> lvs !! Z.to_nat i = Some (rev bucket) ->
  i < t /\ exists p b, hd (-1) (drop (Z.to_nat i) dps) = Z.of_nat p /\ rev bucket !! p = Some b /\ live b /\ fits leaf t b.
Proof.
  clear. intros (Hr & bs & p & b & H1 & H2 & H3 & H4 & H5) Hb. assert (bs = rev bucket) as -> by congruence.
  split; [lia|]. exists p, b. by rewrite (proj1 (drop_hd_tl _ _ (-1) _ H2)).
Qed.

Lemma target_levels_spec path : forall i s d T TP lv, i = Z.of_nat (length path) ->
  (forall j bucket, path !! j = Some bucket -> lvs !! (length path - j)%nat = Some (rev bucket)) ->
  (d = -1 \/ (i < d /\ 0 <= s <= i /\ source_ok d s dps lvs)) ->
  plan (i + 1) d T (drop (S (length path)) dps) TP lv ->
  exists t0 tg' tps', target_levels P path i ds s d T TP = (t0 :: tg', -1 :: tps') /\
    (t0 <> -1 -> source_ok t0 0 dps lvs) /\ plan 1 t0 tg' (drop 1 dps) tps' (rev path ++ lv).
Proof.
  induction path as [|bucket path IH]; intros i s d T TP lv Hi Hlv Hd Hplan; cbn [target_levels].
  - cbn in Hi. subst i. exists (oset_value (-1) d (0 =? s)), T, TP. split; [done|]. cbn [length] in Hplan.
    destruct Hd as [->|(Hd1 & Hd2 & Hok)].
    + by destruct (0 =? s).
    + assert (s = 0) as -> by lia. cbn [Z.eqb oset_value]. by split.
  - cbn [length] in *. pose proof (Hlv 0%nat bucket eq_refl) as Hb. rewrite Nat.sub_0_r in Hb.
    set (t := oset_value (-1) d (i =? s)). set (d1 := oset_value d (-1) (i =? s)). set (s1 := oset_value s (-1) (i =? s)).
    assert (Ht : t <> -1 -> i < t /\ exists p b, hd (-1) (drop (S (length path)) dps) = Z.of_nat p /\
                   rev bucket !! p = Some b /\ live b /\ fits leaf t b).
    { unfold t. destruct (i =? s) eqn:E; [|done]. cbn [oset_value]. apply Z.eqb_eq in E as <-. intros Hne.
      destruct Hd as [->|(_ & _ & Hok)]; [done|]. replace (S (length path)) with (Z.to_nat i) by lia.
      apply (source_block d i bucket Hok). by replace (Z.to_nat i) with (S (length path)) by lia. }
    assert (Hd1 : (d1 = -1 /\ (t = d \/ d = -1 /\ t = -1)) \/ (d1 = d /\ t = -1 /\ i < d /\ 0 <= s1 <= i - 1 /\ source_ok d1 s1 dps lvs)).
    { unfold d1, t, s1. destruct (i =? s) eqn:E; cbn [oset_value]; [left; by split; [|left]|]. apply Z.eqb_neq in E.
      destruct Hd as [->|(? & ? & ?)]; [left; by split; [|right]|]. right. split_and!; try done; lia. }
    destruct (target_slot P 0 bucket false false (-1)) as [fe tp] eqn:Es.
    set (dd := nth (Z.to_nat i) ds (-1)). set (flag := (d1 =? -1) && fe && negb (dd =? -1)).
    specialize (IH (i - 1) (oset_value s1 dd flag) (oset_value d1 i flag) (t :: T) (tp :: TP) (bucket :: lv)).
    cbn [rev]. rewrite <- app_assoc. apply IH; [lia| | |].
    + intros j b Hj. specialize (Hlv (S j) b Hj). by rewrite Nat.sub_succ in Hlv.
    + destruct flag eqn:F; cbn [oset_value].
      * apply andb_true_iff in F as [_ F]. apply negb_true_iff, Z.eqb_neq in F. right.
        destruct (ds_ok (Z.to_nat i) dd eq_refl F) as [_ Hok]. rewrite Z2Nat.id in Hok by lia.
        split_and!; [lia| | |done]; destruct Hok; lia.
      * destruct Hd1 as [[-> _]|(-> & _ & ? & ? & ?)]; [by left|]. right. split_and!; try done; lia.
    + replace (i - 1 + 1) with i by lia. cbn [plan hd tl]. rewrite drop_tl. split_and!.
      * destruct flag; cbn [oset_value]; [right; lia|]. destruct Hd1 as [[-> _]|(-> & _ & ? & _)]; [by left|right; lia].
      * intros Hh. destruct flag eqn:F; cbn [oset_value] in Hh.
        -- apply andb_true_iff in F as [F _]. apply andb_true_iff in F as [_ ->].
           destruct (target_slot_spec bucket 0 (-1)) as [E|(j & b & Hj & Hb' & E)]; rewrite E in Es; [done|].
           injection Es as <-. by exists j, b.
        -- destruct Hd1 as [[E _]|(-> & _ & ? & _)]; lia.
      * destruct flag; cbn [oset_value]; [done|]. intros Hne _. by destruct Hd1 as [[? _]|(_ & ? & _)].
      * exact Ht.
      * assert (E : (if decide (t = -1) then if decide (oset_value d1 i flag = i) then -1 else oset_value d1 i flag else t) = d).
        { destruct (decide (t = -1)) as [Et|Et].
          - destruct flag eqn:F; cbn [oset_value].
            + rewrite decide_True by done. apply andb_true_iff in F as [F _]. apply andb_true_iff in F as [F _].
              apply Z.eqb_eq in F. destruct Hd1 as [(_ & [?|[? _]])|(? & _ & ? & _)]; lia.
            + destruct Hd1 as [(-> & [?|[? _]])|(-> & _ & ? & _)]; [| |by rewrite decide_False by lia];
                rewrite decide_False by lia; lia.
          - destruct Hd1 as [(_ & [?|[_ ?]])|(_ & ? & _)]; lia. }
        rewrite E. exact Hplan.
Qed.

End Target.

(** ** EvictOnceFast *)

Lemma take_block_false t b e : take_block P t false b e = (b, e).
Proof. clear. unfold take_block. rewrite oset_dummy_false, omove_block_false. by destruct e. Qed.

Lemma hold_bucket_idle dp t slots : forall k e, t = -1 \/ hold e <> -1 -> hold_bucket P k dp t slots e = (slots, e).
Proof.
  clear. induction slots as [|b slots IH]; intros k e Hi; [done|]. cbn [hold_bucket].
  assert (E : (k =? dp) && (hold e =? -1) && negb (t =? -1) = false).
  { destruct Hi as [->|Hi]; [by rewrite andb_false_r|]. by rewrite (proj2 (Z.eqb_neq _ _) Hi), andb_false_r. }
  rewrite E, take_block_false. by rewrite IH.
Qed.

Lemma hold_bucket_take dp t slots : forall k e p b, slots !! p = Some b -> dp = k + Z.of_nat p -> hold e = -1 -> t <> -1 ->
  hold_bucket P k dp t slots e =
    (<[p := oset_block_as_dummy b (gN P) true]> slots,
     mk_ev t t (write_flag e) (omove_serialized_block (block_hold e) b (data_size P) true) (block_write e)).
Proof.
  clear. induction slots as [|b0 slots IH]; intros k e p b Hp Hdp He Ht; [done|]. cbn [hold_bucket].
  apply Z.eqb_neq in Ht as Ht'. destruct p as [|p]; cbn [lookup list_lookup] in Hp.
  - injection Hp as ->. rewrite (proj2 (Z.eqb_eq k dp)), He, Ht' by lia. cbn [Z.eqb Pos.eqb andb negb].
    unfold take_block at 1. rewrite hold_bucket_idle by (right; exact Ht). done.
  - rewrite (proj2 (Z.eqb_neq k dp)) by lia. cbn [andb]. rewrite take_block_false.
    by rewrite (IH (k + 1) e p b Hp) by (done || lia).
Qed.

Lemma hold_stash_idle dp t s : forall k e, t = -1 \/ dp < k -> hold_stash P k dp t s e = (s, e).
Proof.
  clear. induction s as [|b s IH]; intros k e Hi; [done|]. cbn [hold_stash].
  assert (E : (k =? dp) && negb (t =? -1) && negb (isBlockDummy P b) = false).
  { destruct Hi as [->|Hi]; [by rewrite andb_false_r|]. by rewrite (proj2 (Z.eqb_neq k dp)) by lia. }
  rewrite E, take_block_false, IH; [done|]. destruct Hi; [by left|right; lia].
Qed.

Lemma hold_stash_take dp t s : forall k e p b, s !! p = Some b -> dp = k + Z.of_nat p -> t <> -1 -> live b ->
  hold_stash P k dp t s e =
    (<[p := oset_block_as_dummy b (gN P) true]> s,
     mk_ev t t (write_flag e) (omove_serialized_block (block_hold e) b (data_size P) true) (block_write e)).
Proof.
  clear. induction s as [|b0 s IH]; intros k e p b Hp Hdp Ht Hb; [done|]. cbn [hold_stash].
  apply Z.eqb_neq in Ht as Ht'. destruct p as [|p]; cbn [lookup list_lookup] in Hp.
  - injection Hp as ->. rewrite (proj2 (Z.eqb_eq k dp)), Ht', (proj2 (dummy_false b) Hb) by lia. cbn [andb negb].
    unfold take_block at 1. rewrite hold_stash_idle by (right; lia). done.
  - rewrite (proj2 (Z.eqb_neq k dp)) by lia. cbn [andb]. rewrite take_block_false.
    by rewrite (IH (k + 1) e p b Hp) by (done || lia).
Qed.

Lemma write_bucket_idle tp slots : forall k e, write_flag e = false -> write_bucket P k tp slots e = (slots, e).
Proof.
  clear. induction slots as [|b slots IH]; intros k e He; [done|]. cbn [write_bucket]. rewrite He. cbn [andb].
  rewrite omove_block_false, IH by done. f_equal. destruct e. cbn in *. by subst.
Qed.

Lemma write_bucket_place tp slots : forall k e j b, slots !! j = Some b -> tp = k - Z.of_nat j -> write_flag e = true ->
  write_bucket P k tp slots e =
    (<[j := omove_serialized_block b (block_write e) (data_size P) true]> slots,
     mk_ev (hold e) (dest e) false (block_hold e) (block_write e)).
Proof.
  clear. induction slots as [|b0 slots IH]; intros k e j b Hj Htp He; [done|]. cbn [write_bucket]. rewrite He. cbn [andb].
  destruct j as [|j]; cbn [lookup list_lookup] in Hj.
  - injection Hj as ->. rewrite (proj2 (Z.eqb_eq k tp)) by lia. cbn [negb]. by rewrite write_bucket_idle.
  - rewrite (proj2 (Z.eqb_neq k tp)) by lia. cbn [negb]. rewrite omove_block_false.
    by rewrite (IH (k - 1) _ j b Hj) by (done || lia).
Qed.

(** A block for level [h] is held, or none if [h = -1]. *)
Definition holding (h : Z) (e : ev) : Prop :=
  hold e = h /\ dest e = h /\ write_flag e = false /\ Q (block_hold e) /\ Q (block_write e) /\
  (h <> -1 -> live (block_hold e) /\ fits leaf h (block_hold e)).

Definition held (h : Z) (e : ev) : list Block := if decide (h = -1) then [] else [block_hold e].

(** Taking the block at [p] of the scanned slots, or nothing. *)
Lemma hold_bucket_spec t dp slots e : hold e = -1 \/ t = -1 -> dest e = hold e -> Forall Q slots -> Q (block_hold e) ->
  (t <> -1 -> exists p b, dp = Z.of_nat p /\ slots !! p = Some b /\ live b /\ fits leaf t b) ->
  exists slots' e1, hold_bucket P 0 dp t slots e = (slots', e1) /\ length slots' = length slots /\ Forall Q slots' /\
    (forall j b, slots !! j = Some b -> ~ live b -> slots' !! j = Some b) /\
    (forall b, b ∈ slots' -> live b -> b ∈ slots) /\
    write_flag e1 = write_flag e /\ block_write e1 = block_write e /\ Q (block_hold e1) /\
    hold e1 = (if decide (t = -1) then hold e else t) /\ dest (retarget t e1) = hold e1 /\
    (t = -1 -> slots' = slots /\ block_hold e1 = block_hold e) /\
    (t <> -1 -> live (block_hold e1) /\ fits leaf t (block_hold e1) /\ lives slots' ++ [block_hold e1] ≡ₚ lives slots).
Proof.
  intros Hh Hd Hs Hbh Ht. destruct (decide (t = -1)) as [->|Hne].
  - rewrite hold_bucket_idle by by left. exists slots, e. split_and!; done.
  - destruct Hh as [Hh|?]; [|done]. destruct (Ht Hne) as (p & b & -> & Hp & Hb & Hf).
    assert (Hsb : Q b) by by eapply (Forall_lookup_1 _ _ _ _ Hs Hp).
    rewrite (hold_bucket_take _ t slots 0 e p b Hp) by (done || lia). rewrite omove_block_Q by done.
    eexists _, _. split; [done|]. cbn [write_flag block_write block_hold hold dest retarget].
    apply Z.eqb_neq in Hne as Hne'. rewrite Hne'. cbn [negb oset_value]. split_and!; try done.
    + by rewrite length_insert.
    + apply Forall_insert; [done|by apply Q_dummy].
    + intros j b' Hj Hl. destruct (decide (j = p)) as [->|]; [|by rewrite list_lookup_insert_ne].
      assert (b' = b) as -> by congruence. done.
    + intros b' [->|?]%elem_of_insert_inv Hb'; [|done]. by destruct (oset_dummy_true b).
    + intros _. split_and!; [done|done|]. pose proof (lives_insert slots p b (oset_block_as_dummy b (gN P) true) Hp) as Hperm.
      rewrite lives1_live, (lives1_dummy (oset_block_as_dummy _ _ _)) in Hperm by (done || apply oset_dummy_true).
      rewrite <- Hperm. solve_Permutation.
Qed.

Lemma arrive_here h e : holding h e -> h <> -1 -> arrive P h e = mk_ev (-1) (-1) true (block_hold e) (block_hold e).
Proof.
  intros (H1 & H2 & H3 & H4 & H5 & H6) Hne. unfold arrive. rewrite H1, H2, Z.eqb_refl, (proj2 (Z.eqb_neq _ _) Hne).
  cbn [negb andb oset_value]. by rewrite orb_true_r, omove_block_Q.
Qed.

Lemma arrive_not i h e : holding h e -> h = -1 \/ h <> i -> arrive P i e = e.
Proof.
  intros (H1 & H2 & H3 & _) Hne. unfold arrive. rewrite H1, H2.
  assert (E : negb (h =? -1) && (i =? h) = false).
  { destruct Hne as [->|Hne]; [done|]. by rewrite (proj2 (Z.eqb_neq i h)), andb_false_r by congruence. }
  rewrite E. cbn [oset_value]. rewrite orb_false_r, omove_block_false. destruct e. cbn in *. by subst.
Qed.

(** Writing [block_write] into slot [slot], a dummy of the scanned bucket. *)
Lemma write_bucket_spec bucket slots e slot b : length slots = length bucket -> Forall Q slots ->
  bucket !! slot = Some b -> slots !! (length bucket - S slot)%nat = Some b -> ~ live b -> Q (block_write e) ->
  live (block_write e) -> write_flag e = true ->
  exists slots', write_bucket P (Z.of_nat (length bucket) - 1) (Z.of_nat slot) slots e =
    (slots', mk_ev (hold e) (dest e) false (block_hold e) (block_write e)) /\
    length slots' = length bucket /\ Forall Q slots' /\ lives slots' ≡ₚ block_write e :: lives slots /\
    (forall x, x ∈ slots' -> x = block_write e \/ x ∈ slots).
Proof.
  intros Hlen Hs Hb Hj Hd Hw Hl Hf. pose proof (lookup_lt_Some _ _ _ Hb) as Hlt.
  assert (Hsb : Q b) by by eapply (Forall_lookup_1 _ _ _ _ Hs Hj).
  rewrite (write_bucket_place _ slots _ e _ b Hj) by (done || lia). rewrite omove_block_Q by done.
  eexists. split; [done|]. split_and!.
  - by rewrite length_insert.
  - by apply Forall_insert.
  - pose proof (lives_insert slots _ b (block_write e) Hj) as Hp.
    by rewrite lives1_dummy, lives1_live in Hp by done.
  - intros x Hx. by apply elem_of_insert_inv in Hx.
Qed.

Lemma evict_bucket_spec i h t dp tp bucket e : 1 <= i -> holding h e -> Forall Q bucket -> h = -1 \/ i <= h ->
  (h = i -> exists slot b, tp = Z.of_nat slot /\ bucket !! slot = Some b /\ ~ live b) ->
  (h <> -1 -> h <> i -> t = -1) ->
  (t <> -1 -> i < t /\ exists p b, dp = Z.of_nat p /\ rev bucket !! p = Some b /\ live b /\ fits leaf t b) ->
  let h' := if decide (t = -1) then if decide (h = i) then -1 else h else t in
  exists bucket' e', evict_bucket P i t dp tp bucket e = (bucket', e') /\ holding h' e' /\
    length bucket' = length bucket /\ Forall Q bucket' /\
    lives bucket' ++ held h' e' ≡ₚ lives bucket ++ held h e /\
    (forall b, b ∈ bucket' -> live b -> b ∈ bucket \/ fits leaf i b).
Proof.
  intros Hi Hh Hs Hr Hslot Ht1 Ht2 h'. pose proof Hh as (E1 & E2 & E3 & E4 & E5 & E6). unfold evict_bucket.
  assert (Hs' : Forall Q (rev bucket)) by by apply Forall_rev.
  assert (Ht : t <> -1 -> exists p b, dp = Z.of_nat p /\ rev bucket !! p = Some b /\ live b /\ fits leaf t b).
  { intros Hne. by destruct (Ht2 Hne) as [_ ?]. }
  destruct (decide (h = i)) as [->|Hne].
  - rewrite (arrive_here i e Hh) by lia. destruct (E6 ltac:(lia)) as [Hlh Hfh].
    destruct (hold_bucket_spec t dp (rev bucket) (mk_ev (-1) (-1) true (block_hold e) (block_hold e)))
      as (slots & e1 & -> & L1 & S1 & D1 & M1 & W1 & B1 & Z1 & H1 & R1 & Tn & Tt); [by left|done|done|done|done|].
    destruct (Hslot eq_refl) as (slot & b & -> & Hb & Hdb). pose proof (lookup_lt_Some _ _ _ Hb) as Hlt.
    assert (Hrev : rev bucket !! (length bucket - S slot)%nat = Some b).
    { rewrite lookup_rev by lia. by replace (length bucket - S (length bucket - S slot))%nat with slot by lia. }
    rewrite length_rev in L1. cbn [write_flag block_write hold] in W1, B1, H1.
    destruct (write_bucket_spec bucket slots (retarget t e1) slot b) as (slots' & -> & L2 & S2 & P2 & M2);
      try done; [by apply D1|by cbn; rewrite B1|by cbn; rewrite B1|]. cbn [retarget block_write hold block_hold] in *. rewrite B1 in *.
    eexists _, _. split; [done|]. split_and!.
    + unfold h'. rewrite R1. destruct (decide (t = -1)) as [->|Hn]; rewrite H1; split_and!; try done.
      by destruct (Tt Hn) as (? & ? & _).
    + by rewrite length_rev.
    + by apply Forall_rev.
    + rewrite lives_rev, P2, <- (lives_rev bucket). unfold held, h'. rewrite (decide_False (P := i = -1)) by lia.
      destruct (decide (t = -1)) as [->|Hn]; [destruct (Tn eq_refl) as [-> _]; rewrite decide_True by done; solve_Permutation|].
      rewrite decide_False by done. destruct (Tt Hn) as (_ & _ & Hp). cbn [block_hold]. rewrite <- Hp. solve_Permutation.
    + intros x Hx Hlx. apply list_elem_of_In, in_rev, list_elem_of_In, M2 in Hx as [->|Hx]; [by right|]. left.
      by apply M1, list_elem_of_In, in_rev, list_elem_of_In in Hx.
  - rewrite (arrive_not i h e Hh) by by right.
    assert (Hht : hold e = -1 \/ t = -1) by (destruct (decide (h = -1)); [left; congruence|right; by apply Ht1]).
    destruct (hold_bucket_spec t dp (rev bucket) e)
      as (slots & e1 & -> & L1 & S1 & D1 & M1 & W1 & B1 & Z1 & H1 & R1 & Tn & Tt); [done|congruence|done|done|done|].
    rewrite write_bucket_idle by (cbn; by rewrite W1). eexists _, _. split; [done|].
    rewrite length_rev in L1. cbn [retarget block_hold]. split_and!.
    + unfold h'. destruct (decide (t = -1)) as [->|Hn]; (split_and!; [cbn; congruence|rewrite R1; congruence|by rewrite <- E3|done|cbn; by rewrite B1|]).
      * destruct (Tn eq_refl) as [_ E]. cbn. by rewrite E.
      * intros _. by destruct (Tt Hn) as (? & ? & _).
    + by rewrite length_rev.
    + by apply Forall_rev.
    + rewrite lives_rev, <- (lives_rev bucket). unfold held, h'. cbn [retarget block_hold].
      destruct (decide (t = -1)) as [->|Hn]; [by destruct (Tn eq_refl) as [-> ->]|].
      rewrite (decide_False (P := t = -1)) by done. destruct (Tt Hn) as (_ & _ & Hp). rewrite Hp.
      destruct (decide (h = -1)) as [_|Hh1]; [by rewrite app_nil_r|]. by destruct (Hn (Ht1 Hh1 Hne)).
    + intros x Hx Hlx. apply list_elem_of_In, in_rev, list_elem_of_In in Hx. left.
      by apply M1, list_elem_of_In, in_rev, list_elem_of_In in Hx.
Qed.

Lemma evict_levels_spec levels : forall i h tg dps tps e, 1 <= i -> holding h e -> Forall (Forall Q) levels ->
  plan i h tg dps tps levels ->
  exists levels' e', evict_levels P i tg dps tps levels e = (levels', e') /\ Q (block_hold e') /\ Q (block_write e') /\
    Forall2 (fun x y => length x = length y) levels' levels /\ Forall (Forall Q) levels' /\
    lives (concat levels') ≡ₚ lives (concat levels) ++ held h e /\
    (forall j bucket' b, levels' !! j = Some bucket' -> b ∈ bucket' -> live b ->
       (exists bucket, levels !! j = Some bucket /\ b ∈ bucket) \/ fits leaf (i + Z.of_nat j) b).
Proof.
  induction levels as [|bucket levels IH]; intros i h tg dps tps e Hi Hh Hs Hplan.
  - cbn in Hplan. subst h. destruct Hh as (_ & _ & _ & ? & ? & _). exists [], e. by split_and!.
  - cbn [plan] in Hplan. destruct Hplan as (P1 & P2 & P3 & P4 & P5). apply Forall_cons_iff in Hs as [Hsb Hs].
    cbn [evict_levels].
    destruct (evict_bucket_spec i h (hd (-1) tg) (hd (-1) dps) (hd (-1) tps) bucket e Hi Hh Hsb P1 P2 P3 P4)
      as (bucket' & e1 & -> & Hh1 & L1 & S1 & Pm1 & M1).
    destruct (IH (i + 1) _ (tl tg) (tl dps) (tl tps) e1 ltac:(lia) Hh1 Hs P5) as (levels' & e2 & -> & A & B & F2 & Fs & Pm2 & M2).
    exists (bucket' :: levels'), e2. split_and!; try done.
    + by constructor.
    + by constructor.
    + cbn [concat]. rewrite !lives_app, Pm2. etrans; [|etrans; [apply (Permutation_app_head (lives (concat levels))), Pm1|]];
        solve_Permutation.
    + intros [|j] b' b; cbn [lookup list_lookup].
      * intros [= <-] Hb Hl. rewrite Z.add_0_r. destruct (M1 b Hb Hl); [left; by exists bucket|by right].
      * intros Hj Hb Hl. destruct (M2 j b' b Hj Hb Hl) as [?|Hf]; [by left|right].
        by replace (i + Z.of_nat (S j)) with (i + 1 + Z.of_nat j) by lia.
Qed.

End Deepest.

(** Taking the deepest block of the stash, or nothing. *)
Lemma hold_stash_spec leaf t dp s bh bw : Forall Q s -> Q bh -> Q bw ->
  (t <> -1 -> exists p b, dp = Z.of_nat p /\ s !! p = Some b /\ live b /\ fits leaf t b) ->
  exists s' e1, hold_stash P 0 dp t s (mk_ev (-1) (-1) false bh bw) = (s', e1) /\ holding leaf t (retarget t e1) /\
    length s' = length s /\ Forall Q s' /\ lives s' ++ held t e1 ≡ₚ lives s /\ (forall b, b ∈ s' -> live b -> b ∈ s).
Proof.
  intros Hs Hbh Hbw Ht. destruct (decide (t = -1)) as [->|Hne].
  - rewrite hold_stash_idle by by left. exists s, (mk_ev (-1) (-1) false bh bw). split_and!; try done.
    unfold held. by rewrite decide_True, app_nil_r.
  - destruct (Ht Hne) as (p & b & -> & E3 & E4 & E5).
    assert (Hsb : Q b) by by eapply (Forall_lookup_1 _ _ _ _ Hs E3).
    rewrite (hold_stash_take _ t s 0 _ p b E3) by (done || lia). cbn [block_hold]. rewrite omove_block_Q by done.
    eexists _, _. split; [done|]. split_and!; try done.
    + unfold holding. cbn. rewrite (proj2 (Z.eqb_neq _ _) Hne). done.
    + by rewrite length_insert.
    + apply Forall_insert; [done|by apply Q_dummy].
    + unfold held. rewrite decide_False by done. cbn [block_hold].
      pose proof (lives_insert s p b (oset_block_as_dummy b (gN P) true) E3) as Hperm.
      rewrite lives1_live, (lives1_dummy (oset_block_as_dummy _ _ _)) in Hperm by (done || apply oset_dummy_true).
      rewrite <- Hperm. solve_Permutation.
    + intros x [->|?]%elem_of_insert_inv Hx; [|done]. by destruct (oset_dummy_true b).
Qed.

(** One eviction along the path to [leaf]: the blocks of stash and path are
    rearranged, none is lost, copied or changed; the stash only gets emptier;
    and a block that has moved fits its new level. *)
Lemma evict_once_spec leaf s path bh bw : 0 <= leaf -> Z.of_nat (D P) < 2 ^ 31 -> length path = D P ->
  Forall (fun b => 0 <= treeLabel b) s -> Forall (Forall (fun b => 0 <= treeLabel b)) path ->
  Forall Q s -> Forall (Forall Q) path -> Q bh -> Q bw ->
  exists s' path' bh' bw', evict_once P leaf s path bh bw = (s', path', bh', bw') /\ Q bh' /\ Q bw' /\
    length s' = length s /\ Forall Q s' /\ Forall2 (fun x y => length x = length y) path' path /\ Forall (Forall Q) path' /\
    lives s' ++ lives (concat path') ≡ₚ lives s ++ lives (concat path) /\
    (length (lives s') <= length (lives s))%nat /\ (forall b, b ∈ s' -> live b -> b ∈ s) /\
    (forall j bucket' b, path' !! j = Some bucket' -> b ∈ bucket' -> live b ->
       (exists bucket, path !! j = Some bucket /\ b ∈ bucket) \/ fits leaf (Z.of_nat (D P) - Z.of_nat j) b).
Proof.
  intros Hleaf HD Hlen Hls Hlp Hs Hp Hbh Hbw. unfold evict_once.
  pose proof (prepare_deepest_spec leaf Hleaf HD s path Hls Hlp Hlen) as Hd.
  destruct (prepare_deepest P leaf s path) as [ds dps]. destruct Hd as (L1 & L2 & Hd).
  destruct (target_levels_spec leaf ds dps (s :: map (@rev Block) (rev path)) Hd path (Z.of_nat (D P)) (-1) (-1) [] [] [])
    as (t0 & tg & tps & Et & Ht0 & Hplan); [by rewrite Hlen| |by left|done|].
  { intros j bucket Hj. pose proof (lookup_lt_Some _ _ _ Hj). destruct (length path - j)%nat eqn:E; [lia|]. cbn.
    change ((@rev Block <$> rev path) !! n = Some (rev bucket)).
    rewrite list_lookup_fmap, lookup_rev by lia. replace (length path - S n)%nat with j by lia. by rewrite Hj. }
  unfold prepare_target. rewrite Et. unfold EvictOnceFast. cbn [hd tl]. rewrite app_nil_r in Hplan.
  destruct dps as [|d0 dps]; [done|]. cbn [drop hd tl] in *.
  assert (E0 : arrive P 0 (mk_ev (-1) (-1) false bh bw) = mk_ev (-1) (-1) false bh bw) by (unfold arrive; cbn; by destruct bw).
  rewrite E0. destruct (hold_stash_spec leaf t0 d0 s bh bw Hs Hbh Hbw) as (s' & e1 & -> & Hh & Ls & Ss & Pm & Ms).
  { intros Hne. destruct (Ht0 Hne) as (Hr & bs & p & b & E1 & E2 & E3 & E4 & E5). cbn in E1, E2. injection E1 as <-. injection E2 as ->.
    by exists p, b. }
  destruct (evict_levels_spec leaf (rev path) 1 t0 tg dps tps (retarget t0 e1) ltac:(lia) Hh) as (lv & e2 & -> & A & B & F2 & Fs & Pm2 & M2);
    [by apply Forall_rev|done|].
  assert (Hll : length lv = D P) by (rewrite (Forall2_length _ _ _ F2), length_rev; done).
  exists s', (rev lv), (block_hold e2), (block_write e2). split_and!; try done.
  - rewrite <- (rev_involutive path). by rewrite !rev_alt; apply Forall2_reverse; rewrite <- !rev_alt.
  - by apply Forall_rev.
  - assert (Hc : forall l : list (list Block), lives (concat (rev l)) ≡ₚ lives (concat l)).
    { intros l. unfold lives. by rewrite <- Permutation_rev. }
    rewrite Hc, Pm2, Hc, <- Pm. change (held t0 (retarget t0 e1)) with (held t0 e1). solve_Permutation.
  - rewrite <- Pm, length_app. lia.
  - intros j bucket' b Hj Hb Hl. pose proof (lookup_lt_Some _ _ _ Hj) as Hlt. rewrite length_rev in Hlt.
    rewrite lookup_rev in Hj by done. destruct (M2 _ _ _ Hj Hb Hl) as [(bucket & Hbk & Hin)|Hf].
    + left. exists bucket. split; [|done]. rewrite lookup_rev in Hbk by (rewrite Hlen; lia).
      by replace (length path - S (length lv - S j))%nat with j in Hbk by lia.
    + right. by replace (Z.of_nat (D P) - Z.of_nat j) with (1 + Z.of_nat (length lv - S j)) by lia.
Qed.

End Evict.
