(* ===== verification/OramFacts.v ===== *)
(** * Circuit ORAM: what it promises

    The storage holds what was uploaded; an access keeps the invariant of the
    ORAM and refines a read or a write of an array; traces of accesses refine
    the array as long as the stash has room and every block is written at most
    once, before it is first read, which is how the querier uses it. *)

From S2P Require Import Prelude Crypto Oram OramEvict.

Local Open Scope Z_scope.

(** ** Serialized and encrypted blocks *)

Definition u32_block (b : Block) : Prop := is_u32 (b_id b) /\ is_u32 (treeLabel b).

Lemma parse_serialize b : u32_block b -> parse_block (serializeForAes b) = b.
Proof.
  intros [Hi Hl]. unfold parse_block, serializeForAes.
  rewrite take_app_length' by (symmetry; apply length_le_bytes).
  rewrite (drop_app_length' (le_bytes 4 _)) by (symmetry; apply length_le_bytes).
  rewrite take_app_length' by (symmetry; apply length_le_bytes).
  rewrite app_assoc, drop_app_length' by (by rewrite length_app, !length_le_bytes).
  rewrite !le_val_bytes4 by done. by destruct b.
Qed.

Section Cipher.
Context `{AesLaws} (aes_key : str).

Lemma dec_enc ctr b : length ctr = NONCE_LENGTH -> u32_block b ->
  aes_dec_serialized aes_key (aes_enc_serialized aes_key ctr b) = b.
Proof.
  intros Hc Hb. unfold aes_dec_serialized, aes_enc_serialized.
  rewrite take_app_length', drop_app_length', decrypt_encrypt by done. by apply parse_serialize.
Qed.

Context (uninit : nat -> str).
Hypothesis uninit_length : forall n, length (uninit n) = NONCE_LENGTH.

Lemma dec_enc_blocks bs : forall n, Forall u32_block bs -> map (aes_dec_serialized aes_key) (encrypt_blocks aes_key uninit n bs) = bs.
Proof.
  induction bs as [|b bs IH]; intros n Hb; [done|]. apply Forall_cons_iff in Hb as [Hb Hbs]. cbn [encrypt_blocks map].
  by rewrite dec_enc, IH.
Qed.

Lemma dec_enc_path path : forall n, Forall (Forall u32_block) path -> decryptPath aes_key (encryptPath aes_key uninit n path) = path.
Proof.
  induction path as [|bs path IH]; intros n Hb; [done|]. apply Forall_cons_iff in Hb as [Hb Hbs].
  unfold decryptPath in *. cbn [encryptPath map]. by rewrite dec_enc_blocks, IH.
Qed.

Lemma length_encrypt_path path : forall n, length (encryptPath aes_key uninit n path) = length path.
Proof. induction path as [|bs path IH]; intros n; [done|]. cbn [encryptPath length]. by rewrite IH. Qed.

End Cipher.

(** ** Paths of the storage *)

Lemma shiftr_lt a j : 1 <= a -> 0 <= j -> Z.shiftr a (1 + j) < a.
Proof.
  intros Ha Hj. rewrite Z.shiftr_div_pow2 by lia. apply Z.div_lt; [lia|]. rewrite Z.pow_add_r by lia.
  pose proof (Z.pow_pos_nonneg 2 j ltac:(lia) Hj). lia.
Qed.

Lemma uploadPath_other path : forall ls temp hs v, (forall j, (j < length path)%nat -> v <> Z.shiftr temp (Z.of_nat j)) ->
  inmem_tree (ls_uploadPath ls temp path hs) !! v = inmem_tree ls !! v.
Proof.
  induction path as [|bucket path IH]; intros ls temp hs v Hv; [done|]. cbn [ls_uploadPath]. rewrite IH.
  - cbn [ls_uploadBucket inmem_tree]. rewrite lookup_insert_ne; [done|]. intros E. apply (Hv 0%nat); [cbn; lia|]. by rewrite Z.shiftr_0_r.
  - intros j Hj. rewrite Z.shiftr_shiftr by lia. replace (1 + Z.of_nat j) with (Z.of_nat (S j)) by lia. apply Hv. cbn. lia.
Qed.

Lemma uploadPath_on path : forall ls temp hs j, 2 ^ (Z.of_nat (length path) - 1) <= temp -> (j < length path)%nat ->
  inmem_tree (ls_uploadPath ls temp path hs) !! Z.shiftr temp (Z.of_nat j) = path !! j.
Proof.
  induction path as [|bucket path IH]; intros ls temp hs j Ht Hj; [cbn in Hj; lia|]. cbn [ls_uploadPath length] in *.
  replace (Z.of_nat (S (length path)) - 1) with (Z.of_nat (length path)) in Ht by lia.
  assert (1 <= temp) by (pose proof (Z.pow_pos_nonneg 2 (Z.of_nat (length path)) ltac:(lia) ltac:(lia)); lia).
  destruct j as [|j].
  - rewrite Z.shiftr_0_r, uploadPath_other; [apply lookup_insert_eq|]. intros j _.
    rewrite Z.shiftr_shiftr by lia. pose proof (shiftr_lt temp (Z.of_nat j)). lia.
  - replace (Z.of_nat (S j)) with (1 + Z.of_nat j) by lia. rewrite <- Z.shiftr_shiftr by lia.
    apply IH; [|lia]. rewrite Z.shiftr_div_pow2 by lia. apply Z.div_le_lower_bound; [lia|].
    rewrite <- Z.pow_add_r by lia. by replace (1 + (Z.of_nat (length path) - 1)) with (Z.of_nat (length path)) by lia.
Qed.

Lemma downloadBuckets_ok ls n : forall temp, (forall j, (j < n)%nat -> is_Some (inmem_tree ls !! Z.shiftr temp (Z.of_nat j))) ->
  exists path, ls_downloadBuckets ls n temp = Ret path /\ length path = n /\
    forall j, (j < n)%nat -> path !! j = inmem_tree ls !! Z.shiftr temp (Z.of_nat j).
Proof.
  induction n as [|n IH]; intros temp Ht; [exists []; split_and!; [done|done|lia]|]. cbn [ls_downloadBuckets].
  destruct (Ht 0%nat ltac:(lia)) as [bucket Hb]. rewrite Z.shiftr_0_r in Hb. rewrite Hb. cbn [deref]. rewrite bind_ret.
  destruct (IH (Z.shiftr temp 1)) as (path & -> & Hl & Hp).
  { intros j Hj. rewrite Z.shiftr_shiftr by lia. replace (1 + Z.of_nat j) with (Z.of_nat (S j)) by lia. apply Ht. lia. }
  rewrite bind_ret. exists (bucket :: path). split_and!; [done|cbn; lia|]. intros [|j] Hj; [by rewrite Z.shiftr_0_r|].
  cbn [lookup list_lookup]. rewrite Hp by lia. rewrite Z.shiftr_shiftr by lia. by replace (1 + Z.of_nat j) with (Z.of_nat (S j)) by lia.
Qed.

(** ** The invariant

    Stated on what the enclave would see: position map [pm], stash [s] and
    decrypted buckets [T], for an array with contents [M]. *)

Section Invariant.
Context (P : params).

(** The parameters the code can work with: at least two levels (else a shift
    by the full width), labels of 32 bits, data in whole words. *)
Definition config_ok : Prop :=
  (2 <= D P <= 32)%nat /\ (8 * words (data_size P) = data_size P)%nat /\ (0 < data_size P)%nat /\ 0 < max_blocks P < 2 ^ 32.

Definition is_leaf (l : Z) : Prop := N P <= l < 2 * N P.
Definition is_node (v : Z) : Prop := 1 <= v < 2 * N P.
Definition good_block (b : Block) : Prop := sized P b /\ u32_block b.
Definition valid (M : Z -> str) (b : Block) : Prop := 0 <= b_id b < gN P /\ b_data b = M (b_id b).

Record inv (pm : list Z) (s : list Block) (T : Z -> list Block) (M : Z -> str) : Prop := mk_inv {
  inv_posmap : Z.of_nat (length pm) = gN P;
  inv_leaves : Forall is_leaf pm;
  inv_stash_good : length s = stash_size P /\ Forall good_block s;
  inv_tree_good v : is_node v -> length (T v) = Zb P /\ Forall good_block (T v);
  inv_stash b : b ∈ s -> live P b -> is_leaf (treeLabel b) /\ valid M b;
  inv_tree v b : is_node v -> b ∈ T v -> live P b ->
    is_leaf (treeLabel b) /\ valid M b /\ exists j, (j < D P)%nat /\ v = Z.shiftr (treeLabel b) (Z.of_nat j);
  inv_found i l : pm !! i = Some l ->
    exists b, (b ∈ s \/ exists v, is_node v /\ b ∈ T v) /\ b_id b = Z.of_nat i /\ treeLabel b = l
}.

(** All copies of block [i] are on the path the position map names. *)
Definition fresh (pm : list Z) (s : list Block) (T : Z -> list Block) (i : Z) : Prop :=
  (forall b, b ∈ s -> b_id b <> i) /\
  forall v b, is_node v -> b ∈ T v -> b_id b = i -> pm !! Z.to_nat i = Some (treeLabel b).

(** [T'] is [T] with the buckets on the path to [leaf] replaced. *)
Definition updated (T : Z -> list Block) (leaf : Z) (path : list (list Block)) (T' : Z -> list Block) : Prop :=
  (forall j bucket, path !! j = Some bucket -> T' (Z.shiftr leaf (Z.of_nat j)) = bucket) /\
  forall v, (forall j, (j < D P)%nat -> v <> Z.shiftr leaf (Z.of_nat j)) -> T' v = T v.

Definition path_of (T : Z -> list Block) (leaf : Z) : list (list Block) :=
  map (fun j => T (Z.shiftr leaf (Z.of_nat j))) (seq 0 (D P)).

Lemma N_pow : N P = 2 ^ (Z.of_nat (D P) - 1).
Proof.
  unfold N, D. f_equal. assert (0 <= pD P) by apply Z.log2_up_nonneg. lia.
Qed.

Lemma length_path_of T leaf : length (path_of T leaf) = D P.
Proof. unfold path_of. by rewrite length_map, length_seq. Qed.

Lemma path_of_lookup T leaf j : (j < D P)%nat -> path_of T leaf !! j = Some (T (Z.shiftr leaf (Z.of_nat j))).
Proof.
  intros Hj. unfold path_of. change (((fun j => T (Z.shiftr leaf (Z.of_nat j))) <$> seq 0 (D P)) !! j = Some (T (Z.shiftr leaf (Z.of_nat j)))).
  by rewrite list_lookup_fmap, lookup_seq_lt.
Qed.

Lemma path_of_inv T leaf j bucket : path_of T leaf !! j = Some bucket -> (j < D P)%nat /\ bucket = T (Z.shiftr leaf (Z.of_nat j)).
Proof.
  intros E. assert (Hj := lookup_lt_Some _ _ _ E). rewrite length_path_of in Hj. split; [done|].
  rewrite path_of_lookup in E by done. congruence.
Qed.

Lemma leaf_node l j : is_leaf l -> (j < D P)%nat -> is_node (Z.shiftr l (Z.of_nat j)).
Proof.
  unfold is_leaf, is_node. rewrite N_pow. intros Hl Hj. rewrite Z.shiftr_div_pow2 by lia.
  assert (Hp := Z.pow_pos_nonneg 2 (Z.of_nat j) ltac:(lia) ltac:(lia)). split.
  - apply Z.div_le_lower_bound; [done|]. rewrite Z.mul_1_r. etrans; [|apply Hl]. apply Z.pow_le_mono_r; lia.
  - apply Z.div_lt_upper_bound; [done|]. nia.
Qed.

Lemma on_path_dec leaf v : (exists j, (j < D P)%nat /\ v = Z.shiftr leaf (Z.of_nat j)) \/
  forall j, (j < D P)%nat -> v <> Z.shiftr leaf (Z.of_nat j).
Proof.
  destruct (decide (v ∈ map (fun j => Z.shiftr leaf (Z.of_nat j)) (seq 0 (D P)))) as [Hin|Hin].
  - left. apply list_elem_of_fmap in Hin as (j & -> & Hj). apply elem_of_seq in Hj. exists j. split; [lia|done].
  - right. intros j Hj ->. apply Hin. apply list_elem_of_fmap. exists j. split; [done|]. apply elem_of_seq. lia.
Qed.

(** Where the blocks of a replaced path are. *)
Lemma updated_tree T leaf path T' : is_leaf leaf -> length path = D P -> updated T leaf path T' -> forall v b, b ∈ T' v ->
  (exists j bucket, (j < D P)%nat /\ v = Z.shiftr leaf (Z.of_nat j) /\ path !! j = Some bucket /\ b ∈ bucket) \/
  ((forall j, (j < D P)%nat -> v <> Z.shiftr leaf (Z.of_nat j)) /\ b ∈ T v).
Proof.
  intros Hl Hlen [U1 U2] v b Hb. destruct (on_path_dec leaf v) as [(j & Hj & ->)|Hoff].
  - destruct (path !! j) as [bucket|] eqn:E; [|apply lookup_ge_None in E; lia].
    left. exists j, bucket. rewrite (U1 j bucket E) in Hb. by split_and!.
  - right. split; [done|]. by rewrite <- (U2 v Hoff).
Qed.

Lemma elem_of_path T leaf b : b ∈ concat (path_of T leaf) <-> exists j, (j < D P)%nat /\ b ∈ T (Z.shiftr leaf (Z.of_nat j)).
Proof.
  rewrite list_elem_of_In, in_concat. split.
  - intros (bucket & Hin & Hb). apply list_elem_of_In, list_elem_of_lookup in Hin as (j & Hj).
    apply path_of_inv in Hj as [Hj ->]. exists j. split; [done|]. by apply list_elem_of_In.
  - intros (j & Hj & Hb). exists (T (Z.shiftr leaf (Z.of_nat j))). split; [|by apply list_elem_of_In].
    apply list_elem_of_In, list_elem_of_lookup. exists j. by apply path_of_lookup.
Qed.

(** ** Eviction keeps the invariant *)

Lemma elem_lives b bs : b ∈ lives P bs <-> live P b /\ b ∈ bs.
Proof. unfold lives. by rewrite list_elem_of_filter. Qed.

Lemma good_label b : good_block b -> 0 <= treeLabel b.
Proof. intros [_ [_ Hl]]. unfold is_u32 in Hl. lia. Qed.

Lemma path_good T leaf : is_leaf leaf -> (forall v, is_node v -> length (T v) = Zb P /\ Forall good_block (T v)) ->
  Forall (Forall good_block) (path_of T leaf).
Proof.
  intros Hl HT. apply Forall_lookup. intros j bucket Hj. apply path_of_inv in Hj as [Hj ->].
  by apply HT, leaf_node.
Qed.

Lemma Forall_good_sized bs : Forall good_block bs -> Forall (sized P) bs.
Proof. intros Hb. eapply Forall_impl; [exact Hb|]. by intros b []. Qed.

Lemma Forall_good_label bs : Forall good_block bs -> Forall (fun b => 0 <= treeLabel b) bs.
Proof. intros Hb. eapply Forall_impl; [exact Hb|]. apply good_label. Qed.

Hypothesis cfg : config_ok.

Lemma D_bound : Z.of_nat (D P) < 2 ^ 31.
Proof. destruct cfg as [? _]. lia. Qed.

Lemma good_dummy b : good_block b -> good_block (oset_block_as_dummy b (gN P) true).
Proof.
  intros [H1 [H2 H3]]. split; [exact H1|]. split; [|exact H3]. destruct cfg as (_ & _ & _ & Hm). unfold is_u32, gN. cbn. lia.
Qed.

(** The eviction of a path, applied to the invariant's data. *)
Lemma evict_once_path s T leaf bh bw : is_leaf leaf -> Forall good_block s ->
  (forall v, is_node v -> length (T v) = Zb P /\ Forall good_block (T v)) -> good_block bh -> good_block bw ->
  exists s' path' bh' bw', evict_once P leaf s (path_of T leaf) bh bw = (s', path', bh', bw') /\ good_block bh' /\ good_block bw' /\
    length s' = length s /\ Forall good_block s' /\ length path' = D P /\ Forall (Forall good_block) path' /\
    Forall (fun bucket => length bucket = Zb P) path' /\
    lives P s' ++ lives P (concat path') ≡ₚ lives P s ++ lives P (concat (path_of T leaf)) /\
    (length (lives P s') <= length (lives P s))%nat /\ (forall b, b ∈ s' -> live P b -> b ∈ s) /\
    (forall j bucket' b, path' !! j = Some bucket' -> b ∈ bucket' -> live P b ->
       b ∈ T (Z.shiftr leaf (Z.of_nat j)) \/ Z.shiftr (treeLabel b) (Z.of_nat j) = Z.shiftr leaf (Z.of_nat j)).
Proof.
  intros Hl Hs HT Hbh Hbw. pose proof (path_good T leaf Hl HT) as Hp. destruct cfg as (HD & Hw & _).
  assert (0 <= leaf) by (destruct Hl; unfold N in *; pose proof (Z.pow_nonneg 2 (pD P)); lia).
  destruct (evict_once_spec P Hw good_block (fun b => @proj1 _ _) good_dummy leaf s (path_of T leaf) bh bw) as
    (s' & path' & bh' & bw' & E & A1 & A2 & A3 & A4 & A5 & A6 & A7 & A7' & A8 & A9); try done.
  - apply D_bound.
  - apply length_path_of.
  - by apply Forall_good_label.
  - eapply Forall_impl; [exact Hp|]. apply Forall_good_label.
  - assert (Hlen : length path' = D P) by (rewrite (Forall2_length _ _ _ A5); apply length_path_of).
    exists s', path', bh', bw'. split_and!; try done.
    + apply Forall_lookup. intros j bucket Hj. destruct (Forall2_lookup_l _ _ _ _ _ A5 Hj) as (b0 & Hb0 & ->).
      apply path_of_inv in Hb0 as [Hj' ->]. by apply HT, leaf_node.
    + intros j bucket' b Hj Hb Hlb. destruct (A9 j bucket' b Hj Hb Hlb) as [(bucket & Hbk & Hin)|Hf].
      * left. by apply path_of_inv in Hbk as [_ ->].
      * right. unfold fits in Hf. by replace (Z.of_nat (D P) - (Z.of_nat (D P) - Z.of_nat j)) with (Z.of_nat j) in Hf by lia.
Qed.

(** Blocks after an eviction were in the stash or in the tree before. *)
Lemma evicted_from s s' T leaf path' b : is_leaf leaf -> live P b ->
  lives P s' ++ lives P (concat path') ≡ₚ lives P s ++ lives P (concat (path_of T leaf)) ->
  (b ∈ s' \/ b ∈ concat path') <-> (b ∈ s \/ exists j, (j < D P)%nat /\ b ∈ T (Z.shiftr leaf (Z.of_nat j))).
Proof.
  intros Hl Hb Hp. rewrite <- elem_of_path.
  assert (E : b ∈ lives P s' ++ lives P (concat path') <-> b ∈ lives P s ++ lives P (concat (path_of T leaf))) by by rewrite Hp.
  rewrite !elem_of_app, !elem_lives in E. tauto.
Qed.

Lemma elem_concat_lookup (path : list (list Block)) b : b ∈ concat path <-> exists j bucket, path !! j = Some bucket /\ b ∈ bucket.
Proof.
  rewrite list_elem_of_In, in_concat. split.
  - intros (bucket & Hin & Hb). apply list_elem_of_In, list_elem_of_lookup in Hin as (j & Hj). exists j, bucket.
    split; [done|]. by apply list_elem_of_In.
  - intros (j & bucket & Hj & Hb). exists bucket. split; [|by apply list_elem_of_In].
    apply list_elem_of_In, list_elem_of_lookup. by exists j.
Qed.

Section Evicted.
Context (pm : list Z) (s s' : list Block) (T T' : Z -> list Block) (leaf : Z) (path' : list (list Block)).
Hypothesis leaf_ok : is_leaf leaf.
Hypothesis s'_good : length s' = length s /\ Forall good_block s'.
Hypothesis path'_length : length path' = D P.
Hypothesis path'_good : Forall (Forall good_block) path' /\ Forall (fun bucket => length bucket = Zb P) path'.
Hypothesis perm : lives P s' ++ lives P (concat path') ≡ₚ lives P s ++ lives P (concat (path_of T leaf)).
Hypothesis s'_sub : forall b, b ∈ s' -> live P b -> b ∈ s.
Hypothesis moved : forall j bucket' b, path' !! j = Some bucket' -> b ∈ bucket' -> live P b ->
  b ∈ T (Z.shiftr leaf (Z.of_nat j)) \/ Z.shiftr (treeLabel b) (Z.of_nat j) = Z.shiftr leaf (Z.of_nat j).
Hypothesis upd : updated T leaf path' T'.

(** A live block of the new tree was in the stash or in the old tree. *)
Lemma new_tree_from v b : is_node v -> b ∈ T' v -> live P b -> b ∈ s \/ exists v, is_node v /\ b ∈ T v.
Proof.
  intros Hv Hb Hl. destruct (updated_tree T leaf path' T' leaf_ok path'_length upd v b Hb) as [(j & bucket & Hj & -> & Hp & Hin)|[_ Hin]].
  - assert (Hc : b ∈ s' \/ b ∈ concat path') by (right; apply elem_concat_lookup; eauto).
    apply (evicted_from s s' T leaf path' b leaf_ok Hl perm) in Hc as [?|(j' & Hj' & Hin')]; [by left|]. right.
    exists (Z.shiftr leaf (Z.of_nat j')). split; [by apply leaf_node|done].
  - right. by exists v.
Qed.

(** No block is lost. *)
Lemma still_there b : live P b -> b ∈ s \/ (exists v, is_node v /\ b ∈ T v) -> b ∈ s' \/ exists v, is_node v /\ b ∈ T' v.
Proof.
  intros Hl Hb. assert (Hon : b ∈ s \/ (exists j, (j < D P)%nat /\ b ∈ T (Z.shiftr leaf (Z.of_nat j))) -> b ∈ s' \/ exists v, is_node v /\ b ∈ T' v).
  { intros Hc. apply (evicted_from s s' T leaf path' b leaf_ok Hl perm) in Hc as [?|Hc]; [by left|]. right.
    apply elem_concat_lookup in Hc as (j & bucket & Hj & Hin). assert (Hlt := lookup_lt_Some _ _ _ Hj).
    exists (Z.shiftr leaf (Z.of_nat j)). split; [apply leaf_node; [done|lia]|]. by rewrite (proj1 upd j bucket Hj). }
  destruct Hb as [Hb|(v & Hv & Hb)]; [by apply Hon; left|]. destruct (on_path_dec leaf v) as [(j & Hj & ->)|Hoff].
  - apply Hon. right. by exists j.
  - right. exists v. split; [done|]. by rewrite (proj2 upd v Hoff).
Qed.

Lemma inv_evicted M : inv pm s T M -> inv pm s' T' M.
Proof.
  intros [I1 I2 [I3 I3'] I4 I5 I6 I7]. split; [done|done|split; [lia|apply s'_good]| | | |].
  - intros v Hv. destruct (on_path_dec leaf v) as [(j & Hj & ->)|Hoff].
    + destruct (path' !! j) as [bucket|] eqn:E; [|apply lookup_ge_None in E; lia]. rewrite (proj1 upd j bucket E).
      destruct path'_good as [Hg Hz]. by split; eapply Forall_lookup_1 in E; eauto.
    + rewrite (proj2 upd v Hoff). by apply I4.
  - intros b Hb Hl. apply I5; auto.
  - intros v b Hv Hb Hl.
    assert (Hbefore : is_leaf (treeLabel b) /\ valid M b).
    { destruct (new_tree_from v b Hv Hb Hl) as [Hs|(v' & Hv' & Hin)]; [by apply I5|].
      by destruct (I6 v' b Hv' Hin Hl) as (? & ? & _). }
    destruct Hbefore as [Hleaf Hval]. split_and!; [done|done|].
    destruct (updated_tree T leaf path' T' leaf_ok path'_length upd v b Hb) as [(j & bucket & Hj & -> & Hp & Hin)|[_ Hin]].
    + destruct (moved j bucket b Hp Hin Hl) as [Hold|E]; [|by exists j].
      by destruct (I6 _ b Hv Hold Hl) as (_ & _ & ?).
    + by destruct (I6 v b Hv Hin Hl) as (_ & _ & ?).
  - intros i l Hi. destruct (I7 i l Hi) as (b & Hb & Hid & Hlab). exists b. split; [|done]. apply still_there; [|done].
    unfold live. apply lookup_lt_Some in Hi. lia.
Qed.

Lemma fresh_evicted i : i <> gN P -> fresh pm s T i -> fresh pm s' T' i.
Proof.
  intros Hi [F1 F2]. assert (Hlive : forall b, b_id b = i -> live P b) by (unfold live; congruence). split.
  - intros b Hb E. apply (F1 b); [|done]. auto.
  - intros v b Hv Hb E. destruct (new_tree_from v b Hv Hb (Hlive b E)) as [Hs|(v' & Hv' & Hin)]; [by destruct (F1 b Hs)|].
    by apply (F2 v').
Qed.

End Evicted.

(** ** Fetching a block *)

Definition without (id : Z) (b : Block) : Block := oset_block_as_dummy b (gN P) (b_id b =? id).

(** [r'] is the last block of [bs] with number [id], or [r] if there is none. *)
Definition fetched (id : Z) (bs : list Block) (r r' : Block) : Prop :=
  (r' = r /\ forall b, b ∈ bs -> b_id b <> id) \/ (r' ∈ bs /\ b_id r' = id).

Lemma fetched_app id l1 l2 r1 r2 r3 : fetched id l1 r1 r2 -> fetched id l2 r2 r3 -> fetched id (l1 ++ l2) r1 r3.
Proof.
  intros [[-> H1]|[H1 E1]] [[-> H2]|[H2 E2]].
  - left. split; [done|]. intros b [Hb|Hb]%elem_of_app; auto.
  - right. split; [apply elem_of_app; by right|done].
  - right. split; [apply elem_of_app; by left|done].
  - right. split; [apply elem_of_app; by right|done].
Qed.

Lemma omove_good d s : good_block d -> good_block s -> omove_serialized_block d s (data_size P) true = s.
Proof. intros [Hd _] [Hs _]. destruct cfg as (_ & Hw & _). by apply omove_block_true. Qed.

Lemma fetch_bucket_spec id bucket : forall r, good_block r -> Forall good_block bucket ->
  exists r', fetch_bucket P id bucket r = (map (without id) bucket, r') /\ good_block r' /\ fetched id bucket r r'.
Proof.
  induction bucket as [|b bucket IH]; intros r Hr Hb.
  { exists r. split_and!; [done|done|]. left. split; [done|]. by intros b Hb'%elem_of_nil. }
  apply Forall_cons_iff in Hb as [Hb Hbs]. cbn [fetch_bucket map]. destruct (b_id b =? id) eqn:E.
  - rewrite omove_good by done. destruct (IH b Hb Hbs) as (r' & -> & Hr' & Hf). exists r'.
    replace (without id b) with (oset_block_as_dummy b (gN P) true) by (unfold without; by rewrite E).
    split_and!; [done|done|]. apply (fetched_app id [b] bucket r b r'); [|done]. right. apply Z.eqb_eq in E. split; [left|done].
  - rewrite omove_block_false. destruct (IH r Hr Hbs) as (r' & -> & Hr' & Hf). exists r'.
    replace (without id b) with (oset_block_as_dummy b (gN P) false) by (unfold without; by rewrite E).
    split_and!; [done|done|]. apply (fetched_app id [b] bucket r r r'); [|done]. left. split; [done|].
    apply Z.eqb_neq in E. by intros b' ->%list_elem_of_singleton.
Qed.

Lemma fetch_path_spec id path : forall r, good_block r -> Forall (Forall good_block) path ->
  exists r', fetch_path P id path r = (map (map (without id)) path, r') /\ good_block r' /\ fetched id (concat path) r r'.
Proof.
  induction path as [|bucket path IH]; intros r Hr Hb.
  { exists r. split_and!; [done|done|]. left. split; [done|]. by intros b Hb'%elem_of_nil. }
  apply Forall_cons_iff in Hb as [Hb Hbs]. cbn [fetch_path map concat].
  destruct (fetch_bucket_spec id bucket r Hr Hb) as (r1 & -> & Hr1 & Hf1).
  destruct (IH r1 Hr1 Hbs) as (r2 & -> & Hr2 & Hf2). exists r2. split_and!; [done|done|]. by eapply fetched_app.
Qed.

Lemma fetch_stash_spec id s : id <> gN P -> forall r, good_block r -> Forall good_block s ->
  good_block (fetch_stash P id s r) /\ fetched id s r (fetch_stash P id s r).
Proof.
  intros Hid. induction s as [|b s IH]; intros r Hr Hb.
  { split; [done|]. left. split; [done|]. by intros b Hb'%elem_of_nil. }
  apply Forall_cons_iff in Hb as [Hb Hbs]. cbn [fetch_stash]. destruct (b_id b =? id) eqn:E; cbn [andb].
  - apply Z.eqb_eq in E. rewrite (proj2 (dummy_false P b)) by (unfold live; congruence). cbn [negb].
    rewrite omove_good by done. destruct (IH b Hb Hbs) as [Hg Hf]. split; [done|].
    apply (fetched_app id [b] s r b); [|done]. right. split; [left|done].
  - rewrite omove_block_false. destruct (IH r Hr Hbs) as [Hg Hf]. split; [done|].
    apply (fetched_app id [b] s r r); [|done]. left. split; [done|]. apply Z.eqb_neq in E. by intros b' ->%list_elem_of_singleton.
Qed.

(** A stash with a dummy takes a block in place of the first one. *)
Definition room (s : list Block) : Prop := exists b, b ∈ s /\ ~ live P b.

Lemma pass_insert_done s b : pass_insert_loop P s b false true = s.
Proof.
  induction s as [|x s IH]; [done|]. cbn [pass_insert_loop orb]. rewrite andb_false_r, omove_block_false. by rewrite IH.
Qed.

Lemma pass_insert_spec s b : Forall good_block s -> good_block b -> room s ->
  exists k x, s !! k = Some x /\ ~ live P x /\ pass_insert P s b false = <[k := b]> s.
Proof.
  intros Hs Hb (y & Hy & Hd). unfold pass_insert. induction s as [|x s IH]; [by apply elem_of_nil in Hy|].
  apply Forall_cons_iff in Hs as [Hx Hs]. cbn [pass_insert_loop negb andb orb].
  destruct (isBlockDummy P x) eqn:E; cbn [andb].
  - exists 0%nat, x. rewrite omove_good, pass_insert_done by done. split_and!; [done|by apply dummy_true|done].
  - rewrite omove_block_false. apply dummy_false in E. apply elem_of_cons in Hy as [->|Hy]; [done|].
    destruct (IH Hs Hy) as (k & x' & Hk & Hx' & ->). by exists (S k), x'.
Qed.

Lemma without_good id path : Forall (Forall good_block) path -> Forall (Forall good_block) (map (map (without id)) path).
Proof.
  intros Hp. apply Forall_fmap. eapply Forall_impl; [exact Hp|]. intros bucket Hb. apply Forall_fmap.
  eapply Forall_impl; [exact Hb|]. intros b Hg. unfold compose, without.
  destruct (_ =? _); [by apply good_dummy|by rewrite oset_dummy_false].
Qed.

Section Fetched.
Context (pm : list Z) (s : list Block) (T : Z -> list Block) (M : Z -> str) (id leaf : Z).
Hypothesis I : inv pm s T M.
Hypothesis id_range : 0 <= id < gN P.
Hypothesis id_leaf : pm !! Z.to_nat id = Some leaf.

Lemma id_live b : b_id b = id -> live P b.
Proof. unfold live. lia. Qed.

Lemma leaf_is_leaf : is_leaf leaf.
Proof. exact (Forall_lookup_1 _ _ _ _ (inv_leaves _ _ _ _ I) id_leaf). Qed.

(** A copy with the right label is on the path. *)
Lemma labelled_on_path v b : is_node v -> b ∈ T v -> live P b -> treeLabel b = leaf -> b ∈ concat (path_of T leaf).
Proof.
  intros Hv Hb Hl E. destruct (inv_tree _ _ _ _ I v b Hv Hb Hl) as (_ & _ & j & Hj & ->). rewrite E in *.
  apply elem_of_path. by exists j.
Qed.

(** What a fetch finds is the contents of the array. *)
Lemma fetch_result r0 r1 r2 : fetched id (concat (path_of T leaf)) r0 r1 -> fetched id s r1 r2 ->
  b_id r2 = id /\ b_data r2 = M id.
Proof.
  intros Hp Hs. destruct (fetched_app _ _ _ _ _ _ Hp Hs) as [[_ Hno]|[Hin Hid]].
  - exfalso. destruct (inv_found _ _ _ _ I _ _ id_leaf) as (b & Hb & E & Hl). rewrite Z2Nat.id in E by lia.
    apply (Hno b); [|done]. apply elem_of_app. destruct Hb as [Hb|(v & Hv & Hb)]; [by right|]. left.
    apply (labelled_on_path v); [done|done|by apply id_live|done].
  - split; [done|]. assert (Hl := id_live r2 Hid). rewrite <- Hid. apply elem_of_app in Hin as [Hin|Hin].
    + apply elem_of_path in Hin as (j & Hj & Hin).
      by destruct (inv_tree _ _ _ _ I _ r2 (leaf_node leaf j leaf_is_leaf Hj) Hin Hl) as (_ & [_ ?] & _).
    + by destruct (inv_stash _ _ _ _ I r2 Hin Hl) as (_ & _ & ?).
Qed.

Context (T' : Z -> list Block) (M' : Z -> str) (newleaf : Z) (data : str) (k : nat) (x : Block).
Let nb := mk_Block id newleaf data.
Hypothesis upd : updated T leaf (map (map (without id)) (path_of T leaf)) T'.
Hypothesis nb_good : good_block nb.
Hypothesis newleaf_leaf : is_leaf newleaf.
Hypothesis slot : s !! k = Some x.
Hypothesis slot_dummy : ~ live P x.
Hypothesis M'_id : M' id = data.
Hypothesis M'_other : forall i, i <> id -> M' i = M i.
Hypothesis overwrite : M' id = M id \/ fresh pm s T id.

Lemma length_without : length (map (map (without id)) (path_of T leaf)) = D P.
Proof. by rewrite length_map, length_path_of. Qed.

(** A live block of the new tree is an old one with another number. *)
Lemma kept_tree v b : is_node v -> b ∈ T' v -> live P b -> b ∈ T v /\ (b_id b = id -> treeLabel b <> leaf).
Proof.
  intros Hv Hb Hl. destruct (updated_tree T leaf _ T' leaf_is_leaf length_without upd v b Hb) as [(j & bucket & Hj & -> & Hp & Hin)|[Hoff Hin]].
  - change (map (map (without id)) (path_of T leaf)) with (map (without id) <$> path_of T leaf) in Hp.
    rewrite list_lookup_fmap, path_of_lookup in Hp by done. injection Hp as <-.
    apply list_elem_of_fmap in Hin as (b0 & -> & Hin). unfold without in *. destruct (b_id b0 =? id) eqn:E.
    + by destruct (oset_dummy_true P b0).
    + rewrite oset_dummy_false. split; [done|]. apply Z.eqb_neq in E. done.
  - split; [done|]. intros Hid Hlab. destruct (inv_tree _ _ _ _ I v b Hv Hin Hl) as (_ & _ & j & Hj & E).
    rewrite Hlab in E. by apply (Hoff j).
Qed.

Lemma tree_kept v b : is_node v -> b ∈ T v -> b_id b <> id -> b ∈ T' v.
Proof.
  intros Hv Hb Hid. destruct (on_path_dec leaf v) as [(j & Hj & ->)|Hoff]; [|by rewrite (proj2 upd v Hoff)].
  rewrite (proj1 upd j (map (without id) (T (Z.shiftr leaf (Z.of_nat j))))).
  - apply list_elem_of_fmap. exists b. split; [|done]. unfold without. rewrite (proj2 (Z.eqb_neq _ _) Hid). by rewrite oset_dummy_false.
  - change (map (map (without id)) (path_of T leaf)) with (map (without id) <$> path_of T leaf).
    by rewrite list_lookup_fmap, path_of_lookup.
Qed.

Lemma stash_kept b : b ∈ s -> live P b -> b ∈ <[k := nb]> s.
Proof.
  intros (j & Hj)%list_elem_of_lookup Hl. apply list_elem_of_lookup. exists j.
  rewrite list_lookup_insert_ne; [done|]. intros E. apply slot_dummy. rewrite E in slot. by replace x with b by congruence.
Qed.

Lemma old_copies_valid b : valid M b -> (b_id b = id -> M' id = M id) -> valid M' b.
Proof.
  intros [H1 H2] Hid. split; [done|]. destruct (decide (b_id b = id)) as [E|E]; [|by rewrite M'_other].
  rewrite H2, E. symmetry. by apply Hid.
Qed.

Lemma nb_stash : nb ∈ <[k := nb]> s.
Proof. apply list_elem_of_insert. by eapply lookup_lt_Some. Qed.

Lemma inv_fetched : inv (<[Z.to_nat id := newleaf]> pm) (<[k := nb]> s) T' M'.
Proof.
  destruct I as [I1 I2 [I3 I3'] I4 I5 I6 I7]. assert (Hnb : live P nb) by by apply id_live. split.
  - by rewrite length_insert.
  - by apply Forall_insert.
  - rewrite length_insert. split; [done|]. by apply Forall_insert.
  - intros v Hv. destruct (on_path_dec leaf v) as [(j & Hj & ->)|Hoff]; [|rewrite (proj2 upd v Hoff); by apply I4].
    rewrite (proj1 upd j (map (without id) (T (Z.shiftr leaf (Z.of_nat j))))).
    + rewrite length_map. destruct (I4 _ Hv) as [Hz Hg]. split; [done|]. apply Forall_fmap. eapply Forall_impl; [exact Hg|].
      intros b Hb. unfold compose, without. destruct (_ =? _); [by apply good_dummy|]. by rewrite oset_dummy_false.
    + change (map (map (without id)) (path_of T leaf)) with (map (without id) <$> path_of T leaf).
      by rewrite list_lookup_fmap, path_of_lookup.
  - intros b [->|Hb]%elem_of_insert_inv Hl; [split; [done|]; by split|]. destruct (I5 b Hb Hl) as [? Hv]. split; [done|].
    apply old_copies_valid; [done|]. intros E. destruct overwrite as [?|[Hf _]]; [done|]. by destruct (Hf b Hb).
  - intros v b Hv Hb Hl. destruct (kept_tree v b Hv Hb Hl) as [Hin Hid]. destruct (I6 v b Hv Hin Hl) as (? & Hval & ?).
    split_and!; [done| |done]. apply old_copies_valid; [done|]. intros E. destruct overwrite as [?|[_ Hf]]; [done|].
    destruct (Hid E). specialize (Hf v b Hv Hin E). congruence.
  - intros i l Hi. destruct (decide (i = Z.to_nat id)) as [->|Hne].
    + rewrite list_lookup_insert_eq in Hi by by eapply lookup_lt_Some. injection Hi as <-. exists nb.
      split_and!; [left; apply nb_stash|cbn; lia|done].
    + rewrite list_lookup_insert_ne in Hi by done. destruct (I7 i l Hi) as (b & Hb & E & Hlab). exists b. split; [|done].
      assert (Hl : live P b) by (unfold live; apply lookup_lt_Some in Hi; lia).
      destruct Hb as [Hb|(v & Hv & Hb)]; [left; by apply stash_kept|]. right. exists v. split; [done|].
      apply tree_kept; [done|done|lia].
Qed.

Lemma fresh_fetched i : 0 <= i < gN P -> i <> id -> fresh pm s T i -> fresh (<[Z.to_nat id := newleaf]> pm) (<[k := nb]> s) T' i.
Proof.
  intros Hi Hne [F1 F2]. split.
  - intros b [->|Hb]%elem_of_insert_inv; [done|]. by apply F1.
  - intros v b Hv Hb E. assert (Hl : live P b) by (unfold live; lia). destruct (kept_tree v b Hv Hb Hl) as [Hin _].
    rewrite list_lookup_insert_ne by lia. by apply (F2 v).
Qed.

Lemma lives_fetched : length (lives P (<[k := nb]> s)) = S (length (lives P s)).
Proof.
  pose proof (lives_insert P s k x nb slot) as Hp. rewrite lives1_dummy, lives1_live in Hp by (done || by apply id_live).
  cbn [app] in Hp. by rewrite Hp.
Qed.

End Fetched.

End Invariant.
