(* ===== verification/OramAccess.v ===== *)
(** * Circuit ORAM: accesses refine an array

    The invariant of OramFacts.v on states of the ORAM: every operation of
    CircuitORAM_Enclave.cpp succeeds in it and keeps it, an access returns what
    the array holds, and a new ORAM is in it. *)

From S2P Require Import Prelude Crypto Oram OramEvict OramFacts.

Local Open Scope Z_scope.

Section State.
Context `{Crypto} `{AesLaws} (aes_key : str) (uninit : nat -> str) (beyond : str) (P : params).
Hypothesis uninit_length : forall n, length (uninit n) = NONCE_LENGTH.
Hypothesis cfg : config_ok P.

(** What the enclave sees when it decrypts bucket [v]. *)
Definition tree_at (ls : LocalStorage) (v : Z) : list Block :=
  map (aes_dec_serialized aes_key) (default [] (inmem_tree ls !! v)).

Definition stored (ls : LocalStorage) : Prop := forall v, is_node P v -> is_Some (inmem_tree ls !! v).

Record oram_inv (st : oram) (M : Z -> str) : Prop := mk_oram_inv {
  oi_view : inv P (posmap st) (stash st) (tree_at (storage st)) M;
  oi_stored : stored (storage st);
  oi_result : good_block P (serialized_result_block st);
  oi_hold : good_block P (serialized_block_hold st);
  oi_write : good_block P (serialized_block_write st);
  oi_counter : is_u32 (access_counter st)
}.

(** [i] has not been accessed since the ORAM was built. *)
Definition untouched (st : oram) (i : Z) : Prop := fresh P (posmap st) (stash st) (tree_at (storage st)) i.

(** ** Down- and upload of a path *)

Lemma downloadPath_spec st leaf : stored (storage st) -> is_leaf P leaf -> exists hs,
  downloadPath aes_key P st leaf = Ret (path_of P (tree_at (storage st)) leaf,
    mk_oram (posmap st) (stash st) (access_counter st) (serialized_result_block st) (serialized_block_hold st)
      (serialized_block_write st) (merkle_root_hash st) hs (new_path_hash st) (storage st) (mallocs st)).
Proof.
  intros Hst Hl. unfold downloadPath.
  destruct (downloadBuckets_ok (storage st) (D P) leaf) as (path & -> & Hlen & Hp).
  { intros j Hj. by apply Hst, leaf_node. }
  rewrite bind_ret. eexists. do 2 f_equal. apply list_eq. intros j. unfold decryptPath.
  change ((map (aes_dec_serialized aes_key) <$> path) !! j = path_of P (tree_at (storage st)) leaf !! j).
  rewrite list_lookup_fmap. destruct (decide (j < D P)%nat) as [Hj|Hj].
  - rewrite path_of_lookup by done. rewrite Hp by done. unfold tree_at.
    destruct (Hst (Z.shiftr leaf (Z.of_nat j))) as [bucket ->]; [by apply leaf_node|done].
  - rewrite lookup_ge_None_2 by lia. symmetry. apply lookup_ge_None_2. rewrite length_path_of. lia.
Qed.

Lemma encryptPath_lookup path : forall n j bucket, path !! j = Some bucket -> Forall (Forall u32_block) path ->
  exists encrypted, encryptPath aes_key uninit n path !! j = Some encrypted /\ map (aes_dec_serialized aes_key) encrypted = bucket.
Proof.
  intros n j bucket Hj Hg. assert (E := dec_enc_path aes_key uninit uninit_length path n Hg).
  rewrite <- E in Hj. unfold decryptPath in Hj.
  change ((map (aes_dec_serialized aes_key) <$> encryptPath aes_key uninit n path) !! j = Some bucket) in Hj.
  rewrite list_lookup_fmap in Hj. destruct (encryptPath _ _ _ _ !! j) as [e|]; [|done]. exists e. split; [done|]. by injection Hj.
Qed.

Lemma upload_spec ls leaf n path hs : is_leaf P leaf -> length path = D P -> Forall (Forall (good_block P)) path ->
  let ls' := ls_uploadPath ls leaf (encryptPath aes_key uninit n path) hs in
  updated P (tree_at ls) leaf path (tree_at ls') /\ (stored ls -> stored ls').
Proof.
  intros Hl Hlen Hg ls'. assert (Hle := length_encrypt_path aes_key uninit path n).
  assert (Hon : forall j, (j < D P)%nat -> inmem_tree ls' !! Z.shiftr leaf (Z.of_nat j) = encryptPath aes_key uninit n path !! j).
  { intros j Hj. apply uploadPath_on; [|lia]. rewrite Hle, Hlen, <- (N_pow P). apply Hl. }
  assert (Hoff : forall v, (forall j, (j < D P)%nat -> v <> Z.shiftr leaf (Z.of_nat j)) -> inmem_tree ls' !! v = inmem_tree ls !! v).
  { intros v Hv. apply uploadPath_other. by rewrite Hle, Hlen. }
  split; [split|].
  - intros j bucket Hj. assert (Hlt := lookup_lt_Some _ _ _ Hj). unfold tree_at. rewrite Hon by lia.
    destruct (encryptPath_lookup path n j bucket Hj) as (e & -> & E); [|done].
    eapply Forall_impl; [exact Hg|]. intros bs Hbs. eapply Forall_impl; [exact Hbs|]. by intros b [].
  - intros v Hv. unfold tree_at. by rewrite Hoff.
  - intros Hst v Hv. destruct (on_path_dec P leaf v) as [(j & Hj & ->)|Hv']; [|rewrite Hoff by done; by apply Hst].
    rewrite Hon by done. apply lookup_lt_is_Some. lia.
Qed.

(** ** Eviction *)

(** What an eviction may change: it keeps the contents, and the stash does not grow. *)
Definition quiet (st st' : oram) : Prop :=
  posmap st' = posmap st /\ access_counter st' = access_counter st /\
  (length (lives P (stash st')) <= length (lives P (stash st)))%nat /\
  (forall i, i <> gN P -> untouched st i -> untouched st' i).

(** The two orders of uploading and hashing differ in the hashes only. *)
Lemma uploaded (left : bool) st leaf path : exists n hs,
  let st' := if left then upload_then_hash aes_key uninit beyond st leaf path else hash_then_upload aes_key uninit beyond st leaf path in
  storage st' = ls_uploadPath (storage st) leaf (encryptPath aes_key uninit n path) hs /\ stash st' = stash st /\
  posmap st' = posmap st /\ access_counter st' = access_counter st /\
  serialized_result_block st' = serialized_result_block st /\
  serialized_block_hold st' = serialized_block_hold st /\ serialized_block_write st' = serialized_block_write st.
Proof.
  unfold upload_then_hash, hash_then_upload. destruct (createNewPathHash _ _ _ _) as [hs root].
  destruct left; do 2 eexists; split_and!; reflexivity.
Qed.

Lemma evict_path_spec left st M leaf : oram_inv st M -> is_leaf P leaf ->
  exists st', evict_path aes_key uninit beyond P left st leaf = Ret st' /\ oram_inv st' M /\ quiet st st'.
Proof.
  intros [I Hst Hr Hh Hw Hc] Hl. unfold evict_path. destruct (downloadPath_spec st leaf Hst Hl) as [hs0 ->].
  rewrite bind_ret. cbn [stash serialized_block_hold serialized_block_write].
  destruct (evict_once_path P cfg (stash st) (tree_at (storage st)) leaf (serialized_block_hold st) (serialized_block_write st))
    as (s' & path' & bh' & bw' & -> & A1 & A2 & A3 & A4 & A5 & A6 & A7 & A8 & A9 & A10 & A11);
    [done|apply I|apply I|done|done|].
  eexists. split; [reflexivity|].
  match goal with |- context [if left then upload_then_hash _ _ _ ?st0 _ _ else _] =>
    destruct (uploaded left st0 leaf path') as (n & hs & Els & Es & Epm & Ec & Er & Eh & Ew) end.
  cbn [storage stash posmap access_counter serialized_result_block serialized_block_hold serialized_block_write
       with_buffers with_stash] in *.
  destruct (upload_spec (storage st) leaf n path' hs Hl A5 A6) as [U1 U2].
  split; [split|]; unfold quiet, untouched; rewrite ?Els, ?Es, ?Epm, ?Ec, ?Er, ?Eh, ?Ew; try done.
  - by eapply inv_evicted.
  - by apply U2.
  - split_and!; [done|done|done|]. intros i Hi Hf. by eapply fresh_evicted.
Qed.

Lemma N_bound : 2 <= N P /\ 2 * N P <= 2 ^ 32.
Proof.
  destruct cfg as [[HD1 HD2] _]. rewrite (N_pow P). split.
  - etrans; [|apply (Z.pow_le_mono_r 2 1); lia]. done.
  - rewrite <- Z.pow_succ_r by lia. apply Z.pow_le_mono_r; lia.
Qed.

Lemma eviction_leaf_spec ac : exists l, eviction_leaf P ac = Ret l /\ 0 <= l < N P.
Proof.
  destruct cfg as [[HD1 HD2] _]. unfold eviction_leaf, firstkbits.
  rewrite (proj2 (Z.eqb_neq _ 0)) by lia. eexists. split; [reflexivity|].
  assert (Hr : 0 <= reverseBits ac < 2 ^ 32) by (unfold reverseBits; apply Z.mod_pos_bound; done).
  rewrite (N_pow P). rewrite Z.shiftr_div_pow2 by lia. split; [apply Z.div_pos; [lia|apply Z.pow_pos_nonneg; lia]|].
  apply Z.div_lt_upper_bound; [apply Z.pow_pos_nonneg; lia|]. rewrite <- Z.pow_add_r by lia.
  replace (32 - (Z.of_nat (D P) - 1) + (Z.of_nat (D P) - 1)) with 32 by lia. apply Hr.
Qed.

Lemma next_counter_u32 ac : is_u32 (next_counter P ac).
Proof. unfold next_counter, is_u32. destruct (_ =? _); [done|]. apply Z.mod_pos_bound. done. Qed.

Lemma quiet_trans st1 st2 st3 : quiet st1 st2 -> quiet st2 st3 -> quiet st1 st3.
Proof.
  intros (A1 & A2 & A3 & A4) (B1 & B2 & B3 & B4). split_and!; [congruence|congruence|lia|]. auto.
Qed.

Lemma EvictionRoutine_spec st M : oram_inv st M ->
  exists st', EvictionRoutine aes_key uninit beyond P st = Ret st' /\ oram_inv st' M /\
    quiet (with_counter st (next_counter P (access_counter st))) st'.
Proof.
  intros [I Hst Hr Hh Hw Hc]. unfold EvictionRoutine.
  destruct (eviction_leaf_spec (access_counter st)) as (ll & -> & Hll). rewrite bind_ret.
  destruct (eviction_leaf_spec (u32 (access_counter st + 1))) as (lr & -> & Hlr). rewrite bind_ret.
  set (st0 := with_counter _ _). assert (I0 : oram_inv st0 M) by (split; try done; apply next_counter_u32).
  destruct (evict_path_spec true st0 M (N P + ll) I0) as (st1 & -> & I1 & Q1); [unfold is_leaf; lia|]. rewrite bind_ret.
  destruct (evict_path_spec false st1 M (N P + lr) I1) as (st2 & -> & I2 & Q2); [unfold is_leaf; lia|].
  exists st2. split_and!; [done|done|]. by eapply quiet_trans.
Qed.

(** ** Access *)

(** The array after an operation, and what the operation returns. *)
Definition array_op (M : Z -> str) (id : Z) (op : opType) (data_in : str) : Z -> str :=
  fun i => if is_w op && (i =? id) then data_in else M i.

Lemma occupancy_room s : length s = stash_size P -> (length (lives P s) < stash_size P)%nat -> room P s.
Proof.
  intros Hl Ho. destruct (decide (Forall (live P) s)) as [Ha|Hn].
  - unfold lives in Ho. rewrite filter_keeps in Ho by done. lia.
  - apply not_Forall_Exists, Exists_exists in Hn as (b & Hb & Hd); [|apply _]. by exists b.
Qed.

Lemma omove_data d s flag : length d = data_size P -> length s = data_size P ->
  omove_buffer d s (data_size P) flag = if flag then s else d.
Proof. intros Hd Hs. destruct flag; [|done]. destruct cfg as (_ & Hw & _). by apply omove_buffer_all. Qed.

Lemma FetchBlock_spec st M id op leaf newleaf data_in data_out :
  oram_inv st M -> 0 <= id < gN P -> posmap st !! Z.to_nat id = Some leaf -> is_leaf P newleaf ->
  length data_in = data_size P -> length data_out = data_size P ->
  (length (lives P (stash st)) < stash_size P)%nat -> (is_w op = true -> untouched st id) ->
  exists st', CircuitORAM_FetchBlock aes_key uninit beyond P (with_posmap st (<[Z.to_nat id := newleaf]> (posmap st)))
      (path_of P (tree_at (storage st)) leaf) op id leaf newleaf data_in data_out
    = (st', if is_w op then data_out else M id) /\
    oram_inv st' (array_op M id op data_in) /\ access_counter st' = access_counter st /\
    length (lives P (stash st')) = S (length (lives P (stash st))) /\
    forall i, 0 <= i < gN P -> i <> id -> untouched st i -> untouched st' i.
Proof.
  intros [I Hst Hr Hh Hw Hc] Hid Hpm Hnl Hdi Hdo Hocc Hun. unfold CircuitORAM_FetchBlock. cbn [serialized_result_block stash with_posmap].
  assert (Hl : is_leaf P leaf) by exact (Forall_lookup_1 _ _ _ _ (inv_leaves _ _ _ _ _ I) Hpm).
  assert (Hg := path_good P _ leaf Hl (inv_tree_good _ _ _ _ _ I)).
  destruct (fetch_path_spec P cfg id _ _ Hr Hg) as (r1 & -> & Hr1 & Hf1).
  destruct (fetch_stash_spec P cfg id (stash st) ltac:(lia) r1 Hr1 (proj2 (inv_stash_good _ _ _ _ _ I))) as [Hr2 Hf2].
  destruct (fetch_result P _ _ _ _ _ _ I Hid Hpm _ _ _ Hf1 Hf2) as [Eid Edata].
  set (r2 := fetch_stash P id (stash st) r1) in *.

  assert (Hd : length (b_data r2) = data_size P) by apply Hr2.
  set (data := omove_buffer (b_data r2) data_in (data_size P) (is_w op)).
  assert (Edat : data = array_op M id op data_in id).
  { unfold data, array_op. rewrite omove_data, Z.eqb_refl, andb_true_r by done. by destruct (is_w op). }
  assert (Hgood : good_block P (mk_Block id newleaf data)).
  { split; [unfold sized, data; cbn; rewrite omove_data by done; by destruct (is_w op)|].
    rewrite <- Eid. split; [apply Hr2|]. destruct N_bound. unfold is_leaf in Hnl. unfold is_u32. cbn. lia. }
  rewrite Eid. replace (isBlockDummy P (mk_Block id newleaf data)) with false
    by (symmetry; apply dummy_false; unfold live; cbn; lia).
  destruct (uploaded false (with_posmap st (<[Z.to_nat id:=newleaf]> (posmap st))) leaf
    (map (map (without P id)) (path_of P (tree_at (storage st)) leaf))) as (n & hs & Els & Es & Epm & Ec & _ & Eh & Ew).
  set (st' := hash_then_upload _ _ _ _ _ _) in *. cbn [with_posmap storage stash posmap access_counter serialized_block_hold
    serialized_block_write] in Els, Es, Epm, Ec, Eh, Ew.
  destruct (inv_stash_good _ _ _ _ _ I) as [Hsl Hsg].
  destruct (pass_insert_spec P cfg (stash st) (mk_Block id newleaf data) Hsg Hgood (occupancy_room _ Hsl Hocc)) as (k & x & Hk & Hx & Ek).
  assert (Hgw : Forall (Forall (good_block P)) (map (map (without P id)) (path_of P (tree_at (storage st)) leaf)))
    by by apply without_good.
  destruct (upload_spec (storage st) leaf n _ hs Hl (length_without P (tree_at (storage st)) id leaf) Hgw) as [U1 U2].
  eexists. split; [f_equal|].
  { unfold data. rewrite !omove_data by (done || by rewrite omove_data by done; destruct (is_w op)). rewrite Edata. by destruct (is_w op). }
  unfold untouched. cbn [with_stash with_result stash posmap storage access_counter]. rewrite Es, Epm, Els, Ek.
  split_and!; [split| |by eapply lives_fetched|]; cbn [with_stash with_result stash posmap storage access_counter
    serialized_result_block serialized_block_hold serialized_block_write]; rewrite ?Epm, ?Els, ?Eh, ?Ew, ?Ec; try done.
  - eapply inv_fetched; try done. 
    + unfold array_op. intros i Hi. by rewrite (proj2 (Z.eqb_neq i id)), andb_false_r.
    + destruct (is_w op) eqn:Eop; [right; by apply Hun|left]. unfold array_op. by rewrite Eop.
  - by apply U2.
  - intros i Hi Hne Hf. by eapply fresh_fetched.
Qed.

(** One access: it succeeds, returns what the array holds, leaves the ORAM in
    the invariant for the array after the operation, and moves the counter. *)
Lemma access_spec st M id op random_value data_in data_out :
  oram_inv st M -> 0 <= id < gN P -> length data_in = data_size P -> length data_out = data_size P ->
  (length (lives P (stash st)) < stash_size P)%nat -> (is_w op = true -> untouched st id) ->
  exists st', access aes_key uninit beyond P st id op random_value data_in data_out
      = Ret (st', if is_w op then data_out else M id) /\
    oram_inv st' (array_op M id op data_in) /\ access_counter st' = next_counter P (access_counter st) /\
    (length (lives P (stash st')) <= S (length (lives P (stash st))))%nat /\
    forall i, 0 <= i < gN P -> i <> id -> untouched st i -> untouched st' i.
Proof.
  intros I Hid Hdi Hdo Hocc Hun. unfold access.
  rewrite decide_False by (destruct cfg as (_ & Hw & Hpos & _); lia). rewrite (proj2 (Z.ltb_ge id 0)) by lia.
  destruct (lookup_lt_is_Some_2 (posmap st) (Z.to_nat id)) as [leaf Hpm].
  { pose proof (inv_posmap _ _ _ _ _ (oi_view _ _ I)). lia. }
  rewrite Hpm. cbn [deref]. rewrite bind_ret. set (newleaf := N P + random_value mod N P).
  assert (Hnl : is_leaf P newleaf).
  { destruct N_bound. unfold is_leaf, newleaf. pose proof (Z.mod_pos_bound random_value (N P)). lia. }
  assert (Hl : is_leaf P leaf) by exact (Forall_lookup_1 _ _ _ _ (inv_leaves _ _ _ _ _ (oi_view _ _ I)) Hpm).
  destruct (downloadPath_spec (with_posmap st (<[Z.to_nat id:=newleaf]> (posmap st))) leaf (oi_stored _ _ I) Hl) as [hs ->].
  rewrite bind_ret. cbn [with_posmap posmap stash access_counter serialized_result_block serialized_block_hold
    serialized_block_write merkle_root_hash path_hash new_path_hash storage mallocs].
  set (st0 := mk_oram (posmap st) (stash st) (access_counter st) (serialized_result_block st) (serialized_block_hold st)
    (serialized_block_write st) (merkle_root_hash st) hs (new_path_hash st) (storage st) (mallocs st)).
  assert (I0 : oram_inv st0 M) by (destruct I; by split).
  destruct (FetchBlock_spec st0 M id op leaf newleaf data_in data_out I0 Hid Hpm Hnl Hdi Hdo Hocc Hun) as (st1 & E1 & I1 & C1 & O1 & F1).
  unfold st0, with_posmap in E1. cbn [posmap stash access_counter serialized_result_block serialized_block_hold
    serialized_block_write merkle_root_hash path_hash new_path_hash storage mallocs] in E1. rewrite E1.
  destruct (EvictionRoutine_spec st1 _ I1) as (st2 & -> & I2 & _ & C2 & O2 & F2). rewrite bind_ret.
  exists st2. cbn [with_counter access_counter stash] in *. split_and!; [done|done|by rewrite C2, C1| |].
  - etrans; [exact O2|]. by rewrite O1.
  - intros i Hi Hne Hf. apply F2; [lia|]. by apply F1.
Qed.

(** ** A new ORAM *)

Lemma tree_at_upload ls i bs h : Forall u32_block bs -> tree_at (ls_uploadBucket ls i (aes_encryptBlocks aes_key bs) h) i = bs.
Proof.
  intros Hb. unfold tree_at. cbn. rewrite lookup_insert_eq. cbn. unfold aes_encryptBlocks. rewrite map_map.
  induction Hb as [|b bs Hb _ IH]; [done|]. cbn [map]. by rewrite dec_enc, IH.
Qed.

Lemma tree_at_upload_ne ls i bucket h v : v <> i -> tree_at (ls_uploadBucket ls i bucket h) v = tree_at ls v.
Proof. intros Hv. unfold tree_at. cbn. by rewrite lookup_insert_ne. Qed.

Lemma length_filler : length (filler (data_size P)) = data_size P.
Proof. unfold filler. by rewrite length_insert, length_map, length_seq. Qed.

Lemma dummy_good : good_block P (dummy_block (data_size P) (gN P)).
Proof.
  destruct cfg as (_ & _ & _ & Hm). split; [apply length_filler|]. split; unfold is_u32, gN; cbn; lia.
Qed.

Lemma dummy_dead : ~ live P (dummy_block (data_size P) (gN P)).
Proof. intros Hl. by apply Hl. Qed.

Lemma leaf_bucket_elem i label q b : b ∈ leaf_bucket P i label q ->
  b = dummy_block (data_size P) (gN P) \/
  exists j, (j < q)%nat /\ b = mk_Block (label + Z.of_nat j) i (filler (data_size P)).
Proof.
  unfold leaf_bucket. intros [Hb|Hb]%elem_of_app.
  - right. apply list_elem_of_fmap in Hb as (j & -> & Hj). apply elem_of_seq in Hj. exists j. split; [lia|done].
  - left. by apply elem_of_replicate in Hb as [-> _].
Qed.

Lemma leaf_bucket_good i label q : 0 <= label -> label + Z.of_nat q <= max_blocks P -> (q <= Zb P)%nat -> 0 <= i < 2 ^ 32 ->
  length (leaf_bucket P i label q) = Zb P /\ Forall (good_block P) (leaf_bucket P i label q).
Proof.
  intros Hlab Hmax Hq Hi. destruct cfg as (_ & _ & _ & Hm). split.
  - unfold leaf_bucket. rewrite length_app, length_map, length_seq, length_replicate. lia.
  - apply Forall_forall. intros b [->|(j & Hj & ->)]%leaf_bucket_elem; [apply dummy_good|].
    split; [apply length_filler|]. split; unfold is_u32; cbn; lia.
Qed.

(** What the first leaves up to bucket [i] look like while the tree is built. *)
Record built (i : Z) (b : build) : Prop := mk_built {
  bu_label : bd_label b = Z.of_nat (length (bd_posmap b));
  bu_leaves : Forall (fun l => N P <= l < i) (bd_posmap b);
  bu_stored v : N P <= v < i -> is_Some (inmem_tree (bd_ls b) !! v);
  bu_good v : N P <= v < i -> length (tree_at (bd_ls b) v) = Zb P /\ Forall (good_block P) (tree_at (bd_ls b) v);
  bu_blocks v blk : N P <= v < i -> blk ∈ tree_at (bd_ls b) v -> live P blk ->
    treeLabel blk = v /\ b_data blk = filler (data_size P) /\ 0 <= b_id blk /\ bd_posmap b !! Z.to_nat (b_id blk) = Some v;
  bu_found p l : bd_posmap b !! p = Some l -> mk_Block (Z.of_nat p) l (filler (data_size P)) ∈ tree_at (bd_ls b) l
}.

Lemma built_step i b q h : N P <= i < 2 * N P -> built i b -> bd_label b + Z.of_nat q <= max_blocks P -> (q <= Zb P)%nat ->
  built (i + 1) (mk_build (ls_uploadBucket (bd_ls b) i (aes_encryptBlocks aes_key (leaf_bucket P i (bd_label b) q)) h)
    (bd_posmap b ++ replicate q i) (bd_label b + Z.of_nat q)).
Proof.
  intros Hi [B1 B2 B3 B4 B5 B6] Hmax Hq. destruct N_bound as [HN1 HN2].
  destruct (leaf_bucket_good i (bd_label b) q) as [Hlen Hg]; [lia|lia|lia|lia|].
  assert (Hnew : forall h, tree_at (ls_uploadBucket (bd_ls b) i (aes_encryptBlocks aes_key (leaf_bucket P i (bd_label b) q)) h) i
    = leaf_bucket P i (bd_label b) q).
  { intros h'. apply tree_at_upload. eapply Forall_impl; [exact Hg|]. by intros ? []. }
  split; cbn [bd_label bd_posmap bd_ls].
  - rewrite length_app, length_replicate. lia.
  - apply Forall_app. split; [eapply Forall_impl; [exact B2|]; cbn; lia|]. apply Forall_replicate. lia.
  - intros v Hv. cbn [ls_uploadBucket inmem_tree]. destruct (decide (v = i)) as [->|Hne]; [rewrite lookup_insert_eq; eauto|].
    rewrite lookup_insert_ne by done. apply B3. lia.
  - intros v Hv. destruct (decide (v = i)) as [->|Hne]; [by rewrite Hnew|]. rewrite tree_at_upload_ne by done. apply B4. lia.
  - intros v blk Hv Hb Hl. destruct (decide (v = i)) as [->|Hne].
    + rewrite Hnew in Hb. apply leaf_bucket_elem in Hb as [->|(j & Hj & ->)]; [by destruct dummy_dead|].
      cbn. split_and!; [done|done|lia|]. rewrite lookup_app_r by lia. apply lookup_replicate_2. lia.
    + rewrite tree_at_upload_ne in Hb by done. destruct (B5 v blk) as (? & ? & ? & Hp); [lia|done|done|].
      split_and!; [done|done|done|]. by apply lookup_app_l_Some.
  - intros p l [Hp|[Hge Hp]]%lookup_app_Some.
    + assert (Hl := Forall_lookup_1 _ _ _ _ B2 Hp). cbn in Hl. rewrite tree_at_upload_ne by lia. by apply B6.
    + apply lookup_replicate in Hp as [-> Hlt]. rewrite Hnew. apply elem_of_app. left. apply list_elem_of_fmap.
      exists (p - length (bd_posmap b))%nat. split; [f_equal; lia|]. apply elem_of_seq. lia.
Qed.

(** The leaves have room for all blocks. *)
Lemma capacity : (0 < Zb P)%nat -> max_blocks P <= N P * Z.of_nat (Zb P).
Proof.
  intros HZ. destruct cfg as (_ & _ & _ & Hm). unfold N, pD. set (m := (max_blocks P + _ - 1) / _).
  assert (Hle : max_blocks P <= m * Z.of_nat (Zb P)).
  { unfold m. pose proof (Z.div_mod (max_blocks P + Z.of_nat (Zb P) - 1) (Z.of_nat (Zb P)) ltac:(lia)).
    pose proof (Z.mod_pos_bound (max_blocks P + Z.of_nat (Zb P) - 1) (Z.of_nat (Zb P)) ltac:(lia)). lia. }
  assert (1 <= m) by nia. assert (Hpow : m <= 2 ^ Z.log2_up m).
  { destruct (decide (m = 1)) as [->|Hne]; [done|]. apply Z.log2_up_spec. lia. }
  nia.
Qed.

Lemma build_leaves_spec n : forall i per c b, (0 < Zb P)%nat -> per = max_blocks P / N P -> c = max_blocks P - per * N P ->
  i = 2 * N P - Z.of_nat n -> N P <= i -> built i b -> bd_label b = per * (i - N P) + Z.min c (i - N P) ->
  exists b', build_leaves aes_key P n i per c b = Ret b' /\ built (2 * N P) b' /\ bd_label b' = max_blocks P.
Proof.
  induction n as [|n IH]; intros i per c b HZ Eper Ec Ei Hi Hb Hlab; destruct N_bound as [HN1 HN2].
  all: assert (Hc : 0 <= c < N P) by (subst c per; pose proof (Z.div_mod (max_blocks P) (N P) ltac:(lia));
    pose proof (Z.mod_pos_bound (max_blocks P) (N P) ltac:(lia)); lia).
  - exists b. replace (2 * N P) with i by lia. split_and!; [done|done|]. rewrite Hlab, Ec. nia.
  - cbn [build_leaves]. assert (Hcap := capacity HZ). destruct cfg as (_ & _ & _ & Hm).
    assert (0 <= per) by (subst per; apply Z.div_pos; lia).
    set (q := Z.to_nat _). assert (Hq : Z.of_nat q = per + if i - N P <? c then 1 else 0) by (unfold q; destruct (_ <? _); lia).
    assert (Hqz : (q <= Zb P)%nat).
    { destruct (i - N P <? c) eqn:E; [apply Z.ltb_lt in E|]; nia. }
    rewrite (proj2 (Nat.ltb_ge _ _) Hqz).
    assert (Hnext : bd_label b + Z.of_nat q = per * (i + 1 - N P) + Z.min c (i + 1 - N P)).
    { destruct (i - N P <? c) eqn:E; [apply Z.ltb_lt in E|apply Z.ltb_ge in E]; lia. }
    apply (IH (i + 1) per c); try done; [lia|lia|]. apply built_step; [lia|done| |done].
    rewrite Hnext. nia.
Qed.

(** The upper part holds dummies only. *)
Definition upper_built (i : Z) (b : build) : Prop := forall v, i < v < N P ->
  is_Some (inmem_tree (bd_ls b) !! v) /\ tree_at (bd_ls b) v = replicate (Zb P) (dummy_block (data_size P) (gN P)).

Lemma build_upper_spec n : forall b root, Z.of_nat n < N P -> built (2 * N P) b -> upper_built (Z.of_nat n) b ->
  exists b' root', build_upper aes_key P n b root = (b', root') /\ built (2 * N P) b' /\ upper_built 0 b' /\
    bd_posmap b' = bd_posmap b.
Proof.
  induction n as [|n IH]; intros b root Hn Hb Hu; [by exists b, root|]. cbn [build_upper].
  match goal with |- context [build_upper _ _ n ?b1 ?r1] => destruct (IH b1 r1) as (b' & root' & -> & Hb' & Hu' & Ep) end.
  - lia.
  - destruct Hb as [B1 B2 B3 B4 B5 B6]. split; cbn [bd_label bd_posmap bd_ls]; try done.
    + intros v Hv. cbn [ls_uploadBucket inmem_tree]. rewrite lookup_insert_ne by lia. by apply B3.
    + intros v Hv. rewrite tree_at_upload_ne by lia. by apply B4.
    + intros v blk Hv. rewrite tree_at_upload_ne by lia. by apply B5.
    + intros p l Hp. assert (Hl := Forall_lookup_1 _ _ _ _ B2 Hp). cbn in Hl. rewrite tree_at_upload_ne by lia. by apply B6.
  - intros v Hv. cbn [bd_ls]. destruct (decide (v = Z.of_nat (S n))) as [->|Hne].
    + split; [cbn [ls_uploadBucket inmem_tree]; rewrite lookup_insert_eq; eauto|]. apply tree_at_upload.
      apply Forall_replicate. apply dummy_good.
    + rewrite tree_at_upload_ne by done. cbn [ls_uploadBucket inmem_tree]. rewrite lookup_insert_ne by done. apply Hu. lia.
  - by exists b', root'.
Qed.

Lemma stash_setup_dead blk : blk ∈ stash_setup P -> ~ live P blk.
Proof. intros [-> _]%elem_of_replicate. apply dummy_dead. Qed.

Section Built.
Context (b : build).
Hypothesis leaves : built (2 * N P) b.
Hypothesis upper : upper_built 0 b.
Hypothesis all_blocks : Z.of_nat (length (bd_posmap b)) = gN P.

Lemma built_live v blk : is_node P v -> blk ∈ tree_at (bd_ls b) v -> live P blk -> N P <= v < 2 * N P.
Proof.
  intros Hv Hin Hl. destruct (decide (v < N P)) as [Hlt|]; [|unfold is_node in Hv; lia].
  rewrite (proj2 (upper v ltac:(unfold is_node in Hv; lia))) in Hin. apply elem_of_replicate in Hin as [-> _]. by destruct dummy_dead.
Qed.

Lemma built_stored : stored (bd_ls b).
Proof.
  intros v Hv. unfold is_node in Hv. destruct (decide (v < N P)); [apply upper; lia|]. apply (bu_stored _ _ leaves). lia.
Qed.

Lemma built_fresh i : 0 <= i < gN P -> fresh P (bd_posmap b) (stash_setup P) (tree_at (bd_ls b)) i.
Proof.
  intros Hi. split.
  - intros blk Hb E. apply (stash_setup_dead blk Hb). unfold live. lia.
  - intros v blk Hv Hb E. assert (Hl : live P blk) by (unfold live; lia).
    destruct (bu_blocks _ _ leaves v blk (built_live v blk Hv Hb Hl) Hb Hl) as (-> & _ & _ & Hp). by rewrite <- E.
Qed.

Lemma built_inv : inv P (bd_posmap b) (stash_setup P) (tree_at (bd_ls b)) (fun _ => filler (data_size P)).
Proof.
  destruct leaves as [B1 B2 B3 B4 B5 B6]. split; [done|done| | | | |].
  - split; [apply length_replicate|]. apply Forall_replicate, dummy_good.
  - intros v Hv. unfold is_node in Hv. destruct (decide (v < N P)) as [Hlt|]; [|apply B4; lia].
    rewrite (proj2 (upper v ltac:(lia))). split; [apply length_replicate|]. apply Forall_replicate, dummy_good.
  - intros blk Hb Hl. by destruct (stash_setup_dead blk Hb).
  - intros v blk Hv Hb Hl. assert (Hr := built_live v blk Hv Hb Hl). destruct (B5 v blk Hr Hb Hl) as (-> & Hd & Hid & Hp).
    split_and!; [done| |exists 0%nat; split; [unfold D; lia|by rewrite Z.shiftr_0_r]].
    split; [|done]. apply lookup_lt_Some in Hp. lia.
  - intros i l Hi. assert (Hl := Forall_lookup_1 _ _ _ _ B2 Hi). cbn in Hl. eexists. split_and!; [right; exists l; split; [|by apply B6]|done|done].
    destruct N_bound. unfold is_node. lia.
Qed.

End Built.

Lemma Create_spec ls junk junk_hashes : (0 < Zb P)%nat -> good_block P junk ->
  exists st, Create aes_key P ls junk junk_hashes = Ret st /\ oram_inv st (fun _ => filler (data_size P)) /\
    lives P (stash st) = [] /\ access_counter st = 0 /\ forall i, 0 <= i < gN P -> untouched st i.
Proof.
  intros HZ Hj. unfold Create. destruct N_bound as [HN1 HN2].
  destruct (build_leaves_spec (Z.to_nat (N P)) (N P) (max_blocks P / N P) (max_blocks P - max_blocks P / N P * N P) (mk_build ls [] 0))
    as (b1 & -> & Hb1 & Hlab); try done; [lia|split; cbn; try done; lia|cbn [bd_label]; pose proof (Z.div_mod (max_blocks P) (N P) ltac:(lia));
    pose proof (Z.mod_pos_bound (max_blocks P) (N P) ltac:(lia)); lia|].
  rewrite bind_ret. destruct (build_upper_spec (Z.to_nat (N P) - 1) b1 []) as (b2 & root & -> & Hb2 & Hu & Ep);
    [lia|done|intros v Hv; lia|].
  assert (Hlen : Z.of_nat (length (bd_posmap b2)) = gN P) by (rewrite Ep, <- (bu_label _ _ Hb1); done).
  eexists. split; [reflexivity|]. split; [split; try done; [by apply built_inv|by apply built_stored]|].
  split_and!; [|done|by apply built_fresh]. apply filter_drops, Forall_forall, stash_setup_dead.
Qed.

End State.
