(* ===== verification/OramTrace.v ===== *)
(** * Circuit ORAM: the eviction schedule and sequences of accesses

    The bit-reversed counter visits every leaf, and a sequence of accesses to a
    new ORAM returns what the same sequence returns on an array.  Also here:
    what goes wrong when a block is written a second time, and when the hashes
    of the tree are checked. *)

From S2P Require Import Prelude Crypto Oram OramEvict OramFacts OramAccess.

Local Open Scope Z_scope.

(** ** Sequences of accesses *)

Section Run.
Context `{Crypto} `{AesCtr} (aes_key : str) (uninit : nat -> str) (beyond : str) (P : params).

Fixpoint oram_run (st : oram) (rqs : list request) : outcome (oram * list str) :=
  match rqs with
  | [] => Ret (st, [])
  | r :: rqs =>
    '(st, out) ← access aes_key uninit beyond P st (rq_id r) (rq_op r) (rq_random r) (rq_in r) (rq_out r);
    '(st, outs) ← oram_run st rqs;
    Ret (st, out :: outs)
  end.

(** There is a free slot in the stash before every access. *)
Fixpoint never_full (st : oram) (rqs : list request) : bool :=
  match rqs with
  | [] => true
  | r :: rqs =>
    (stashOccupancy P (stash st) <? stash_size P)%nat &&
    match access aes_key uninit beyond P st (rq_id r) (rq_op r) (rq_random r) (rq_in r) (rq_out r) with
    | Ret (st, _) => never_full st rqs
    | _ => true
    end
  end.

(** The same accesses to an array. *)
Fixpoint array_run (M : Z -> str) (rqs : list request) : list str :=
  match rqs with
  | [] => []
  | r :: rqs => (if is_w (rq_op r) then rq_out r else M (rq_id r)) :: array_run (array_op M (rq_id r) (rq_op r) (rq_in r)) rqs
  end.

(** Block numbers in range and buffers of the right size. *)
Definition well_sized (r : request) : bool :=
  (0 <=? rq_id r) && (rq_id r <? gN P) && (length (rq_in r) =? data_size P)%nat && (length (rq_out r) =? data_size P)%nat.

(** A block is written before it is read, and only once. *)
Fixpoint write_first (seen : list Z) (rqs : list request) : bool :=
  match rqs with
  | [] => true
  | r :: rqs => (negb (is_w (rq_op r)) || bool_decide (rq_id r ∉ seen)) && write_first (rq_id r :: seen) rqs
  end.

End Run.

(** ** A sample

    A cipher for samples, and an ORAM of four blocks in buckets of one. *)

Definition toy_aes : AesCtr := {|
  sgx_aes_ctr_encrypt _ _ m := rev m;
  sgx_aes_ctr_decrypt _ _ m := rev m
|}.

Lemma toy_aes_laws : @AesLaws toy_aes.
Proof. split. intros key ctr m. apply rev_involutive. Qed.

Definition sample_params : params := mk_params 1 4 8 8.
Definition sample_nonce (n : nat) : str := replicate NONCE_LENGTH NUL.
Definition sample_junk : Block := mk_Block 0 0 (replicate 8 NUL).
Definition sample_word (c : Z) : str := replicate 8 (z2b c).
Definition sample_write (id random c : Z) : request := mk_request id Op_w random (sample_word c) (sample_word 0).
Definition sample_read (id random : Z) : request := mk_request id Op_r random (sample_word 0) (sample_word 0).
Definition sample_create : outcome oram :=
  @Create toy_crypto toy_aes [] sample_params (mk_LS ∅ ∅) sample_junk [].
Definition sample_run (st : oram) (rqs : list request) : outcome (oram * list str) :=
  @oram_run toy_crypto toy_aes [] sample_nonce [] sample_params st rqs.

(** What [verifyPath] computes for the path to [leaf] as it is stored. *)
Definition sample_path_check (st : oram) (leaf : Z) : outcome (list bool) :=
  path ← ls_downloadBuckets (storage st) (D sample_params) leaf;
  Ret (@verifyPath toy_crypto path (ls_downloadHashes (storage st) (D sample_params) leaf) leaf (merkle_root_hash st)).

(** ** Bits of the counter *)

(** One exchange of neighbouring groups of [k] bits. *)
Lemma swap_bits n k lo hi i : 0 <= i < 32 -> 0 <= k -> (Z.testbit hi i = true -> k <= i) ->
  Z.testbit hi i = negb (Z.testbit lo i) ->
  Z.testbit (u32 (Z.lor (Z.land (Z.shiftr n k) lo) (Z.land (u32 (Z.shiftl n k)) hi))) i =
  if Z.testbit lo i then Z.testbit n (i + k) else Z.testbit n (i - k).
Proof.
  intros Hi Hk Hh Hc. unfold u32. change 4294967296 with (2 ^ 32). rewrite Z.mod_pow2_bits_low by lia.
  rewrite Z.lor_spec, !Z.land_spec, Z.shiftr_spec, Z.mod_pow2_bits_low by lia. rewrite Hc.
  destruct (Z.testbit lo i); cbn [negb]; [by rewrite andb_true_r, andb_false_r, orb_false_r|].
  rewrite andb_false_r, andb_true_r, Z.shiftl_spec by lia. done.
Qed.

Ltac literal := match goal with |- context [Z.of_nat ?j] => let z := eval vm_compute in (Z.of_nat j) in change (Z.of_nat j) with z end.

Ltac swap_turn :=
  rewrite swap_bits by (lia || (vm_compute; done) || (intros; lia));
  match goal with |- (if ?c then _ else _) = _ => let b := eval vm_compute in c in change c with b; cbv iota end;
  match goal with |- Z.testbit _ ?i = _ => let z := eval vm_compute in i in change i with z end.

Lemma reverseBits_spec n i : 0 <= i < 32 -> Z.testbit (reverseBits n) i = Z.testbit n (31 - i).
Proof.
  intros Hi. unfold reverseBits.
  assert (E : exists j : nat, (j < 32)%nat /\ i = Z.of_nat j) by (exists (Z.to_nat i); lia).
  destruct E as (j & Hj & ->). clear Hi.
  do 32 (destruct j as [|j]; [literal; do 5 swap_turn; reflexivity|]). lia.
Qed.

Section Schedule.
Context (P : params) (cfg : config_ok P).

Lemma eviction_leaf_bits ac l j : eviction_leaf P ac = Ret l -> 0 <= j < Z.of_nat (D P) - 1 ->
  Z.testbit l j = Z.testbit ac (Z.of_nat (D P) - 2 - j).
Proof.
  destruct cfg as [[HD1 HD2] _]. unfold eviction_leaf, firstkbits. rewrite (proj2 (Z.eqb_neq _ 0)) by lia.
  intros [= <-] Hj. rewrite Z.shiftr_spec, reverseBits_spec by lia. f_equal. lia.
Qed.

(** Every leaf belongs to a counter value below the number of leaves. *)
Lemma eviction_leaf_onto l : 0 <= l < N P -> exists ac, 0 <= ac < N P /\ eviction_leaf P ac = Ret l.
Proof.
  intros Hl. destruct (eviction_leaf_spec P cfg l) as (ac & Hac & Hb). exists ac. split; [done|].
  destruct (eviction_leaf_spec P cfg ac) as (l' & Hl' & Hb'). rewrite Hl'. f_equal. rewrite (N_pow P) in *.
  apply Z.bits_inj'. intros j Hj. destruct (decide (j < Z.of_nat (D P) - 1)).
  - rewrite (eviction_leaf_bits _ _ _ Hl'), (eviction_leaf_bits _ _ _ Hac) by lia. f_equal. lia.
  - rewrite <- (Z.mod_small l' (2 ^ (Z.of_nat (D P) - 1))), <- (Z.mod_small l (2 ^ (Z.of_nat (D P) - 1))) by done.
    destruct cfg as [? _]. by rewrite !Z.mod_pow2_bits_high by lia.
Qed.

Lemma N_even : N P = 2 * (N P / 2).
Proof.
  destruct cfg as [[HD1 HD2] _]. rewrite (N_pow P). replace (Z.of_nat (D P) - 1) with (1 + (Z.of_nat (D P) - 2)) by lia.
  rewrite Z.pow_add_r, (Z.mul_comm (2 ^ 1)), Z.div_mul by lia. lia.
Qed.

Lemma iter_next_counter m t : 0 <= m <= N P / 2 ->
  Nat.iter t (next_counter P) (2 * m) = 2 * ((m + Z.of_nat t) mod (N P / 2 + 1)).
Proof.
  intros Hm. assert (HE := N_even). destruct (N_bound P cfg) as [HN1 HN2]. induction t as [|t IH].
  - cbn. rewrite Z.add_0_r, Z.mod_small by lia. done.
  - cbn [Nat.iter nat_rect]. change (nat_rect (fun _ => Z) (2 * m) (fun _ => next_counter P) t) with (Nat.iter t (next_counter P) (2 * m)).
    rewrite IH. set (h := N P / 2) in *. replace (m + Z.of_nat (S t)) with (m + Z.of_nat t + 1) by lia.
    rewrite <- (Zplus_mod_idemp_l (m + Z.of_nat t) 1). pose proof (Z.mod_pos_bound (m + Z.of_nat t) (h + 1) ltac:(lia)) as Hb.
    set (r := (m + Z.of_nat t) mod (h + 1)) in *. unfold next_counter. destruct (2 * r =? N P) eqn:E.
    + apply Z.eqb_eq in E. replace (r + 1) with (h + 1) by lia. by rewrite Z.mod_same by lia.
    + apply Z.eqb_neq in E. rewrite (Z.mod_small (r + 1)) by lia. unfold u32. rewrite Z.mod_small by lia. lia.
Qed.

Lemma schedule_reaches m ac : 0 <= m <= N P / 2 -> 0 <= ac < N P -> exists t, Z.of_nat t <= N P / 2 /\
  Nat.iter t (next_counter P) (2 * m) = 2 * (ac / 2).
Proof.
  intros Hm Ha. assert (HE := N_even). set (h := N P / 2) in *. exists (Z.to_nat ((ac / 2 - m) mod (h + 1))).
  pose proof (Z.mod_pos_bound (ac / 2 - m) (h + 1) ltac:(lia)). split; [lia|].
  rewrite iter_next_counter by done. fold h. rewrite Z2Nat.id by lia. rewrite Zplus_mod_idemp_r.
  replace (m + (ac / 2 - m)) with (ac / 2) by lia. rewrite Z.mod_small; [done|].
  pose proof (Z.div_pos ac 2). assert (ac / 2 < h) by (apply Z.div_lt_upper_bound; lia). lia.
Qed.

(** The counter of an ORAM stays even and at most [N]. *)
Lemma next_counter_even m : 0 <= m <= N P / 2 -> exists m', 0 <= m' <= N P / 2 /\ next_counter P (2 * m) = 2 * m'.
Proof.
  intros Hm. exists ((m + 1) mod (N P / 2 + 1)). pose proof (Z.mod_pos_bound (m + 1) (N P / 2 + 1) ltac:(lia)).
  split; [lia|]. exact (iter_next_counter m 1 Hm).
Qed.

End Schedule.

(** ** Sequences of accesses refine an array *)

Lemma occupancy_lives P s : stashOccupancy P s = length (lives P s).
Proof.
  unfold stashOccupancy, lives. f_equal. apply list_filter_iff. intros b. apply dummy_false.
Qed.

Section Trace.
Context `{Crypto} `{AesLaws} (aes_key : str) (uninit : nat -> str) (beyond : str) (P : params).
Hypothesis uninit_length : forall n, length (uninit n) = NONCE_LENGTH.
Hypothesis cfg : config_ok P.

Notation inv_of := (oram_inv aes_key P).
Notation untouched_in st := (untouched aes_key P st).

(** One request of a well-formed sequence. *)
Lemma request_step st M seen r rqs : inv_of st M -> (forall i, 0 <= i < gN P -> i ∉ seen -> untouched_in st i) ->
  well_sized P r = true -> write_first seen (r :: rqs) = true -> (length (lives P (stash st)) < stash_size P)%nat ->
  exists st', access aes_key uninit beyond P st (rq_id r) (rq_op r) (rq_random r) (rq_in r) (rq_out r)
      = Ret (st', if is_w (rq_op r) then rq_out r else M (rq_id r)) /\
    inv_of st' (array_op M (rq_id r) (rq_op r) (rq_in r)) /\
    (forall i, 0 <= i < gN P -> i ∉ rq_id r :: seen -> untouched_in st' i) /\ write_first (rq_id r :: seen) rqs = true /\
    (length (lives P (stash st')) <= S (length (lives P (stash st))))%nat.
Proof.
  intros I Hf Hw Hwf Hocc. cbn [write_first] in Hwf. unfold well_sized in Hw.
  apply andb_true_iff in Hw as [Hw Ho]. apply andb_true_iff in Hw as [Hw Hi]. apply andb_true_iff in Hw as [Hw1 Hw2].
  apply Z.leb_le in Hw1. apply Z.ltb_lt in Hw2. apply Nat.eqb_eq in Hi, Ho. apply andb_true_iff in Hwf as [Hfirst Hwf].
  destruct (access_spec aes_key uninit beyond P uninit_length cfg st M (rq_id r) (rq_op r) (rq_random r) (rq_in r) (rq_out r))
    as (st' & E & I' & _ & O & F); try done.
  - intros Ew. rewrite Ew in Hfirst. apply bool_decide_eq_true in Hfirst. by apply Hf.
  - exists st'. split_and!; try done. intros i Hr [Hne Hn]%not_elem_of_cons. auto.
Qed.

Lemma run_refines rqs : forall st M seen, inv_of st M -> (forall i, 0 <= i < gN P -> i ∉ seen -> untouched_in st i) ->
  forallb (well_sized P) rqs = true -> write_first seen rqs = true -> never_full aes_key uninit beyond P st rqs = true ->
  exists st', oram_run aes_key uninit beyond P st rqs = Ret (st', array_run M rqs).
Proof.
  induction rqs as [|r rqs IH]; intros st M seen I Hf Hw Hwf Hn; [by exists st|].
  cbn [forallb] in Hw. apply andb_true_iff in Hw as [Hr Hw]. cbn [never_full] in Hn. apply andb_true_iff in Hn as [Ho Hn].
  apply Nat.ltb_lt in Ho. rewrite occupancy_lives in Ho.
  destruct (request_step st M seen r rqs I Hf Hr Hwf Ho) as (st1 & E & I1 & Hf1 & Hwf1 & _). rewrite E in Hn.
  destruct (IH st1 _ _ I1 Hf1 Hw Hwf1 Hn) as [st2 E2]. exists st2. cbn [oram_run array_run].
  by rewrite E, bind_ret, E2, bind_ret.
Qed.

Lemma short_run_fits rqs : forall st M seen, inv_of st M -> (forall i, 0 <= i < gN P -> i ∉ seen -> untouched_in st i) ->
  forallb (well_sized P) rqs = true -> write_first seen rqs = true ->
  (length (lives P (stash st)) + length rqs <= stash_size P)%nat -> never_full aes_key uninit beyond P st rqs = true.
Proof.
  induction rqs as [|r rqs IH]; intros st M seen I Hf Hw Hwf Hl; [done|].
  cbn [forallb] in Hw. apply andb_true_iff in Hw as [Hr Hw]. cbn [never_full length] in *.
  destruct (request_step st M seen r rqs I Hf Hr Hwf ltac:(lia)) as (st1 & E & I1 & Hf1 & Hwf1 & Ho1). rewrite E.
  apply andb_true_iff. split; [apply Nat.ltb_lt; rewrite occupancy_lives; lia|]. apply (IH st1 _ _ I1 Hf1 Hw Hwf1). lia.
Qed.

End Trace.

(** ** Properties *)

(** C3. A new ORAM is an array: as long as the stash has a free slot before
    every access, a sequence of accesses that writes every block at most once
    and before it is read returns what the same sequence returns on an array
    that holds the filler bytes.  A sequence no longer than the stash never
    fills it. *)
Theorem oram_refines_array `{Crypto} `{AesLaws} aes_key uninit beyond P ls junk junk_hashes rqs :
  (forall n, length (uninit n) = NONCE_LENGTH) -> config_ok P -> (0 < Zb P)%nat -> good_block P junk ->
  forallb (well_sized P) rqs = true -> write_first [] rqs = true ->
  exists st, Create aes_key P ls junk junk_hashes = Ret st /\
    (never_full aes_key uninit beyond P st rqs = true ->
     exists st', oram_run aes_key uninit beyond P st rqs = Ret (st', array_run (fun _ => filler (data_size P)) rqs)) /\
    ((length rqs <= stash_size P)%nat -> never_full aes_key uninit beyond P st rqs = true).
Proof.
  intros Hu Hc HZ Hj Hw Hf. destruct (Create_spec aes_key P Hc ls junk junk_hashes HZ Hj) as (st & E & I & Hs & _ & Hfresh).
  exists st. split_and!; [done| |].
  - intros Hn. apply (run_refines aes_key uninit beyond P Hu Hc rqs st _ []); auto.
  - intros Hl. apply (short_run_fits aes_key uninit beyond P Hu Hc rqs st _ [] I); auto. by rewrite Hs.
Qed.

(** C27. The eviction schedule is fair: from any counter value an ORAM can have,
    every leaf is one of the two that are evicted by one of the next [N / 2 + 1]
    accesses. *)
Theorem eviction_fair P n leaf : config_ok P -> 0 <= leaf < N P ->
  exists t ac, Z.of_nat t <= N P / 2 /\ Nat.iter (t + n) (next_counter P) 0 = ac /\
    (eviction_leaf P ac = Ret leaf \/ eviction_leaf P (u32 (ac + 1)) = Ret leaf).
Proof.
  intros Hc Hl. assert (Hn : exists m, 0 <= m <= N P / 2 /\ Nat.iter n (next_counter P) 0 = 2 * m).
  { destruct (N_bound P Hc). exists ((0 + Z.of_nat n) mod (N P / 2 + 1)). split; [|apply (iter_next_counter P Hc 0 n)].
    - pose proof (Z.mod_pos_bound (0 + Z.of_nat n) (N P / 2 + 1)). pose proof (Z.div_pos (N P) 2). lia.
    - pose proof (Z.div_pos (N P) 2). lia. }
  destruct Hn as (m & Hm & En). destruct (eviction_leaf_onto P Hc leaf Hl) as (ac & Hac & Ea).
  destruct (schedule_reaches P Hc m ac Hm Hac) as (t & Ht & Et). exists t, (2 * (ac / 2)). split_and!; [done| |].
  - by rewrite Nat.iter_add, En.
  - destruct (N_bound P Hc). pose proof (Z.div_mod ac 2 ltac:(lia)). pose proof (Z.mod_pos_bound ac 2 ltac:(lia)).
    destruct (decide (ac mod 2 = 0)); [left|right].
    + by replace (2 * (ac / 2)) with ac by lia.
    + replace (2 * (ac / 2) + 1) with ac by lia. unfold u32. by rewrite Z.mod_small by lia.
Qed.

(** C26. Eviction moves blocks and does nothing else: the stash and the path hold
    the same live blocks before and after, the stash does not grow, and a block
    that has moved is in a bucket on the path to its own leaf. *)
Theorem evict_once_conserves P s T leaf bh bw : config_ok P -> is_leaf P leaf -> Forall (good_block P) s ->
  (forall v, is_node P v -> length (T v) = Zb P /\ Forall (good_block P) (T v)) -> good_block P bh -> good_block P bw ->
  exists s' path' bh' bw', evict_once P leaf s (path_of P T leaf) bh bw = (s', path', bh', bw') /\
    lives P s' ++ lives P (concat path') ≡ₚ lives P s ++ lives P (concat (path_of P T leaf)) /\
    (stashOccupancy P s' <= stashOccupancy P s)%nat /\
    (forall j bucket' b, path' !! j = Some bucket' -> b ∈ bucket' -> live P b ->
       b ∈ T (Z.shiftr leaf (Z.of_nat j)) \/ Z.shiftr (treeLabel b) (Z.of_nat j) = Z.shiftr leaf (Z.of_nat j)).
Proof.
  intros Hc Hl Hs HT Hh Hw.
  destruct (evict_once_path P Hc s T leaf bh bw Hl Hs HT Hh Hw) as (s' & path' & bh' & bw' & E & _ & _ & _ & _ & _ & _ & _ & Hp & Ho & _ & Hm).
  exists s', path', bh', bw'. rewrite !occupancy_lives. by split_and!.
Qed.

Lemma sample_config : config_ok sample_params.
Proof. unfold config_ok. split_and!; vm_compute; (reflexivity || lia). Qed.

Lemma oram_refines_array_witness :
  exists st, sample_create = Ret st /\
    exists st', sample_run st [sample_write 3 2 7; sample_read 0 3; sample_read 3 1] = Ret (st', [sample_word 0; filler 8; sample_word 7]).
Proof.
  destruct (@oram_refines_array toy_crypto toy_aes toy_aes_laws [] sample_nonce [] sample_params (mk_LS ∅ ∅) sample_junk []
    [sample_write 3 2 7; sample_read 0 3; sample_read 3 1]) as (st & E & Hrun & Hfit);
    [intros n; reflexivity|exact sample_config|cbn; lia|split; [reflexivity|split; split; done]|reflexivity|reflexivity|].
  exists st. split; [exact E|]. apply Hrun, Hfit. cbn. lia.
Defined.

Lemma eviction_fair_witness : config_ok sample_params /\ 0 <= 2 < N sample_params /\
  exists t ac, Z.of_nat t <= N sample_params / 2 /\ Nat.iter (t + 5) (next_counter sample_params) 0 = ac /\
    (eviction_leaf sample_params ac = Ret 2 \/ eviction_leaf sample_params (u32 (ac + 1)) = Ret 2).
Proof.
  assert (Hl : 0 <= 2 < N sample_params) by (split; [lia|reflexivity]).
  split; [exact sample_config|]. split; [exact Hl|]. exact (eviction_fair sample_params 5 2 sample_config Hl).
Defined.

Lemma evict_once_conserves_witness :
  let s := [mk_Block 1 6 (sample_word 9); sample_junk] in
  let T := fun _ : Z => [dummy_block 8 4] in
  is_leaf sample_params 4 /\
  exists s' path' bh' bw', evict_once sample_params 4 s (path_of sample_params T 4) sample_junk sample_junk = (s', path', bh', bw') /\
    lives sample_params s' ++ lives sample_params (concat path') ≡ₚ lives sample_params s ++ lives sample_params (concat (path_of sample_params T 4)).
Proof.
  intros s T. assert (Hl : is_leaf sample_params 4) by (split; vm_compute; congruence). split; [exact Hl|].
  assert (Hj : good_block sample_params sample_junk) by (split; [reflexivity|split; split; done]).
  destruct (evict_once_conserves sample_params s T 4 sample_junk sample_junk) as (s' & path' & bh' & bw' & E & Hp & _).
  - exact sample_config.
  - exact Hl.
  - constructor; [split; [reflexivity|split; split; done]|]. constructor; [exact Hj|constructor].
  - intros v _. split; [reflexivity|]. constructor; [split; [reflexivity|split; split; done]|constructor].
  - exact Hj.
  - exact Hj.
  - exists s', path', bh', bw'. split; [exact E|exact Hp].
Defined.

(** A second write can be lost.  A block that is found in the stash is put
    there again without taking the old copy out; here both writes of block 3
    succeed, and the read that follows returns the data of the first one. *)
Lemma second_write_lost : exists st st', sample_create = Ret st /\
  sample_run st [sample_read 0 3; sample_read 1 3; sample_write 3 2 2; sample_write 3 0 3; sample_read 3 0] =
    Ret (st', [filler 8; filler 8; sample_word 0; sample_word 0; sample_word 2]).
Proof.
  assert (E : (st ← sample_create; '(_, outs) ← sample_run st
    [sample_read 0 3; sample_read 1 3; sample_write 3 2 2; sample_write 3 0 3; sample_read 3 0]; Ret outs) =
    Ret [filler 8; filler 8; sample_word 0; sample_word 0; sample_word 2]) by (vm_compute; reflexivity).
  destruct sample_create as [st| | |]; [|done|done|done]. rewrite bind_ret in E.
  destruct (sample_run st _) as [[st' outs]| | |] eqn:E1; [|done|done|done]. rewrite bind_ret in E. injection E as ->.
  by exists st, st'.
Qed.

(** The hashes of the tree do not protect the path: in a new ORAM all paths
    verify, but the first access uploads the buckets of its left eviction with
    the hashes of another path, so that the stored path to leaf 4 no longer
    verifies.  No access notices: the next read of the path succeeds. *)
Lemma eviction_breaks_hashes : exists st st' st'', sample_create = Ret st /\
  mapMO (sample_path_check st) [4; 5; 6; 7] = Ret (replicate 4 [true; true; true]) /\
  sample_run st [sample_read 1 3] = Ret (st', [filler 8]) /\
  sample_path_check st' 4 = Ret [false; true; true] /\ posmap st' !! 0%nat = Some 4 /\
  sample_run st' [sample_read 0 3] = Ret (st'', [filler 8]).
Proof.
  assert (E : (st ← sample_create; v ← mapMO (sample_path_check st) [4; 5; 6; 7]; '(st', outs) ← sample_run st [sample_read 1 3];
    v' ← sample_path_check st' 4; '(_, outs') ← sample_run st' [sample_read 0 3]; Ret (v, outs, v', posmap st' !! 0%nat, outs')) =
    Ret (replicate 4 [true; true; true], [filler 8], [false; true; true], Some 4, [filler 8])) by (vm_compute; reflexivity).
  destruct sample_create as [st| | |]; [|done|done|done]. rewrite bind_ret in E.
  destruct (mapMO _ _) as [v| | |] eqn:E0; [|done|done|done]. rewrite bind_ret in E.
  destruct (sample_run st _) as [[st' outs]| | |] eqn:E1; [|done|done|done]. rewrite bind_ret in E.
  destruct (sample_path_check st' 4) as [v'| | |] eqn:E2; [|done|done|done]. rewrite bind_ret in E.
  destruct (sample_run st' _) as [[st'' outs']| | |] eqn:E3; [|done|done|done]. rewrite bind_ret in E. injection E as -> -> -> Ep ->.
  by exists st, st', st''.
Qed.
