(* ===== verification/OramOblivious.v ===== *)
(** * Circuit ORAM: what the storage sees

    The storage outside the enclave is asked for paths and given paths.  The
    instrumented accesses below return these OCALLs with their result.  The
    theorem is that they hide which blocks are accessed, whether they are read
    or written, and what is in them: after the blocks have been loaded in
    order, any two sequences of as many accesses to them lead to the same
    OCALLs, up to a bijection of the random numbers that are drawn.  It holds
    also when the stash overflows.  What is in the paths, encrypted, and how
    long a computation takes is not part of the view. *)

From S2P Require Import Prelude Crypto Oram OramEvict OramFacts OramAccess OramTrace.

Local Open Scope Z_scope.

(** ** The view *)

Inductive ocall := Download (leaf : Z) | Upload (leaf : Z).

Section View.
Context `{Crypto} `{AesCtr} (aes_key : str) (uninit : nat -> str) (beyond : str) (P : params).

(** The OCALLs are made by [downloadPath], by [upload_then_hash] and by
    [hash_then_upload], each with the leaf it is called with. *)
Definition evict_path_view (left : bool) (st : oram) (leaf : Z) : outcome (oram * list ocall) :=
  '(path, st) ← downloadPath aes_key P st leaf;
  let v := [Download leaf] in
  let '(s, path, bh, bw) := evict_once P leaf (stash st) path (serialized_block_hold st) (serialized_block_write st) in
  let st := with_buffers (with_stash st s) bh bw in
  Ret (if left then upload_then_hash aes_key uninit beyond st leaf path else hash_then_upload aes_key uninit beyond st leaf path, v ++ [Upload leaf]).

Definition EvictionRoutine_view (st : oram) : outcome (oram * list ocall) :=
  let ac := access_counter st in
  ll ← eviction_leaf P ac;
  lr ← eviction_leaf P (u32 (ac + 1));
  let st := with_counter st (next_counter P ac) in
  '(st, v1) ← evict_path_view true st (N P + ll);
  '(st, v2) ← evict_path_view false st (N P + lr);
  Ret (st, v1 ++ v2).

Definition FetchBlock_view (st : oram) (path : list (list Block)) (op : opType) (id leaf newleaf : Z) (data_in data_out : str) : oram * str * list ocall :=
  let '(path, result) := fetch_path P id path (serialized_result_block st) in
  let result := fetch_stash P id (stash st) result in
  let data := omove_buffer (b_data result) data_in (data_size P) (is_w op) in
  let data_out := omove_buffer data_out data (data_size P) (negb (is_w op)) in
  let st := hash_then_upload aes_key uninit beyond st leaf path in
  let v := [Upload leaf] in
  let result := mk_Block (b_id result) newleaf data in
  let st := with_result st result in
  (with_stash st (pass_insert P (stash st) result (isBlockDummy P result)), data_out, v).

Definition access_view (st : oram) (r : request) : outcome (oram * str * list ocall) :=
  if decide (words (data_size P) = 0%nat) then Undef else
  let newleaf := N P + rq_random r mod N P in
  leaf ← deref (if rq_id r <? 0 then None else posmap st !! Z.to_nat (rq_id r));
  let st := with_posmap st (<[Z.to_nat (rq_id r) := newleaf]> (posmap st)) in
  '(path, st) ← downloadPath aes_key P st leaf;
  let v1 := [Download leaf] in
  let '(st, data_out, v2) := FetchBlock_view st path (rq_op r) (rq_id r) leaf newleaf (rq_in r) (rq_out r) in
  '(st, v3) ← EvictionRoutine_view st;
  Ret (st, data_out, v1 ++ v2 ++ v3).

Fixpoint run_view (st : oram) (rqs : list request) : outcome (list (list ocall)) :=
  match rqs with
  | [] => Ret []
  | r :: rqs =>
    '(st, _, v) ← access_view st r;
    vs ← run_view st rqs;
    Ret (v :: vs)
  end.

Lemma evict_path_erase left st leaf : evict_path_view left st leaf = st ← evict_path aes_key uninit beyond P left st leaf; Ret (st, [Download leaf; Upload leaf]).
Proof.
  unfold evict_path, evict_path_view. destruct (downloadPath _ _ _ _) as [[path st1]| | |]; [|reflexivity..]. rewrite !bind_ret.
  by destruct (evict_once _ _ _ _ _ _) as [[[s path'] bh] bw].
Qed.

Lemma FetchBlock_erase st path op id leaf newleaf data_in data_out :
  FetchBlock_view st path op id leaf newleaf data_in data_out = (CircuitORAM_FetchBlock aes_key uninit beyond P st path op id leaf newleaf data_in data_out, [Upload leaf]).
Proof. unfold CircuitORAM_FetchBlock, FetchBlock_view. by destruct (fetch_path _ _ _ _) as [path' result]. Qed.

(** The instrumented access is the access. *)
Lemma access_view_erase st r : access aes_key uninit beyond P st (rq_id r) (rq_op r) (rq_random r) (rq_in r) (rq_out r) =
  '(st, out, _) ← access_view st r; Ret (st, out).
Proof.
  unfold access, access_view, EvictionRoutine, EvictionRoutine_view. destruct (decide _); [reflexivity|].
  destruct (deref _) as [leaf| | |]; [|reflexivity..]. rewrite !bind_ret.
  destruct (downloadPath _ _ _ _) as [[path st1]| | |]; [|reflexivity..]. rewrite !bind_ret, FetchBlock_erase.
  destruct (CircuitORAM_FetchBlock _ _ _ _ _ _ _ _ _ _ _ _) as [st2 out].
  destruct (eviction_leaf P (access_counter st2)) as [ll| | |]; [|reflexivity..]. rewrite !bind_ret.
  destruct (eviction_leaf P (u32 (access_counter st2 + 1))) as [lr| | |]; [|reflexivity..]. rewrite !bind_ret, evict_path_erase.
  destruct (evict_path _ _ _ _ true _ _) as [st3| | |]; [|reflexivity..]. rewrite !bind_ret, evict_path_erase.
  by destruct (evict_path _ _ _ _ false _ _) as [st4| | |].
Qed.

End View.

(** A request with the number that is drawn for it. *)
Definition with_draw (r : request) (d : Z) : request := mk_request (rq_id r) (rq_op r) d (rq_in r) (rq_out r).

(** ** The position map

    An access exchanges the entry of its block for the leaf that is drawn. *)

Fixpoint exchange (pm : list Z) (ids : list nat) (news : list Z) : list Z * list Z :=
  match ids, news with
  | id :: ids, new :: news => let '(t, pm') := exchange (<[id := new]> pm) ids news in (pm !!! id :: t, pm')
  | _, _ => ([], pm)
  end.

(** The same backwards: from the leaves that were read and the last map. *)
Fixpoint unchange (pm : list Z) (ids : list nat) (t : list Z) : list Z * list Z :=
  match ids, t with
  | id :: ids, l :: t => let '(pm', news) := unchange pm ids t in (<[id := l]> pm', pm' !!! id :: news)
  | _, _ => (pm, [])
  end.

Lemma length_exchange pm ids news : length ids = length news ->
  length (exchange pm ids news).1 = length ids /\ length (exchange pm ids news).2 = length pm.
Proof.
  revert pm news. induction ids as [|id ids IH]; intros pm [|new news] Hl; try done. cbn [exchange]. injection Hl as Hl.
  destruct (IH (<[id := new]> pm) news Hl) as [H1 H2]. rewrite length_insert in H2. destruct (exchange _ _ _). cbn in *. split; [lia|done].
Qed.

Lemma length_unchange pm ids t : length ids = length t ->
  length (unchange pm ids t).1 = length pm /\ length (unchange pm ids t).2 = length ids.
Proof.
  revert t. induction ids as [|id ids IH]; intros [|l t] Hl; try done. cbn [unchange]. injection Hl as Hl.
  destruct (IH t Hl) as [H1 H2]. destruct (unchange _ _ _). cbn in *. rewrite length_insert. split; [done|lia].
Qed.

Lemma unchange_exchange pm ids news : length ids = length news -> Forall (fun id => id < length pm)%nat ids ->
  unchange (exchange pm ids news).2 ids (exchange pm ids news).1 = (pm, news).
Proof.
  revert pm news. induction ids as [|id ids IH]; intros pm [|new news] Hl Hids; try done. cbn [exchange]. injection Hl as Hl.
  apply Forall_cons in Hids as [Hid Hids]. specialize (IH (<[id := new]> pm) news Hl). rewrite length_insert in IH. specialize (IH Hids).
  destruct (exchange (<[id := new]> pm) ids news) as [t pm']. cbn [fst snd] in *. cbn [unchange]. rewrite IH.
  rewrite list_insert_insert_eq, list_lookup_total_insert_eq by exact Hid. f_equal. apply list_insert_id. by apply list_lookup_lookup_total_lt.
Qed.

Lemma exchange_unchange pm ids t : length ids = length t -> Forall (fun id => id < length pm)%nat ids ->
  exchange (unchange pm ids t).1 ids (unchange pm ids t).2 = (t, pm).
Proof.
  revert t. induction ids as [|id ids IH]; intros [|l t] Hl Hids; try done. cbn [unchange]. injection Hl as Hl.
  apply Forall_cons in Hids as [Hid Hids]. specialize (IH t Hl Hids). destruct (length_unchange pm ids t Hl) as [H1 _].
  destruct (unchange pm ids t) as [pm' news]. cbn [fst snd] in *. cbn [exchange].
  rewrite list_insert_insert_eq, list_insert_id by (apply list_lookup_lookup_total_lt; lia). rewrite IH.
  by rewrite list_lookup_total_insert_eq by lia.
Qed.

Lemma exchange_Forall (Q : Z -> Prop) pm ids news : length ids = length news -> Forall (fun id => id < length pm)%nat ids ->
  Forall Q pm -> Forall Q news -> Forall Q (exchange pm ids news).1 /\ Forall Q (exchange pm ids news).2.
Proof.
  revert pm news. induction ids as [|id ids IH]; intros pm [|new news] Hl Hids Hp Hn; try done. cbn [exchange]. injection Hl as Hl.
  apply Forall_cons in Hids as [Hid Hids]. apply Forall_cons in Hn as [Hn1 Hn2].
  destruct (IH (<[id := new]> pm) news Hl) as [H1 H2]; [by rewrite length_insert|by apply Forall_insert|done|].
  destruct (exchange _ _ _). cbn in *. split; [|done]. constructor; [|done].
  apply (Forall_lookup_1 _ _ id _ Hp). by apply list_lookup_lookup_total_lt.
Qed.

Lemma unchange_Forall (Q : Z -> Prop) pm ids t : length ids = length t -> Forall (fun id => id < length pm)%nat ids ->
  Forall Q pm -> Forall Q t -> Forall Q (unchange pm ids t).1 /\ Forall Q (unchange pm ids t).2.
Proof.
  revert t. induction ids as [|id ids IH]; intros [|l t] Hl Hids Hp Ht; try done. cbn [unchange]. injection Hl as Hl.
  apply Forall_cons in Hids as [Hid Hids]. apply Forall_cons in Ht as [Ht1 Ht2].
  destruct (IH t Hl Hids Hp Ht2) as [H1 H2]. destruct (length_unchange pm ids t Hl) as [Hlen _]. destruct (unchange _ _ _) as [pm' news]. cbn in *.
  split; [by apply Forall_insert|]. constructor; [|done]. apply (Forall_lookup_1 _ _ id _ H1). apply list_lookup_lookup_total_lt. lia.
Qed.

(** ** The accesses

    The shape of a state: what it takes for an access to be well defined, with
    no regard to which blocks are where.  An overflow of the stash keeps it. *)

Section Shape.
Context `{Crypto} `{AesLaws} (aes_key : str) (uninit : nat -> str) (beyond : str) (P : params).
Hypothesis uninit_length : forall n, length (uninit n) = NONCE_LENGTH.
Hypothesis cfg : config_ok P.

Record shape (st : oram) : Prop := mk_shape {
  sh_posmap : Z.of_nat (length (posmap st)) = gN P;
  sh_leaves : Forall (is_leaf P) (posmap st);
  sh_stash : Forall (good_block P) (stash st);
  sh_tree v : is_node P v -> length (tree_at aes_key (storage st) v) = Zb P /\ Forall (good_block P) (tree_at aes_key (storage st) v);
  sh_stored : stored P (storage st);
  sh_result : good_block P (serialized_result_block st);
  sh_hold : good_block P (serialized_block_hold st);
  sh_write : good_block P (serialized_block_write st)
}.

Lemma inv_shape st M : oram_inv aes_key P st M -> shape st.
Proof. intros [I ? ? ? ? ?]. split; try done; try apply I. Qed.

(** A path is replaced by one of good blocks. *)
Lemma shape_tree ls leaf n path hs : is_leaf P leaf -> length path = D P -> Forall (Forall (good_block P)) path ->
  Forall (fun bucket => length bucket = Zb P) path -> stored P ls ->
  (forall v, is_node P v -> length (tree_at aes_key ls v) = Zb P /\ Forall (good_block P) (tree_at aes_key ls v)) ->
  let ls' := ls_uploadPath ls leaf (encryptPath aes_key uninit n path) hs in
  stored P ls' /\ forall v, is_node P v -> length (tree_at aes_key ls' v) = Zb P /\ Forall (good_block P) (tree_at aes_key ls' v).
Proof.
  intros Hl Hlen Hg Hz Hst Ht ls'. destruct (upload_spec aes_key uninit P uninit_length ls leaf n path hs Hl Hlen Hg) as [[U1 U2] U3].
  split; [by apply U3|]. intros v Hv. destruct (on_path_dec P leaf v) as [(j & Hj & ->)|Hoff].
  - destruct (lookup_lt_is_Some_2 path j) as [bucket Hb]; [lia|]. unfold ls'. rewrite (U1 j bucket Hb).
    split; [exact (Forall_lookup_1 _ _ _ _ Hz Hb)|exact (Forall_lookup_1 _ _ _ _ Hg Hb)].
  - unfold ls'. rewrite (U2 v Hoff). by apply Ht.
Qed.

Lemma evict_path_shape left st leaf : shape st -> is_leaf P leaf ->
  exists st', evict_path aes_key uninit beyond P left st leaf = Ret st' /\ shape st' /\ posmap st' = posmap st /\ access_counter st' = access_counter st.
Proof.
  intros [S1 S2 S3 S4 S5 S6 S7 S8] Hl. unfold evict_path. destruct (downloadPath_spec aes_key P st leaf S5 Hl) as [hs0 ->].
  rewrite bind_ret. cbn [stash serialized_block_hold serialized_block_write].
  destruct (evict_once_path P cfg (stash st) (tree_at aes_key (storage st)) leaf (serialized_block_hold st) (serialized_block_write st))
    as (s' & path' & bh' & bw' & -> & A1 & A2 & A3 & A4 & A5 & A6 & A7 & _); [done..|].
  eexists. split; [reflexivity|].
  match goal with |- context [if left then upload_then_hash _ _ _ ?st0 _ _ else _] =>
    destruct (uploaded aes_key uninit beyond left st0 leaf path') as (n & hs & Els & Es & Epm & Ec & Er & Eh & Ew) end.
  cbn [storage stash posmap access_counter serialized_result_block serialized_block_hold serialized_block_write with_buffers with_stash] in *.
  destruct (shape_tree (storage st) leaf n path' hs Hl A5 A6 A7 S5 S4) as [T1 T2].
  split; [split; rewrite ?Els, ?Es, ?Epm, ?Er, ?Eh, ?Ew; done|done].
Qed.

Definition eviction_ocalls (ac : Z) : list ocall :=
  match eviction_leaf P ac, eviction_leaf P (u32 (ac + 1)) with
  | Ret ll, Ret lr => [Download (N P + ll); Upload (N P + ll); Download (N P + lr); Upload (N P + lr)]
  | _, _ => []
  end.

Lemma EvictionRoutine_view_shape st : shape st ->
  exists st', EvictionRoutine_view aes_key uninit beyond P st = Ret (st', eviction_ocalls (access_counter st)) /\ shape st' /\
    posmap st' = posmap st /\ access_counter st' = next_counter P (access_counter st).
Proof.
  intros Sh. unfold EvictionRoutine_view, eviction_ocalls.
  destruct (eviction_leaf_spec P cfg (access_counter st)) as (ll & -> & Hll). rewrite bind_ret.
  destruct (eviction_leaf_spec P cfg (u32 (access_counter st + 1))) as (lr & -> & Hlr). rewrite bind_ret.
  set (st0 := with_counter _ _). assert (Sh0 : shape st0) by (destruct Sh; by split).
  rewrite evict_path_erase. destruct (evict_path_shape true st0 (N P + ll) Sh0) as (st1 & -> & Sh1 & P1 & C1); [unfold is_leaf; lia|]. rewrite bind_ret.
  rewrite bind_ret, evict_path_erase. destruct (evict_path_shape false st1 (N P + lr) Sh1) as (st2 & -> & Sh2 & P2 & C2); [unfold is_leaf; lia|]. rewrite !bind_ret.
  exists st2. split; [done|]. split; [done|]. by rewrite P2, P1, C2, C1.
Qed.

Lemma pass_insert_good s b is_dummy : Forall (good_block P) s -> good_block P b -> Forall (good_block P) (pass_insert P s b is_dummy).
Proof.
  intros Hs Hb. unfold pass_insert. generalize false. induction Hs as [|x s Hx Hs IH]; intros written; cbn [pass_insert_loop]; constructor; [|apply IH].
  destruct (_ && _ && _); [by rewrite omove_good|by rewrite omove_block_false].
Qed.

Lemma FetchBlock_shape st path op id leaf newleaf data_in data_out : shape st -> is_leaf P leaf -> is_leaf P newleaf ->
  path = path_of P (tree_at aes_key (storage st)) leaf -> 0 <= id < gN P -> length data_in = data_size P ->
  exists st' out, CircuitORAM_FetchBlock aes_key uninit beyond P st path op id leaf newleaf data_in data_out = (st', out) /\
    shape st' /\ posmap st' = posmap st /\ access_counter st' = access_counter st.
Proof.
  intros [S1 S2 S3 S4 S5 S6 S7 S8] Hl Hnl -> Hid Hdi. unfold CircuitORAM_FetchBlock.
  assert (Hg := path_good P _ leaf Hl S4). destruct (fetch_path_spec P cfg id _ _ S6 Hg) as (r1 & -> & Hr1 & _).
  destruct (fetch_stash_spec P cfg id (stash st) ltac:(lia) r1 Hr1 S3) as [Hr2 _]. set (r2 := fetch_stash P id (stash st) r1) in *.
  assert (Hd : length (b_data r2) = data_size P) by apply Hr2.
  set (data := omove_buffer (b_data r2) data_in (data_size P) (is_w op)).
  assert (Hgood : good_block P (mk_Block (b_id r2) newleaf data)).
  { split; [unfold sized, data; cbn; rewrite (omove_data P cfg) by done; by destruct (is_w op)|].
    split; [apply Hr2|]. destruct (N_bound P cfg). unfold is_leaf in Hnl. unfold is_u32. cbn. lia. }
  destruct (uploaded aes_key uninit beyond false st leaf (map (map (without P id)) (path_of P (tree_at aes_key (storage st)) leaf)))
    as (n & hs & Els & Es & Epm & Ec & _ & Eh & Ew). set (st1 := hash_then_upload _ _ _ _ _ _) in *. cbv iota in Els, Es, Epm, Ec, Eh, Ew.
  destruct (shape_tree (storage st) leaf n _ hs Hl (length_without P (tree_at aes_key (storage st)) id leaf) (without_good P cfg id _ Hg)) as [T1 T2]; [|done|done|].
  { apply Forall_fmap, Forall_lookup. intros j bucket Hj. apply path_of_inv in Hj as [Hj ->]. unfold compose. rewrite length_map. by apply S4, leaf_node. }
  eexists _, _. split; [reflexivity|]. cbn [with_stash with_result posmap access_counter]. rewrite Epm, Ec. split; [|done].
  split; cbn [with_stash with_result posmap stash storage serialized_result_block serialized_block_hold serialized_block_write];
    rewrite ?Epm, ?Els, ?Es, ?Eh, ?Ew; try done. by apply pass_insert_good.
Qed.

(** The OCALLs of accesses that read the given leaves from the position map. *)
Fixpoint views (leaves : list Z) (ac : Z) : list (list ocall) :=
  match leaves with
  | [] => []
  | leaf :: leaves => (Download leaf :: Upload leaf :: eviction_ocalls ac) :: views leaves (next_counter P ac)
  end.

Definition new_leaf (d : Z) : Z := N P + d mod N P.

Lemma new_leaf_leaf d : is_leaf P (new_leaf d).
Proof. destruct (N_bound P cfg). unfold is_leaf, new_leaf. pose proof (Z.mod_pos_bound d (N P)). lia. Qed.

Lemma access_view_shape st r : shape st -> well_sized P r = true ->
  exists st' out, access_view aes_key uninit beyond P st r =
      Ret (st', out, Download (posmap st !!! Z.to_nat (rq_id r)) :: Upload (posmap st !!! Z.to_nat (rq_id r)) :: eviction_ocalls (access_counter st)) /\
    shape st' /\ posmap st' = <[Z.to_nat (rq_id r) := new_leaf (rq_random r)]> (posmap st) /\ access_counter st' = next_counter P (access_counter st).
Proof.
  intros Sh Hw. unfold well_sized in Hw. rewrite !andb_true_iff, Z.leb_le, Z.ltb_lt, !Nat.eqb_eq in Hw. destruct Hw as (((Hid & Hid') & Hin) & _).
  unfold access_view. rewrite decide_False by (destruct cfg as (_ & Hwd & Hpos & _); lia). rewrite (proj2 (Z.ltb_ge (rq_id r) 0)) by lia.
  pose proof (sh_posmap _ Sh) as Hlen. destruct (lookup_lt_is_Some_2 (posmap st) (Z.to_nat (rq_id r))) as [leaf Hpm]; [lia|].
  rewrite (list_lookup_total_correct _ _ _ Hpm), Hpm. cbn [deref]. rewrite bind_ret. fold (new_leaf (rq_random r)).
  pose proof (Forall_lookup_1 _ _ _ _ (sh_leaves _ Sh) Hpm) as Hl.
  assert (Hst : stored P (storage (with_posmap st (<[Z.to_nat (rq_id r) := new_leaf (rq_random r)]> (posmap st))))) by apply Sh.
  destruct (downloadPath_spec aes_key P _ leaf Hst Hl) as [hs ->]. rewrite bind_ret.
  cbn [with_posmap posmap stash access_counter serialized_result_block serialized_block_hold serialized_block_write merkle_root_hash path_hash new_path_hash storage mallocs].
  match goal with |- context [FetchBlock_view _ _ _ _ ?s _ _ _ _ _ _ _] => set (st0 := s) end.
  assert (Sh0 : shape st0).
  { destruct Sh. split; try done; cbn [st0 posmap]; [by rewrite length_insert|]. apply Forall_insert; [done|apply new_leaf_leaf]. }
  destruct (FetchBlock_shape st0 _ (rq_op r) (rq_id r) leaf (new_leaf (rq_random r)) (rq_in r) (rq_out r) Sh0 Hl (new_leaf_leaf (rq_random r)) eq_refl ltac:(unfold gN in *; lia) Hin)
    as (st1 & out & E & Sh1 & P1 & C1). cbn [st0 storage] in E. rewrite FetchBlock_erase, E.
  destruct (EvictionRoutine_view_shape st1 Sh1) as (st2 & -> & Sh2 & P2 & C2). rewrite bind_ret.
  exists st2, out. rewrite P2, C2, C1, P1. split; [reflexivity|]. split; [exact Sh2|]. split; reflexivity.
Qed.

Definition ids_of (rqs : list request) : list nat := map (fun r => Z.to_nat (rq_id r)) rqs.

Lemma run_view_shape rqs : forall st ds, shape st -> forallb (well_sized P) rqs = true -> length rqs = length ds ->
  run_view aes_key uninit beyond P st (zip_with with_draw rqs ds) = Ret (views (exchange (posmap st) (ids_of rqs) (map new_leaf ds)).1 (access_counter st)).
Proof.
  induction rqs as [|r rqs IH]; intros st [|d ds] Sh Hw Hl; try done. cbn [forallb] in Hw. apply andb_prop in Hw as [Hw1 Hw2]. injection Hl as Hl.
  cbn [zip_with run_view ids_of map exchange].
  destruct (access_view_shape st (with_draw r d) Sh Hw1) as (st' & out & -> & Sh' & Ep & Ec). rewrite bind_ret. cbn [with_draw rq_id rq_random] in *.
  rewrite (IH st' ds Sh' Hw2 Hl), bind_ret, Ep, Ec. fold (ids_of rqs). by destruct (exchange _ _ _).
Qed.

End Shape.

(** ** Loading *)

(** Loading blocks [0, 1, ...] in order reads the first map and leaves the
    leaves that were drawn. *)
Lemma exchange_load news : forall pre pm, (length news <= length pm)%nat ->
  exchange (pre ++ pm) (seq (length pre) (length news)) news = (take (length news) pm, pre ++ news ++ drop (length news) pm).
Proof.
  induction news as [|new news IH]; intros pre pm Hl; [done|]. destruct pm as [|x pm]; cbn [length] in Hl; [lia|]. cbn [length seq exchange].
  rewrite list_lookup_total_middle, insert_app_r_alt, Nat.sub_diag by lia. cbn [list_insert insert].
  specialize (IH (pre ++ [new]) pm ltac:(lia)). rewrite length_app, <- !app_assoc in IH. cbn [length app] in IH. rewrite Nat.add_1_r in IH.
  change (pre ++ <[0%nat := new]> (x :: pm)) with (pre ++ new :: pm). by rewrite IH.
Qed.

Lemma exchange_app ids1 ids2 news1 news2 : forall pm, length ids1 = length news1 ->
  exchange pm (ids1 ++ ids2) (news1 ++ news2) =
    ((exchange pm ids1 news1).1 ++ (exchange (exchange pm ids1 news1).2 ids2 news2).1, (exchange (exchange pm ids1 news1).2 ids2 news2).2).
Proof.
  revert news1. induction ids1 as [|id ids1 IH]; intros [|new news1] pm Hl; try done; [cbn [app exchange fst snd]; by destruct (exchange pm ids2 news2)|].
  injection Hl as Hl. cbn [app exchange]. rewrite (IH news1 _ Hl). by destruct (exchange (<[id := new]> pm) ids1 news1).
Qed.

Lemma exchange_prefix rest ids news : forall pm, length ids = length news -> Forall (fun id => id < length pm)%nat ids ->
  exchange (pm ++ rest) ids news = ((exchange pm ids news).1, (exchange pm ids news).2 ++ rest).
Proof.
  revert news. induction ids as [|id ids IH]; intros [|new news] pm Hl Hids; try done. injection Hl as Hl. apply Forall_cons in Hids as [Hid Hids].
  cbn [exchange]. rewrite insert_app_l by done. rewrite (IH news _ Hl) by (by rewrite length_insert).
  rewrite lookup_total_app_l by done. by destruct (exchange (<[id := new]> pm) ids news).
Qed.

(** ** The bijection of the draws *)

Section Shuffle.
Context (P : params).
Hypothesis cfg : config_ok P.

(** The draws of [k] loads and some accesses to blocks [ids], changed so that
    accesses to blocks [ids'] read the same leaves. *)
Definition shuffle (k : nat) (ids ids' : list nat) (ds : list Z) : list Z :=
  let news := map (new_leaf P) ds in
  let '(t, pm) := exchange (take k news) ids (drop k news) in
  let '(pm, news) := unchange pm ids' t in
  zip_with (fun d leaf => d / N P * N P + (leaf - N P)) ds (pm ++ news).

Definition draws (n : nat) (ds : list Z) : Prop := length ds = n /\ Forall (fun d => 0 <= d < 2 ^ 32) ds.

Lemma N_divides : exists q, 2 ^ 32 = q * N P /\ 0 < N P.
Proof.
  destruct cfg as [[HD1 HD2] _]. exists (2 ^ (32 - (Z.of_nat (D P) - 1))). rewrite (N_pow P), <- Z.pow_add_r by lia.
  split; [f_equal; lia|]. apply Z.pow_pos_nonneg; lia.
Qed.

Lemma redraw d leaf : 0 <= d < 2 ^ 32 -> is_leaf P leaf ->
  0 <= d / N P * N P + (leaf - N P) < 2 ^ 32 /\ new_leaf P (d / N P * N P + (leaf - N P)) = leaf /\ (d / N P * N P + (leaf - N P)) / N P = d / N P.
Proof.
  intros Hd [Hl1 Hl2]. destruct N_divides as (q & Hq & HN). assert (Hdq : 0 <= d / N P < q).
  { split; [apply Z.div_pos; lia|]. apply Z.div_lt_upper_bound; lia. }
  split; [nia|]. unfold new_leaf. rewrite (Z.add_comm (d / N P * N P)). rewrite Z.mod_add, Z.div_add, Z.mod_small, Z.div_small by lia. lia.
Qed.

Lemma redraw_all ds : forall l, length ds = length l -> Forall (fun d => 0 <= d < 2 ^ 32) ds -> Forall (is_leaf P) l ->
  let r := zip_with (fun d leaf => d / N P * N P + (leaf - N P)) ds l in
  draws (length ds) r /\ map (new_leaf P) r = l /\ map (fun d => d / N P) r = map (fun d => d / N P) ds.
Proof.
  induction ds as [|d ds IH]; intros [|leaf l] Hl Hd Hleaf; try done. injection Hl as Hl. apply Forall_cons in Hd as [Hd Hds].
  apply Forall_cons in Hleaf as [Hf Hfs]. cbn [zip_with map length]. destruct (redraw d leaf Hd Hf) as (R1 & R2 & R3).
  destruct (IH l Hl Hds Hfs) as ([L F] & E1 & E2). rewrite R2, R3, E1, E2. split; [|done]. split; [cbn [length]; by rewrite L|by constructor].
Qed.

Context (k : nat) (ids ids' : list nat).
Hypothesis same_length : length ids = length ids'.
Hypothesis ids_loaded : Forall (fun id => id < k)%nat ids.
Hypothesis ids_loaded' : Forall (fun id => id < k)%nat ids'.

Lemma leaves_Forall ds : Forall (is_leaf P) (map (new_leaf P) ds).
Proof. apply Forall_fmap, Forall_true. intros d. by apply new_leaf_leaf. Qed.

(** The leaves of the shuffled draws. *)
Lemma shuffle_leaves ds : draws (k + length ids) ds ->
  let news := map (new_leaf P) ds in let x := exchange (take k news) ids (drop k news) in let y := unchange x.2 ids' x.1 in
  draws (k + length ids') (shuffle k ids ids' ds) /\ map (new_leaf P) (shuffle k ids ids' ds) = y.1 ++ y.2 /\
  map (fun d => d / N P) (shuffle k ids ids' ds) = map (fun d => d / N P) ds /\ length y.1 = k /\ exchange y.1 ids' y.2 = x.
Proof.
  intros [Hl Hd] news x y. assert (Hn : length news = (k + length ids)%nat) by (unfold news; by rewrite length_map).
  assert (H1 : length (take k news) = k) by (rewrite length_take; lia). assert (H2 : length ids = length (drop k news)) by (rewrite length_drop; lia).
  pose proof (leaves_Forall ds) as Hleaf. fold news in Hleaf. destruct (length_exchange (take k news) ids (drop k news) H2) as [X1 X2]. fold x in X1, X2.
  destruct (exchange_Forall (is_leaf P) (take k news) ids (drop k news) H2) as [F1 F2]; [by rewrite H1|by apply Forall_take|by apply Forall_drop|]. fold x in F1, F2.
  destruct (length_unchange x.2 ids' x.1 ltac:(lia)) as [Y1 Y2]. fold y in Y1, Y2.
  destruct (unchange_Forall (is_leaf P) x.2 ids' x.1 ltac:(lia)) as [G1 G2]; [by rewrite X2, H1|done|done|]. fold y in G1, G2.
  assert (Es : shuffle k ids ids' ds = zip_with (fun d leaf => d / N P * N P + (leaf - N P)) ds (y.1 ++ y.2)).
  { unfold shuffle, y. change (map (new_leaf P) ds) with news. fold x. destruct x as [t pm]. cbn [fst snd]. by destruct (unchange pm ids' t). }
  assert (Hyl : length ds = length (y.1 ++ y.2)) by (rewrite length_app; lia).
  assert (Hy : Forall (is_leaf P) (y.1 ++ y.2)) by (by apply Forall_app).
  destruct (redraw_all ds (y.1 ++ y.2) Hyl Hd Hy) as (R1 & R2 & R3). rewrite Es. split; [by rewrite <- same_length, <- Hl|]. split; [exact R2|].
  split; [exact R3|]. split; [lia|]. unfold y. rewrite exchange_unchange; [by destruct x|lia|by rewrite X2, H1].
Qed.

Lemma redraw_same ds ds' : map (fun d => d / N P) ds' = map (fun d => d / N P) ds ->
  zip_with (fun d leaf => d / N P * N P + (leaf - N P)) ds' (map (new_leaf P) ds) = ds.
Proof.
  revert ds'. induction ds as [|d ds IH]; intros [|d' ds'] E; try done. injection E as E1 E2. cbn [map zip_with]. rewrite (IH ds' E2), E1.
  f_equal. unfold new_leaf. destruct N_divides as (_ & _ & HN). pose proof (Z.div_mod d (N P) ltac:(lia)). lia.
Qed.

Lemma shuffle_inverse ds : draws (k + length ids) ds -> shuffle k ids' ids (shuffle k ids ids' ds) = ds.
Proof.
  intros Hds. destruct (shuffle_leaves ds Hds) as (_ & E1 & E2 & Hk & Ex). unfold shuffle at 1.
  set (ds' := shuffle k ids ids' ds) in *. set (news := map (new_leaf P) ds) in *. set (x := exchange (take k news) ids (drop k news)) in *.
  set (y := unchange x.2 ids' x.1) in *. rewrite E1, take_app_length', drop_app_length' by done. rewrite Ex.
  assert (Hn : length news = (k + length ids)%nat) by (unfold news; rewrite length_map; apply Hds).
  assert (Eu : unchange x.2 ids x.1 = (take k news, drop k news)) by (apply unchange_exchange; [rewrite length_drop; lia|rewrite length_take; eapply Forall_impl; [exact ids_loaded|]; cbn; lia]).
  destruct x as [t pm]. cbn [fst snd] in Eu. rewrite Eu, take_drop. by apply redraw_same.
Qed.

End Shuffle.

(** ** Loads and accesses *)

(** The leaves that are read by loads of blocks [0, 1, ...] and by accesses to
    loaded blocks. *)
Lemma exchange_loaded pm k ids news : (k <= length pm)%nat -> length news = (k + length ids)%nat -> Forall (fun id => id < k)%nat ids ->
  (exchange pm (seq 0 k ++ ids) news).1 = take k pm ++ (exchange (take k news) ids (drop k news)).1.
Proof.
  intros Hk Hn Hids. assert (H1 : length (take k news) = k) by (rewrite length_take; lia).
  rewrite <- (take_drop k news) at 1. rewrite exchange_app by (rewrite length_seq; lia).
  pose proof (exchange_load (take k news) [] pm ltac:(lia)) as E. rewrite H1 in E. cbn [length app] in E. rewrite E. cbn [fst snd].
  rewrite exchange_prefix; [done|rewrite length_drop; lia|by rewrite H1].
Qed.

Lemma loads_fit P k rqs : forallb (well_sized P) rqs = true -> ids_of rqs = seq 0 k -> Z.of_nat k <= gN P \/ k = 0%nat.
Proof.
  intros Hw Hids. destruct k as [|k]; [by right|left]. assert (Hin : In k (ids_of rqs)) by (rewrite Hids; apply in_seq; lia).
  apply in_map_iff in Hin as (r & E & Hr). rewrite forallb_forall in Hw. specialize (Hw r Hr).
  unfold well_sized in Hw. rewrite !andb_true_iff, Z.leb_le, Z.ltb_lt in Hw. lia.
Qed.

Lemma loaded_view `{Crypto} `{AesLaws} aes_key uninit beyond P st k loads rqs ds :
  (forall n, length (uninit n) = NONCE_LENGTH) -> config_ok P -> shape aes_key P st ->
  forallb (well_sized P) (loads ++ rqs) = true -> ids_of loads = seq 0 k ->
  Forall (fun id => id < k)%nat (ids_of rqs) -> draws (k + length (ids_of rqs)) ds ->
  run_view aes_key uninit beyond P st (zip_with with_draw (loads ++ rqs) ds) =
    Ret (views P (take k (posmap st) ++
      (exchange (take k (map (new_leaf P) ds)) (ids_of rqs) (drop k (map (new_leaf P) ds))).1) (access_counter st)).
Proof.
  intros Hu Hc Sh Hw Hids Hr [Hl _]. assert (Hk : length loads = k) by (rewrite <- (length_seq k 0), <- Hids; unfold ids_of; by rewrite length_map).
  rewrite (run_view_shape aes_key uninit beyond P Hu Hc _ _ _ Sh Hw) by (rewrite Hl, length_app, Hk; unfold ids_of; by rewrite length_map).
  do 2 f_equal. unfold ids_of at 1. rewrite map_app. fold (ids_of loads) (ids_of rqs). rewrite Hids.
  rewrite exchange_loaded; [done| |by rewrite length_map|done].
  pose proof (sh_posmap _ _ _ Sh). rewrite forallb_app in Hw. apply andb_prop in Hw as [Hw _]. destruct (loads_fit P k loads Hw Hids); lia.
Qed.

(** ** Hiding *)

(** Two sequences of accesses make the same OCALLs, access by access, up to a
    bijection of the numbers they draw, and no access fails. *)
Definition hidden `{Crypto} `{AesCtr} aes_key uninit beyond P (st : oram) (rqs rqs' : list request) : Prop :=
  exists there back, forall ds, draws (length rqs) ds ->
    draws (length rqs) (there ds) /\ draws (length rqs) (back ds) /\ back (there ds) = ds /\ there (back ds) = ds /\
    exists v, run_view aes_key uninit beyond P st (zip_with with_draw rqs ds) = Ret v /\
      run_view aes_key uninit beyond P st (zip_with with_draw rqs' (there ds)) = Ret v.

Lemma loaded_hidden `{Crypto} `{AesLaws} aes_key uninit beyond P st k loads loads' rqs rqs' :
  (forall n, length (uninit n) = NONCE_LENGTH) -> config_ok P -> shape aes_key P st ->
  forallb (well_sized P) (loads ++ rqs) = true -> forallb (well_sized P) (loads' ++ rqs') = true ->
  ids_of loads = seq 0 k -> ids_of loads' = seq 0 k ->
  Forall (fun id => id < k)%nat (ids_of rqs) -> Forall (fun id => id < k)%nat (ids_of rqs') -> length rqs = length rqs' ->
  hidden aes_key uninit beyond P st (loads ++ rqs) (loads' ++ rqs').
Proof.
  intros Hu Hc Sh Hw Hw' Hl Hl' Hr Hr' Hlen.
  assert (Hn : length (loads ++ rqs) = (k + length (ids_of rqs))%nat).
  { rewrite length_app, <- (length_seq k 0), <- Hl. unfold ids_of. by rewrite !length_map. }
  set (ids := ids_of rqs) in *. set (ids' := ids_of rqs') in *. assert (Hi : length ids = length ids') by (unfold ids, ids', ids_of; by rewrite !length_map).
  exists (shuffle P k ids ids'), (shuffle P k ids' ids). rewrite Hn. intros ds Hds. assert (Hds' : draws (k + length ids') ds) by (by rewrite <- Hi).
  destruct (shuffle_leaves P Hc k ids ids' Hi Hr Hr' ds Hds) as (D1 & E1 & _ & Ek & Ex).
  destruct (shuffle_leaves P Hc k ids' ids (eq_sym Hi) Hr' Hr ds Hds') as (D2 & _).
  split; [by rewrite Hi|]. split; [done|]. split; [by apply shuffle_inverse|]. split; [by apply shuffle_inverse|].
  eexists. split; [by apply loaded_view|]. rewrite (loaded_view _ _ _ _ _ k) by done.
  fold ids ids'. by rewrite E1, take_app_length', drop_app_length', Ex by done.
Qed.

(** ** Property *)

(** C4. The paths that the storage outside the enclave is asked for and given
    hide the accesses.  Take a new ORAM and two sequences of accesses that both
    load blocks [0, ..., k - 1] in order and then make the same number of
    accesses to loaded blocks, which may differ in every block number, operation
    and datum.  There is a bijection of the 32-bit random numbers drawn by the
    one sequence and by the other under which both run without an error and make
    the same OCALLs, access by access.  So with uniform draws the OCALLs of the
    two sequences have the same distribution.  The OCALLs are those of the
    modelled accesses: forgetting them gives [access] back. *)
Theorem oram_oblivious `{Crypto} `{AesLaws} aes_key uninit beyond P ls junk junk_hashes k loads loads' rqs rqs' :
  (forall n, length (uninit n) = NONCE_LENGTH) -> config_ok P -> (0 < Zb P)%nat -> good_block P junk ->
  forallb (well_sized P) (loads ++ rqs) = true -> forallb (well_sized P) (loads' ++ rqs') = true ->
  ids_of loads = seq 0 k -> ids_of loads' = seq 0 k ->
  Forall (fun id => id < k)%nat (ids_of rqs) -> Forall (fun id => id < k)%nat (ids_of rqs') -> length rqs = length rqs' ->
  (forall st r, access aes_key uninit beyond P st (rq_id r) (rq_op r) (rq_random r) (rq_in r) (rq_out r) =
    '(st, out, _) ← access_view aes_key uninit beyond P st r; Ret (st, out)) /\
  exists st, Create aes_key P ls junk junk_hashes = Ret st /\ hidden aes_key uninit beyond P st (loads ++ rqs) (loads' ++ rqs').
Proof.
  intros Hu Hc HZ Hj Hw Hw' Hl Hl' Hr Hr' Hlen. split; [apply access_view_erase|].
  destruct (Create_spec aes_key P Hc ls junk junk_hashes HZ Hj) as (st & E & I & _). exists st. split; [done|].
  apply inv_shape in I. by apply (loaded_hidden aes_key uninit beyond P st k).
Qed.

Lemma oram_oblivious_witness :
  let loads d := [sample_write 0 0 d; sample_write 1 0 (d + 1)] in
  exists st, sample_create = Ret st /\
    exists there back, forall ds, draws 4 ds -> back (there ds) = ds /\ there (back ds) = ds /\
      exists v, @run_view toy_crypto toy_aes [] sample_nonce [] sample_params st (zip_with with_draw (loads 3 ++ [sample_read 1 0; sample_read 1 0]) ds) = Ret v /\
        @run_view toy_crypto toy_aes [] sample_nonce [] sample_params st (zip_with with_draw (loads 5 ++ [sample_read 0 0; sample_write 1 0 9]) (there ds)) = Ret v.
Proof.
  intros loads. destruct (@oram_oblivious toy_crypto toy_aes toy_aes_laws [] sample_nonce [] sample_params (mk_LS ∅ ∅) sample_junk [] 2
    (loads 3) (loads 5) [sample_read 1 0; sample_read 1 0] [sample_read 0 0; sample_write 1 0 9]) as (_ & st & E & there & back & Hrun);
    [intros n; reflexivity|exact sample_config|cbn; lia|split; [reflexivity|split; split; done]|reflexivity|reflexivity|reflexivity|reflexivity| | |reflexivity|].
  - repeat constructor.
  - repeat constructor.
  - exists st. split; [exact E|]. exists there, back. intros ds Hds. destruct (Hrun ds Hds) as (_ & _ & B1 & B2 & V). split; [exact B1|]. split; [exact B2|exact V].
Defined.
