(* ===== verification/OramQuerier.v ===== *)
(** * Querier enclave on oblivious storage

    src/sgx-executor/Enclave2/oram_enclave_querier.cpp with ZT_Wrapper.hpp and
    ZeroTrace/ZT_Enclave.cpp: the querier that keeps digests and compressed
    posting lists in two Circuit ORAMs.

    Parameters: per ORAM instance the key, what uninitialised memory holds, and
    the random numbers it draws; [behind], what memory holds behind a heap
    object (the code copies whole blocks out of shorter buffers); [garbage],
    the uninitialised members of a copied coder; [iterate], the order in which
    an [unordered_map] is walked. *)

From Stdlib Require Import String.
From stdpp Require Import fin_maps.
From S2P Require Import Prelude Json Codec Vlb Tokenizer Crypto Witness Crawler Indexer Querier Oram.

Import Json Sphinx Vlb.

Local Open Scope Z_scope.

Definition DIGEST_LENGTH : nat := 512.
Definition DIGEST_BLOCK_NUM : Z := 1024 * 16.
Definition INDEX_BLOCK_SIZE : nat := 512.
Definition INDEX_BLOCK_NUM : Z := 1024 * 8.
Definition MEM_POSMAP_LIMIT : Z := 8 * 1024 * 1024.

Definition digest_params : params := mk_params 2 DIGEST_BLOCK_NUM DIGEST_LENGTH 10.
Definition index_params : params := mk_params 2 INDEX_BLOCK_NUM INDEX_BLOCK_SIZE 10.

(** [computeRecursionLevels]: every turn divides the number of entries by [x]. *)
Fixpoint recursion_loop (fuel : nat) (x cur_pmap0_blocks limit levels : Z) : outcome Z :=
  match fuel with
  | O => NoFuel
  | S fuel =>
    if limit <? cur_pmap0_blocks * 4 then recursion_loop fuel x ((cur_pmap0_blocks + x - 1) / x) limit (levels + 1)
    else Ret levels
  end.

Definition computeRecursionLevels (max_blocks recursion_data_size limit : Z) : outcome Z :=
  if recursion_data_size =? 0 then Ret 1
  else recursion_loop 64 (recursion_data_size / 4) max_blocks limit 1.

(** ** The enclave's state

    An instance with its parameters.  The accesses that the instances have served
    are kept in order for the theorems, each with the number of its instance;
    an instance has drawn a random number for each of its own. *)

Record instance := mk_instance { in_params : params; in_oram : oram }.

Record oq_state := mk_oq {
  oq_context_template : witness_context;
  g_offset : gmap Z Z;
  g_length : gmap Z Z;
  digest_oram : Z;
  index_oram : Z;
  coram_instances : list instance;
  coram_instance_id : Z;
  oq_served : list (Z * request)
}.

Definition with_instances (e : oq_state) (l : list instance) : oq_state :=
  mk_oq (oq_context_template e) (g_offset e) (g_length e) (digest_oram e) (index_oram e) l (coram_instance_id e) (oq_served e).

(** The same after the accesses of [log]. *)
Definition with_log (e : oq_state) (l : list instance) (log : list (Z * request)) : oq_state :=
  mk_oq (oq_context_template e) (g_offset e) (g_length e) (digest_oram e) (index_oram e) l (coram_instance_id e) (oq_served e ++ log).

(** The accesses of instance [inst]. *)
Definition served_of (inst : Z) (log : list (Z * request)) : list request := map snd (filter (fun x => fst x = inst) log).

Definition op_char (op : opType) : ascii := match op with Op_r => z2b 114 | Op_w => z2b 119 end.
Definition char_op (c : ascii) : opType := if b2z c =? 119 then Op_w else Op_r.

Definition myZT_serializeRequest (request_id : Z) (op_type : opType) (data : str) : str :=
  op_char op_type :: le_bytes 4 request_id ++ data.

(** [memcpy] of [n] bytes from offset [off] of an object that may end before. *)
Definition read_past (behind : nat -> ascii) (buf : str) (off n : nat) : str :=
  map (fun i => default (behind i) (buf !! (off + i)%nat)) (seq 0 n).

(** [memcpy] into the middle of a buffer. *)
Definition overwrite (buf : str) (off : nat) (s : str) : str := take off buf ++ s ++ drop (off + length s) buf.

Section OramQuerier.
Context `{Crypto} `{AesCtr}.
Context (aes_key : Z -> str) (uninit : Z -> nat -> str) (beyond : Z -> str).
Context (junk : Z -> Block) (junk_hashes : Z -> list str) (rand : Z -> nat -> Z).
Context (behind : nat -> ascii) (garbage : cursor * bool) (iterate : forall A, gmap Z A -> list (Z * A)).

(** The storage outside the enclave that is registered for each instance. *)
Context (ls_CORAM : gmap Z LocalStorage).

(** ** ORAM instances (ZT_Enclave.cpp)

    An OCALL for an instance without storage goes through an uninitialised
    pointer. *)

Definition createNewORAMInstance (e : oq_state) (instance_id : Z) (P : params) : outcome oq_state :=
  ls ← deref (ls_CORAM !! instance_id);
  o ← Create (aes_key instance_id) P ls (junk instance_id) (junk_hashes instance_id);
  Ret (with_instances e (coram_instances e ++ [mk_instance P o])).

(** [accessInterface] takes the request apart again. *)
Definition accessInterface (e : oq_state) (instance_id : Z) (request response : str) : outcome (oq_state * str) :=
  c ← deref (head request);
  let id := le_val (take 4 (drop 1 request)) in
  let data_in := drop 5 request in
  i ← deref (coram_instances e !! Z.to_nat instance_id);
  let random_value := rand instance_id (length (served_of instance_id (oq_served e))) in
  let served := mk_request id (char_op c) random_value data_in response in
  '(o, response) ← access (aes_key instance_id) (uninit instance_id) (beyond instance_id) (in_params i) (in_oram i)
    id (char_op c) random_value data_in response;
  Ret (with_log e (<[Z.to_nat instance_id := mk_instance (in_params i) o]> (coram_instances e)) [(instance_id, served)], response).

Definition myZT_Access (e : oq_state) (instance_id block_id : Z) (op_type : opType) (data_in data_out : str)
  : outcome (oq_state * str) :=
  accessInterface e instance_id (myZT_serializeRequest block_id op_type data_in) data_out.

(** ** Loading (create_digest_oram, create_index_oram)

    Writes leave [data_out] alone. *)

Definition zeros (n : nat) : str := replicate n NUL.

(** A string's buffer ends with a zero. *)
Definition copy_digest (d : str) : str := read_past behind (d ++ [NUL]) 0 (DIGEST_LENGTH / 2).

Fixpoint digest_loop (e : oq_state) (block_id : Z) (digests : list str) (data_in : str) : outcome (oq_state * Z * str) :=
  match digests with
  | [] => Ret (e, block_id, data_in)
  | d :: digests =>
    if block_id mod 2 =? 0 then digest_loop e (block_id + 1) digests (overwrite data_in 0 (copy_digest d))
    else
      let data_in := overwrite data_in (DIGEST_LENGTH / 2) (copy_digest d) in
      '(e, _) ← myZT_Access e (digest_oram e) (block_id / 2) Op_w data_in (zeros DIGEST_LENGTH);
      digest_loop e (block_id + 1) digests data_in
  end.

Definition getNewORAMInstanceID (e : oq_state) : Z * oq_state :=
  (coram_instance_id e,
   mk_oq (oq_context_template e) (g_offset e) (g_length e) (digest_oram e) (index_oram e) (coram_instances e)
     (u32 (coram_instance_id e + 1)) (oq_served e)).

Definition create_digest_oram (e : oq_state) (q_digest_tbl : list str) : outcome oq_state :=
  let '(id, e) := getNewORAMInstanceID e in
  let e := mk_oq (oq_context_template e) (g_offset e) (g_length e) id (index_oram e) (coram_instances e) (coram_instance_id e) (oq_served e) in
  e ← createNewORAMInstance e id digest_params;
  '(e, block_id, data_in) ← digest_loop e 0 q_digest_tbl (zeros DIGEST_LENGTH);
  '(e, _) ← myZT_Access e (digest_oram e) (block_id / 2) Op_w data_in (zeros DIGEST_LENGTH);
  Ret e.

(** Step 1: blobs, offsets and lengths in the order of the table. *)
Fixpoint lay_out (entries : list (Z * VLB_coder)) (total_length : Z) (offs lens : gmap Z Z) (temp : str)
  : outcome (Z * gmap Z Z * gmap Z Z * str) :=
  match entries with
  | [] => Ret (total_length, offs, lens, temp)
  | (w, c) :: entries =>
    let blob := marshall_VLB_to_buffer c in
    let index_size := Z.of_nat (length blob) in
    if decide (is_i32 (total_length + index_size)) then
      lay_out entries (total_length + index_size) (<[w := total_length]> offs) (<[w := index_size]> lens) (temp ++ blob)
    else Undef
  end.

(** Step 2: [n] blocks from number [block_id] on. *)
Fixpoint index_loop (n : nat) (e : oq_state) (block_id : Z) (temp : str) : outcome oq_state :=
  match n with
  | O => Ret e
  | S n =>
    '(e, _) ← myZT_Access e (index_oram e) block_id Op_w
      (read_past behind temp (Z.to_nat block_id * INDEX_BLOCK_SIZE) INDEX_BLOCK_SIZE) (zeros INDEX_BLOCK_SIZE);
    index_loop n e (block_id + 1) temp
  end.

Definition create_index_oram (e : oq_state) (vlb_index_tbl : gmap Z VLB_coder) : outcome oq_state :=
  '(total_length, offs, lens, temp) ← lay_out (iterate _ vlb_index_tbl) 0 (g_offset e) (g_length e) [];
  let '(id, e) := getNewORAMInstanceID e in
  let e := mk_oq (oq_context_template e) offs lens (digest_oram e) id (coram_instances e) (coram_instance_id e) (oq_served e) in
  e ← createNewORAMInstance e id index_params;
  index_loop (Z.to_nat (total_length / Z.of_nat INDEX_BLOCK_SIZE) + 1) e 0 (temp ++ [NUL]).

Definition zip_entry (tbl : gmap Z VLB_coder) (entry : Z * list Z) : gmap Z VLB_coder :=
  foldl (fun tbl docID => <[fst entry := Zip (default new_VLB (tbl !! fst entry)) docID]> tbl) tbl (snd entry).

Definition ecall_oram_querier_setup (e : oq_state) (b_index_input : str) (b_index_input_size : Z) : outcome oq_state :=
  '(q_digest_tbl, q_index_tbl) ← Split_binary b_index_input b_index_input_size;
  let c := witness_clear (oq_context_template e) in
  let c := witness_init c (L "STEEMIT QUERIER") in
  let c := witness_input c (take (Z.to_nat b_index_input_size) b_index_input) in
  let e := mk_oq c ∅ ∅ (digest_oram e) (index_oram e) (coram_instances e) (coram_instance_id e) (oq_served e) in
  let vlb_index_tbl := foldl zip_entry ∅ (iterate _ q_index_tbl) in
  e ← create_digest_oram e q_digest_tbl;
  create_index_oram e vlb_index_tbl.

(** ** Queries *)

(** Blocks [block_id], [block_id + 1], ... of the index, [n] of them. *)
Fixpoint read_blocks (n : nat) (e : oq_state) (block_id : Z) (data_out : str) : outcome (oq_state * str) :=
  match n with
  | O => Ret (e, data_out)
  | S n =>
    '(e, block) ← myZT_Access e (index_oram e) block_id Op_r (zeros INDEX_BLOCK_SIZE) (map behind (seq 0 INDEX_BLOCK_SIZE));
    read_blocks n e (block_id + 1) (data_out ++ block)
  end.

(** Step 2 for one word; looking a new word up leaves a zero in the maps. *)
Definition fetch_list (e : oq_state) (w : Z) : outcome (oq_state * list Z) :=
  let offset := default 0 (g_offset e !! w) in
  let len := default 0 (g_length e !! w) in
  let e := mk_oq (oq_context_template e) (<[w := offset]> (g_offset e)) (<[w := len]> (g_length e))
    (digest_oram e) (index_oram e) (coram_instances e) (coram_instance_id e) (oq_served e) in
  if len =? 0 then Ret (e, [])
  else
    let block_start := offset / Z.of_nat INDEX_BLOCK_SIZE in
    let block_offset := offset mod Z.of_nat INDEX_BLOCK_SIZE in
    let block_end := (offset + len) / Z.of_nat INDEX_BLOCK_SIZE in
    '(e, data_out) ← read_blocks (Z.to_nat (block_end - block_start + 1)) e block_start [];
    VLB ← unmarshall_buffer_VLB (drop (Z.to_nat block_offset) data_out) len new_VLB;
    l ← Dump_VLB garbage VLB;
    Ret (e, l).

Fixpoint fetch_lists (e : oq_state) (words : list Z) : outcome (oq_state * list (list Z)) :=
  match words with
  | [] => Ret (e, [])
  | w :: words =>
    '(e, l) ← fetch_list e w;
    '(e, ls) ← fetch_lists e words;
    Ret (e, l :: ls)
  end.

(** Step 4 for one document: its half of a block, up to the first zero. *)
Definition fetch_digest (e : oq_state) (docID : Z) : outcome (oq_state * str) :=
  let block_id := u32 (docID - 1) in
  '(e, data_out) ← myZT_Access e (digest_oram e) (block_id / 2) Op_r (zeros DIGEST_LENGTH) (zeros DIGEST_LENGTH);
  let half := (DIGEST_LENGTH / 2)%nat in
  let data_result := if block_id mod 2 =? 0 then take half data_out else take half (drop half data_out) in
  Ret (e, c_str data_result).

Fixpoint fetch_digests (e : oq_state) (docIDs : list Z) : outcome (oq_state * list str) :=
  match docIDs with
  | [] => Ret (e, [])
  | d :: docIDs =>
    '(e, s) ← fetch_digest e d;
    '(e, ss) ← fetch_digests e docIDs;
    Ret (e, s :: ss)
  end.

Definition oram_page_results (e : oq_state) (_this_vec : list Z) (page : Z) : outcome (oq_state * list str) :=
  let pos := (page - 1) * 10 in
  if decide (is_i32 (page - 1) /\ is_i32 pos) then
    if pos <? Z.of_nat (length _this_vec) then
      if pos <? 0 then Undef
      else fetch_digests e (take 10 (drop (Z.to_nat pos) _this_vec))
    else Ret (e, [])
  else Undef.

Definition ecall_oram_do_query (pTok : option ISphTokenizer) (e : oq_state) (querier_request : str)
    (querier_request_size querier_response_size : Z) : outcome (oq_state * str) :=
  let s_request := c_str querier_request in
  j ← Load s_request;
  let q_keywords := dump 1 (at_key j (L "keywords")) in
  q_page ← trim_string (dump 1 (at_key j (L "page")));
  if decide (q_keywords = [] \/ q_page = []) then Ret (e, [])
  else
    let page := i32 (strtol 10 q_page) in
    words ← query_words pTok q_keywords;
    '(e, lists) ← fetch_lists e words;
    let _this_vec := intersect_lists None [] lists in
    '(e, results) ← oram_page_results e _this_vec page;
    let response1 := response_of (pad_results results) in
    let witness := querier_witness_of (oq_context_template e)
      (take (Z.to_nat querier_request_size) querier_request) response1 in
    w ← Load witness;
    let final_response := set_key (set_key Null (L "response") response1) (L "witness") w in
    Ret (e, visible querier_response_size (dump 1 final_response)).

End OramQuerier.
