(* ===== verification/OramQuerierFacts.v ===== *)
(** * The oblivious querier answers like the plain one

    What is loaded into the two ORAMs is what the queries read back, so that
    the answers are those of Querier.v.  The argument goes through lists of
    calls: the setup and a query make a sequence of block accesses that is
    fixed by the index and the query, and each ORAM serves its sequence as
    long as its stash does not fill up. *)

From Stdlib Require Import String.
From stdpp Require Import fin_maps.
From S2P Require Import Prelude Json JsonFacts Codec Vlb Tokenizer TokenizerFacts Crypto Witness Crawler Indexer Shard Querier.
From S2P Require Import Oram OramEvict OramFacts OramAccess OramTrace OramQuerier.

Import Json Sphinx Vlb.

Local Open Scope Z_scope.

(** One access of the querier, and the sequence it makes of them. *)
Record call := mk_call { c_id : Z; c_op : opType; c_in : str; c_out : str }.

(** Instance [inst] has served [rqs]. *)
Definition served_by (e : oq_state) (inst : Z) (rqs : list request) : Prop :=
  served_of inst (oq_served e) = rqs.

Lemma served_of_app inst log log' : served_of inst (log ++ log') = served_of inst log ++ served_of inst log'.
Proof. unfold served_of. by rewrite filter_app, map_app. Qed.

Lemma served_of_one inst rq : served_of inst [(inst, rq)] = [rq].
Proof. unfold served_of. by rewrite filter_cons_True. Qed.

Lemma served_of_other inst inst' n log : map fst log = replicate n inst -> inst' <> inst -> served_of inst' log = [].
Proof.
  revert n. induction log as [|[i rq] log IH]; intros n E Hne; [done|]. destruct n as [|n]; [done|]. injection E as -> E.
  unfold served_of. rewrite filter_cons_False by (cbn; congruence). by eapply IH.
Qed.

Lemma with_instances_log e l : with_instances e l = with_log e l [].
Proof. unfold with_log, with_instances. by rewrite app_nil_r. Qed.

Lemma with_log_twice e l log l' log' : with_log (with_log e l log) l' log' = with_log e l' (log ++ log').
Proof. unfold with_log. cbn. by rewrite app_assoc. Qed.

Lemma with_log_same e : e = with_log e (coram_instances e) [].
Proof. destruct e. unfold with_log. cbn. by rewrite app_nil_r. Qed.

Lemma digest_config : config_ok digest_params.
Proof. unfold config_ok. split_and!; vm_compute; (reflexivity || lia). Qed.

Lemma index_config : config_ok index_params.
Proof. unfold config_ok. split_and!; vm_compute; (reflexivity || lia). Qed.

Section Facts.
Context `{Crypto} `{AesLaws}.
Context (aes_key : Z -> str) (uninit : Z -> nat -> str) (beyond : Z -> str).
Context (junk : Z -> Block) (junk_hashes : Z -> list str) (rand : Z -> nat -> Z).
Context (behind : nat -> ascii) (cur : cursor) (iterate : forall A, gmap Z A -> list (Z * A)).
Context (ls_CORAM : gmap Z LocalStorage).
Hypothesis uninit_length : forall i n, length (uninit i n) = NONCE_LENGTH.

(** What each instance will have served in the end, and the instances in the
    order in which they are accessed. *)
Context (all_served : Z -> list request) (all_order : list Z).

Notation acc := (myZT_Access aes_key uninit beyond rand).

(** The requests of [calls] to instance [inst], from its [k]-th random number on. *)
Fixpoint numbered (inst : Z) (k : nat) (calls : list call) : list request :=
  match calls with
  | [] => []
  | c :: calls => mk_request (c_id c) (c_op c) (rand inst k) (c_in c) (c_out c) :: numbered inst (S k) calls
  end.

(** ** An instance that serves a sequence of calls *)

Record store_ok (inst : Z) (i : instance) (served : list request) (P : params) (M : Z -> str) (seen : list Z) (calls : list call) : Prop := mk_store_ok {
  so_params : in_params i = P;
  so_inv : oram_inv (aes_key inst) P (in_oram i) M;
  so_untouched j : 0 <= j < gN P -> j ∉ seen -> untouched (aes_key inst) P (in_oram i) j;
  so_room : never_full (aes_key inst) (uninit inst) (beyond inst) P (in_oram i) (numbered inst (length served) calls) = true;
  so_served : served ++ numbered inst (length served) calls = all_served inst
}.

Definition has (e : oq_state) (inst : Z) (P : params) (M : Z -> str) (seen : list Z) (calls : list call) : Prop :=
  exists i, coram_instances e !! Z.to_nat inst = Some i /\ store_ok inst i (served_of inst (oq_served e)) P M seen calls.

(** [e'] differs from [e] in [n] accesses to instance [inst]. *)
Definition touches (e : oq_state) (inst : Z) (n : nat) (e' : oq_state) : Prop :=
  exists l log, e' = with_log e l log /\ map fst log = replicate n inst /\
    forall j, j <> Z.to_nat inst -> l !! j = coram_instances e !! j.

Lemma touches_refl e inst : touches e inst 0 e.
Proof. exists (coram_instances e), []. split; [apply with_log_same|done]. Qed.

Lemma touches_trans e1 e2 e3 inst n m : touches e1 inst n e2 -> touches e2 inst m e3 -> touches e1 inst (n + m) e3.
Proof.
  intros (l1 & log1 & -> & L1 & A1) (l2 & log2 & -> & L2 & A2). exists l2, (log1 ++ log2).
  split_and!; [apply with_log_twice|by rewrite map_app, L1, L2, replicate_add|]. intros j Hj. by rewrite A2, <- A1.
Qed.

Lemma touches_other e inst n e' inst' P M seen calls : touches e inst n e' -> Z.to_nat inst' <> Z.to_nat inst ->
  has e inst' P M seen calls -> has e' inst' P M seen calls.
Proof.
  intros (l & log & -> & L & Hl) Hne (i & Hi & Hs). exists i. split; [cbn; by rewrite Hl|].
  cbn [with_log oq_served]. by rewrite served_of_app, (served_of_other _ _ _ _ L), app_nil_r by congruence.
Qed.

Lemma touches_order e inst n e' : touches e inst n e' -> map fst (oq_served e') = map fst (oq_served e) ++ replicate n inst.
Proof. intros (l & log & -> & L & _). cbn. by rewrite map_app, L. Qed.

Lemma char_op_char op : char_op (op_char op) = op.
Proof. by destruct op. Qed.

Lemma access_request e inst id op data_in data_out : is_u32 id ->
  acc e inst id op data_in data_out =
  (i ← deref (coram_instances e !! Z.to_nat inst);
   '(o, response) ← access (aes_key inst) (uninit inst) (beyond inst) (in_params i) (in_oram i)
      id op (rand inst (length (served_of inst (oq_served e)))) data_in data_out;
   Ret (with_log e (<[Z.to_nat inst := mk_instance (in_params i) o]> (coram_instances e))
     [(inst, mk_request id op (rand inst (length (served_of inst (oq_served e)))) data_in data_out)], response)).
Proof.
  intros Hid. unfold myZT_Access, accessInterface, myZT_serializeRequest. cbn [head deref]. rewrite bind_ret.
  change (drop 1 (op_char op :: le_bytes 4 id ++ data_in)) with (le_bytes 4 id ++ data_in).
  change (drop 5 (op_char op :: le_bytes 4 id ++ data_in)) with (drop 4 (le_bytes 4 id ++ data_in)).
  rewrite take_app_length', drop_app_length' by (symmetry; apply length_le_bytes).
  by rewrite le_val_bytes4, char_op_char.
Qed.

Lemma has_access e inst P M seen id op data_in data_out calls : config_ok P ->
  has e inst P M seen (mk_call id op data_in data_out :: calls) -> 0 <= id < gN P ->
  length data_in = data_size P -> length data_out = data_size P -> (is_w op = true -> id ∉ seen) ->
  exists e', acc e inst id op data_in data_out = Ret (e', if is_w op then data_out else M id) /\
    has e' inst P (array_op M id op data_in) (id :: seen) calls /\ touches e inst 1 e'.
Proof.
  intros Hc (i & Hi & [Ep I Hu Hr Hall]) Hid Hdi Hdo Hw. cbn [numbered never_full c_id c_op c_in c_out rq_id rq_op rq_random rq_in rq_out] in Hr.
  apply andb_true_iff in Hr as [Hocc Hr]. apply Nat.ltb_lt in Hocc. rewrite occupancy_lives in Hocc.
  rewrite access_request, Hi by (destruct Hc as (_ & _ & _ & ?); unfold is_u32, gN in *; lia). cbn [deref]. rewrite bind_ret, Ep.
  destruct (access_spec (aes_key inst) (uninit inst) (beyond inst) P (uninit_length inst) Hc (in_oram i) M id op
    (rand inst (length (served_of inst (oq_served e)))) data_in data_out) as (o & E & I' & _ & _ & F); try done.
  { intros Ew. apply Hu; [done|]. by apply Hw. }
  rewrite E in *. rewrite bind_ret. eexists. split; [reflexivity|]. split.
  - eexists. split; [cbn; apply list_lookup_insert_eq; by eapply lookup_lt_Some|].
    cbn [with_log oq_served]. rewrite served_of_app, served_of_one.
    split; cbn [in_params in_oram]; rewrite ?length_app, ?Nat.add_1_r, <- ?app_assoc; [done|exact I'| |exact Hr|exact Hall].
    intros j Hj [Hne Hn]%not_elem_of_cons. auto.
  - eexists _, _. split_and!; [reflexivity|reflexivity|]. intros j Hj. cbn. by rewrite list_lookup_insert_ne.
Qed.

(** ** Writing consecutive blocks *)

Fixpoint write_calls (j : Z) (datas : list str) : list call :=
  match datas with
  | [] => []
  | d :: datas => mk_call j Op_w d (zeros 512) :: write_calls (j + 1) datas
  end.

Fixpoint run_writes (e : oq_state) (inst j : Z) (datas : list str) : outcome oq_state :=
  match datas with
  | [] => Ret e
  | d :: datas => '(e, _) ← acc e inst j Op_w d (zeros 512); run_writes e inst (j + 1) datas
  end.

(** [M] holds [datas] from block [j] on. *)
Definition holds (M : Z -> str) (j : Z) (datas : list str) : Prop :=
  forall k d, datas !! k = Some d -> M (j + Z.of_nat k) = d.

Lemma run_writes_spec P inst datas : config_ok P -> data_size P = 512%nat -> forall e j M seen rest,
  has e inst P M seen (write_calls j datas ++ rest) -> 0 <= j -> j + Z.of_nat (length datas) <= gN P ->
  Forall (fun d => length d = 512%nat) datas -> (forall i, i ∈ seen -> i < j) ->
  exists e' M' seen', run_writes e inst j datas = Ret e' /\ has e' inst P M' seen' rest /\ touches e inst (length datas) e' /\
    holds M' j datas /\ forall i, i < j -> M' i = M i.
Proof.
  intros Hc Hsz. induction datas as [|d datas IH]; intros e j M seen rest Hh Hj Hg Hd Hs.
  { exists e, M, seen. split_and!; try done. apply touches_refl. }
  apply Forall_cons_iff in Hd as [Hd Hds]. cbn [length] in Hg. cbn [write_calls app] in Hh.
  destruct (has_access e inst P M seen j Op_w d (zeros 512) _ Hc Hh) as (e1 & E1 & Hh1 & T1).
  { lia. } { by rewrite Hsz. } { by rewrite Hsz. } { intros _ Hin. specialize (Hs j Hin). lia. }
  destruct (IH e1 (j + 1) _ (j :: seen) rest Hh1) as (e2 & M2 & seen2 & E2 & Hh2 & T2 & Hold2 & Hbelow); [lia|lia|done| |].
  { intros i [->|Hi]%elem_of_cons; [lia|]. specialize (Hs i Hi). lia. }
  exists e2, M2, seen2. split_and!; [|done|by apply (touches_trans _ _ _ _ 1 _ T1)| |].
  - cbn [run_writes]. by rewrite E1, bind_ret.
  - intros [|k] d' Hk; cbn in Hk.
    + injection Hk as <-. rewrite Z.add_0_r, Hbelow by lia. unfold array_op. cbn. by rewrite Z.eqb_refl.
    + replace (j + Z.of_nat (S k)) with (j + 1 + Z.of_nat k) by lia. by apply Hold2.
  - intros i Hi. rewrite Hbelow by lia. unfold array_op. cbn. by rewrite (proj2 (Z.eqb_neq i j)) by lia.
Qed.

(** *** The digests *)

Notation copy := (copy_digest behind).

Fixpoint digest_blocks (digests : list str) (data_in : str) : list str :=
  match digests with
  | [] => [data_in]
  | [d] => [overwrite data_in 0 (copy d)]
  | d1 :: d2 :: digests =>
    let data_in := overwrite (overwrite data_in 0 (copy d1)) (DIGEST_LENGTH / 2) (copy d2) in
    data_in :: digest_blocks digests data_in
  end.

Lemma acc_frame e inst id op data_in data_out e' out : acc e inst id op data_in data_out = Ret (e', out) ->
  exists l log, e' = with_log e l log.
Proof.
  unfold myZT_Access, accessInterface. intros E. apply bind_Ret_inv in E as (c & _ & E).
  apply bind_Ret_inv in E as (i & _ & E). apply bind_Ret_inv in E as ([o r] & _ & E). injection E as <- _. eauto.
Qed.

Lemma digest_loop_writes n : forall ds, (length ds <= n)%nat -> forall e j data_in, 0 <= j ->
  ('(e, b, data_in) ← digest_loop aes_key uninit beyond rand behind e (2 * j) ds data_in;
   '(e, _) ← acc e (digest_oram e) (b / 2) Op_w data_in (zeros DIGEST_LENGTH); Ret e) =
  run_writes e (digest_oram e) j (digest_blocks ds data_in).
Proof.
  induction n as [|n IH]; intros ds Hn e j data_in Hj; (destruct ds as [|d1 [|d2 ds]]; cbn [length] in Hn; try lia).
  1,2: cbn [digest_loop digest_blocks run_writes]; rewrite bind_ret, Z.mul_comm, Z.div_mul by lia; reflexivity.
  - cbn [digest_loop digest_blocks run_writes]. rewrite Z.mul_comm, Z.mod_mul by lia. cbn [Z.eqb].
    rewrite bind_ret. rewrite Z.div_add_l by lia. change (1 / 2) with 0. by rewrite Z.add_0_r.
  - cbn [digest_loop]. replace (2 * j) with (j * 2) by lia. rewrite Z.mod_mul by lia. cbn [Z.eqb].
    replace ((j * 2 + 1) mod 2) with 1 by (rewrite Z.add_comm, Z_mod_plus_full; done). cbn [Z.eqb].
    rewrite Z.div_add_l by lia. change (1 / 2) with 0. rewrite Z.add_0_r.
    cbn [digest_blocks run_writes]. set (data := overwrite (overwrite data_in 0 (copy d1)) _ (copy d2)).
    change DIGEST_LENGTH with 512%nat. destruct (acc e (digest_oram e) j Op_w data (zeros 512)) as [[e1 o]| | |] eqn:E1; [|done|done|done].
    rewrite !bind_ret. destruct (acc_frame _ _ _ _ _ _ _ _ E1) as (l & log & ->).
    replace (j * 2 + 1 + 1) with (2 * (j + 1)) by lia. rewrite (IH ds ltac:(lia)) by lia. done.
Qed.

Lemma length_copy d : length (copy d) = 256%nat.
Proof. unfold copy_digest, read_past. by rewrite length_map, length_seq. Qed.

Lemma overwrite_first buf a : length buf = 512%nat -> length a = 256%nat -> overwrite buf 0 a = a ++ drop 256 buf.
Proof. intros Hb Ha. unfold overwrite. by rewrite take_0, Ha. Qed.

Lemma overwrite_both buf a b : length buf = 512%nat -> length a = 256%nat -> length b = 256%nat ->
  overwrite (overwrite buf 0 a) (DIGEST_LENGTH / 2) b = a ++ b.
Proof.
  intros Hb Ha Hbb. rewrite overwrite_first by done. unfold overwrite. change (DIGEST_LENGTH / 2)%nat with 256%nat.
  rewrite take_app_length' by done. rewrite Hbb, drop_ge by (rewrite length_app, length_drop; lia). by rewrite app_nil_r.
Qed.

(** Digest [k] is the half of block [k / 2] that its parity says. *)
Definition half (k : nat) (data : str) : str :=
  if Nat.even k then take 256 data else take 256 (drop 256 data).

Lemma digest_blocks_spec n : forall ds, (length ds <= n)%nat -> forall data_in, length data_in = 512%nat ->
  length (digest_blocks ds data_in) = (length ds / 2 + 1)%nat /\
  Forall (fun d => length d = 512%nat) (digest_blocks ds data_in) /\
  forall k d, ds !! k = Some d -> exists data, digest_blocks ds data_in !! (k / 2)%nat = Some data /\ half k data = copy d.
Proof.
  induction n as [|n IH]; intros ds Hn data_in Hl; (destruct ds as [|d1 [|d2 ds]]; cbn [length] in Hn; try lia).
  1,2: split_and!; [done|by repeat constructor|by intros k d].
  - cbn [digest_blocks]. rewrite overwrite_first by (done || apply length_copy). split_and!; [done| |].
    + repeat constructor. rewrite length_app, length_copy, length_drop. lia.
    + intros [|k] d Hk; [|done]. injection Hk as <-. eexists. split; [done|]. unfold half. cbn [Nat.even].
      by rewrite take_app_length' by (symmetry; apply length_copy).
  - cbn [digest_blocks]. rewrite overwrite_both by (done || apply length_copy).
    destruct (IH ds ltac:(lia) (copy d1 ++ copy d2)) as (A1 & A2 & A3); [by rewrite length_app, !length_copy|]. split_and!.
    + cbn [length]. rewrite A1. replace (S (S (length ds))) with (length ds + 1 * 2)%nat by lia. rewrite Nat.div_add by lia. lia.
    + constructor; [by rewrite length_app, !length_copy|done].
    + intros [|[|k]] d Hk.
      * injection Hk as <-. eexists. split; [done|]. unfold half. cbn [Nat.even]. by rewrite take_app_length' by (symmetry; apply length_copy).
      * injection Hk as <-. eexists. split; [done|]. unfold half. cbn [Nat.even].
        rewrite drop_app_length' by (symmetry; apply length_copy). apply take_ge. by rewrite length_copy.
      * destruct (A3 k d Hk) as (data & Hd & Hh). exists data. replace (S (S k)) with (k + 1 * 2)%nat by lia.
        rewrite Nat.div_add by lia. replace (k / 2 + 1)%nat with (S (k / 2)) by lia. split; [done|].
        unfold half in *. replace (k + 1 * 2)%nat with (S (S k)) by lia. done.
Qed.

(** ** Copies that may read too far *)

Lemma read_past_lookup buf off n p : (p < n)%nat -> (off + p < length buf)%nat -> read_past behind buf off n !! p = buf !! (off + p)%nat.
Proof.
  intros Hp Hl. unfold read_past.
  change (((fun i => default (behind i) (buf !! (off + i)%nat)) <$> seq 0 n) !! p = buf !! (off + p)%nat).
  rewrite list_lookup_fmap, lookup_seq_lt by done. cbn.
  destruct (lookup_lt_is_Some_2 buf (off + p) Hl) as [c Hc]. by rewrite Hc.
Qed.

Lemma length_read_past buf off n : length (read_past behind buf off n) = n.
Proof. unfold read_past. by rewrite length_map, length_seq. Qed.

Lemma read_past_prefix buf n m : (m <= n)%nat -> (m <= length buf)%nat -> take m (read_past behind buf 0 n) = take m buf.
Proof.
  intros Hm Hb. apply list_eq. intros p. destruct (decide (p < m)%nat) as [Hp|Hp].
  - rewrite !lookup_take_lt by done. apply read_past_lookup; lia.
  - by rewrite !lookup_take_ge by lia.
Qed.

Lemma c_str_copy d : no_nul d -> (length d <= 256)%nat -> c_str (copy d) = d.
Proof.
  intros Hn Hl. unfold copy_digest. change (DIGEST_LENGTH / 2)%nat with 256%nat. set (s := read_past behind (d ++ [NUL]) 0 256).
  assert (Hp : take (length d) s = d).
  { unfold s. rewrite read_past_prefix by (rewrite ?length_app; lia). by apply take_app_length. }
  destruct (decide (length d = 256)%nat) as [E|E].
  - rewrite take_ge in Hp by (unfold s; rewrite length_read_past; lia). rewrite Hp. by apply c_str_no_nul.
  - rewrite <- (take_drop (S (length d)) s).
    assert (Hq : take (S (length d)) s = d ++ [NUL]).
    { unfold s. rewrite read_past_prefix by (rewrite ?length_app; cbn; lia). apply take_ge. rewrite length_app. cbn. lia. }
    rewrite Hq, <- app_assoc. by apply c_str_app_nul.
Qed.

(** *** The index *)

Fixpoint blocks_from (n j : nat) (temp : str) : list str :=
  match n with
  | O => []
  | S n => read_past behind temp (j * 512) 512 :: blocks_from n (S j) temp
  end.

Lemma length_blocks_from n : forall j temp, length (blocks_from n j temp) = n.
Proof. induction n as [|n IH]; intros j temp; [done|]. cbn. by rewrite IH. Qed.

Lemma blocks_from_sized n : forall j temp, Forall (fun d => length d = 512%nat) (blocks_from n j temp).
Proof. induction n as [|n IH]; intros j temp; [constructor|]. constructor; [apply length_read_past|apply IH]. Qed.

Lemma blocks_from_lookup n : forall j temp k, (k < n)%nat ->
  blocks_from n j temp !! k = Some (read_past behind temp ((j + k) * 512) 512).
Proof.
  induction n as [|n IH]; intros j temp k Hk; [lia|]. destruct k as [|k]; cbn [blocks_from lookup list_lookup].
  - by rewrite Nat.add_0_r.
  - change (blocks_from n (S j) temp !! k = Some (read_past behind temp ((j + S k) * 512) 512)).
    rewrite IH by lia. do 3 f_equal. lia.
Qed.

Lemma index_loop_writes n : forall e j temp,
  index_loop aes_key uninit beyond rand behind n e (Z.of_nat j) temp = run_writes e (index_oram e) (Z.of_nat j) (blocks_from n j temp).
Proof.
  induction n as [|n IH]; intros e j temp; [done|]. cbn [index_loop blocks_from run_writes]. rewrite Nat2Z.id.
  change INDEX_BLOCK_SIZE with 512%nat. destruct (acc e _ _ _ _ _) as [[e1 o]| | |] eqn:E1; [|done|done|done].
  rewrite !bind_ret. destruct (acc_frame _ _ _ _ _ _ _ _ E1) as (l & log & ->).
  replace (Z.of_nat j + 1) with (Z.of_nat (S j)) by lia. by rewrite IH.
Qed.

(** The bytes of consecutive blocks are the bytes of the buffer. *)
Lemma blocks_bytes n : forall j temp p, (p < n * 512)%nat -> (j * 512 + p < length temp)%nat ->
  concat (blocks_from n j temp) !! p = temp !! (j * 512 + p)%nat.
Proof.
  induction n as [|n IH]; intros j temp p Hp Hl; [lia|]. cbn [blocks_from concat]. destruct (decide (p < 512)%nat) as [Hq|Hq].
  - rewrite lookup_app_l by (rewrite length_read_past; lia). by apply read_past_lookup.
  - rewrite lookup_app_r, length_read_past by (rewrite length_read_past; lia). rewrite IH by lia. f_equal. lia.
Qed.

(** ** Reading consecutive blocks *)

Fixpoint read_calls (j : Z) (n : nat) : list call :=
  match n with
  | O => []
  | S n => mk_call j Op_r (zeros 512) (map behind (seq 0 512)) :: read_calls (j + 1) n
  end.

Lemma length_read_calls n : forall j, length (read_calls j n) = n.
Proof. induction n as [|n IH]; intros j; [done|]. cbn. by rewrite IH. Qed.

Lemma read_blocks_spec P n : config_ok P -> data_size P = 512%nat -> forall e j M seen rest out,
  has e (index_oram e) P M seen (read_calls j n ++ rest) -> 0 <= j -> j + Z.of_nat n <= gN P ->
  exists e' seen', read_blocks aes_key uninit beyond rand behind n e j out
      = Ret (e', out ++ concat (map (fun k => M (j + Z.of_nat k)) (seq 0 n))) /\
    has e' (index_oram e) P M seen' rest /\ touches e (index_oram e) n e'.
Proof.
  intros Hc Hsz. induction n as [|n IH]; intros e j M seen rest out Hh Hj Hg.
  { exists e, seen. split_and!; [by rewrite app_nil_r|done|apply touches_refl]. }
  cbn [read_calls app] in Hh. destruct (has_access e (index_oram e) P M seen j Op_r _ _ _ Hc Hh) as (e1 & E1 & Hh1 & T1).
  { lia. } { by rewrite Hsz. } { by rewrite Hsz, length_map, length_seq. } { done. }
  change (array_op M j Op_r (zeros 512)) with M in Hh1. cbn [read_blocks]. change INDEX_BLOCK_SIZE with 512%nat.
  rewrite E1, bind_ret. cbn [is_w]. assert (Ei : index_oram e1 = index_oram e) by (destruct T1 as (l & log & -> & _); done).
  destruct (IH e1 (j + 1) M (j :: seen) rest (out ++ M j)) as (e2 & seen2 & E2 & Hh2 & T2); [by rewrite Ei|lia|lia|].
  rewrite Ei in Hh2, T2. exists e2, seen2. split_and!; [|done|by apply (touches_trans _ _ _ _ 1 _ T1)]. rewrite E2. do 2 f_equal.
  cbn [seq map concat]. rewrite Z.add_0_r, <- app_assoc. do 2 f_equal. rewrite <- seq_shift, map_map. f_equal.
  apply map_ext. intros k. f_equal. lia.
Qed.

(** ** The layout of the compressed index *)

(** Word [w] has the blob of [c] at its offset. *)
Definition placed (offs lens : gmap Z Z) (temp : str) (w : Z) (c : VLB_coder) : Prop :=
  exists o, offs !! w = Some (Z.of_nat o) /\ lens !! w = Some (Z.of_nat (length (marshall_VLB_to_buffer c))) /\
    take (length (marshall_VLB_to_buffer c)) (drop o temp) = marshall_VLB_to_buffer c.

Lemma placed_more offs lens temp w c w' o l more : w' <> w -> placed offs lens temp w c ->
  placed (<[w' := o]> offs) (<[w' := l]> lens) (temp ++ more) w c.
Proof.
  intros Hne (o' & E1 & E2 & E3). exists o'. rewrite !lookup_insert_ne by done. split_and!; [done|done|].
  set (n := length (marshall_VLB_to_buffer c)) in *. rewrite <- E3.
  assert (Hlen : length (take n (drop o' temp)) = n) by by rewrite E3. rewrite length_take, length_drop in Hlen.
  destruct (decide (n = 0%nat)) as [->|Hn]; [by rewrite !take_0|].
  rewrite drop_app_le by lia. apply take_app_le. rewrite length_drop. lia.
Qed.

Lemma lay_out_spec entries : forall total offs lens temp total' offs' lens' temp',
  lay_out entries total offs lens temp = Ret (total', offs', lens', temp') -> NoDup (map fst entries) ->
  total = Z.of_nat (length temp) ->
  total' = Z.of_nat (length temp') /\ (forall w c, (w, c) ∈ entries -> placed offs' lens' temp' w c) /\
  (forall w c, w ∉ map fst entries -> placed offs lens temp w c -> placed offs' lens' temp' w c) /\
  (forall w, w ∉ map fst entries -> lens' !! w = lens !! w).
Proof.
  induction entries as [|[w c] entries IH]; intros total offs lens temp total' offs' lens' temp' E Hnd Ht.
  { injection E as <- <- <- <-. split_and!; try done. by intros w c Hw%elem_of_nil. }
  cbn [lay_out map fst] in *. apply NoDup_cons in Hnd as [Hw Hnd]. case_decide; [|done].
  apply IH in E as (A1 & A2 & A3 & A4); [|done|rewrite length_app; lia]. split_and!; [done| | |].
  - intros w' c' [E|Hin]%elem_of_cons; [injection E as -> ->|by apply A2]. apply A3; [done|].
    exists (length temp). rewrite Ht, !lookup_insert_eq. split_and!; [done|done|].
    rewrite drop_app_length. by rewrite take_ge by lia.
  - intros w' c' [Hne Hn]%not_elem_of_cons Hp. apply A3; [done|]. by apply placed_more.
  - intros w' [Hne Hn]%not_elem_of_cons. rewrite A4 by done. by rewrite lookup_insert_ne.
Qed.

Lemma zip_entry_eq tbl w l : zip_entry tbl (w, l) =
  match l with [] => tbl | _ => <[w := foldl Zip (default new_VLB (tbl !! w)) l]> tbl end.
Proof.
  unfold zip_entry. cbn [fst snd]. destruct l as [|d l]; [done|]. cbn [foldl].
  generalize (Zip (default new_VLB (tbl !! w)) d). intros c. revert c.
  induction l as [|d' l IH]; intros c; [done|]. cbn [foldl]. rewrite lookup_insert_eq. cbn [default from_option id].
  rewrite insert_insert_eq. apply IH.
Qed.

(** The coder of a word, if it has documents. *)
Definition vlb_of (o : option (list Z)) : option VLB_coder :=
  match o with Some (d :: l) => Some (Load_VLB (d :: l) new_VLB) | _ => None end.

Lemma zip_entries entries : forall tbl w, NoDup (map fst entries) -> (forall w, w ∈ map fst entries -> tbl !! w = None) ->
  foldl zip_entry tbl entries !! w =
  if decide (w ∈ map fst entries) then vlb_of ((list_to_map entries : gmap Z (list Z)) !! w) else tbl !! w.
Proof.
  induction entries as [|[w' l] entries IH]; intros tbl w Hnd Hn.
  { cbn. rewrite decide_False; [done|]. by intros Hw%elem_of_nil. }
  cbn [map fst foldl list_to_map foldr snd] in *. apply NoDup_cons in Hnd as [Hw Hnd]. rewrite IH; [|done|].
  - destruct (decide (w = w')) as [->|Hne].
    + rewrite decide_False by done. rewrite (decide_True (P := w' ∈ w' :: _)) by left. rewrite lookup_insert_eq, zip_entry_eq.
      rewrite Hn by left. destruct l; cbn; [by rewrite Hn by left|by rewrite lookup_insert_eq].
    + rewrite lookup_insert_ne by done. destruct (decide (w ∈ map fst entries)).
      * by rewrite decide_True by by right.
      * rewrite decide_False by (intros [?|?]%elem_of_cons; done). rewrite zip_entry_eq.
        destruct l; [done|by rewrite lookup_insert_ne].
  - intros w'' Hin. rewrite zip_entry_eq. assert (w'' <> w') by congruence. destruct l; [apply Hn; by right|].
    rewrite lookup_insert_ne by done. apply Hn. by right.
Qed.

Hypothesis iterate_all : forall A (m : gmap Z A), iterate A m ≡ₚ map_to_list m.

Lemma iterate_keys A (m : gmap Z A) : NoDup (map fst (iterate A m)).
Proof. change (NoDup ((iterate A m).*1)). rewrite iterate_all. apply NoDup_fst_map_to_list. Qed.

Lemma iterate_elem A (m : gmap Z A) w x : (w, x) ∈ iterate A m <-> m !! w = Some x.
Proof. rewrite iterate_all. apply elem_of_map_to_list. Qed.

Lemma iterate_key A (m : gmap Z A) w : w ∈ map fst (iterate A m) <-> is_Some (m !! w).
Proof.
  change (w ∈ (iterate A m).*1 <-> is_Some (m !! w)). rewrite list_elem_of_fmap. split.
  - intros ([w' x] & -> & Hin). apply iterate_elem in Hin. eauto.
  - intros [x Hx]. exists (w, x). split; [done|]. by apply iterate_elem.
Qed.

Lemma vlb_table (m : gmap Z (list Z)) w : foldl zip_entry ∅ (iterate _ m) !! w = vlb_of (m !! w).
Proof.
  rewrite zip_entries; [|apply iterate_keys|intros; apply lookup_empty]. case_decide as Hk.
  - f_equal. rewrite iterate_key in Hk. destruct Hk as [l Hl]. rewrite Hl. apply elem_of_list_to_map_1; [apply iterate_keys|].
    by apply iterate_elem.
  - rewrite lookup_empty. rewrite iterate_key in Hk. destruct (m !! w); [by destruct Hk|done].
Qed.

(** ** Queries *)

Lemma hits_length stop ws docs : forall k, (length (hits stop ws k docs) <= length docs)%nat.
Proof.
  induction docs as [|ids docs IH]; intros k; [done|]. cbn [hits length]. rewrite length_app. specialize (IH (k + 1)).
  destruct (matches stop ws ids); cbn; lia.
Qed.

Definition word_reads (offs lens : gmap Z Z) (w : Z) : list call :=
  let o := default 0 (offs !! w) in
  let len := default 0 (lens !! w) in
  if len =? 0 then [] else read_calls (o / 512) (Z.to_nat ((o + len) / 512 - o / 512 + 1)).

Definition digest_read (docID : Z) : call := mk_call (u32 (docID - 1) / 2) Op_r (zeros 512) (zeros 512).

Section Serving.
Context (stop : list Z) (docs : list document) (blob : str) (offs lens : gmap Z Z) (temp : str).
Notation found w := (hits stop [w] 1 (map snd docs)).

Hypothesis docs_small : 1 + Z.of_nat (length docs) <= 2 ^ 31.
Hypothesis laid_out : forall w, match found w with [] => lens !! w = None | l => placed offs lens temp w (Load_VLB l new_VLB) end.
Hypothesis index_fits : Z.of_nat (length temp) / 512 < INDEX_BLOCK_NUM.
Hypothesis digests_fit : Z.of_nat (length docs) / 2 < DIGEST_BLOCK_NUM.
Hypothesis digests_clean : Forall (fun d => no_nul (fst d) /\ (length (fst d) <= 256)%nat) docs.

(** The enclave holds the shard, and its ORAMs will serve the calls [pd] and [pi],
    the instances in the order [order]. *)
Record serving (e : oq_state) (pd pi : list call) (order : list Z) : Prop := mk_serving {
  sv_template : oq_context_template e = template_of blob;
  sv_digest_oram : digest_oram e = 0;
  sv_index_oram : index_oram e = 1;
  sv_offset w : default 0 (g_offset e !! w) = default 0 (offs !! w);
  sv_length w : default 0 (g_length e !! w) = default 0 (lens !! w);
  sv_digests : exists M seen, has e 0 digest_params M seen pd /\
    forall k d, map fst docs !! k = Some d -> half k (M (Z.of_nat (k / 2))) = copy d;
  sv_index : exists M seen, has e 1 index_params M seen pi /\
    holds M 0 (blocks_from (Z.to_nat (Z.of_nat (length temp) / 512) + 1) 0 (temp ++ [NUL]));
  sv_order : map fst (oq_served e) ++ order = all_order
}.

Lemma placed_within w c : placed offs lens temp w c -> exists o,
  offs !! w = Some (Z.of_nat o) /\ lens !! w = Some (Z.of_nat (length (marshall_VLB_to_buffer c))) /\
  (o + length (marshall_VLB_to_buffer c) <= length temp)%nat /\
  take (length (marshall_VLB_to_buffer c)) (drop o temp) = marshall_VLB_to_buffer c.
Proof.
  intros (o & E1 & E2 & E3). exists o. split_and!; try done. assert (Hlen := f_equal length E3).
  rewrite length_take, length_drop in Hlen. rewrite length_marshall in *. lia.
Qed.

(** The blocks of a blob contain it. *)
Lemma blob_in_blocks o n (m : nat) : (o + m <= length temp)%nat -> (o mod 512 + m <= n * 512)%nat ->
  take m (drop (o mod 512) (concat (blocks_from n (o / 512) (temp ++ [NUL])))) = take m (drop o temp).
Proof.
  intros Ho Hn. apply list_eq. intros p. destruct (decide (p < m)%nat) as [Hp|Hp]; [|by rewrite !lookup_take_ge by lia].
  rewrite !lookup_take_lt, !lookup_drop by done. pose proof (Nat.div_mod_eq o 512) as Hd.
  rewrite blocks_bytes by (rewrite ?length_app; cbn [length]; lia). rewrite lookup_app_l by lia. f_equal. lia.
Qed.

Lemma found_list w : Sorted.StronglySorted Z.lt (0 :: found w) /\ Forall is_u32 (found w) /\ Z.of_nat (length (found w)) < 2 ^ 32.
Proof.
  destruct (hits_sorted stop [w] (map snd docs) 1) as [Hs Hr]. rewrite length_map in Hr. split_and!.
  - constructor; [done|]. eapply Forall_weaken; [exact Hr|]. cbn. lia.
  - eapply Forall_weaken; [exact Hr|]. unfold is_u32. cbn. lia.
  - pose proof (hits_length stop [w] (map snd docs) 1) as Hl. rewrite length_map in Hl. lia.
Qed.

Lemma Dump_found w p : Dump_VLB (cur, false) (reset_cur (Load_VLB (found w) new_VLB) p) = Ret (found w).
Proof.
  destruct (found_list w) as (Hs & Hu & Hl). rewrite Dump_reset, Dump_Load_eq, dedup_increasing; auto.
  apply Sorted.StronglySorted_inv in Hs as [_ H0']. eapply Forall_weaken; [exact H0'|]. lia.
Qed.

(** Looking a word up changes nothing but defaults. *)
Definition looked_up (e : oq_state) (w : Z) : oq_state :=
  mk_oq (oq_context_template e) (<[w := default 0 (g_offset e !! w)]> (g_offset e))
    (<[w := default 0 (g_length e !! w)]> (g_length e)) (digest_oram e) (index_oram e) (coram_instances e) (coram_instance_id e) (oq_served e).

Lemma default_insert (m : gmap Z Z) w w' : default 0 (<[w := default 0 (m !! w)]> m !! w') = default 0 (m !! w').
Proof. destruct (decide (w' = w)) as [->|Hne]; [by rewrite lookup_insert_eq|by rewrite lookup_insert_ne]. Qed.

Lemma serving_looked_up e w pd pi order : serving e pd pi order -> serving (looked_up e w) pd pi order.
Proof. intros [S1 S2 S3 S4 S5 S6 S7 S8]. split; try done; intros w'; cbn; by rewrite default_insert. Qed.

(** An access to one ORAM leaves the rest alone. *)
Lemma serving_index e e' n pd M seen pi rest order : serving e pd pi (replicate n 1 ++ order) -> touches e 1 n e' -> has e' 1 index_params M seen rest ->
  holds M 0 (blocks_from (Z.to_nat (Z.of_nat (length temp) / 512) + 1) 0 (temp ++ [NUL])) -> serving e' pd rest order.
Proof.
  intros [S1 S2 S3 S4 S5 (Md & seen' & Hd & Hm) _ S8] T Hh Hold. assert (T' := T). destruct T' as (l & log & -> & _).
  split; try done; [|by exists M, seen|by rewrite (touches_order _ _ _ _ T), <- app_assoc].
  exists Md, seen'. split; [|done]. by eapply touches_other.
Qed.

Lemma serving_digests e e' pi M seen pd rest order : serving e pd pi (0 :: order) -> touches e 0 1 e' -> has e' 0 digest_params M seen rest ->
  (forall k d, map fst docs !! k = Some d -> half k (M (Z.of_nat (k / 2))) = copy d) -> serving e' rest pi order.
Proof.
  intros [S1 S2 S3 S4 S5 _ (Mi & seen' & Hd & Hm) S8] T Hh Hold. assert (T' := T). destruct T' as (l & log & -> & _).
  split; try done; [by exists M, seen| |by rewrite (touches_order _ _ _ _ T), <- app_assoc]. exists Mi, seen'. split; [|done]. by eapply touches_other.
Qed.

Lemma held_blocks M n j : (n + j <= Z.to_nat (Z.of_nat (length temp) / 512) + 1)%nat ->
  holds M 0 (blocks_from (Z.to_nat (Z.of_nat (length temp) / 512) + 1) 0 (temp ++ [NUL])) ->
  map (fun k => M (Z.of_nat j + Z.of_nat k)) (seq 0 n) = blocks_from n j (temp ++ [NUL]).
Proof.
  intros Hn Hold. apply list_eq. intros k. destruct (decide (k < n)%nat) as [Hk|Hk].
  - change (((fun k => M (Z.of_nat j + Z.of_nat k)) <$> seq 0 n) !! k = blocks_from n j (temp ++ [NUL]) !! k).
    rewrite list_lookup_fmap, lookup_seq_lt, blocks_from_lookup by done.
    change (Some (M (Z.of_nat j + Z.of_nat (0 + k))) = Some (read_past behind (temp ++ [NUL]) ((j + k) * 512) 512)). apply f_equal.
    assert (Hb := blocks_from_lookup (Z.to_nat (Z.of_nat (length temp) / 512) + 1) 0 (temp ++ [NUL]) (j + k) ltac:(lia)).
    apply Hold in Hb. change (0 + (j + k))%nat with (j + k)%nat in Hb. rewrite <- Hb. f_equal. lia.
  - rewrite !lookup_ge_None_2; [done|rewrite length_blocks_from; lia|rewrite length_map, length_seq; lia].
Qed.

Lemma fetch_list_spec e w pd rest order : serving e pd (word_reads offs lens w ++ rest) (replicate (length (word_reads offs lens w)) 1 ++ order) ->
  exists e', fetch_list aes_key uninit beyond rand behind (cur, false) e w = Ret (e', found w) /\ serving e' pd rest order.
Proof.
  intros Hs. unfold fetch_list. fold (looked_up e w). apply (serving_looked_up e w) in Hs.
  rewrite <- (default_insert (g_offset e) w w), <- (default_insert (g_length e) w w).
  change (<[w := default 0 (g_offset e !! w)]> (g_offset e)) with (g_offset (looked_up e w)).
  change (<[w := default 0 (g_length e !! w)]> (g_length e)) with (g_length (looked_up e w)).
  set (e1 := looked_up e w) in *. rewrite (sv_offset _ _ _ _ Hs), (sv_length _ _ _ _ Hs).
  specialize (laid_out w). unfold word_reads in Hs. destruct (found w) as [|d l] eqn:El.
  { rewrite laid_out in *. cbn. exists e1. by split. }
  destruct (placed_within w _ laid_out) as (o & Eo & Elen & Hin & Hblob). rewrite Eo, Elen in *. cbn [default from_option id] in *.
  set (m := length (marshall_VLB_to_buffer (Load_VLB (d :: l) new_VLB))) in *. assert (Hm : (16 <= m)%nat) by (unfold m; rewrite length_marshall; lia).
  assert (Hm31 : Z.of_nat m < 2 ^ 31) by (clear -Hin index_fits; unfold INDEX_BLOCK_NUM in index_fits; Z.to_euclidean_division_equations; lia).
  rewrite (proj2 (Z.eqb_neq (Z.of_nat m) 0)) in * by lia. change (Z.of_nat INDEX_BLOCK_SIZE) with (Z.of_nat 512).
  change 512 with (Z.of_nat 512) in Hs at 1 2 3 4 5 6. rewrite <- !Nat2Z.inj_add, <- !Nat2Z.inj_div, <- !Nat2Z.inj_mod, Nat2Z.id in *.
  set (n := Z.to_nat _) in *. assert (Hn : n = ((o + m) / 512 - o / 512 + 1)%nat).
  { unfold n. pose proof (Nat.Div0.div_le_mono o (o + m) 512 ltac:(lia)). lia. }
  pose proof (Nat.Div0.div_le_mono (o + m) (length temp) 512 ltac:(lia)) as Hle.
  destruct (sv_index _ _ _ _ Hs) as (M & seen & Hh & Hold).

  assert (Htn : Z.to_nat (Z.of_nat (length temp) / 512) = (length temp / 512)%nat).
  { change 512 with (Z.of_nat 512). by rewrite <- Nat2Z.inj_div, Nat2Z.id. }
  pose proof (sv_index_oram _ _ _ _ Hs) as Eio. rewrite <- Eio in Hh.
  destruct (read_blocks_spec index_params n index_config eq_refl e1 (Z.of_nat (o / 512)) M seen rest [] Hh) as (e2 & seen2 & E2 & Hh2 & T2).
  { lia. } { change (gN index_params) with INDEX_BLOCK_NUM. assert (Z.of_nat (length temp / 512) < INDEX_BLOCK_NUM) by by rewrite Nat2Z.inj_div.
    pose proof (Nat.Div0.div_le_mono o (o + m) 512 ltac:(lia)). lia. }
  rewrite E2, bind_ret. cbn [app]. rewrite held_blocks by (done || (rewrite Htn; lia)).
  set (data := concat _). assert (Hdata : take m (drop (o mod 512) data) = marshall_VLB_to_buffer (Load_VLB (d :: l) new_VLB)).
  { unfold data. rewrite blob_in_blocks; [done|done|]. rewrite Hn. pose proof (Nat.div_mod_eq o 512). pose proof (Nat.div_mod_eq (o + m) 512).
    pose proof (Nat.mod_upper_bound (o + m) 512 ltac:(lia)). pose proof (Nat.Div0.div_le_mono o (o + m) 512 ltac:(lia)). nia. }
  rewrite <- (take_drop m (drop (o mod 512) data)), Hdata. unfold m. destruct (found_list w) as (_ & Hu & Hl). rewrite El in Hu, Hl.
  rewrite unmarshall_marshall, bind_ret; [|by apply Load_coder_ok|].
  - rewrite <- El, Dump_found, bind_ret. exists e2. split; [done|]. rewrite Eio in Hh2, T2. rewrite length_read_calls in Hs.
    by eapply serving_index.
  - exact Hm31.
Qed.

(** The blocks of the index that the words of a query read. *)
Definition query_reads (words : list Z) : list call := concat (map (word_reads offs lens) words).

Lemma fetch_lists_spec words : forall e pd rest order,
  serving e pd (query_reads words ++ rest) (replicate (length (query_reads words)) 1 ++ order) ->
  exists e', fetch_lists aes_key uninit beyond rand behind (cur, false) e words = Ret (e', map (fun w => found w) words) /\
    serving e' pd rest order.
Proof.
  induction words as [|w words IH]; intros e pd rest order Hs; [by exists e|]. unfold query_reads in Hs. cbn [map concat] in Hs.
  rewrite length_app, replicate_add, <- !app_assoc in Hs.
  destruct (fetch_list_spec e w pd _ _ Hs) as (e1 & E1 & Hs1). destruct (IH e1 pd rest order Hs1) as (e2 & E2 & Hs2).
  exists e2. split; [|done]. cbn [fetch_lists map]. by rewrite E1, bind_ret, E2, bind_ret.
Qed.

Lemma half_even k data : half k data = if (Z.of_nat k mod 2 =? 0) then take 256 data else take 256 (drop 256 data).
Proof.
  unfold half. change 2 with (Z.of_nat 2). rewrite <- Nat2Z.inj_mod. destruct (Nat.even k) eqn:E.
  - apply Nat.even_spec in E as [j ->]. by rewrite Nat.mul_comm, Nat.Div0.mod_mul.
  - rewrite (proj2 (Z.eqb_neq _ 0)); [done|]. intros E0. assert (E1 : (k mod 2 = 0)%nat) by lia.
    apply Nat.Div0.mod_divides in E1 as [j ->]. by rewrite Nat.even_mul in E.
Qed.

Lemma fetch_digest_spec e d rest pi order : serving e (digest_read d :: rest) pi (0 :: order) -> 1 <= d < 1 + Z.of_nat (length docs) ->
  exists e', fetch_digest aes_key uninit beyond rand e d = Ret (e', nth (Z.to_nat (d - 1)) (map fst docs) []) /\ serving e' rest pi order.
Proof.
  intros Hs Hd. unfold fetch_digest. destruct (sv_digests _ _ _ _ Hs) as (M & seen & Hh & Hm).
  rewrite (sv_digest_oram _ _ _ _ Hs). unfold digest_read in Hh. rewrite (u32_small (d - 1)) in * by (unfold is_u32; lia).
  assert (Hdm : 0 <= (d - 1) / 2 < DIGEST_BLOCK_NUM).
  { split; [apply Z.div_pos; lia|]. eapply Z.le_lt_trans; [|exact digests_fit]. apply Z.div_le_mono; lia. }
  destruct (has_access e 0 digest_params M seen ((d - 1) / 2) Op_r (zeros 512) (zeros 512) rest digest_config Hh Hdm eq_refl eq_refl)
    as (e1 & E1 & Hh1 & T1); [done|].
  change (zeros DIGEST_LENGTH) with (zeros 512). rewrite E1, bind_ret. cbn [is_w]. exists e1.
  split; [|by eapply serving_digests]. change (DIGEST_LENGTH / 2)%nat with 256%nat. do 2 f_equal.
  set (k := Z.to_nat (d - 1)). assert (Ek : d - 1 = Z.of_nat k) by (unfold k; lia). rewrite Ek.
  destruct (lookup_lt_is_Some_2 (map fst docs) k) as [s Es]; [rewrite length_map; unfold k; lia|].
  rewrite <- half_even. change 2 with (Z.of_nat 2). rewrite <- Nat2Z.inj_div, (Hm k s Es), (nth_lookup_Some _ _ _ _ Es).
  change ((fst <$> docs) !! k = Some s) in Es. rewrite list_lookup_fmap in Es. destruct (docs !! k) as [doc|] eqn:Ed; [|done]. injection Es as <-.
  destruct (Forall_lookup_1 _ _ _ _ digests_clean Ed). by apply c_str_copy.
Qed.

Lemma fetch_digests_spec ds : forall e rest pi order, serving e (map digest_read ds ++ rest) pi (replicate (length ds) 0 ++ order) ->
  Forall (fun d => 1 <= d < 1 + Z.of_nat (length docs)) ds ->
  exists e', fetch_digests aes_key uninit beyond rand e ds = Ret (e', digests_at (map fst docs) ds) /\ serving e' rest pi order.
Proof.
  induction ds as [|d ds IH]; intros e rest pi order Hs Hd; [by exists e|]. apply Forall_cons_iff in Hd as [Hd Hds]. cbn [map app length replicate] in Hs.
  destruct (fetch_digest_spec e d _ pi _ Hs Hd) as (e1 & E1 & Hs1). destruct (IH e1 rest pi order Hs1 Hds) as (e2 & E2 & Hs2).
  exists e2. split; [|done]. cbn [fetch_digests]. by rewrite E1, bind_ret, E2, bind_ret.
Qed.

(** The documents on a page of the answer. *)
Definition page_docs (words : list Z) (page : Z) : list Z := page_of page (hits stop (last2 words) 1 (map snd docs)).

Lemma oram_page_results_spec e words page rest pi order :
  serving e (map digest_read (page_docs words page) ++ rest) pi (replicate (length (page_docs words page)) 0 ++ order) ->
  1 <= page -> is_i32 ((page - 1) * 10) ->
  exists e', oram_page_results aes_key uninit beyond rand e (hits stop (last2 words) 1 (map snd docs)) page
      = Ret (e', digests_at (map fst docs) (page_docs words page)) /\ serving e' rest pi order.
Proof.
  intros Hs Hp Hi. unfold oram_page_results. rewrite decide_True by (unfold is_i32 in *; lia).
  set (h := hits stop (last2 words) 1 (map snd docs)) in *. destruct (Z.ltb_spec ((page - 1) * 10) (Z.of_nat (length h))) as [Hl|Hl].
  - rewrite (proj2 (Z.ltb_ge _ _)) by lia. apply fetch_digests_spec; [done|].
    destruct (hits_sorted stop (last2 words) (map snd docs) 1) as [_ Hr]. rewrite length_map in Hr. by apply Forall_take, Forall_drop.
  - unfold page_docs, page_of in *. fold h in Hs |- *. rewrite drop_ge in * by lia. by exists e.
Qed.

(** A query reads first the index, then the digests. *)
Lemma oram_query_client pTok e kw page pad words cap pd pi order :
  serving e (map digest_read (page_docs words page) ++ pd) (query_reads words ++ pi)
    ((replicate (length (query_reads words)) 1 ++ replicate (length (map digest_read (page_docs words page))) 0) ++ order) ->
  no_nul kw -> no_nul pad -> query_words pTok (dump 1 (Str kw)) = Ret words -> words <> [] ->
  1 <= page -> is_i32 ((page - 1) * 10) ->
  let request := dump 1 (search_request kw page) ++ pad in
  exists e', ecall_oram_do_query aes_key uninit beyond rand behind (cur, false) pTok e request (Z.of_nat (length request)) cap =
      Ret (e', visible cap (dump 1 (full_response blob request (answers stop docs words page)))) /\ serving e' pd pi order.
Proof.
  intros Hs Hk Hp Hw Hne Hp1 Hp2 request. unfold ecall_oram_do_query. assert (EL : Load (c_str request) = Ret (search_request kw page)) by by apply Load_request. rewrite EL, bind_ret.
  rewrite request_page, bind_ret. change (at_key (search_request kw page) (L "keywords")) with (Str kw).
  rewrite decide_False.
  2:{ intros [E|E]; [destruct (dump_first 1 (Str kw)) as (c & r & E' & _); congruence|by destruct (to_string_nonempty page)]. }
  assert (Ep : i32 (strtol 10 (to_string page)) = page).
  { unfold is_i32 in Hp2. rewrite strtol_to_string by lia. apply i32_small. unfold is_i32. lia. }
  rewrite Ep, Hw, bind_ret. rewrite <- app_assoc, length_map in Hs.
  destruct (fetch_lists_spec words e _ pi _ Hs) as (e1 & E1 & Hs1). rewrite E1, bind_ret.
  rewrite intersect_words by done. destruct (oram_page_results_spec e1 words page pd pi order Hs1 Hp1 Hp2) as (e2 & E2 & Hs2).
  rewrite E2, bind_ret, (sv_template _ _ _ _ Hs2), Nat2Z.id, take_ge by lia. unfold page_docs. fold (answers stop docs words page).
  assert (Ew : querier_witness_of (template_of blob) request (response_of (answers stop docs words page)) =
    snd (witness_finalize (query_context blob request (response_of (answers stop docs words page))) [])) by done.
  rewrite Ew, Load_witness by done. rewrite bind_ret. by exists e2.
Qed.

(** When the last call is done, everything has been served. *)
Lemma serving_done e : serving e [] [] [] ->
  (forall inst, inst = 0 \/ inst = 1 -> served_by e inst (all_served inst)) /\ map fst (oq_served e) = all_order.
Proof.
  intros [_ _ _ _ _ (Md & sd & (d & Ed & Hd) & _) (Mi & si & (i & Ei & Hi) & _) Ho]. rewrite app_nil_r in Ho. split; [|exact Ho].
  intros inst [-> | ->]; unfold served_by.
  - by rewrite <- (so_served _ _ _ _ _ _ _ Hd), app_nil_r.
  - by rewrite <- (so_served _ _ _ _ _ _ _ Hi), app_nil_r.
Qed.

End Serving.

(** ** Setup *)

(** A new instance serves [calls]: its stash never fills up. *)
Definition fits (inst : Z) (P : params) (calls : list call) : Prop :=
  forall ls o, ls_CORAM !! inst = Some ls -> Create (aes_key inst) P ls (junk inst) (junk_hashes inst) = Ret o ->
    never_full (aes_key inst) (uninit inst) (beyond inst) P o (numbered inst 0 calls) = true.

Lemma create_has e inst P calls : fits inst P calls -> numbered inst 0 calls = all_served inst -> config_ok P -> (0 < Zb P)%nat -> good_block P (junk inst) ->
  is_Some (ls_CORAM !! inst) -> length (coram_instances e) = Z.to_nat inst -> served_of inst (oq_served e) = [] ->
  exists i, createNewORAMInstance aes_key junk junk_hashes ls_CORAM e inst P = Ret (with_instances e (coram_instances e ++ [i])) /\
    has (with_instances e (coram_instances e ++ [i])) inst P (fun _ => filler (data_size P)) [] calls.
Proof.
  intros Hf Hall Hc HZ Hj [ls Hls] Hlen Hserved. unfold createNewORAMInstance. rewrite Hls. cbn [deref]. rewrite bind_ret.
  destruct (Create_spec (aes_key inst) P Hc ls (junk inst) (junk_hashes inst) HZ Hj) as (o & E & I & _ & _ & Hu).
  rewrite E, bind_ret. eexists. split; [reflexivity|]. exists (mk_instance P o). split.
  - cbn. by rewrite lookup_app_r, Hlen, Nat.sub_diag by lia.
  - cbn [with_instances oq_served]. rewrite Hserved. split; [done|exact I|intros; by apply Hu|by apply (Hf ls)|exact Hall].
Qed.

Definition digest_calls (docs : list document) : list call := write_calls 0 (digest_blocks (map fst docs) (zeros 512)).
Definition index_calls (temp : str) : list call :=
  write_calls 0 (blocks_from (Z.to_nat (Z.of_nat (length temp) / 512) + 1) 0 (temp ++ [NUL])).

Lemma length_write_calls datas : forall j, length (write_calls j datas) = length datas.
Proof. induction datas as [|d datas IH]; intros j; [done|]. cbn. by rewrite IH. Qed.

(** The set-up writes the digests, then the index. *)
Definition setup_order (docs : list document) (temp : str) : list Z :=
  replicate (length (digest_calls docs)) 0 ++ replicate (length (index_calls temp)) 1.

Hypothesis junk_digest : good_block digest_params (junk 0).
Hypothesis junk_index : good_block index_params (junk 1).
Hypothesis digest_storage : is_Some (ls_CORAM !! 0).
Hypothesis index_storage : is_Some (ls_CORAM !! 1).

Lemma create_digest_oram_spec e docs rest : coram_instances e = [] -> coram_instance_id e = 0 -> oq_served e = [] ->
  Z.of_nat (length docs) / 2 < DIGEST_BLOCK_NUM -> fits 0 digest_params (digest_calls docs ++ rest) ->
  numbered 0 0 (digest_calls docs ++ rest) = all_served 0 ->
  exists i M seen log, create_digest_oram aes_key uninit beyond junk junk_hashes rand behind ls_CORAM e (map fst docs) =
      Ret (mk_oq (oq_context_template e) (g_offset e) (g_length e) 0 (index_oram e) [i] 1 log) /\
    map fst log = replicate (length (digest_calls docs)) 0 /\ store_ok 0 i (served_of 0 log) digest_params M seen rest /\
    forall k d, map fst docs !! k = Some d -> half k (M (Z.of_nat (k / 2))) = copy d.
Proof.
  intros Hci Hid Hlog Hfit Hf Hall. unfold create_digest_oram, getNewORAMInstanceID. rewrite Hid, Hci, Hlog.
  cbn [oq_context_template g_offset g_length index_oram coram_instances coram_instance_id]. change (u32 (0 + 1)) with 1.
  set (e1 := mk_oq _ _ _ _ _ _ _ _).
  destruct (create_has e1 0 digest_params _ Hf Hall digest_config) as (i & E & Hh); [cbn; lia|done|done|done|done|].
  rewrite E, bind_ret. set (e2 := with_instances e1 (coram_instances e1 ++ [i])) in *.
  change 0 with (2 * 0) at 1. rewrite (digest_loop_writes (length (map fst docs)) (map fst docs) ltac:(lia) e2 0 (zeros DIGEST_LENGTH)) by lia.
  destruct (digest_blocks_spec (length (map fst docs)) (map fst docs) ltac:(lia) (zeros 512) eq_refl) as (B1 & B2 & B3).
  change (digest_oram e2) with 0. change (zeros DIGEST_LENGTH) with (zeros 512).
  destruct (run_writes_spec digest_params 0 _ digest_config eq_refl e2 0 _ [] rest Hh) as (e3 & M & seen & E3 & Hh3 & T3 & Hold & _).
  { lia. } { rewrite B1, length_map. change (gN digest_params) with DIGEST_BLOCK_NUM. rewrite Nat2Z.inj_add, Nat2Z.inj_div. change (Z.of_nat 2) with 2. lia. }
  { done. } { intros j Hj. apply elem_of_nil in Hj. destruct Hj. }
  rewrite E3. destruct T3 as (l & log & -> & Hlg & Hl). destruct Hh3 as (i' & Hi' & Hok). exists i', M, seen, log.
  assert (El : l = [i']).
  { cbn in Hi'. destruct l as [|x l]; [done|]. injection Hi' as ->. destruct l as [|y l]; [done|]. by specialize (Hl 1%nat ltac:(done)). }
  rewrite El. split_and!; [done|unfold digest_calls; by rewrite length_write_calls|done|]. intros k d Hk. destruct (B3 k d Hk) as (data & Hdata & Hhalf).
  rewrite <- (Hold _ _ Hdata) in Hhalf. exact Hhalf.
Qed.

Lemma create_index_oram_spec e d tbl total offs lens temp rest : coram_instances e = [d] -> coram_instance_id e = 1 ->
  served_of 1 (oq_served e) = [] ->
  lay_out (iterate _ tbl) 0 (g_offset e) (g_length e) [] = Ret (total, offs, lens, temp) -> total = Z.of_nat (length temp) ->
  total / 512 < INDEX_BLOCK_NUM -> fits 1 index_params (index_calls temp ++ rest) ->
  numbered 1 0 (index_calls temp ++ rest) = all_served 1 ->
  exists i M seen log, create_index_oram aes_key uninit beyond junk junk_hashes rand behind iterate ls_CORAM e tbl =
      Ret (mk_oq (oq_context_template e) offs lens (digest_oram e) 1 [d; i] 2 (oq_served e ++ log)) /\
    map fst log = replicate (length (index_calls temp)) 1 /\ store_ok 1 i (served_of 1 (oq_served e ++ log)) index_params M seen rest /\
    holds M 0 (blocks_from (Z.to_nat (Z.of_nat (length temp) / 512) + 1) 0 (temp ++ [NUL])).
Proof.
  intros Hci Hid Hlog El Ht Hfit Hf Hall. unfold create_index_oram. rewrite El, bind_ret. unfold getNewORAMInstanceID. rewrite Hid, Hci.
  cbn [oq_context_template g_offset g_length digest_oram index_oram coram_instances coram_instance_id]. change (u32 (1 + 1)) with 2.
  set (e1 := mk_oq _ _ _ _ _ _ _ _).
  destruct (create_has e1 1 index_params _ Hf Hall index_config) as (i & E & Hh); [cbn; lia|done|done|done|done|].
  rewrite E, bind_ret. set (e2 := with_instances e1 (coram_instances e1 ++ [i])) in *.
  change (Z.of_nat INDEX_BLOCK_SIZE) with 512. rewrite Ht. set (n := (Z.to_nat (Z.of_nat (length temp) / 512) + 1)%nat) in *.
  assert (Eloop := index_loop_writes n e2 0 (temp ++ [NUL])). change (Z.of_nat 0) with 0 in Eloop. rewrite Eloop.
  change (index_oram e2) with 1.
  destruct (run_writes_spec index_params 1 _ index_config eq_refl e2 0 _ [] rest Hh) as (e3 & M & seen & E3 & Hh3 & T3 & Hold & _).
  { lia. } { rewrite length_blocks_from. change (gN index_params) with INDEX_BLOCK_NUM. rewrite Ht in Hfit.
    pose proof (Z.div_pos (Z.of_nat (length temp)) 512 ltac:(lia) ltac:(lia)). unfold n. lia. }
  { apply blocks_from_sized. } { intros j Hj. apply elem_of_nil in Hj. destruct Hj. }
  fold n in E3. rewrite E3. destruct T3 as (l & log & -> & Hlg & Hl). destruct Hh3 as (i' & Hi' & Hok). exists i', M, seen, log.
  assert (Ell : l = [d; i']).
  { cbn in Hi'. destruct l as [|x [|y l]]; [done|done|]. injection Hi' as ->. assert (E0 := Hl 0%nat ltac:(done)). injection E0 as ->.
    destruct l as [|z l]; [done|]. by specialize (Hl 2%nat ltac:(done)). }
  rewrite Ell. split_and!; [done|unfold index_calls; by rewrite length_write_calls|done|done].
Qed.

(** The layout of a shard's index. *)
Lemma layout_found stop (docs : list document) m total offs lens temp : is_index stop (map snd docs) m ->
  lay_out (iterate _ (foldl zip_entry ∅ (iterate _ m))) 0 ∅ ∅ [] = Ret (total, offs, lens, temp) ->
  total = Z.of_nat (length temp) /\
  forall w, match hits stop [w] 1 (map snd docs) with [] => lens !! w = None | l => placed offs lens temp w (Load_VLB l new_VLB) end.
Proof.
  intros Hm El. apply lay_out_spec in El as (A1 & A2 & _ & A4); [|apply iterate_keys|done]. split; [done|]. intros w.
  pose proof (index_hits stop (map snd docs) m w Hm) as Ew. pose proof (vlb_table m w) as Ev.
  destruct (hits stop [w] 1 (map snd docs)) as [|d l] eqn:Eh.
  - rewrite A4; [apply lookup_empty|]. rewrite iterate_key, Ev. destruct (m !! w) as [[|x l]|]; cbn in Ew |- *; [by intros []|done|by intros []].
  - apply A2. apply iterate_elem. rewrite Ev. destruct (m !! w) as [[|x l']|]; cbn in Ew; [done|by injection Ew as -> ->|done].
Qed.

Lemma oram_setup_serves e0 stop docs blob m total offs lens temp pd pi order :
  coram_instances e0 = [] -> coram_instance_id e0 = 0 -> oq_served e0 = [] ->
  is_index stop (map snd docs) m -> Split_binary blob (Z.of_nat (length blob)) = Ret (map fst docs, m) ->
  lay_out (iterate _ (foldl zip_entry ∅ (iterate _ m))) 0 ∅ ∅ [] = Ret (total, offs, lens, temp) ->
  Z.of_nat (length docs) / 2 < DIGEST_BLOCK_NUM -> total / 512 < INDEX_BLOCK_NUM ->
  fits 0 digest_params (digest_calls docs ++ pd) -> fits 1 index_params (index_calls temp ++ pi) ->
  numbered 0 0 (digest_calls docs ++ pd) = all_served 0 -> numbered 1 0 (index_calls temp ++ pi) = all_served 1 ->
  setup_order docs temp ++ order = all_order ->
  exists e, ecall_oram_querier_setup aes_key uninit beyond junk junk_hashes rand behind iterate ls_CORAM e0 blob (Z.of_nat (length blob)) = Ret e /\
    serving docs blob offs lens temp e pd pi order.
Proof.
  intros Hci Hid Hlog Hm Hsplit El Hd Ht Hfd Hfi Hs0 Hs1 Ho. destruct (layout_found _ _ _ _ _ _ _ Hm El) as [Etot _].
  unfold ecall_oram_querier_setup. rewrite Hsplit, bind_ret, Nat2Z.id, take_ge by lia.
  set (e1 := mk_oq _ _ _ _ _ _ _ _).
  destruct (create_digest_oram_spec e1 docs pd) as (i & M & seen & log & E & L & Hok & Hhalf); [exact Hci|exact Hid|exact Hlog|exact Hd|exact Hfd|exact Hs0|]. rewrite E, bind_ret.
  match goal with |- context [create_index_oram _ _ _ _ _ _ _ _ _ ?e2 ?tbl] =>
    destruct (create_index_oram_spec e2 i tbl total offs lens temp pi) as (i2 & M2 & seen2 & log2 & E2 & L2 & Hok2 & Hold) end;
    [reflexivity|reflexivity|cbn [oq_served]; by eapply served_of_other|exact El|exact Etot|exact Ht|exact Hfi|exact Hs1|].
  rewrite E2. eexists. split; [reflexivity|]. split; [reflexivity|reflexivity|reflexivity|intros; reflexivity|intros; reflexivity| | |].
  - exists M, seen. split; [|exact Hhalf]. exists i. split; [reflexivity|].
    cbn [oq_served] in *. by rewrite served_of_app, (served_of_other _ _ _ _ L2), app_nil_r.
  - exists M2, seen2. split; [|exact Hold]. exists i2. split; [reflexivity|exact Hok2].
  - cbn [oq_served]. rewrite map_app, L, L2. exact Ho.
Qed.

(** *** Instance numbers *)

Lemma digest_loop_frame ds : forall e b data_in r, digest_loop aes_key uninit beyond rand behind e b ds data_in = Ret r ->
  exists l log, fst (fst r) = with_log e l log.
Proof.
  induction ds as [|d ds IH]; intros e b data_in r E; cbn [digest_loop] in E.
  - injection E as <-. eexists _, _. apply with_log_same.
  - destruct (_ =? 0); [by eapply IH|]. apply bind_Ret_inv in E as ([e1 o] & E1 & E). apply acc_frame in E1 as (l & log & ->).
    apply IH in E as (l' & log' & ->). rewrite with_log_twice. eauto.
Qed.

Lemma index_loop_frame n : forall e b temp e', index_loop aes_key uninit beyond rand behind n e b temp = Ret e' ->
  exists l log, e' = with_log e l log.
Proof.
  induction n as [|n IH]; intros e b temp e' E; cbn [index_loop] in E.
  - injection E as <-. eexists _, _. apply with_log_same.
  - apply bind_Ret_inv in E as ([e1 o] & E1 & E). apply acc_frame in E1 as (l & log & ->).
    apply IH in E as (l' & log' & ->). rewrite with_log_twice. eauto.
Qed.

Lemma create_frame e inst P e' : createNewORAMInstance aes_key junk junk_hashes ls_CORAM e inst P = Ret e' -> exists l, e' = with_instances e l.
Proof.
  unfold createNewORAMInstance. intros E. apply bind_Ret_inv in E as (ls & _ & E). apply bind_Ret_inv in E as (o & _ & E).
  injection E as <-. by eexists.
Qed.

(** Every setup takes two instance numbers. *)
Lemma create_digest_instances e ds e' : create_digest_oram aes_key uninit beyond junk junk_hashes rand behind ls_CORAM e ds = Ret e' ->
  coram_instance_id e' = u32 (coram_instance_id e + 1).
Proof.
  unfold create_digest_oram. destruct (getNewORAMInstanceID e) as [id e0] eqn:E0. intros E.
  apply bind_Ret_inv in E as (e2 & E2 & E). apply create_frame in E2 as [l2 ->].
  apply bind_Ret_inv in E as ([[e3 b] data] & E3 & E). apply digest_loop_frame in E3 as (l3 & log3 & E3). cbn [fst] in E3. rewrite E3 in E.
  apply bind_Ret_inv in E as ([e4 o] & E4 & E). apply acc_frame in E4 as (l4 & log4 & E4). apply Ret_inj in E as <-. rewrite E4.
  injection E0 as _ <-. reflexivity.
Qed.

Lemma create_index_instances e tbl e' : create_index_oram aes_key uninit beyond junk junk_hashes rand behind iterate ls_CORAM e tbl = Ret e' ->
  coram_instance_id e' = u32 (coram_instance_id e + 1).
Proof.
  unfold create_index_oram. intros E. apply bind_Ret_inv in E as ([[[total offs] lens] temp] & _ & E).
  destruct (getNewORAMInstanceID e) as [id e0] eqn:E0.
  apply bind_Ret_inv in E as (e2 & E2 & E). apply create_frame in E2 as [l2 ->]. apply index_loop_frame in E as (l3 & log3 & ->).
  injection E0 as _ <-. reflexivity.
Qed.

Lemma setup_instances e blob size e' :
  ecall_oram_querier_setup aes_key uninit beyond junk junk_hashes rand behind iterate ls_CORAM e blob size = Ret e' ->
  coram_instance_id e' = u32 (u32 (coram_instance_id e + 1) + 1).
Proof.
  unfold ecall_oram_querier_setup. intros E. apply bind_Ret_inv in E as ([ds m] & _ & E). apply bind_Ret_inv in E as (e1 & E1 & E).
  apply create_digest_instances in E1. apply create_index_instances in E. rewrite E, E1. reflexivity.
Qed.

Lemma setup_unregistered e blob size r : Split_binary blob size = Ret r -> ls_CORAM !! coram_instance_id e = None ->
  ecall_oram_querier_setup aes_key uninit beyond junk junk_hashes rand behind iterate ls_CORAM e blob size = Undef.
Proof.
  intros E Hn. unfold ecall_oram_querier_setup. rewrite E, bind_ret. destruct r as [ds m].
  unfold create_digest_oram, getNewORAMInstanceID, createNewORAMInstance. cbn [coram_instance_id]. by rewrite Hn.
Qed.

(** ** Short sequences fit *)

Lemma short_fits inst P calls : config_ok P -> (0 < Zb P)%nat -> good_block P (junk inst) ->
  forallb (well_sized P) (numbered inst 0 calls) = true -> write_first [] (numbered inst 0 calls) = true ->
  (length (numbered inst 0 calls) <= stash_size P)%nat -> fits inst P calls.
Proof.
  intros Hc HZ Hj Hw Hf Hl ls o _ E.
  destruct (Create_spec (aes_key inst) P Hc ls (junk inst) (junk_hashes inst) HZ Hj) as (o' & E' & I & Hs & _ & Hu).
  rewrite E in E'. injection E' as <-.
  apply (short_run_fits (aes_key inst) (uninit inst) (beyond inst) P (uninit_length inst) Hc _ o _ [] I); auto. by rewrite Hs.
Qed.

End Facts.

(** A second set-up in the same enclave would be undefined: it takes two new
    instances, and the storage of a third is reached through an uninitialised
    pointer.  The process restarts the enclave before every set-up (OramApp.v). *)
Lemma second_setup_undefined `{Crypto} `{AesCtr} aes_key uninit beyond junk junk_hashes rand behind iterate ls_CORAM e0 blob1 size1 e1 blob2 size2 r :
  coram_instance_id e0 = 0 -> ls_CORAM !! 2 = None ->
  ecall_oram_querier_setup aes_key uninit beyond junk junk_hashes rand behind iterate ls_CORAM e0 blob1 size1 = Ret e1 ->
  Split_binary blob2 size2 = Ret r ->
  ecall_oram_querier_setup aes_key uninit beyond junk junk_hashes rand behind iterate ls_CORAM e1 blob2 size2 = Undef.
Proof.
  intros Hid Hls E1 E2. apply setup_instances in E1. rewrite Hid in E1. apply (setup_unregistered _ _ _ _ _ _ _ _ _ _ _ _ r E2).
  rewrite E1. exact Hls.
Qed.
