(* ===== verification/OramApp.v ===== *)
(** * The process around the oblivious querier

    src/sgx-executor/App: App.cpp, which registers the storage of two ORAM
    instances and loads the enclaves, and querier.cpp, which restarts the
    enclave before every set-up.  The storage stays when an enclave is dropped,
    so that a new enclave finds what the one before left there.

    What an enclave draws or finds in uninitialised memory depends on the
    number of the launch; whether [sgx_create_enclave] succeeds is an argument. *)

From Stdlib Require Import String.
From stdpp Require Import fin_maps relations.
From S2P Require Import Prelude Json JsonFacts Codec Vlb Tokenizer TokenizerFacts Crypto Witness Kanban Crawler Indexer Shard Querier Executors Manager System Rounds.
From S2P Require Import Oram OramEvict OramFacts OramAccess OramTrace OramQuerier OramQuerierFacts.

Import Json Sphinx Vlb.

Local Open Scope Z_scope.

(** ** Enclaves and storage (App.cpp) *)

Record app := mk_app { ls_CORAM : gmap Z LocalStorage; e2_enclave : option oq_state; launches : nat }.

Definition ZeroTrace_Init : gmap Z LocalStorage := <[0 := mk_LS ∅ ∅]> (<[1 := mk_LS ∅ ∅]> ∅).

(** The static variables of the querier's enclave when it is created. *)
Definition static_state : oq_state := mk_oq (mk_ctx [] [] [] [] 0) ∅ ∅ 0 0 [] 0 [].

(** [created]: which of the three calls of [sgx_create_enclave] succeed. *)
Definition load_enclaves (created : bool * bool * bool) (a : app) : bool * app :=
  let '(created1, created2, created3) := created in
  if created1 then
    if created2 then (created3, mk_app (ls_CORAM a) (Some static_state) (S (launches a)))
    else (false, a)
  else (false, a).

Definition drop_enclave (a : app) : app := mk_app (ls_CORAM a) None (launches a).

Definition app_main (created : bool * bool * bool) : app := snd (load_enclaves created (mk_app ZeroTrace_Init None 0)).

(** The OCALLs of an enclave have changed the storage of its instances. *)
Definition write_back (ls : gmap Z LocalStorage) (l : list instance) : gmap Z LocalStorage :=
  list_to_map (imap (fun k i => (Z.of_nat k, storage (in_oram i))) l) ∪ ls.

Definition with_enclave (a : app) (e : oq_state) : app :=
  mk_app (write_back (ls_CORAM a) (coram_instances e)) (Some e) (launches a).

Section App.
Context `{Crypto} `{AesCtr}.
Context (aes_key : nat -> Z -> str) (uninit : nat -> Z -> nat -> str) (beyond : nat -> Z -> str).
Context (junk : nat -> Z -> Block) (junk_hashes : nat -> Z -> list str) (rand : nat -> Z -> nat -> Z).
Context (behind : nat -> nat -> ascii) (garbage : cursor * bool) (iterate : forall A, gmap Z A -> list (Z * A)).

(** ** ECALLs

    On an enclave that is not there they return an error, which is printed. *)

Definition Enclave2_ecall_querier_setup (a : app) (b_index_input : str) (b_index_input_size : Z) : outcome app :=
  match e2_enclave a with
  | None => Ret a
  | Some e =>
    let n := launches a in
    e ← ecall_oram_querier_setup (aes_key n) (uninit n) (beyond n) (junk n) (junk_hashes n) (rand n) (behind n) iterate
      (ls_CORAM a) e b_index_input b_index_input_size;
    Ret (with_enclave a e)
  end.

Definition Enclave2_ecall_do_query (a : app) (request : str) (request_size response_size : Z) : outcome (app * str) :=
  match e2_enclave a with
  | None => Ret (a, [])
  | Some e =>
    let n := launches a in
    '(e, response) ← ecall_oram_do_query (aes_key n) (uninit n) (beyond n) (rand n) (behind n) garbage CreateTokenizer e
      request request_size response_size;
    Ret (with_enclave a e, response)
  end.

(** ** The querier (querier.cpp) *)

Definition restart_and_setup (created : bool * bool * bool) (a : app) (b_index_input : str) : outcome app :=
  let a := drop_enclave a in
  let a := snd (load_enclaves created a) in
  Enclave2_ecall_querier_setup a b_index_input (Z.of_nat (length b_index_input)).

Definition sgx_querier_setup (created : bool * bool * bool) (a : app) (addr : str) (port : Z) : prog app :=
  setup_with a (restart_and_setup created a) addr port.

Definition sgx_do_query (a : app) (request : str) : prog (app * str) :=
  current_epoch_int ← get_epoch_int;
  if current_epoch_int <? 3 then PRet (a, [])
  else
    r ← pure (Enclave2_ecall_do_query a request (Z.of_nat (length request)) BUFFER_SIZE);
    PRet (fst r, c_str (snd r)).

Definition sgx_do_update_round (created : bool * bool * bool) (last_epoch : Z) (a : app) (addr : str) (port : Z) : prog (Z * app) :=
  current_epoch_int ← get_epoch_int;
  if current_epoch_int <? 3 then PRet (last_epoch, a)
  else if current_epoch_int =? last_epoch then PRet (last_epoch, a)
  else a ← sgx_querier_setup created a addr port; PRet (current_epoch_int, a).

(** ** Histories *)

Inductive app_step : app -> app -> Prop :=
  | step_setup created a blob a' : restart_and_setup created a blob = Ret a' -> app_step a a'
  | step_query a request size cap a' response : Enclave2_ecall_do_query a request size cap = Ret (a', response) -> app_step a a'.

Definition app_reachable (a : app) : Prop := exists created, rtc app_step (app_main created) a.

(** Searches one after the other. *)
Fixpoint app_queries (a : app) (requests : list str) (cap : Z) : outcome (app * list str) :=
  match requests with
  | [] => Ret (a, [])
  | r :: requests =>
    '(a, response) ← Enclave2_ecall_do_query a r (Z.of_nat (length r)) cap;
    '(a, responses) ← app_queries a requests cap;
    Ret (a, response :: responses)
  end.

End App.

Fixpoint plain_queries `{Crypto} (st : querier_state) (requests : list str) (cap : Z) : outcome (querier_state * list str) :=
  match requests with
  | [] => Ret (st, [])
  | r :: requests =>
    '(st, response) ← ecall_do_query CreateTokenizer st r (Z.of_nat (length r)) cap;
    '(st, responses) ← plain_queries st requests cap;
    Ret (st, response :: responses)
  end.

(** A search: keywords, page, padding, and the words of the keywords. *)
Record search := mk_search { s_kw : str; s_page : Z; s_pad : str; s_words : list Z }.

Definition search_text (s : search) : str := dump 1 (search_request (s_kw s) (s_page s)) ++ s_pad s.

Definition search_ok (s : search) : Prop :=
  no_nul (s_kw s) /\ no_nul (s_pad s) /\ query_words CreateTokenizer (dump 1 (Str (s_kw s))) = Ret (s_words s) /\
  s_words s <> [] /\ 1 <= s_page s /\ is_i32 ((s_page s - 1) * 10).

(** * Theorems *)

Lemma write_back_keeps ls l i : is_Some (ls !! i) -> is_Some (write_back ls l !! i).
Proof. intros Hi. unfold write_back. rewrite lookup_union_is_Some. by right. Qed.

(** Both instances have storage. *)
Definition registered (a : app) : Prop := is_Some (ls_CORAM a !! 0) /\ is_Some (ls_CORAM a !! 1).

Lemma registered_with a e : registered a -> registered (with_enclave a e).
Proof. intros [H0 H1]. split; by apply write_back_keeps. Qed.

Lemma registered_load created a : registered a -> registered (snd (load_enclaves created a)).
Proof. intros Hr. destruct created as [[[] []] c3]; exact Hr. Qed.

Section Facts.
Context `{Crypto} `{AesLaws}.
Context (aes_key : nat -> Z -> str) (uninit : nat -> Z -> nat -> str) (beyond : nat -> Z -> str).
Context (junk : nat -> Z -> Block) (junk_hashes : nat -> Z -> list str) (rand : nat -> Z -> nat -> Z).
Context (behind : nat -> nat -> ascii) (cur : cursor) (iterate : forall A, gmap Z A -> list (Z * A)).

Notation setup := (restart_and_setup aes_key uninit beyond junk junk_hashes rand behind iterate).
Notation query := (Enclave2_ecall_do_query aes_key uninit beyond rand behind (cur, false)).
Notation step := (app_step aes_key uninit beyond junk junk_hashes rand behind (cur, false) iterate).

Lemma registered_step a a' : step a a' -> registered a -> registered a'.
Proof.
  intros [created a0 blob a1 E|a0 request size cap a1 response E] Hr.
  - unfold restart_and_setup, Enclave2_ecall_querier_setup in E.
    assert (Hr' : registered (snd (load_enclaves created (drop_enclave a0)))) by by apply registered_load.
    set (b := snd (load_enclaves created (drop_enclave a0))) in *. clearbody b. destruct (e2_enclave b) as [e|]; [|by apply Ret_inj in E as <-].
    apply bind_Ret_inv in E as (e' & _ & E). apply Ret_inj in E as <-. by apply registered_with.
  - unfold Enclave2_ecall_do_query in E. destruct (e2_enclave a0) as [e|]; [|by injection E as <- _].
    apply bind_Ret_inv in E as ([e' r] & _ & E). injection E as <- _. by apply registered_with.
Qed.

(** On Kanban: the shard in turn is loaded and the address is registered for it. *)
Lemma sgx_setup_registers created a a1 blob db addr port e cnt `{!CryptoLaws} :
  at_epoch db e -> 3 <= e -> is_i32 e ->
  db !! L "SHARDING-MAX" = Some (OBJ_STRING (to_string INDEX_POOL_MAX)) ->
  counter_value db (L "SHARD_COUNTER") = Ret cnt -> 0 <= cnt < 2 ^ 31 - 1 ->
  let id := (cnt + 1) mod INDEX_POOL_MAX + 1 in
  db !! gkey (e - 1) id = Some (OBJ_STRING blob) -> setup created a blob = Ret a1 ->
  match db !! shard_key "NODE-#EPOCH" (to_string e) (to_string id) with
  | None | Some (OBJ_LIST _) => True
  | _ => False
  end ->
  exists db', run (sgx_querier_setup aes_key uninit beyond junk junk_hashes rand behind iterate created a addr port) db = Ret (a1, db') /\
    1 <= id <= INDEX_POOL_MAX /\
    exists nodes, db' !! shard_key "NODE-#EPOCH" (to_string e) (to_string id) =
      Some (OBJ_LIST (nodes ++ [dump 1 (self_addr_info addr port)])).
Proof. intros He H3 Hi Hm Hc Hcnt id Hb Es Hn. exact (setup_with_run a a1 _ blob db addr port e cnt He H3 Hi Hm Hc Hcnt Hb Es Hn). Qed.

Lemma reachable_registered a : app_reachable aes_key uninit beyond junk junk_hashes rand behind (cur, false) iterate a -> registered a.
Proof.
  intros (created & Hr). assert (Hm : registered (app_main created)) by (by apply registered_load).
  induction Hr as [|x y z Hs _ IH]; [exact Hm|]. apply IH. by eapply registered_step.
Qed.

Section Searches.
Context (stop : list Z) (docs : list document) (blob : str) (offs lens : gmap Z Z) (temp : str).
Hypothesis docs_small : 1 + Z.of_nat (length docs) <= 2 ^ 31.
Hypothesis laid_out : forall w, match hits stop [w] 1 (map snd docs) with [] => lens !! w = None | l => placed offs lens temp w (Load_VLB l new_VLB) end.
Hypothesis index_fits : Z.of_nat (length temp) / 512 < INDEX_BLOCK_NUM.
Hypothesis digests_fit : Z.of_nat (length docs) / 2 < DIGEST_BLOCK_NUM.
Hypothesis digests_clean : Forall (fun d => no_nul (fst d) /\ (length (fst d) <= 256)%nat) docs.
Hypothesis uninit_length : forall n i k, length (uninit n i k) = NONCE_LENGTH.

(** The accesses a search makes. *)
Definition search_digests (s : search) : list call := map digest_read (page_docs stop docs (s_words s) (s_page s)).
Definition search_index (n : nat) (s : search) : list call := concat (map (word_reads (behind n) offs lens) (s_words s)).
Definition search_order (n : nat) (s : search) : list Z :=
  replicate (length (search_index n s)) 1 ++ replicate (length (search_digests s)) 0.
Definition search_answer (cap : Z) (s : search) : str :=
  visible cap (dump 1 (full_response blob (search_text s) (answers stop docs (s_words s) (s_page s)))).

Lemma app_queries_serve all_served all_order cap l : forall a e, Forall search_ok l -> e2_enclave a = Some e ->
  serving (aes_key (launches a)) (uninit (launches a)) (beyond (launches a)) (rand (launches a)) (behind (launches a)) all_served all_order docs blob offs lens temp e
    (concat (map search_digests l)) (concat (map (search_index (launches a)) l)) (concat (map (search_order (launches a)) l)) ->
  exists a' e', app_queries aes_key uninit beyond rand behind (cur, false) a (map search_text l) cap = Ret (a', map (search_answer cap) l) /\
    e2_enclave a' = Some e' /\ (forall inst, inst = 0 \/ inst = 1 -> served_by e' inst (all_served inst)) /\ map fst (oq_served e') = all_order.
Proof.
  induction l as [|s l IH]; intros a e Hl Ea Hs; [exists a, e; by eauto using serving_done|]. apply Forall_cons in Hl as [(Hk & Hp & Hw & Hne & Hp1 & Hp2) Hl].
  cbn [map concat] in Hs. cbn [map app_queries]. unfold Enclave2_ecall_do_query. rewrite Ea.
  destruct (oram_query_client _ _ _ _ _ cur (uninit_length _) all_served all_order stop docs blob offs lens temp docs_small laid_out index_fits digests_fit digests_clean
    CreateTokenizer e (s_kw s) (s_page s) (s_pad s) (s_words s) cap _ _ _ Hs Hk Hp Hw Hne Hp1 Hp2) as (e' & E & Hs').
  cbv zeta in E |- *. fold (search_text s) in E. rewrite E, !bind_ret.
  destruct (IH (with_enclave a e') e' Hl eq_refl Hs') as (a' & e2 & E' & Ea' & Hdone). exists a', e2.
  rewrite E', bind_ret. split; [reflexivity|]. split; [exact Ea'|exact Hdone].
Qed.

End Searches.

Lemma plain_queries_serve stop docs blob cap l : forall st, Forall search_ok l -> serves stop docs blob st ->
  exists st', plain_queries st (map search_text l) cap = Ret (st', map (search_answer stop docs blob cap) l).
Proof.
  induction l as [|s l IH]; intros st Hl Hs; [by exists st|]. apply Forall_cons in Hl as [(Hk & Hp & Hw & Hne & Hp1 & Hp2) Hl].
  destruct (query_client CreateTokenizer stop docs blob st (s_kw s) (s_page s) (s_pad s) (s_words s) cap Hs Hk Hp Hw Hne Hp1 Hp2) as (st1 & E & Hs1).
  cbn [map plain_queries]. cbv zeta in E. fold (search_text s) in E. rewrite E, bind_ret.
  destruct (IH st1 Hl Hs1) as (st' & E'). exists st'. by rewrite E', bind_ret.
Qed.

End Facts.

(** ** Properties *)

Section Served.
Context `{Crypto} `{AesLaws}.
Context (aes_key : nat -> Z -> str) (uninit : nat -> Z -> nat -> str) (beyond : nat -> Z -> str).
Context (junk : nat -> Z -> Block) (junk_hashes : nat -> Z -> list str) (rand : nat -> Z -> nat -> Z).
Context (behind : nat -> nat -> ascii) (cur : cursor) (iterate : forall A, gmap Z A -> list (Z * A)).
Hypothesis uninit_length : forall n i k, length (uninit n i k) = NONCE_LENGTH.
Hypothesis iterate_all : forall A (m : gmap Z A), iterate A m ≡ₚ map_to_list m.
Hypothesis junk_digest : forall n, good_block digest_params (junk n 0).
Hypothesis junk_index : forall n, good_block index_params (junk n 1).

(** In launch [n], with the storage [ls], no stash fills up during the accesses. *)
Definition launch_fits (n : nat) (ls : gmap Z LocalStorage) (inst : Z) (P : params) (calls : list call) : Prop :=
  fits (aes_key n) (uninit n) (beyond n) (junk n) (junk_hashes n) (rand n) ls inst P calls.

Lemma setup_then_search a st0 stop docs blob m total offs lens temp l cap :
  registered a ->
  shard stop docs blob -> Forall (fun d => length (fst d) <= 256)%nat docs ->
  is_index stop (map snd docs) m -> Split_binary blob (Z.of_nat (length blob)) = Ret (map fst docs, m) ->
  lay_out (iterate _ (foldl zip_entry ∅ (iterate _ m))) 0 ∅ ∅ [] = Ret (total, offs, lens, temp) ->
  Z.of_nat (length docs) / 2 < DIGEST_BLOCK_NUM -> total / 512 < INDEX_BLOCK_NUM -> Forall search_ok l ->
  launch_fits (S (launches a)) (ls_CORAM a) 0 digest_params
    (digest_calls (behind (S (launches a))) docs ++ concat (map (search_digests stop docs) l)) ->
  launch_fits (S (launches a)) (ls_CORAM a) 1 index_params
    (index_calls (behind (S (launches a))) temp ++ concat (map (search_index behind offs lens (S (launches a))) l)) ->
  exists st st' a1 a2 responses,
    ecall_querier_setup st0 blob (Z.of_nat (length blob)) = Ret st /\
    plain_queries st (map search_text l) cap = Ret (st', responses) /\
    restart_and_setup aes_key uninit beyond junk junk_hashes rand behind iterate (true, true, true) a blob = Ret a1 /\
    app_queries aes_key uninit beyond rand behind (cur, false) a1 (map search_text l) cap = Ret (a2, responses) /\
    exists e, e2_enclave a2 = Some e /\
      map fst (oq_served e) = setup_order (behind (S (launches a))) docs temp ++ concat (map (search_order behind stop docs offs lens (S (launches a))) l) /\
      served_by e 0 (numbered (rand (S (launches a))) 0 0 (digest_calls (behind (S (launches a))) docs ++ concat (map (search_digests stop docs) l))) /\
      served_by e 1 (numbered (rand (S (launches a))) 1 0 (index_calls (behind (S (launches a))) temp ++ concat (map (search_index behind offs lens (S (launches a))) l))).
Proof.
  intros [Hr0 Hr1] Hsh Hlen Hm Hsplit Hlay Hd Ht Hl Hfd Hfi.
  destruct (setup_serves stop docs blob st0 Hsh) as (st & E1 & Hst). destruct (plain_queries_serve stop docs blob cap l st Hl Hst) as (st' & E2).
  destruct (layout_found iterate iterate_all _ _ _ _ _ _ _ Hm Hlay) as [Etot Hfound]. set (n := S (launches a)) in *.
  match type of Hfd with launch_fits _ _ _ _ ?cd => match type of Hfi with launch_fits _ _ _ _ ?ci =>
    set (all_served := fun inst => if inst =? 0 then numbered (rand n) 0 0 cd else numbered (rand n) 1 0 ci) end end.
  destruct (oram_setup_serves (aes_key n) (uninit n) (beyond n) (junk n) (junk_hashes n) (rand n) (behind n) iterate (ls_CORAM a)
    (uninit_length n) all_served _ iterate_all (junk_digest n) (junk_index n) Hr0 Hr1 static_state stop docs blob m total offs lens temp _ _ (concat (map (search_order behind stop docs offs lens n) l))
    eq_refl eq_refl eq_refl Hm Hsplit Hlay Hd Ht Hfd Hfi eq_refl eq_refl eq_refl) as (e & E3 & Hs).
  destruct Hsh as (Hok & Hn & _). rewrite Etot in Ht.
  assert (Hclean : Forall (fun d : document => no_nul (fst d) /\ (length (fst d) <= 256)%nat) docs).
  { apply Forall_and. split; [|exact Hlen]. eapply Forall_weaken; [exact Hok|]. intros d [[Hnul _] _]. exact Hnul. }
  set (a0 := mk_app (ls_CORAM a) (Some static_state) n).
  destruct (app_queries_serve aes_key uninit beyond rand behind cur stop docs blob offs lens temp Hn Hfound Ht Hd Hclean uninit_length
    all_served _ cap l (with_enclave a0 e) e Hl eq_refl Hs) as (a2 & e2 & E4 & Ea2 & Hdone & Hord).
  exists st, st', (with_enclave a0 e), a2. eexists. split; [exact E1|]. split; [exact E2|]. split; [|split; [exact E4|exists e2; split; [exact Ea2|split; [exact Hord|split; [apply (Hdone 0)|apply (Hdone 1)]; auto]]]].
  unfold restart_and_setup, Enclave2_ecall_querier_setup. cbn [load_enclaves drop_enclave snd e2_enclave ls_CORAM launches]. fold n.
  rewrite E3. reflexivity.
Qed.

End Served.

(** C11. The oblivious querier answers like the plain one, in every enclave the process
    launches.  Whatever set-ups and searches came before, and whatever they left in
    the storage outside, after a restart a shard whose digests have at most 256
    characters and that fits the two ORAMs is loaded, and searches are answered one
    after the other with the same bytes as by the plain querier: the page of results,
    padded, and the witness over blob, request and results.  The hypotheses
    [launch_fits] say that neither stash fills up during the accesses, which are
    listed; the flag that the copy constructor of the coder leaves uninitialised is
    assumed to read as false. *)
Theorem oram_query_equivalent `{Crypto} `{AesLaws} aes_key uninit beyond junk junk_hashes rand behind cur
    (iterate : forall A, gmap Z A -> list (Z * A)) a st0 stop docs blob m total offs lens temp l cap :
  (forall n i k, length (uninit n i k) = NONCE_LENGTH) -> (forall A (m : gmap Z A), iterate A m ≡ₚ map_to_list m) ->
  (forall n, good_block digest_params (junk n 0)) -> (forall n, good_block index_params (junk n 1)) ->
  app_reachable aes_key uninit beyond junk junk_hashes rand behind (cur, false) iterate a ->
  shard stop docs blob -> Forall (fun d => length (fst d) <= 256)%nat docs ->
  is_index stop (map snd docs) m -> Split_binary blob (Z.of_nat (length blob)) = Ret (map fst docs, m) ->
  lay_out (iterate _ (foldl zip_entry ∅ (iterate _ m))) 0 ∅ ∅ [] = Ret (total, offs, lens, temp) ->
  Z.of_nat (length docs) / 2 < DIGEST_BLOCK_NUM -> total / 512 < INDEX_BLOCK_NUM -> Forall search_ok l ->
  let n := S (launches a) in
  launch_fits aes_key uninit beyond junk junk_hashes rand n (ls_CORAM a) 0 digest_params
    (digest_calls (behind n) docs ++ concat (map (search_digests stop docs) l)) ->
  launch_fits aes_key uninit beyond junk junk_hashes rand n (ls_CORAM a) 1 index_params
    (index_calls (behind n) temp ++ concat (map (search_index behind offs lens n) l)) ->
  exists st st' a1 a2 responses,
    ecall_querier_setup st0 blob (Z.of_nat (length blob)) = Ret st /\
    plain_queries st (map search_text l) cap = Ret (st', responses) /\
    restart_and_setup aes_key uninit beyond junk junk_hashes rand behind iterate (true, true, true) a blob = Ret a1 /\
    app_queries aes_key uninit beyond rand behind (cur, false) a1 (map search_text l) cap = Ret (a2, responses).
Proof.
  intros Hu Hit Hjd Hji Ha Hsh Hlen Hm Hsplit Hlay Hd Ht Hl n Hfd Hfi.
  destruct (setup_then_search aes_key uninit beyond junk junk_hashes rand behind cur iterate Hu Hit Hjd Hji a st0 stop docs blob m total offs lens temp l cap
    (reachable_registered _ _ _ _ _ _ _ _ _ a Ha) Hsh Hlen Hm Hsplit Hlay Hd Ht Hl Hfd Hfi) as (st & st' & a1 & a2 & responses & E1 & E2 & E3 & E4 & _).
  by exists st, st', a1, a2, responses.
Qed.

(** A shard of one document, searched twice in the second enclave of a process. *)
Definition sample_rust : Z := sphCRC32 (L "rust").
Definition sample_temp : str := marshall_VLB_to_buffer (Load_VLB [1] new_VLB).
Definition sample_block (_ : nat) (_ : Z) : Block := mk_Block 0 0 (zeros 512).
Definition sample_iterate (A : Type) (m : gmap Z A) : list (Z * A) := map_to_list m.
Definition sample_search (page : Z) : search := mk_search (L "rust") page (L "xx") [sample_rust].
Definition sample_app : app := app_main (true, true, true).

Lemma sample_split : Split_binary (sample_blob "rust" sample_rust) (Z.of_nat (length (sample_blob "rust" sample_rust)))
  = Ret (map fst [sample_doc "rust" sample_rust], {[ sample_rust := [1] ]}).
Proof. vm_compute. reflexivity. Qed.

Lemma sample_layout : lay_out (sample_iterate _ (foldl zip_entry ∅ (sample_iterate _ {[ sample_rust := [1] ]}))) 0 ∅ ∅ []
  = Ret (17, {[ sample_rust := 0 ]}, {[ sample_rust := 17 ]}, sample_temp).
Proof. vm_compute. reflexivity. Qed.

Lemma sample_good P n i : data_size P = 512%nat -> good_block P (sample_block n i).
Proof. intros E. split; [unfold sized; rewrite E; reflexivity|split; split; done]. Qed.

Lemma sample_search_ok page : 1 <= page -> is_i32 ((page - 1) * 10) -> search_ok (sample_search page).
Proof.
  intros H1 H2. unfold search_ok, sample_search. cbn [s_kw s_page s_pad s_words]. split; [by repeat constructor|]. split; [by repeat constructor|].
  split; [|done]. rewrite CreateTokenizer_eq. unfold query_words, wordIDs. rewrite tokens_plain_eq by repeat constructor. reflexivity.
Qed.

Local Notation sample_fits inst P calls := (@launch_fits toy_crypto toy_aes (fun _ _ => []) (fun _ _ => sample_nonce) (fun _ _ => []) sample_block
  (fun _ _ => []) (fun _ _ _ => 5) 2 (ls_CORAM sample_app) inst P calls).

Lemma sample_digests_fit : sample_fits 0 digest_params
  (digest_calls (fun _ => NUL) [sample_doc "rust" sample_rust] ++ concat (map (search_digests [] [sample_doc "rust" sample_rust]) [sample_search 1; sample_search 2])).
Proof.
  apply (@short_fits toy_crypto toy_aes toy_aes_laws);
    [intros; reflexivity|apply digest_config|cbn; lia|by apply sample_good|vm_compute; reflexivity|vm_compute; reflexivity|].
  apply Nat.leb_le. vm_compute. reflexivity.
Qed.

Lemma sample_index_fit : sample_fits 1 index_params
  (index_calls (fun _ => NUL) sample_temp ++
   concat (map (search_index (fun _ _ => NUL) {[ sample_rust := 0 ]} {[ sample_rust := 17 ]} 2) [sample_search 1; sample_search 2])).
Proof.
  apply (@short_fits toy_crypto toy_aes toy_aes_laws);
    [intros; reflexivity|apply index_config|cbn; lia|by apply sample_good|vm_compute; reflexivity|vm_compute; reflexivity|].
  apply Nat.leb_le. vm_compute. reflexivity.
Qed.

Lemma oram_query_equivalent_witness :
  let blob := sample_blob "rust" sample_rust in
  let requests := map search_text [sample_search 1; sample_search 2] in
  exists st st' a1 a2 responses,
    @ecall_querier_setup toy_crypto (mk_querier [] ∅ (mk_ctx [] [] [] [] 0)) blob (Z.of_nat (length blob)) = Ret st /\
    @plain_queries toy_crypto st requests 4096 = Ret (st', responses) /\
    @restart_and_setup toy_crypto toy_aes (fun _ _ => []) (fun _ _ => sample_nonce) (fun _ _ => []) sample_block (fun _ _ => [])
      (fun _ _ _ => 5) (fun _ _ => NUL) sample_iterate (true, true, true) sample_app blob = Ret a1 /\
    @app_queries toy_crypto toy_aes (fun _ _ => []) (fun _ _ => sample_nonce) (fun _ _ => []) (fun _ _ _ => 5) (fun _ _ => NUL) (Wild, false)
      a1 requests 4096 = Ret (a2, responses).
Proof.
  apply (@oram_query_equivalent toy_crypto toy_aes toy_aes_laws (fun _ _ => []) (fun _ _ => sample_nonce) (fun _ _ => []) sample_block (fun _ _ => [])
    (fun _ _ _ => 5) (fun _ _ => NUL) Wild sample_iterate sample_app (mk_querier [] ∅ (mk_ctx [] [] [] [] 0)) [] [sample_doc "rust" sample_rust]
    (sample_blob "rust" sample_rust) {[ sample_rust := [1] ]} 17 {[ sample_rust := 0 ]} {[ sample_rust := 17 ]} sample_temp
    [sample_search 1; sample_search 2] 4096).
  - intros n i k. reflexivity.
  - intros A m. reflexivity.
  - intros n. apply sample_good. reflexivity.
  - intros n. apply sample_good. reflexivity.
  - exists (true, true, true). apply rtc_refl.
  - apply sample_shard; [by apply digest_ok_check|split; [vm_compute; done|reflexivity]|by vm_compute].
  - constructor; [cbn; lia|constructor].
  - apply sample_index.
  - exact sample_split.
  - exact sample_layout.
  - reflexivity.
  - reflexivity.
  - constructor; [|constructor; [|constructor]]; apply sample_search_ok; unfold is_i32; lia.
  - exact sample_digests_fit.
  - exact sample_index_fit.
Defined.
