(* ===== verification/OramJoint.v ===== *)
(** * Several ORAMs seen together

    The querier keeps its digests and its index in two ORAMs, and the storage
    sees the OCALLs of both in the order in which they are made.  This file
    holds that joint view and shows what it consists of: the order in which the
    ORAMs are accessed and the view of each of them alone.  So sequences of
    accesses that are hidden in every ORAM are hidden in the joint view when
    the ORAMs are accessed in the same order. *)

From Stdlib Require Import String.
From stdpp Require Import fin_maps.
From S2P Require Import Prelude Crypto Oram OramFacts OramTrace OramOblivious OramQuerier.

Local Open Scope Z_scope.

(** ** Sequences of several owners

    [order] names the owner of each element. *)

Fixpoint count (order : list Z) (i : Z) : nat :=
  match order with
  | [] => O
  | j :: order => if j =? i then S (count order i) else count order i
  end.

(** The elements of owner [i]. *)
Fixpoint part {A} (order : list Z) (xs : list A) (i : Z) : list A :=
  match order, xs with
  | j :: order, x :: xs => if j =? i then x :: part order xs i else part order xs i
  | _, _ => []
  end.

Definition update {A} (f : Z -> A) (j : Z) (x : A) (i : Z) : A := if i =? j then x else f i.

(** The elements [f] of all owners in one sequence. *)
Fixpoint weave {A} (order : list Z) (f : Z -> list A) : list A :=
  match order with
  | [] => []
  | j :: order => match f j with [] => [] | x :: l => x :: weave order (update f j l) end
  end.

(** [f] has as many elements of each owner as [order]. *)
Definition counted {A} (order : list Z) (f : Z -> list A) : Prop := forall i, length (f i) = count order i.

Lemma weave_ext {A} order : forall f g : Z -> list A, (forall i, f i = g i) -> weave order f = weave order g.
Proof.
  induction order as [|j order IH]; intros f g E; [done|]. cbn [weave]. rewrite E. destruct (g j) as [|x l]; [done|].
  f_equal. apply IH. intros i. unfold update. by rewrite E.
Qed.

Lemma counted_cons {A} j order (f : Z -> list A) : counted (j :: order) f ->
  exists x l, f j = x :: l /\ counted order (update f j l).
Proof.
  intros C. pose proof (C j) as Cj. cbn [count] in Cj. rewrite Z.eqb_refl in Cj. destruct (f j) as [|x l] eqn:E; [done|].
  exists x, l. split; [done|]. intros i. specialize (C i). cbn [count] in C. unfold update.
  destruct (Z.eqb_spec i j) as [->|Hne]; [by injection Cj|]. by rewrite (proj2 (Z.eqb_neq j i)) in C by congruence.
Qed.

Lemma length_weave {A} order : forall f : Z -> list A, counted order f -> length (weave order f) = length order.
Proof.
  induction order as [|j order IH]; intros f C; [done|]. destruct (counted_cons _ _ _ C) as (x & l & E & C').
  cbn [weave]. rewrite E. cbn. by rewrite IH.
Qed.

Lemma weave_Forall {A} (Q : A -> Prop) order : forall f, (forall i, Forall Q (f i)) -> Forall Q (weave order f).
Proof.
  induction order as [|j order IH]; intros f F; [constructor|]. cbn [weave]. pose proof (F j) as Fj.
  destruct (f j) as [|x l]; [constructor|]. apply Forall_cons in Fj as [Fx Fl]. constructor; [done|]. apply IH.
  intros i. unfold update. by destruct (i =? j).
Qed.

Lemma part_weave {A} order : forall (f : Z -> list A) i, counted order f -> part order (weave order f) i = f i.
Proof.
  induction order as [|j order IH]; intros f i C; [by specialize (C i); destruct (f i)|].
  destruct (counted_cons _ _ _ C) as (x & l & E & C'). cbn [weave part]. rewrite E, IH by done. unfold update.
  destruct (Z.eqb_spec j i) as [->|Hne]; [by rewrite Z.eqb_refl|by rewrite (proj2 (Z.eqb_neq i j)) by congruence].
Qed.

Lemma weave_part {A} order : forall xs : list A, length xs = length order -> weave order (part order xs) = xs.
Proof.
  induction order as [|j order IH]; intros [|x xs] E; try done. cbn [weave part]. rewrite Z.eqb_refl. f_equal.
  rewrite <- (IH xs) at 2 by (by injection E). apply weave_ext. intros i. unfold update. rewrite Z.eqb_sym.
  by destruct (Z.eqb_spec j i) as [->|].
Qed.

Lemma counted_part {A} order : forall xs : list A, length xs = length order -> counted order (part order xs).
Proof.
  induction order as [|j order IH]; intros [|x xs] E i; try done. cbn [part count]. injection E as E.
  destruct (j =? i); cbn; by rewrite (IH xs E i).
Qed.

Lemma part_Forall {A} (Q : A -> Prop) order i : forall xs, Forall Q xs -> Forall Q (part order xs i).
Proof.
  induction order as [|j order IH]; intros xs F; [constructor|]. destruct F as [|x xs Hx F]; [constructor|]. cbn [part].
  destruct (j =? i); [constructor|]; auto.
Qed.

Lemma weave_zip_with {A B C} (h : A -> B -> C) order : forall f g, counted order f -> counted order g ->
  weave order (fun i => zip_with h (f i) (g i)) = zip_with h (weave order f) (weave order g).
Proof.
  induction order as [|j order IH]; intros f g Cf Cg; [done|]. destruct (counted_cons _ _ _ Cf) as (x & l & Ef & Cf').
  destruct (counted_cons _ _ _ Cg) as (y & m & Eg & Cg'). cbn [weave]. rewrite Ef, Eg. cbn [zip_with]. f_equal.
  rewrite <- IH by done. apply weave_ext. intros i. unfold update. by destruct (i =? j).
Qed.

(** ** Accesses to several ORAMs *)

Lemma served_of_cons i j rq log : served_of i ((j, rq) :: log) = if j =? i then rq :: served_of i log else served_of i log.
Proof.
  unfold served_of. destruct (Z.eqb_spec j i) as [->|Hne]; [by rewrite filter_cons_True|by rewrite filter_cons_False].
Qed.

Lemma served_part i log : served_of i log = part (map fst log) (map snd log) i.
Proof. induction log as [|[j rq] log IH]; [done|]. rewrite served_of_cons, IH. reflexivity. Qed.

Lemma counted_served log : counted (map fst log) (fun i => served_of i log).
Proof. intros i. rewrite served_part. apply counted_part. by rewrite !length_map. Qed.

(** A sequence of accesses is its order and what each ORAM is asked for. *)
Lemma log_weave log : log = zip (map fst log) (weave (map fst log) (fun i => served_of i log)).
Proof.
  rewrite (weave_ext _ _ (part (map fst log) (map snd log))) by (intros; apply served_part).
  rewrite weave_part by by rewrite !length_map. induction log as [|[j rq] log IH]; [done|]. cbn. by f_equal.
Qed.

Lemma weave_log order f : counted order f -> map fst (zip order (weave order f)) = order /\
  forall i, served_of i (zip order (weave order f)) = f i.
Proof.
  intros C. pose proof (length_weave order f C) as L. assert (E : map fst (zip order (weave order f)) = order).
  { change ((zip order (weave order f)).*1 = order). apply fst_zip. lia. }
  split; [exact E|]. intros i. rewrite served_part, E. change (part order ((zip order (weave order f)).*2) i = f i).
  rewrite snd_zip by lia. by apply part_weave.
Qed.

Lemma count_app l l' i : count (l ++ l') i = (count l i + count l' i)%nat.
Proof. induction l as [|j l IH]; [done|]. cbn [app count]. rewrite IH. by destruct (j =? i). Qed.

Lemma count_replicate n j i : count (replicate n j) i = if j =? i then n else O.
Proof. induction n as [|n IH]; cbn [replicate count]; [by destruct (j =? i)|]. rewrite IH. by destruct (j =? i). Qed.

Definition log_draw (x : Z * request) (d : Z) : Z * request := (fst x, with_draw (snd x) d).

Lemma log_draw_order log : forall ds, length ds = length log -> map fst (zip_with log_draw log ds) = map fst log.
Proof. induction log as [|x log IH]; intros [|d ds] E; try done. cbn. f_equal. apply IH. by injection E. Qed.

Lemma served_draw i log : forall ds, length ds = length log ->
  served_of i (zip_with log_draw log ds) = zip_with with_draw (served_of i log) (part (map fst log) ds i).
Proof.
  induction log as [|[j rq] log IH]; intros [|d ds] E; try done. injection E as E.
  change (zip_with log_draw ((j, rq) :: log) (d :: ds)) with ((j, with_draw rq d) :: zip_with log_draw log ds).
  rewrite !served_of_cons, IH by done. cbn [map fst part]. by destruct (j =? i).
Qed.

(** The numbers that the accesses of [order] draw when ORAM [i] draws
    [rand i 0], [rand i 1], ... *)
Definition drawn (rand : Z -> nat -> Z) (order : list Z) : list Z :=
  weave order (fun i => map (rand i) (seq 0 (count order i))).

Lemma log_drawn rand order log (calls : Z -> list request) : map fst log = order -> counted order calls ->
  (forall i, served_of i log = zip_with with_draw (calls i) (map (rand i) (seq 0 (length (calls i))))) ->
  log = zip_with log_draw (zip order (weave order calls)) (drawn rand order).
Proof.
  intros Ho C Hs. rewrite (log_weave log), Ho.
  rewrite (weave_ext _ _ (fun i => zip_with with_draw (calls i) (map (rand i) (seq 0 (count order i))))) by (intros i; by rewrite Hs, C).
  assert (Cd : counted order (fun i => map (rand i) (seq 0 (count order i)))) by (intros i; by rewrite length_map, length_seq).
  rewrite weave_zip_with by done. fold (drawn rand order). pose proof (length_weave _ _ C) as L1. pose proof (length_weave _ _ Cd) as L2.
  fold (drawn rand order) in L2. revert L1 L2. clear. generalize (weave order calls) (drawn rand order).
  induction order as [|j order IH]; intros [|x xs] [|d ds] E1 E2; try done. cbn. unfold log_draw. cbn. f_equal. apply IH; [by injection E1|by injection E2].
Qed.

(** The numbers of each ORAM replaced as [f] says. *)
Definition woven (order : list Z) (f : Z -> list Z -> list Z) (ds : list Z) : list Z := weave order (fun i => f i (part order ds i)).

Lemma part_draws order ds i : draws (length order) ds -> draws (count order i) (part order ds i).
Proof. intros [E F]. split; [by apply counted_part|by apply part_Forall]. Qed.

Lemma woven_draws order f ds : (forall i, draws (count order i) (f i (part order ds i))) -> draws (length order) (woven order f ds).
Proof. intros Hf. split; [apply length_weave; intros i; apply Hf|apply weave_Forall; intros i; apply Hf]. Qed.

Lemma part_woven order f ds i : (forall i, draws (count order i) (f i (part order ds i))) ->
  part order (woven order f ds) i = f i (part order ds i).
Proof. intros Hf. unfold woven. rewrite part_weave; [done|]. intros j. apply Hf. Qed.

Lemma woven_inverse order f g ds : draws (length order) ds -> (forall i, draws (count order i) (f i (part order ds i))) ->
  (forall i, g i (f i (part order ds i)) = part order ds i) -> woven order g (woven order f ds) = ds.
Proof.
  intros [E _] Hf Hg. unfold woven at 1. rewrite (weave_ext _ _ (part order ds)); [by apply weave_part|].
  intros i. by rewrite part_woven.
Qed.

(** ** The joint view *)

Section Joint.
Context `{Crypto} `{AesCtr} (aes_key : Z -> str) (uninit : Z -> nat -> str) (beyond : Z -> str) (P : Z -> params).

Notation view i := (run_view (aes_key i) (uninit i) (beyond i) (P i)).

(** What the storage of the ORAMs [o] is asked for, access by access, and for
    which ORAM. *)
Fixpoint joint_view (o : Z -> oram) (log : list (Z * request)) : outcome (list (Z * list ocall)) :=
  match log with
  | [] => Ret []
  | (i, r) :: log =>
    '(st, _, v) ← access_view (aes_key i) (uninit i) (beyond i) (P i) (o i) r;
    vs ← joint_view (update o i st) log;
    Ret ((i, v) :: vs)
  end.

Lemma joint_view_weave log : forall o (vs : Z -> list (list ocall)), (forall i, view i (o i) (served_of i log) = Ret (vs i)) ->
  joint_view o log = Ret (zip (map fst log) (weave (map fst log) vs)).
Proof.
  induction log as [|[j r] log IH]; intros o vs Hv; [done|]. pose proof (Hv j) as Hj. rewrite served_of_cons, Z.eqb_refl in Hj.
  cbn [run_view] in Hj. apply bind_Ret_inv in Hj as ([[st out] v] & Ea & Hj). apply bind_Ret_inv in Hj as (vs1 & Er & Hj). injection Hj as Hj.
  cbn [joint_view map fst weave]. rewrite Ea, bind_ret, <- Hj. rewrite (IH (update o j st) (update vs j vs1)), bind_ret; [done|].
  intros i. unfold update. specialize (Hv i). rewrite served_of_cons in Hv. destruct (Z.eqb_spec i j) as [->|Hne]; [exact Er|].
  by rewrite (proj2 (Z.eqb_neq j i)) in Hv by congruence.
Qed.

(** Two sequences of accesses to several ORAMs make the same OCALLs in the same
    order, access by access, up to a bijection of the numbers they draw, and no
    access fails. *)
Definition hidden_together (o : Z -> oram) (log log' : list (Z * request)) : Prop :=
  exists there back, forall ds, draws (length log) ds ->
    draws (length log) (there ds) /\ draws (length log) (back ds) /\ back (there ds) = ds /\ there (back ds) = ds /\
    exists v, joint_view o (zip_with log_draw log ds) = Ret v /\ joint_view o (zip_with log_draw log' (there ds)) = Ret v.

(** Bijections that hide the accesses in every ORAM. *)
Definition hide_each (o : Z -> oram) (log log' : list (Z * request)) (there back : Z -> list Z -> list Z) : Prop :=
  forall i ds, let n := length (served_of i log) in draws n ds ->
    draws n (there i ds) /\ draws n (back i ds) /\ back i (there i ds) = ds /\ there i (back i ds) = ds /\
    exists v, view i (o i) (zip_with with_draw (served_of i log) ds) = Ret v /\
      view i (o i) (zip_with with_draw (served_of i log') (there i ds)) = Ret v.

Lemma each_hidden_together o log log' there back : map fst log' = map fst log -> hide_each o log log' there back -> hidden_together o log log'.
Proof.
  intros Ho Hh. set (order := map fst log) in *. assert (Hlo : length order = length log) by apply length_map.
  assert (Hlen : length log' = length log) by (rewrite <- Hlo, <- (length_map fst log'); by f_equal).
  unfold hide_each in Hh. cbv zeta in Hh. assert (Hn : forall i, length (served_of i log) = count order i) by apply counted_served.
  exists (woven order there), (woven order back). unfold hidden_together in *. rewrite <- Hlo. intros ds Hds.
  assert (H1 := fun i => Hh i (part order ds i) (eq_rect_r (fun n => draws n (part order ds i)) (part_draws order ds i Hds) (Hn i))).
  assert (Ht : forall i, draws (count order i) (there i (part order ds i))) by (intros i; rewrite <- Hn; apply H1).
  assert (Hb : forall i, draws (count order i) (back i (part order ds i))) by (intros i; rewrite <- Hn; apply H1).
  split; [by apply woven_draws|]. split; [by apply woven_draws|].
  split; [apply woven_inverse; try done; intros i; apply H1|]. split; [apply woven_inverse; try done; intros i; apply H1|].
  destruct Hds as [El _]. destruct (woven_draws order there ds Ht) as [El' _].
  pose (vs := fun i => match view i (o i) (zip_with with_draw (served_of i log) (part order ds i)) with Ret v => v | _ => [] end).
  assert (Hv : forall i, view i (o i) (zip_with with_draw (served_of i log) (part order ds i)) = Ret (vs i) /\
    view i (o i) (zip_with with_draw (served_of i log') (there i (part order ds i))) = Ret (vs i)).
  { intros i. destruct (H1 i) as (_ & _ & _ & _ & v & E & E'). unfold vs. by rewrite E. }
  exists (zip order (weave order vs)). split.
  - rewrite (joint_view_weave _ o vs); [by rewrite log_draw_order by congruence|]. intros i. rewrite served_draw by congruence. apply Hv.
  - rewrite (joint_view_weave _ o vs); [by rewrite log_draw_order, Ho by congruence|]. intros i. rewrite served_draw, Ho by congruence.
    rewrite part_woven by done. apply Hv.
Qed.

(** Two ORAMs. *)
Lemma pair_hidden_together o log log' : map fst log' = map fst log -> Forall (fun i => i = 0 \/ i = 1) (map fst log) ->
  (forall i, i = 0 \/ i = 1 -> hidden (aes_key i) (uninit i) (beyond i) (P i) (o i) (served_of i log) (served_of i log')) ->
  hidden_together o log log'.
Proof.
  intros Ho Hall Hh. destruct (Hh 0 (or_introl eq_refl)) as (t0 & b0 & H0'). destruct (Hh 1 (or_intror eq_refl)) as (t1 & b1 & H1').
  apply (each_hidden_together o log log' (fun i => if i =? 0 then t0 else if i =? 1 then t1 else id) (fun i => if i =? 0 then b0 else if i =? 1 then b1 else id) Ho).
  intros i ds n D. destruct (Z.eqb_spec i 0) as [->|N0]; [by apply H0'|]. destruct (Z.eqb_spec i 1) as [->|N1]; [by apply H1'|].
  assert (Hnone : forall l, map fst l = map fst log -> served_of i l = []).
  { intros l El. rewrite <- El in Hall. clear -Hall N0 N1. induction l as [|[j rq] l IH]; [done|]. apply Forall_cons in Hall as [Hj Hall].
    rewrite served_of_cons, (proj2 (Z.eqb_neq j i)) by (cbn in Hj; lia). auto. }
  unfold n in *. rewrite (Hnone log eq_refl), (Hnone log' Ho) in *. split_and!; try done. by exists [].
Qed.

End Joint.
