(* ===== verification/OramPrivacy.v ===== *)
(** * What the storage learns from the oblivious querier

    The set-up and the searches of the querier make the accesses that
    OramQuerierFacts.v lists: consecutive blocks are written once, in order, and
    then only blocks that were written are read.  So OramOblivious.v applies to
    both ORAMs, and OramJoint.v to the two of them together: two shards that
    fill the same number of blocks and two sequences of searches that read,
    search by search, the same number of blocks of the index and of the digests
    look the same to the storage, whatever the documents, the words and the
    results are.  The numbers of blocks are not hidden: how many blocks of the
    index a search reads depends on its words, and how many digests it reads is
    the number of results on its page. *)

From Stdlib Require Import String.
From stdpp Require Import fin_maps relations.
From S2P Require Import Prelude Json JsonFacts Codec Vlb Tokenizer TokenizerFacts Crypto Witness Crawler Indexer Shard Querier.
From S2P Require Import Oram OramEvict OramFacts OramAccess OramTrace OramOblivious OramQuerier OramQuerierFacts OramApp OramJoint.

Import Json Sphinx Vlb.

Local Open Scope Z_scope.

(** A call as a request whose number is still to be drawn, and the requests
    that are made with the numbers of the random source. *)
Definition request_of (c : call) : request := mk_request (c_id c) (c_op c) 0 (c_in c) (c_out c).

Lemma numbered_draws rand inst calls : forall k,
  numbered rand inst k calls = zip_with with_draw (map request_of calls) (map (rand inst) (seq k (length calls))).
Proof. induction calls as [|c calls IH]; intros k; [done|]. cbn [numbered length seq map zip_with]. by rewrite IH. Qed.

(** ** The blocks that are written and read *)

Lemma write_calls_ids datas : forall j : nat, ids_of (map request_of (write_calls (Z.of_nat j) datas)) = seq j (length datas).
Proof.
  induction datas as [|d datas IH]; intros j; [done|]. cbn [write_calls map ids_of length seq request_of rq_id c_id]. rewrite Nat2Z.id.
  replace (Z.of_nat j + 1) with (Z.of_nat (S j)) by lia. f_equal. apply IH.
Qed.

(** A call for one of the first [k] blocks with buffers of the right size. *)
Definition within (k : nat) (c : call) : Prop :=
  0 <= c_id c < Z.of_nat k /\ length (c_in c) = 512%nat /\ length (c_out c) = 512%nat.

Lemma write_calls_within datas k : Forall (fun d => length d = 512%nat) datas -> forall j, 0 <= j -> j + Z.of_nat (length datas) <= Z.of_nat k ->
  Forall (within k) (write_calls j datas).
Proof.
  induction 1 as [|d datas Hd _ IH]; intros j Hj Hk; [constructor|]. cbn [length] in Hk. constructor; [|apply IH; lia].
  split; [cbn; lia|]. split; [done|]. apply length_replicate.
Qed.

Lemma read_calls_within behind n k : forall j, 0 <= j -> j + Z.of_nat n <= Z.of_nat k -> Forall (within k) (read_calls behind j n).
Proof.
  induction n as [|n IH]; intros j Hj Hk; [constructor|]. constructor; [|apply IH; lia].
  split; [cbn; lia|]. cbn [c_in c_out]. unfold zeros. rewrite length_replicate, length_map, length_seq. done.
Qed.

Lemma within_sized P k calls : data_size P = 512%nat -> Z.of_nat k <= gN P -> Forall (within k) calls ->
  forallb (well_sized P) (map request_of calls) = true /\ Forall (fun id => id < k)%nat (ids_of (map request_of calls)).
Proof.
  intros HP Hk. induction 1 as [|c calls (Hid & Hin & Hout) _ [IH1 IH2]]; [by split|]. cbn [map ids_of forallb]. rewrite IH1, andb_true_r.
  split; [|constructor; [cbn; lia|exact IH2]]. unfold well_sized, request_of. cbn [rq_id rq_in rq_out].
  rewrite Hin, Hout, HP, !andb_true_iff, Z.leb_le, Z.ltb_lt, Nat.eqb_eq. lia.
Qed.

(** Loading [datas] and reading what is loaded is hidden among all that do. *)
Lemma calls_hidden `{Crypto} `{AesLaws} aes_key uninit beyond P ls junk junk_hashes datas datas' reads reads' o :
  (forall n, length (uninit n) = NONCE_LENGTH) -> config_ok P -> (0 < Zb P)%nat -> good_block P junk -> data_size P = 512%nat ->
  Create aes_key P ls junk junk_hashes = Ret o -> length datas = length datas' -> Z.of_nat (length datas) <= gN P ->
  Forall (fun d => length d = 512%nat) datas -> Forall (fun d => length d = 512%nat) datas' ->
  Forall (within (length datas)) reads -> Forall (within (length datas)) reads' -> length reads = length reads' ->
  hidden aes_key uninit beyond P o (map request_of (write_calls 0 datas ++ reads)) (map request_of (write_calls 0 datas' ++ reads')).
Proof.
  intros Hu Hc HZ Hj HP E Hlen Hg Hd Hd' Hr Hr' Hl. set (k := length datas) in *.
  destruct (Create_spec aes_key P Hc ls junk junk_hashes HZ Hj) as (st & E' & I & _). rewrite E in E'. injection E' as <-. apply inv_shape in I.
  assert (A : Forall (within k) (write_calls 0 datas)) by (apply write_calls_within; [done|lia|unfold k; lia]).
  assert (A' : Forall (within k) (write_calls 0 datas')) by (apply write_calls_within; [done|lia|unfold k; lia]).
  destruct (within_sized P k _ HP Hg A) as [W _]. destruct (within_sized P k _ HP Hg A') as [W' _].
  destruct (within_sized P k _ HP Hg Hr) as [R F]. destruct (within_sized P k _ HP Hg Hr') as [R' F'].
  rewrite !map_app. apply (loaded_hidden aes_key uninit beyond P o k); try done.
  - by rewrite forallb_app, W, R.
  - by rewrite forallb_app, W', R'.
  - apply (write_calls_ids datas 0).
  - rewrite Hlen. apply (write_calls_ids datas' 0).
  - by rewrite !length_map.
Qed.

(** ** The querier *)

Section Privacy.
Context (behind : nat -> nat -> ascii) (stop : list Z) (docs : list document) (offs lens : gmap Z Z) (temp : str).
Hypothesis docs_small : 1 + Z.of_nat (length docs) <= 2 ^ 31.
Hypothesis laid_out : forall w, match hits stop [w] 1 (map snd docs) with
  | [] => lens !! w = None
  | l => placed offs lens temp w (Load_VLB l new_VLB)
  end.

Definition digest_count : nat := (length docs / 2 + 1)%nat.
Definition index_count : nat := (length temp / 512 + 1)%nat.

Lemma search_digests_within s : Forall (within digest_count) (search_digests stop docs s).
Proof.
  unfold search_digests, page_docs, page_of. apply Forall_fmap. unfold compose.
  destruct (hits_sorted stop (last2 (s_words s)) (map snd docs) 1) as [_ Hr]. rewrite length_map in Hr.
  eapply Forall_impl; [apply Forall_take, Forall_drop, Hr|]. intros d Hd. cbn beta in Hd. split; [|by split].
  unfold digest_read, digest_count. cbn [c_id]. unfold u32. rewrite Z.mod_small by lia. rewrite Nat2Z.inj_add, Nat2Z.inj_div. change (Z.of_nat 2) with 2.
  Z.to_euclidean_division_equations. lia.
Qed.

Lemma search_index_within n s : Forall (within index_count) (search_index behind offs lens n s).
Proof.
  unfold search_index. apply Forall_concat, Forall_fmap, Forall_true. intros w. unfold compose, word_reads. specialize (laid_out w).
  destruct (hits stop [w] 1 (map snd docs)) as [|d l]; [rewrite laid_out; constructor|].
  destruct (placed_within docs offs lens temp w _ laid_out) as (o & -> & -> & Hin & _). cbn [default from_option id].
  destruct (_ =? 0); [constructor|]. unfold index_count. apply read_calls_within; [apply Z.div_pos; lia|].
  set (m := length _) in *. rewrite Nat2Z.inj_add, Nat2Z.inj_div. change (Z.of_nat 512) with 512.
  Z.to_euclidean_division_equations. lia.
Qed.

End Privacy.

(** A shard as it is loaded by a set-up, and searches in it. *)
Record session := mk_session {
  ss_stop : list Z;
  ss_docs : list document;
  ss_blob : str;
  ss_index : gmap Z (list Z);
  ss_total : Z;
  ss_offs : gmap Z Z;
  ss_lens : gmap Z Z;
  ss_temp : str;
  ss_searches : list search
}.

Section Sessions.
Context `{Crypto} `{AesLaws}.
Context (aes_key : nat -> Z -> str) (uninit : nat -> Z -> nat -> str) (beyond : nat -> Z -> str).
Context (junk : nat -> Z -> Block) (junk_hashes : nat -> Z -> list str).
Context (behind : nat -> nat -> ascii) (cur : cursor) (iterate : forall A, gmap Z A -> list (Z * A)).
Context (a : app).

(** The enclave that is launched for the set-up. *)
Definition launch : nat := S (launches a).

Definition params_of (inst : Z) : params := if inst =? 0 then digest_params else index_params.

(** What instance [inst] is asked for: the blocks of the shard, in order, and
    then what the searches read. *)
Definition session_loads (s : session) (inst : Z) : list call :=
  if inst =? 0 then digest_calls (behind launch) (ss_docs s) else if inst =? 1 then index_calls (behind launch) (ss_temp s) else [].
Definition session_reads (s : session) (inst : Z) : list call :=
  if inst =? 0 then concat (map (search_digests (ss_stop s) (ss_docs s)) (ss_searches s))
  else if inst =? 1 then concat (map (search_index behind (ss_offs s) (ss_lens s) launch) (ss_searches s)) else [].
Definition session_calls (s : session) (inst : Z) : list request := map request_of (session_loads s inst ++ session_reads s inst).

(** The instances in the order in which they are accessed: the set-up writes the
    digests and then the index, a search reads the index and then the digests. *)
Definition session_order (s : session) : list Z :=
  setup_order (behind launch) (ss_docs s) (ss_temp s) ++
  concat (map (search_order behind (ss_stop s) (ss_docs s) (ss_offs s) (ss_lens s) launch) (ss_searches s)).

(** The numbers of blocks: those of the digests and of the index that are
    loaded, and those of the index and of the digests that each search reads. *)
Definition session_counts (s : session) : nat * nat * list (nat * nat) :=
  (length (session_loads s 0), length (session_loads s 1),
   map (fun q => (length (search_index behind (ss_offs s) (ss_lens s) launch q), length (search_digests (ss_stop s) (ss_docs s) q))) (ss_searches s)).

(** The order is fixed by these numbers. *)
Lemma counts_order s : session_order s =
  replicate (session_counts s).1.1 0 ++ replicate (session_counts s).1.2 1 ++
  concat (map (fun c => replicate c.1 1 ++ replicate c.2 0) (session_counts s).2).
Proof. unfold session_order, setup_order, session_counts. cbn [fst snd]. rewrite <- app_assoc, map_map. reflexivity. Qed.

Lemma session_counted s : counted (session_order s) (session_calls s).
Proof.
  intros i. unfold session_calls, session_order, setup_order. rewrite length_map, length_app, !count_app, !count_replicate. f_equal.
  - unfold session_loads. destruct (Z.eqb_spec i 0) as [->|N0]; [cbn; lia|]. rewrite (proj2 (Z.eqb_neq 0 i)), (Z.eqb_sym 1 i) by congruence.
    by destruct (i =? 1).
  - unfold session_reads. induction (ss_searches s) as [|q l IH]; [by destruct (i =? 0), (i =? 1)|]. cbn [map concat].
    rewrite count_app, <- IH. unfold search_order. rewrite count_app, !count_replicate, (Z.eqb_sym 0 i), (Z.eqb_sym 1 i).
    destruct (Z.eqb_spec i 0) as [->|N0]; [cbn; rewrite length_app; lia|]. destruct (i =? 1); [rewrite length_app; lia|done].
Qed.

Lemma session_order_two s : Forall (fun i => i = 0 \/ i = 1) (session_order s).
Proof.
  rewrite counts_order. repeat apply Forall_app_2; [apply Forall_replicate; auto..|]. apply Forall_concat, Forall_fmap, Forall_true. intros c.
  apply Forall_app_2; apply Forall_replicate; auto.
Qed.

Lemma counts_equal s s' inst : session_counts s = session_counts s' -> inst = 0 \/ inst = 1 ->
  length (session_loads s inst) = length (session_loads s' inst) /\ length (session_reads s inst) = length (session_reads s' inst).
Proof.
  intros E Hi. assert (Hl : length (session_loads s inst) = length (session_loads s' inst)) by (injection E as E0 E1 _; by destruct Hi as [-> | ->]).
  split; [exact Hl|]. pose proof (session_counted s inst) as C. pose proof (session_counted s' inst) as C'.
  rewrite counts_order in C, C'. unfold session_calls in C, C'. rewrite E, length_map, length_app in C. rewrite length_map, length_app in C'. lia.
Qed.

(** A shard that fits, with searches during which no stash fills up: the
    conditions under which searches are answered as they should be. *)
Record session_ok (rand : nat -> Z -> nat -> Z) (s : session) : Prop := mk_session_ok {
  so_shard : shard (ss_stop s) (ss_docs s) (ss_blob s);
  so_digests : Forall (fun d => length (fst d) <= 256)%nat (ss_docs s);
  so_index : is_index (ss_stop s) (map snd (ss_docs s)) (ss_index s);
  so_split : Split_binary (ss_blob s) (Z.of_nat (length (ss_blob s))) = Ret (map fst (ss_docs s), ss_index s);
  so_layout : lay_out (iterate _ (foldl zip_entry ∅ (iterate _ (ss_index s)))) 0 ∅ ∅ [] = Ret (ss_total s, ss_offs s, ss_lens s, ss_temp s);
  so_digests_fit : Z.of_nat (length (ss_docs s)) / 2 < DIGEST_BLOCK_NUM;
  so_index_fits : ss_total s / 512 < INDEX_BLOCK_NUM;
  so_searches : Forall search_ok (ss_searches s);
  so_fits inst : inst = 0 \/ inst = 1 -> launch_fits aes_key uninit beyond junk junk_hashes rand launch (ls_CORAM a) inst (params_of inst)
    (session_loads s inst ++ session_reads s inst)
}.

(** A run of the session: the set-up in a new enclave, the searches, and the
    enclave afterwards. *)
Definition session_run (rand : nat -> Z -> nat -> Z) (s : session) (cap : Z) (e : oq_state) : Prop :=
  exists a1 a2 responses,
    restart_and_setup aes_key uninit beyond junk junk_hashes rand behind iterate (true, true, true) a (ss_blob s) = Ret a1 /\
    app_queries aes_key uninit beyond rand behind (cur, false) a1 (map search_text (ss_searches s)) cap = Ret (a2, responses) /\
    e2_enclave a2 = Some e.

Hypothesis uninit_length : forall n i k, length (uninit n i k) = NONCE_LENGTH.
Hypothesis iterate_all : forall A (m : gmap Z A), iterate A m ≡ₚ map_to_list m.
Hypothesis junk_digest : forall n, good_block digest_params (junk n 0).
Hypothesis junk_index : forall n, good_block index_params (junk n 1).
Hypothesis storage : registered a.

Lemma session_served rand s cap : session_ok rand s ->
  exists e, session_run rand s cap e /\
    oq_served e = zip_with log_draw (zip (session_order s) (weave (session_order s) (session_calls s))) (drawn (rand launch) (session_order s)).
Proof.
  intros [S1 S2 S3 S4 S5 S6 S7 S8 S9].
  destruct (setup_then_search aes_key uninit beyond junk junk_hashes rand behind cur iterate uninit_length iterate_all junk_digest junk_index a
    (mk_querier [] ∅ (mk_ctx [] [] [] [] 0)) _ _ _ _ _ _ _ _ _ cap storage S1 S2 S3 S4 S5 S6 S7 S8 (S9 0 (or_introl eq_refl)) (S9 1 (or_intror eq_refl)))
    as (_ & _ & a1 & a2 & responses & _ & _ & E3 & E4 & e & Ea & Ho & Hd & Hi).
  exists e. split; [by exists a1, a2, responses|]. pose proof (session_counted s) as C. apply (log_drawn (rand launch)); [exact Ho|exact C|].
  intros i. destruct (Z.eqb_spec i 0) as [->|N0]; [|destruct (Z.eqb_spec i 1) as [->|N1]].
  - unfold session_calls. rewrite length_map, <- numbered_draws. exact Hd.
  - unfold session_calls. rewrite length_map, <- numbered_draws. exact Hi.
  - assert (En : session_calls s i = []).
    { unfold session_calls, session_loads, session_reads. by rewrite (proj2 (Z.eqb_neq i 0) N0), (proj2 (Z.eqb_neq i 1) N1). }
    rewrite En. apply nil_length_inv. rewrite counted_served, Ho. fold launch. fold (session_order s). by rewrite <- (C i), En.
Qed.

(** The loads write consecutive blocks and the searches read some of them. *)
Lemma session_blocks rand s inst : session_ok rand s -> inst = 0 \/ inst = 1 ->
  exists datas, session_loads s inst = write_calls 0 datas /\ Forall (fun d => length d = 512%nat) datas /\
    Z.of_nat (length datas) <= gN (params_of inst) /\ Forall (within (length datas)) (session_reads s inst).
Proof.
  intros [(_ & Hsmall & _) _ S3 _ S5 S6 S7 _ _] [-> | ->]; unfold session_loads, session_reads; cbn [Z.eqb].
  - destruct (digest_blocks_spec (behind launch) (length (map fst (ss_docs s))) (map fst (ss_docs s)) ltac:(lia) (zeros 512) eq_refl) as (B1 & B2 & _).
    eexists. split; [reflexivity|]. split; [exact B2|]. rewrite B1, length_map. split.
    + change (gN (params_of 0)) with DIGEST_BLOCK_NUM. rewrite Nat2Z.inj_add, Nat2Z.inj_div. change (Z.of_nat 2) with 2. lia.
    + apply Forall_concat, Forall_fmap, Forall_true. intros q. by apply search_digests_within.
  - destruct (layout_found iterate iterate_all _ _ _ _ _ _ _ S3 S5) as [Etot Hfound]. rewrite Etot in S7.
    eexists. split; [reflexivity|]. split; [apply blocks_from_sized|]. rewrite length_blocks_from.
    assert (En : (Z.to_nat (Z.of_nat (length (ss_temp s)) / 512) + 1)%nat = index_count (ss_temp s)).
    { unfold index_count. change 512 with (Z.of_nat 512). by rewrite <- Nat2Z.inj_div, Nat2Z.id. }
    rewrite En. split.
    + change (gN (params_of 1)) with INDEX_BLOCK_NUM. unfold index_count. rewrite Nat2Z.inj_add, Nat2Z.inj_div. change (Z.of_nat 512) with 512. lia.
    + apply Forall_concat, Forall_fmap, Forall_true. intros q. by apply (search_index_within behind (ss_stop s) (ss_docs s)).
Qed.

Lemma params_of_ok inst : inst = 0 \/ inst = 1 ->
  config_ok (params_of inst) /\ (0 < Zb (params_of inst))%nat /\ data_size (params_of inst) = 512%nat /\ good_block (params_of inst) (junk launch inst) /\
  is_Some (ls_CORAM a !! inst).
Proof.
  destruct storage as [R0 R1]. intros [-> | ->]; unfold params_of; cbn [Z.eqb].
  - split; [apply digest_config|]. split; [cbn; lia|]. by split.
  - split; [apply index_config|]. split; [cbn; lia|]. by split.
Qed.

Lemma session_hidden rand rand' s s' inst : session_ok rand s -> session_ok rand' s' -> inst = 0 \/ inst = 1 ->
  length (session_loads s inst) = length (session_loads s' inst) -> length (session_reads s inst) = length (session_reads s' inst) ->
  exists ls o, ls_CORAM a !! inst = Some ls /\ Create (aes_key launch inst) (params_of inst) ls (junk launch inst) (junk_hashes launch inst) = Ret o /\
    hidden (aes_key launch inst) (uninit launch inst) (beyond launch inst) (params_of inst) o (session_calls s inst) (session_calls s' inst).
Proof.
  intros Hs Hs' Hi Hl Hr. destruct (params_of_ok inst Hi) as (Hc & HZ & Hsz & Hj & ls & Els).
  destruct (session_blocks rand s inst Hs Hi) as (datas & E & Hd & Hg & Hw). destruct (session_blocks rand' s' inst Hs' Hi) as (datas' & E' & Hd' & _ & Hw').
  unfold session_calls. rewrite E, E', !length_write_calls in *. rewrite <- Hl in Hw'.
  destruct (Create_spec (aes_key launch inst) (params_of inst) Hc ls (junk launch inst) (junk_hashes launch inst) HZ Hj) as (o & Eo & _).
  exists ls, o. split; [done|]. split; [done|]. by apply (calls_hidden _ _ _ _ ls (junk launch inst) (junk_hashes launch inst)).
Qed.

End Sessions.

(** ** Property *)


(** Two sessions in the second enclave of a process: shards of one document,
    with different digests and words, and the first two pages for each word. *)
Definition sample_java : Z := sphCRC32 (L "java").
Definition sample_session (g : string) (w : Z) (pages : list Z) : session :=
  mk_session [] [sample_doc g w] (sample_blob g w) {[ w := [1] ]} 17 {[ w := 0 ]} {[ w := 17 ]} (marshall_VLB_to_buffer (Load_VLB [1] new_VLB))
    (map (fun page => mk_search (L g) page (L "xx") [w]) pages).

Local Notation sample_ok rand s := (@session_ok toy_crypto toy_aes (fun _ _ => []) (fun _ _ => sample_nonce) (fun _ _ => []) sample_block
  (fun _ _ => []) (fun _ _ => NUL) sample_iterate sample_app rand s).

Lemma sample_session_rust : sample_ok (fun _ _ _ => 5) (sample_session "rust" sample_rust [1; 2]).
Proof.
  split.
  - apply sample_shard; [by apply digest_ok_check|split; [vm_compute; done|reflexivity]|by vm_compute].
  - constructor; [cbn; lia|constructor].
  - apply sample_index.
  - exact sample_split.
  - exact sample_layout.
  - reflexivity.
  - reflexivity.
  - constructor; [|constructor; [|constructor]]; apply sample_search_ok; unfold is_i32; lia.
  - intros inst [-> | ->]; [exact sample_digests_fit|exact sample_index_fit].
Qed.

Lemma sample_java_search page : 1 <= page -> is_i32 ((page - 1) * 10) -> search_ok (mk_search (L "java") page (L "xx") [sample_java]).
Proof.
  intros H1 H2. unfold search_ok. cbn [s_kw s_page s_pad s_words]. split; [by repeat constructor|]. split; [by repeat constructor|].
  split; [|done]. rewrite CreateTokenizer_eq. unfold query_words, wordIDs. rewrite tokens_plain_eq by repeat constructor. reflexivity.
Qed.

Lemma sample_session_java : sample_ok (fun _ _ _ => 6) (sample_session "java" sample_java [1; 2]).
Proof.
  split.
  - apply sample_shard; [by apply digest_ok_check|split; [vm_compute; done|reflexivity]|by vm_compute].
  - constructor; [cbn; lia|constructor].
  - apply sample_index.
  - vm_compute. reflexivity.
  - vm_compute. reflexivity.
  - reflexivity.
  - reflexivity.
  - constructor; [|constructor; [|constructor]]; apply sample_java_search; unfold is_i32; lia.
  - intros inst [-> | ->]; apply (@short_fits toy_crypto toy_aes toy_aes_laws);
      [intros; reflexivity|apply digest_config || apply index_config|cbn; lia|by apply sample_good|vm_compute; reflexivity|vm_compute; reflexivity| |
       intros; reflexivity|apply digest_config || apply index_config|cbn; lia|by apply sample_good|vm_compute; reflexivity|vm_compute; reflexivity|];
      apply Nat.leb_le; vm_compute; reflexivity.
Qed.

