(* ===== verification/Client.v ===== *)
(** * The web client

    src/client/web_server.cpp: the local server behind the search page.  It
    sends a query to one live querier per shard, shows the answer of one of
    them, and hands the inputs named by all their witnesses to the auditor.

    Parameters: [net], the bytes a querier at an address sends back for a
    request (a client that cannot connect exits); [shuffle], the library's
    shuffle; [ii0], the uninitialised integer of [url_decode]; those of the
    auditor. *)

From Stdlib Require Import String.
From stdpp Require Import fin_maps.
From S2P Require Import Prelude Json JsonFacts Codec Tokenizer TokenizerFacts Crypto Witness Kanban Crawler Indexer Shard Querier Executors.
From S2P Require Import Manager System Rounds Auditor.

Import Json Sphinx.

Local Open Scope Z_scope.

(** ** The request line *)

(** [sscanf(s, "%x", &ii)]: no number leaves [ii] as it was. *)
Definition sscanf_x (s : str) (ii : Z) : Z :=
  match scan_long 16 (c_str s) with Some v => i32 v | None => ii end.

(** The loop of [url_decode]; it jumps over the two characters after a percent
    sign, also when there are fewer. *)
Fixpoint decode_loop (fuel : nat) (s : str) (ii : Z) : str :=
  match fuel, s with
  | S fuel, c :: s =>
    if b2z c =? 37 then
      let ii := sscanf_x (take 2 s) ii in
      z2b ii :: decode_loop fuel (drop 2 s) ii
    else (if b2z c =? 43 then z2b 32 else c) :: decode_loop fuel s ii
  | _, _ => []
  end.

Definition url_decode (ii0 : Z) (s : str) : str := decode_loop (length s) s ii0.

(** [std::string::find]. *)
Fixpoint find_str (pat s : str) : option nat :=
  if bool_decide (take (length pat) s = pat) then Some 0%nat
  else match s with [] => None | _ :: s => option_map S (find_str pat s) end.

(** [s.substr(pos)] and [s.substr(pos, n)], where [None] is [npos]. *)
Definition substr_from (s : str) (pos : option nat) : outcome str :=
  match pos with Some p => substr s p (length s) | None => Throw out_of_range end.

Definition substr_npos (s : str) (pos n : option nat) : outcome str :=
  match pos with Some p => substr s p (match n with Some n => n | None => length s end) | None => Throw out_of_range end.

(** The keywords and the page text of a decoded path. *)
Definition split_request (REQUEST : str) : outcome (str * str) :=
  let pos1 := find_str (L "/query/") REQUEST in
  let pos2 := find_str (L "/page/") REQUEST in
  a ← substr_npos REQUEST pos1 pos2;
  q_keywords ← substr_from a (Some 7%nat);
  b ← substr_from REQUEST pos2;
  q_page ← substr_from b (Some 6%nat);
  Ret (q_keywords, q_page).

(** [ceil(double(page) / INDEX_POOL_MAX)], exact for an [int]. *)
Definition real_page (page : Z) : Z := - ((- page) / INDEX_POOL_MAX).

(** The text for a querier; [size()] of an object counts its entries. *)
Definition pad_request (real_query : JSON) : outcome str :=
  let n := 512 - jsize real_query in
  if n <? 0 then Throw length_error else Ret (dump 1 real_query ++ replicate (Z.to_nat n) (z2b 120)).

(** ** Searching *)

(** The statics of the file. *)
Record client_state := mk_client { witness_in_list : list str; v_response : list str }.

Section Client.
Context `{Crypto} (net : str -> Z -> str -> str) (shuffle : list str -> list str) (ii0 : Z).

(** The answer is received into a buffer of [BUFFER_SIZE] bytes and a zero is
    written after it. *)
Definition send_request (SERVER_ADDR : str) (SERVER_PORT : Z) (request : str) : outcome str :=
  let received := net SERVER_ADDR SERVER_PORT request in
  if Z.of_nat (length received) <? BUFFER_SIZE then Ret (c_str received) else Undef.

Definition extract_witness (witness : str) (st : client_state) : outcome client_state :=
  j ← Load witness;
  let l := witness_in_list st ++ in_list j in
  if decide (l = []) then Undef else Ret (mk_client (take (length l - 1) l) (v_response st)).

Definition extract_response (response : str) (st : client_state) : client_state :=
  mk_client (witness_in_list st) (v_response st ++ [response]).

(** One node of the list. *)
Definition ask_node (REQUEST : str) (st : client_state) (node : str) : outcome client_state :=
  j ← Load node;
  addr ← trim_string (dump 1 (at_key j (L "addr")));
  port ← stoi (dump 1 (at_key j (L "port")));
  RESPONSE ← send_request (c_str addr) port REQUEST;
  r ← Load RESPONSE;
  st ← extract_witness (dump 1 (at_key r (L "witness"))) st;
  Ret (extract_response (dump 1 (at_key r (L "response"))) st).

(** The node whose answer is shown. *)
Definition show_position (page : Z) : Z :=
  if Z.rem page INDEX_POOL_MAX =? 0 then INDEX_POOL_MAX else Z.rem page INDEX_POOL_MAX.

Definition go_search (st : client_state) (REQUEST : str) : prog (client_state * str) :=
  parts ← pure (split_request (url_decode ii0 REQUEST));
  let '(q_keywords, q_page) := parts in
  let page := i32 (strtol 10 q_page) in
  let q_real_page := real_page page in
  let real_query := set_key (set_key Null (L "keywords") (Str q_keywords)) (L "page") (Str (to_string q_real_page)) in
  REQUEST ← pure (pad_request real_query);
  let st := mk_client [] (v_response st) in
  epoch ← get_epoch;
  local_list ← get_live_querier shuffle epoch;
  st ← pure (foldM (ask_node REQUEST) local_list st);
  let pos := show_position page in
  RESPONSE ← pure (if pos - 1 <? 0 then Undef else deref (v_response st !! Z.to_nat (pos - 1)));
  PRet (mk_client (witness_in_list st) [], RESPONSE).

(** ** Verifying *)

Context (sort : list str -> list str) (iter : gmap str str -> list (str * str)).

Definition verify_needs (l : list str) : JSON :=
  foldl (fun verify_in i => set_key verify_in (L "IN") (append (at_key verify_in (L "IN")) (Str i)))
    (set_key Null (L "IN") (Array [])) l.

Definition results_of (tmp : str) : str := dump 1 (set_key Null (L "results") (Str tmp)).

Definition go_verify (fuel : nat) (vs : verify_state) (st : client_state) (RESPONSE : str) : prog (verify_state * str) :=
  if decide (witness_in_list st = []) then PRet (vs, RESPONSE)
  else
    r ← do_local_verify sort iter fuel vs (dump 1 (verify_needs (witness_in_list st))) (L "Please search first!");
    PRet (fst r, results_of (snd r)).

(** The handler of GET /verify/. *)
Definition get_verify (fuel : nat) (vs : verify_state) (st : client_state) : prog (verify_state * str) :=
  go_verify fuel vs st (results_of (L "Please search first!")).

End Client.
