(* ===== verification/ClientFacts.v ===== *)
(** * The web client: theorems

    The request line, what is asked of the queriers, what is shown and what is
    verified. *)

From Stdlib Require Import String.
From stdpp Require Import fin_maps.
From S2P Require Import Prelude Json JsonFacts Codec Tokenizer TokenizerFacts Crypto Witness Kanban Crawler Indexer Shard Querier Executors.
From S2P Require Import Pipeline Manager System Rounds Auditor Client.

Import Json Sphinx.

Local Open Scope Z_scope.

(** ** Percent encoding *)

(** What a browser sends: the characters of [keep] as they are, the others as
    a percent sign and two hexadecimal digits. *)
Definition percent_encode (keep : ascii -> bool) (s : str) : str :=
  concat (map (fun c => if keep c then [c] else z2b 37 :: print_02x c) s).

Lemma sscanf_02x c ii : sscanf_x (print_02x c) ii = b2z c.
Proof. destruct c as [[] [] [] [] [] [] [] []]; vm_compute; reflexivity. Qed.

Lemma decode_percent c s fuel ii : exists ii',
  decode_loop (S fuel) (z2b 37 :: print_02x c ++ s) ii = c :: decode_loop fuel s ii'.
Proof.
  exists (b2z c). cbn [decode_loop]. change (b2z (z2b 37) =? 37) with true. cbv iota.
  change (take 2 (print_02x c ++ s)) with (print_02x c). change (drop 2 (print_02x c ++ s)) with s.
  by rewrite sscanf_02x, z2b_b2z.
Qed.

Lemma url_decode_encode keep s : (forall c, keep c = true -> b2z c <> 37 /\ b2z c <> 43) -> forall fuel ii,
  (length (percent_encode keep s) <= fuel)%nat -> decode_loop fuel (percent_encode keep s) ii = s.
Proof.
  intros Hk. induction s as [|c s IH]; intros fuel ii Hf; [by destruct fuel|].
  unfold percent_encode in *. cbn [map concat] in *. destruct (keep c) eqn:E.
  - destruct (Hk c E) as [E1 E2]. cbn [app length] in *. destruct fuel as [|fuel]; [lia|]. cbn [decode_loop].
    rewrite (proj2 (Z.eqb_neq _ _) E1), (proj2 (Z.eqb_neq _ _) E2). rewrite IH by lia. done.
  - cbn [app length] in *. destruct fuel as [|fuel]; [lia|].
    change (z2b 37 :: print_02x c ++ concat (map (fun c => if keep c then [c] else z2b 37 :: print_02x c) s)) with
      (z2b 37 :: (print_02x c ++ concat (map (fun c => if keep c then [c] else z2b 37 :: print_02x c) s))).
    destruct (decode_percent c (concat (map (fun c => if keep c then [c] else z2b 37 :: print_02x c) s)) fuel ii) as [ii' ->].
    rewrite IH; [done|]. rewrite length_app in Hf. cbn in Hf. lia.
Qed.

(** ** The parts of the path *)

Lemma find_str_at pat s n : (forall k, (k < n)%nat -> take (length pat) (drop k s) <> pat) ->
  take (length pat) (drop n s) = pat -> (n <= length s)%nat -> find_str pat s = Some n.
Proof.
  revert s. induction n as [|n IH]; intros s Hno Hat Hl.
  - rewrite drop_0 in Hat. destruct s; cbn [find_str]; by rewrite bool_decide_eq_true_2.
  - destruct s as [|c s]; [cbn in Hl; lia|]. cbn [find_str]. rewrite bool_decide_eq_false_2.
    + rewrite (IH s); [done| |done|cbn in Hl; lia]. intros k Hk. exact (Hno (S k) ltac:(lia)).
    + exact (Hno 0%nat ltac:(lia)).
Qed.

Definition slash : ascii := z2b 47.

(** A path with keywords that have no slash, apart from the word "page". *)
Definition search_path (kw page : str) : str := L "/query/" ++ kw ++ L "/page/" ++ page.

Lemma find_query kw page : find_str (L "/query/") (search_path kw page) = Some 0%nat.
Proof. apply find_str_at; [lia|done|lia]. Qed.

Lemma no_slash_head (l rest : str) c : slash ∉ l -> l <> [] -> head (l ++ rest) = Some c -> c <> slash.
Proof. intros Hn Hne E ->. destruct l as [|x l]; [done|]. injection E as ->. apply Hn. left. Qed.

(** No keyword but "page" completes the slash before it to the marker. *)
Lemma marker_in_keyword kw rest : slash ∉ kw -> kw <> L "page" -> take 5 (kw ++ slash :: rest) <> L "page/".
Proof.
  intros Hs Hk E.
  assert (Hin : forall x, x ∈ kw -> x <> slash) by (intros x Hx ->; done).
  destruct kw as [|a [|b [|c [|d [|f kw]]]]]; cbn in E; injection E; intros; subst; try discriminate; try done.
  apply (Hin slash); [|done]. do 4 right. left.
Qed.

Lemma find_page kw page : slash ∉ kw -> kw <> L "page" ->
  find_str (L "/page/") (search_path kw page) = Some (7 + length kw)%nat.
Proof.
  intros Hs Hk. apply find_str_at.
  - change (length (L "/page/")) with 6%nat. intros k Hlt E. unfold search_path in E.
    destruct (decide (k < 6)%nat) as [H6|H6].
    { do 6 (destruct k as [|k]; [discriminate E|]). lia. }
    destruct (decide (k = 6%nat)) as [->|Hne].
    { change (drop 6 (L "/query/" ++ kw ++ L "/page/" ++ page)) with (slash :: kw ++ slash :: L "page/" ++ page) in E.
      cbn [take] in E. injection E as E. by apply marker_in_keyword in E. }
    replace k with (length (L "/query/") + (k - 7))%nat in E by (cbn; lia). rewrite <- drop_drop, drop_app_length in E.
    rewrite drop_app_le in E by lia.
    destruct (drop (k - 7) kw) as [|c l] eqn:Ed; [apply (f_equal length) in Ed; rewrite length_drop in Ed; cbn in Ed; lia|].
    cbn [app take] in E. injection E as E _. apply Hs. apply (list_elem_of_lookup_2 _ (k - 7)%nat).
    rewrite <- (Nat.add_0_r (k - 7)), <- lookup_drop, Ed. cbn. by rewrite E.
  - unfold search_path. change (7 + length kw)%nat with (length (L "/query/") + length kw)%nat.
    rewrite <- drop_drop, drop_app_length, drop_app_length. done.
  - unfold search_path. rewrite !length_app. cbn. lia.
Qed.

Lemma substr_ok s p n : (p <= length s)%nat -> substr s p n = Ret (take n (drop p s)).
Proof. intros Hp. unfold substr. by rewrite decide_True. Qed.

Lemma split_search_path kw page : slash ∉ kw -> kw <> L "page" -> split_request (search_path kw page) = Ret (kw, page).
Proof.
  intros Hs Hk. unfold split_request. rewrite find_query, find_page by done. cbn [substr_npos substr_from].
  assert (Hlen : length (search_path kw page) = (13 + length kw + length page)%nat).
  { unfold search_path. rewrite !length_app. cbn. lia. }
  assert (E1 : take (7 + length kw) (search_path kw page) = L "/query/" ++ kw).
  { unfold search_path. rewrite app_assoc. apply take_app_length'. rewrite length_app. done. }
  assert (E2 : drop (7 + length kw) (search_path kw page) = L "/page/" ++ page).
  { unfold search_path. rewrite app_assoc. apply drop_app_length'. rewrite length_app. done. }
  rewrite (substr_ok _ 0 (7 + length kw)), bind_ret, drop_0, E1 by lia.
  rewrite (substr_ok _ 7), bind_ret by (rewrite length_app; cbn; lia).
  change (drop 7 (L "/query/" ++ kw)) with kw. rewrite take_ge by (rewrite length_app; lia).
  rewrite (substr_ok _ (7 + length kw)), bind_ret, E2, take_ge by (rewrite ?length_app, ?Hlen; cbn; lia).
  rewrite (substr_ok _ 6), bind_ret by (rewrite length_app; cbn; lia). change (drop 6 (L "/page/" ++ page)) with page.
  by rewrite take_ge by (rewrite length_app; lia).
Qed.

(** ** Texts without zeros *)

(** Strings and keys without zeros, and no floating-point numbers. *)
Fixpoint clean (v : JSON) : Prop :=
  match v with
  | Object m => (fix all m := match m with [] => True | p :: m => (no_nul (fst p) /\ clean (snd p)) /\ all m end) m
  | Array l => (fix all l := match l with [] => True | v :: l => clean v /\ all l end) l
  | Str s => no_nul s
  | Floating _ => False
  | _ => True
  end.

Lemma no_nul_app a b : no_nul (a ++ b) <-> no_nul a /\ no_nul b.
Proof. apply Forall_app. Qed.

Lemma join_no_nul sep l : no_nul sep -> Forall no_nul l -> no_nul (join sep l).
Proof.
  intros Hs. induction 1 as [|s l Hs' _ IH]; [constructor|]. cbn [join]. destruct l; [done|]. by rewrite !no_nul_app.
Qed.

Lemma pad_no_nul d : no_nul (pad_of d).
Proof. unfold pad_of, no_nul. induction d as [|d IH]; [constructor|]. by repeat constructor. Qed.

Lemma drop_no_nul n s : no_nul s -> no_nul (drop n s).
Proof. apply Forall_drop. Qed.

Lemma clean_entries m : clean (Object m) -> Forall (fun p => no_nul (fst p) /\ clean (snd p)) m.
Proof. induction m as [|p m IH]; intros H; [constructor|]. destruct H as [Hp H]. constructor; [exact Hp|]. by apply IH. Qed.

Lemma clean_elements l : clean (Array l) -> Forall clean l.
Proof. induction l as [|p l IH]; intros H; [constructor|]. destruct H as [Hp H]. constructor; [exact Hp|]. by apply IH. Qed.

Lemma clean_Array l : Forall clean l -> clean (Array l).
Proof. induction 1; by split. Qed.

Lemma dump_clean v : forall depth, clean v -> no_nul (dump depth v).
Proof.
  induction v as [|m IH|l IH|s|f|z|b] using JSON_ind; intros depth Hc.
  - by repeat constructor.
  - cbn [dump]. pose proof (pad_no_nul depth). rewrite !no_nul_app. apply clean_entries in Hc.
    split_and!; try (by repeat constructor); [|by apply drop_no_nul].
    apply join_no_nul; [by repeat constructor|]. apply Forall_map.
    eapply Forall_impl; [apply Forall_and; split; [exact IH|exact Hc]|]. intros p (Hd & Hk & Hv). cbv beta.
    rewrite !no_nul_app. split_and!; try done; try (by repeat constructor). by apply Hd.
  - cbn [dump]. rewrite !no_nul_app. apply clean_elements in Hc. split_and!; try (by repeat constructor).
    apply join_no_nul; [by repeat constructor|]. apply Forall_map.
    eapply Forall_impl; [apply Forall_and; split; [exact IH|exact Hc]|]. intros p (Hd & Hv). by apply Hd.
  - by apply (dump_str_no_nul s).
  - destruct Hc.
  - apply to_string_no_nul.
  - destruct b; by repeat constructor.
Qed.

(** ** The response of a querier *)

Definition result_entry (i : Z) (s : str) : JSON := Object [(L "answer", Str s); (L "number", Str (to_string (i + 1)))].

Fixpoint result_entries (i : Z) (results : list str) : list JSON :=
  match results with [] => [] | s :: results => result_entry i s :: result_entries (i + 1) results end.

Lemma add_results_eq results : forall i l,
  add_results i results (Object [(L "results", Array l)]) = Object [(L "results", Array (l ++ result_entries i results))].
Proof.
  induction results as [|s results IH]; intros i l; [by rewrite app_nil_r|]. cbn [add_results result_entries].
  change (set_key (set_key Null (L "number") (Str (to_string (i + 1)))) (L "answer") (Str s)) with (result_entry i s).
  change (set_key (Object [(L "results", Array l)]) (L "results") _) with (Object [(L "results", Array (l ++ [result_entry i s]))]).
  by rewrite IH, <- app_assoc.
Qed.

Lemma response_of_eq results : response_of results = Object [(L "results", Array (result_entries 0 (take 10 results)))].
Proof. apply (add_results_eq _ 0 []). Qed.

Lemma wf_entries results : forall i, wf (Array (result_entries i results)).
Proof.
  induction results as [|s results IH]; intros i; [exact I|]. split; [|apply IH].
  split; [by repeat constructor|]. repeat split; by apply plain_key.
Qed.

Lemma clean_results results : Forall no_nul results -> forall i, Forall clean (result_entries i results).
Proof.
  induction 1 as [|s results Hs _ IH]; intros i; [constructor|]. constructor; [|apply IH].
  cbn [result_entry clean fst snd]. repeat split; try done; try (by repeat constructor). apply to_string_no_nul.
Qed.

Lemma wf_response results : wf (response_of results).
Proof.
  rewrite response_of_eq. split; [by repeat constructor|]. split; [|exact I]. split; [by apply plain_key|]. apply wf_entries.
Qed.

Lemma clean_response results : Forall no_nul results -> clean (response_of results).
Proof.
  intros H. rewrite response_of_eq. split; [|exact I]. split; [by repeat constructor|].
  apply clean_Array, clean_results, Forall_take, H.
Qed.

Section Responses.
Context `{Crypto}.

Lemma sha_no_nul m : no_nul (sha256_string m).
Proof. eapply Forall_weaken; [apply print_hex_chars|]. apply hex_not_nul. Qed.

Lemma ToString_sha m : ToString (Str (sha256_string m)) = sha256_string m.
Proof. apply escape_hex, print_hex_chars. Qed.

Lemma wf_witness_record c : wf (witness_record c).
Proof. apply wf_record5; try apply wf_Str. apply wf_strings. Qed.

Lemma full_response_eq blob request results : full_response blob request results =
  Object [(L "response", response_of results);
          (L "witness", witness_record (query_context blob request (response_of results)))].
Proof. reflexivity. Qed.

Lemma wf_full_response blob request results : wf (full_response blob request results).
Proof.
  rewrite full_response_eq. split; [by repeat constructor|].
  split; [|split; [|exact I]]; (split; [by apply plain_key|]); [apply wf_response|apply wf_witness_record].
Qed.

Lemma clean_query_witness blob request results :
  clean (witness_record (query_context blob request (response_of results))).
Proof.
  cbn [witness_record record5 clean fst snd query_context bin ins out tag map]. repeat split; try apply sha_no_nul;
    try (by repeat constructor). eapply Forall_weaken; [apply print_hex_chars|]. apply hex_not_nul.
Qed.

Lemma full_response_no_nul blob request results : Forall no_nul results ->
  no_nul (dump 1 (full_response blob request results)).
Proof.
  intros Hr. apply dump_clean. rewrite full_response_eq.
  split; [|split; [|exact I]]; (split; [by repeat constructor|]); [by apply clean_response|apply clean_query_witness].
Qed.

Lemma query_witness_ins blob request results :
  in_list (witness_record (query_context blob request (response_of results))) = [sha256_string blob; sha256_string request].
Proof.
  change (in_list _) with [ToString (Str (sha256_string blob)); ToString (Str (sha256_string request))].
  by rewrite !ToString_sha.
Qed.

Lemma dump_hex_length d s : Forall (fun c => hex_char c = true) s -> length (dump d (Str s)) = (2 + length s)%nat.
Proof. intros Hs. cbn [dump]. rewrite escape_hex by done. rewrite !length_app. cbn [length]. lia. Qed.

Lemma response_record_length v a b c d e f :
  length (dump 1 (Object [(L "response", v); (L "witness", record5 a (Array [b; c]) d e f)])) =
    (113 + length (dump 2 v) + length (dump 3 a) + length (dump 4 b) + length (dump 4 c) + length (dump 3 d)
     + length (dump 3 e) + length (dump 3 f))%nat.
Proof.
  unfold record5. cbn [dump map join fst snd]. rewrite !length_app.
  cbn [length L String.list_ascii_of_string pad_of replicate concat app drop]. lia.
Qed.

(** The witness makes a response longer by a fixed number of bytes. *)
Lemma full_response_length `{!CryptoLaws} blob request results :
  length (dump 1 (full_response blob request results)) = (524 + length (dump 2 (response_of results)))%nat.
Proof.
  assert (Hs : forall d m, length (dump d (Str (sha256_string m))) = 66%nat).
  { intros d m. destruct (sha256_hex m) as [Hx Hl]. by rewrite dump_hex_length, Hl. }
  assert (Hg : forall d c, length (dump d (Str (signature_of c))) = 130%nat).
  { intros d c. rewrite dump_hex_length by apply print_hex_chars. unfold signature_of, ed25519_sig_to_string, ed25519_sign.
    by rewrite length_print_hex, length_take, sign_length. }
  rewrite full_response_eq. unfold witness_record. cbn [query_context bin ins out tag map].
  rewrite response_record_length, !Hs, Hg. change (length (dump 3 (Str (L "STEEMIT QUERIER")))) with 17%nat. lia.
Qed.

End Responses.

Lemma dummy_no_nul : no_nul dummy.
Proof. apply Forall_replicate. done. Qed.

Lemma answers_no_nul stop docs ws page : Forall no_nul (map fst docs) -> Forall no_nul (answers stop docs ws page).
Proof.
  intros Hd. apply Forall_app. split; [|apply Forall_replicate, dummy_no_nul]. apply Forall_map, Forall_forall.
  intros d _. cbv beta. destruct (nth_in_or_default (Z.to_nat (d - 1)) (map fst docs) []) as [Hi| ->]; [|constructor].
  rewrite Forall_forall in Hd. by apply Hd, list_elem_of_In.
Qed.

(** ** Searching *)

(** A querier process: where it listens and the state of its enclave. *)
Record replica := mk_replica { r_addr : str; r_port : Z; r_state : querier_state }.

Definition replica_text (r : replica) : str := dump 1 (self_addr_info (r_addr r) (r_port r)).

Section Searching.
Context `{CryptoLaws} (net : str -> Z -> str -> str) (shuffle : list str -> list str) (ii0 : Z).

(** A replica of the shard of [docs]: what it answers is what [net] delivers. *)
Definition replica_ok (db : redisDb) (stop : list Z) (docs : list document) (blob : str) (r : replica) : Prop :=
  json_escape (r_addr r) = r_addr r /\ no_nul (r_addr r) /\ is_i32 (r_port r) /\ serves stop docs blob (r_state r) /\
  forall request st' answer, run (serve_request (r_state r) request) db = Ret (st', answer, db) ->
    net (r_addr r) (r_port r) request = answer.

(** Shard number [i] of epoch [z] has replicas, all registered ones are good. *)
Definition shard_live (db : redisDb) (stop : list Z) (z i : Z) (sh : list document * str) : Prop :=
  Forall no_nul (map fst (fst sh)) /\
  exists rs, rs <> [] /\ Forall (replica_ok db stop (fst sh) (snd sh)) rs /\
    db !! shard_key "NODE-#EPOCH" (to_string z) (to_string i) = Some (OBJ_LIST (map replica_text rs)).

(** The request for page [page] of the queriers. *)
Definition client_request (kw : str) (page : Z) : str := dump 1 (search_request kw page) ++ replicate 510 (z2b 120).

Lemma pad_request_eq kw page : pad_request (search_request kw page) = Ret (client_request kw page).
Proof. reflexivity. Qed.

Lemma pad_no_nul_x : no_nul (replicate 510 (z2b 120)).
Proof. apply Forall_replicate. done. Qed.

Lemma replica_answers db stop docs blob r z kw page words :
  replica_ok db stop docs blob r -> at_epoch db z -> is_i32 z -> 3 <= z -> no_nul kw ->
  query_words CreateTokenizer (dump 1 (Str kw)) = Ret words -> words <> [] -> 1 <= page -> is_i32 ((page - 1) * 10) ->
  Forall no_nul (map fst docs) -> let request := client_request kw page in
  let response := dump 1 (full_response blob request (answers stop docs words page)) in
  Z.of_nat (length request) < BUFFER_SIZE -> Z.of_nat (length response) < BUFFER_SIZE ->
  net (r_addr r) (r_port r) request = response.
Proof.
  intros (_ & _ & _ & Hs & Hnet) Hz Hi H3 Hk Hw Hne H1 H2 Hd request response Hlq Hlr.
  destruct (query_client CreateTokenizer stop docs blob (r_state r) kw page (replicate 510 (z2b 120)) words BUFFER_SIZE)
    as (st' & Eq & _); auto using pad_no_nul_x.
  fold (client_request kw page) in Eq. fold request in Eq. fold response in Eq. rewrite visible_all in Eq by done.
  apply (Hnet request st'). unfold serve_request. rewrite (proj2 (Z.ltb_lt _ _) Hlq). unfold do_query.
  rewrite (run_bind_eq _ _ _ _ _ (get_epoch_int_at db z Hz Hi)). rewrite (proj2 (Z.ltb_ge _ _)) by lia.
  rewrite (run_bind_eq _ _ _ _ _ (run_pure_Ret _ _ db Eq)). cbn [run fst snd]. do 2 f_equal.
  rewrite c_str_no_nul; [done|]. by apply full_response_no_nul, answers_no_nul.
Qed.

Lemma wf_addr addr port : is_i32 port -> wf (self_addr_info addr port).
Proof.
  intros Hp. split; [by repeat constructor|]. split; [split; [by apply plain_key|exact I]|].
  split; [|exact I]. split; [by apply plain_key|]. unfold is_i32 in Hp. cbn [wf snd]. lia.
Qed.

(** The client's visit to a replica. *)
Lemma ask_replica r request blob results st :
  json_escape (r_addr r) = r_addr r -> no_nul (r_addr r) -> is_i32 (r_port r) -> Forall no_nul results ->
  let response := dump 1 (full_response blob request results) in
  Z.of_nat (length response) < BUFFER_SIZE -> net (r_addr r) (r_port r) request = response ->
  ask_node net request st (replica_text r) =
    Ret (mk_client (witness_in_list st ++ [sha256_string blob]) (v_response st ++ [dump 1 (response_of results)])).
Proof.
  intros He Ha Hp Hr response Hl Hnet. unfold ask_node, replica_text.
  rewrite Load_dump_eq, bind_ret by (by apply wf_addr || exact I).
  change (at_key (self_addr_info _ _) (L "addr")) with (Str (r_addr r)).
  change (dump 1 (at_key (self_addr_info _ _) (L "port"))) with (to_string (r_port r)).
  rewrite trim_dump_str, bind_ret, He, stoi_to_string, bind_ret by done.
  unfold send_request. rewrite c_str_no_nul, Hnet, (proj2 (Z.ltb_lt _ _) Hl), bind_ret by done.
  rewrite c_str_no_nul by (by apply full_response_no_nul).
  unfold response. rewrite Load_dump_eq, bind_ret by (by apply wf_full_response || exact I).
  change (at_key (full_response blob request results) (L "witness"))
    with (witness_record (query_context blob request (response_of results))).
  change (at_key (full_response blob request results) (L "response")) with (response_of results).
  unfold extract_witness. rewrite Load_dump_eq, bind_ret by (by apply wf_witness_record || exact I).
  rewrite query_witness_ins. rewrite decide_False by (by destruct (witness_in_list st)). rewrite bind_ret.
  unfold extract_response. cbn [witness_in_list v_response]. do 2 f_equal.
  set (a := sha256_string blob). set (b := sha256_string request).
  change (witness_in_list st ++ [a; b]) with (witness_in_list st ++ [a] ++ [b]).
  rewrite app_assoc, (length_app _ [b]), Nat.add_sub. apply take_app_length.
Qed.

(** The replicas chosen, one a shard. *)
Lemma list_range_all l : list_range l 0 (-1) = l.
Proof.
  unfold list_range. cbn [Z.ltb Z.compare]. destruct l as [|a l]; [done|].
  set (n := Z.of_nat (length (a :: l))). assert (0 < n) by (unfold n; cbn [length]; lia).
  rewrite (proj2 (Z.ltb_ge (n + -1) 0)), (proj2 (Z.leb_gt n 0)), (proj2 (Z.leb_gt n (n + -1))) by lia.
  cbn [orb]. rewrite drop_0, take_ge; [done|]. unfold n. lia.
Qed.

Hypothesis shuffle_perm : forall l, shuffle l ≡ₚ l.

Lemma live_chosen db stop z shards : forall i,
  (forall k sh, shards !! k = Some sh -> shard_live db stop z (i + Z.of_nat k) sh) ->
  exists rs, run (live_of_shards shuffle (to_string z) (length shards) i) db = Ret (map replica_text rs, db) /\
    Forall2 (fun sh r => replica_ok db stop (fst sh) (snd sh) r) shards rs.
Proof.
  induction shards as [|sh shards IH]; intros i Hl; [by exists []|].
  destruct (IH (i + 1)) as (rs & Hr & Hf).
  { intros k sh' Hk. replace (i + 1 + Z.of_nat k) with (i + Z.of_nat (S k)) by lia. by apply Hl. }
  destruct (Hl 0%nat sh eq_refl) as (_ & rs0 & Hne & Hok & Hdb). rewrite Z.add_0_r in Hdb.
  pose proof (shuffle_perm (map replica_text rs0)) as Hp.
  destruct (shuffle (map replica_text rs0)) as [|t ts] eqn:Es.
  { apply Permutation_nil in Hp. by destruct rs0. }
  assert (Ht : t ∈ map replica_text rs0) by (rewrite <- Hp; left).
  apply list_elem_of_fmap in Ht as (r & -> & Hin). exists (r :: rs). split.
  - cbn [length live_of_shards]. rewrite (run_bind_eq _ _ db (map replica_text rs0) db).
    + rewrite (run_bind_eq _ _ _ _ _ Hr). cbn [run]. by rewrite Es.
    + run_steps. unfold lrangeCommand. by rewrite Hdb, bind_ret, list_range_all.
  - constructor; [|done]. rewrite Forall_forall in Hok. by apply Hok.
Qed.

(** The answers of all shards. *)
Definition shard_response (stop words : list Z) (page : Z) (sh : list document * str) : str :=
  dump 1 (response_of (answers stop (fst sh) words page)).

Lemma ask_replicas db stop z kw page words shards rs : forall st,
  at_epoch db z -> is_i32 z -> 3 <= z -> no_nul kw ->
  query_words CreateTokenizer (dump 1 (Str kw)) = Ret words -> words <> [] -> 1 <= page -> is_i32 ((page - 1) * 10) ->
  let request := client_request kw page in
  Z.of_nat (length request) < BUFFER_SIZE ->
  Forall (fun sh => Forall no_nul (map fst (fst sh)) /\
    Z.of_nat (length (dump 1 (full_response (snd sh) request (answers stop (fst sh) words page)))) < BUFFER_SIZE) shards ->
  Forall2 (fun sh r => replica_ok db stop (fst sh) (snd sh) r) shards rs ->
  foldM (ask_node net request) (map replica_text rs) st =
    Ret (mk_client (witness_in_list st ++ map (fun sh => sha256_string (snd sh)) shards)
                   (v_response st ++ map (shard_response stop words page) shards)).
Proof.
  intros st Hz Hi H3 Hk Hw Hne H1 H2 request Hlq Hsh Hf. revert st.
  induction Hf as [|sh r shards rs Hr Hf IH]; intros st.
  { cbn [map foldM]. rewrite !app_nil_r. by destruct st. }
  apply Forall_cons in Hsh as [[Hd Hl] Hsh]. cbn [map foldM].
  rewrite (ask_replica r request (snd sh) (answers stop (fst sh) words page)).
  - rewrite bind_ret, IH by done. cbn [witness_in_list v_response]. by rewrite <- !app_assoc.
  - by destruct Hr.
  - by destruct Hr as (_ & ? & _).
  - by destruct Hr as (_ & _ & ? & _).
  - by apply answers_no_nul.
  - done.
  - by apply (replica_answers db stop (fst sh) (snd sh) r z).
Qed.

Lemma real_page_pos page : 1 <= page -> 1 <= real_page page.
Proof. unfold real_page. change INDEX_POOL_MAX with 4. intros Hp. Z.to_euclidean_division_equations. lia. Qed.

Lemma show_position_range page : 1 <= page -> 1 <= show_position page <= INDEX_POOL_MAX.
Proof.
  unfold show_position. change INDEX_POOL_MAX with 4. intros Hp. pose proof (Z.rem_bound_pos page 4).
  destruct (Z.eqb_spec (Z.rem page 4) 0); lia.
Qed.

Lemma search_run_client db stop z keep kw page words shards st :
  at_epoch db z -> is_i32 z -> 3 <= z ->
  (forall c, keep c = true -> b2z c <> 37 /\ b2z c <> 43) -> no_nul kw -> slash ∉ kw -> kw <> L "page" ->
  query_words CreateTokenizer (dump 1 (Str kw)) = Ret words -> words <> [] ->
  1 <= page -> is_i32 page -> is_i32 ((real_page page - 1) * 10) ->
  Z.of_nat (length shards) = INDEX_POOL_MAX ->
  (forall k sh, shards !! k = Some sh -> shard_live db stop z (1 + Z.of_nat k) sh) ->
  let request := client_request kw (real_page page) in
  Z.of_nat (length request) < BUFFER_SIZE ->
  Forall (fun sh => Z.of_nat (length (dump 1 (full_response (snd sh) request
    (answers stop (fst sh) words (real_page page))))) < BUFFER_SIZE) shards ->
  v_response st = [] ->
  exists sh, shards !! Z.to_nat (show_position page - 1) = Some sh /\
    run (go_search net shuffle ii0 st (percent_encode keep (search_path kw (to_string page)))) db =
      Ret (mk_client (map (fun sh => sha256_string (snd sh)) shards) [],
           shard_response stop words (real_page page) sh, db).
Proof.
  intros Hz Hi H3 Hkeep Hk Hs Hkp Hw Hne H1 Hpi H2 Hn Hlive request Hlq Hlr Hv.
  pose proof (show_position_range page H1) as Hpos.
  destruct (lookup_lt_is_Some_2 shards (Z.to_nat (show_position page - 1))) as [sh Hsh]; [lia|].
  exists sh. split; [done|]. destruct (live_chosen db stop z shards 1 Hlive) as (rs & Hrun & Hrs).
  unfold go_search, url_decode. rewrite url_decode_encode by done.
  rewrite (run_bind_eq _ _ _ _ _ (run_pure_Ret _ _ db (split_search_path kw (to_string page) Hs Hkp))). cbn beta iota.
  unfold is_i32 in Hpi. rewrite strtol_to_string, i32_small by (unfold is_i32; lia).
  rewrite (run_bind_eq _ _ _ _ _ (run_pure_Ret _ _ db (pad_request_eq kw (real_page page)))).
  rewrite (run_bind_eq _ _ _ _ _ (get_epoch_at db z Hz)). unfold get_live_querier.
  rewrite <- Hn, Nat2Z.id, (run_bind_eq _ _ _ _ _ Hrun).
  rewrite (run_bind_eq _ _ _ _ _ (run_pure_Ret _ _ db (ask_replicas db stop z kw (real_page page) words shards rs
    (mk_client [] (v_response st)) Hz Hi H3 Hk Hw Hne (real_page_pos page H1) H2 Hlq
    ltac:(apply Forall_lookup_2; intros k sh' Hk'; split; [by apply (Hlive k)|exact (Forall_lookup_1 _ _ _ _ Hlr Hk')]) Hrs))).
  rewrite Hv. cbn [witness_in_list v_response app]. rewrite (proj2 (Z.ltb_ge _ _)) by lia.
  change (map (shard_response stop words (real_page page)) shards !! ?n) with
    ((shard_response stop words (real_page page) <$> shards) !! n). rewrite list_lookup_fmap, Hsh. done.
Qed.

End Searching.

(** ** Verifying *)

Lemma verify_needs_eq l : verify_needs l = Object [(L "IN", Array (map Str l))].
Proof.
  assert (E : forall l0, foldl (fun v i => set_key v (L "IN") (append (at_key v (L "IN")) (Str i)))
    (Object [(L "IN", Array l0)]) l = Object [(L "IN", Array (l0 ++ map Str l))]); [|exact (E [])].
  induction l as [|i l IH]; intros l0; cbn [foldl map]; [by rewrite app_nil_r|].
  change (set_key (Object [(L "IN", Array l0)]) (L "IN") _) with (Object [(L "IN", Array (l0 ++ [Str i]))]).
  by rewrite IH, <- app_assoc.
Qed.

Lemma Load_needs l : Load (dump 1 (verify_needs l)) = Ret (verify_needs l).
Proof.
  apply Load_dump_eq; rewrite verify_needs_eq; [|exact I]. split; [by repeat constructor|].
  split; [|exact I]. split; [by apply plain_key|]. apply wf_strings.
Qed.

Lemma needs_in_list `{Crypto} l : in_list (verify_needs (map sha256_string l)) = map sha256_string l.
Proof.
  rewrite verify_needs_eq. change (in_list _) with (map ToString (map Str (map sha256_string l))).
  rewrite !map_map. apply map_ext. intros m. apply ToString_sha.
Qed.

Section Verifying.
Context `{CryptoLaws} (sort : list str -> list str) (iter : gmap str str -> list (str * str)).
Hypothesis iter_perm : forall m, iter m ≡ₚ map_to_list m.

Lemma get_verify_total vs blobs responses db z m (rank : str -> nat) :
  blobs <> [] ->
  at_epoch db z -> is_i32 z -> 3 <= z ->
  db !! L "witness" = Some (OBJ_HASH m) ->
  (forall k w, m !! k = Some w -> check_witness w = Ret true) -> (forall x y, edge m x y -> (rank y < rank x)%nat) ->
  (forall e, 1 <= e <= z - 2 -> exists b, run (check_root_hash sort e) db = Ret (b, db)) ->
  exists f, forall fuel, (f <= fuel)%nat -> exists vs' b,
    run (get_verify sort iter fuel vs (mk_client (map sha256_string blobs) responses)) db =
      Ret (vs', results_of (verdict (to_string z) b), db) /\
    (b = true <-> cached vs z (map sha256_string blobs) \/
      forall i, sealed_item sort db z m i -> exists blob, blob ∈ blobs /\ leaf_of m (sha256_string blob) i).
Proof.
  intros Hne Hz Hi H3 Hw Hm Hrank Hroot.
  destruct (verify_total sort iter iter_perm vs (dump 1 (verify_needs (map sha256_string blobs)))
    (L "Please search first!") (verify_needs (map sha256_string blobs)) db z m rank) as [f Hf]; auto using Load_needs.
  exists f. intros fuel Hfuel. destruct (Hf fuel Hfuel) as (vs' & b & Hr & Hb). exists vs', b. split.
  - unfold get_verify, go_verify. cbn [witness_in_list]. rewrite decide_False by (by destruct blobs).
    by rewrite (run_bind_eq _ _ _ _ _ Hr).
  - rewrite Hb, needs_in_list. apply or_iff_compat_l, forall_proper. intros i. split; intros Hs Hi'.
    + destruct (Hs Hi') as (x & Hx & Hl). apply list_elem_of_fmap in Hx as (blob & -> & Hin). by exists blob.
    + destruct (Hs Hi') as (blob & Hin & Hl). exists (sha256_string blob). split; [|done].
      apply list_elem_of_fmap. by exists blob.
Qed.

End Verifying.

(** ** Properties *)

(** A path of the search page, percent-encoded by the browser in any way
    that encodes percent and plus signs, is taken apart into the keywords and
    the page the user asked for, provided that the keywords have no slash and
    are not the word page. *)
Lemma request_path_roundtrip ii keep kw page :
  (forall c, keep c = true -> b2z c <> 37 /\ b2z c <> 43) -> slash ∉ kw -> kw <> L "page" ->
  split_request (url_decode ii (percent_encode keep (search_path kw page))) = Ret (kw, page).
Proof. intros Hk Hs Hp. unfold url_decode. rewrite url_decode_encode by done. by apply split_search_path. Qed.

Definition sample_keep (c : ascii) : bool := negb (b2z c =? 37) && negb (b2z c =? 43) && negb (b2z c =? 32).

Lemma sample_keep_ok c : sample_keep c = true -> b2z c <> 37 /\ b2z c <> 43.
Proof. unfold sample_keep. lia. Qed.

(** A search for the single word page ends the request with an exception:
    the first occurrence of the page marker is then the slash before the
    keyword, and the text cut there is too short. *)
Lemma page_keyword_throws `{Crypto} net shuffle ii st page db :
  run (go_search net shuffle ii st (search_path (L "page") page)) db = Throw out_of_range.
Proof. reflexivity. Qed.

(** C6. A search through the client for a page from 1 on (whose first position is an
    [int]), in an epoch from 3 on, when each of the four shards has live replicas
    that serve it and the client has no responses left over: whichever replicas
    are picked, the page shown is the page of the shard whose turn it is, with
    that shard's own matches, and the client keeps the hashes of the indexes of
    all shards for the auditor, without the hash of the query.  The keywords are
    not the word "page" (see [page_keyword_throws]) and contain no slash and no
    zero byte, at least one of them is a word, and the request and every answer
    are shorter than the 10240 bytes of the buffers. *)
Theorem client_search_shows `{CryptoLaws} net shuffle ii db stop z keep kw page words shards st :
  (forall l, shuffle l ≡ₚ l) ->
  at_epoch db z -> is_i32 z -> 3 <= z ->
  (forall c, keep c = true -> b2z c <> 37 /\ b2z c <> 43) -> no_nul kw -> slash ∉ kw -> kw <> L "page" ->
  query_words CreateTokenizer (dump 1 (Str kw)) = Ret words -> words <> [] ->
  1 <= page -> is_i32 page -> is_i32 ((real_page page - 1) * 10) ->
  Z.of_nat (length shards) = INDEX_POOL_MAX ->
  (forall k sh, shards !! k = Some sh -> shard_live net db stop z (1 + Z.of_nat k) sh) ->
  let request := client_request kw (real_page page) in
  Z.of_nat (length request) < BUFFER_SIZE ->
  Forall (fun sh => Z.of_nat (length (dump 1 (full_response (snd sh) request
    (answers stop (fst sh) words (real_page page))))) < BUFFER_SIZE) shards ->
  v_response st = [] ->
  exists sh, shards !! Z.to_nat (show_position page - 1) = Some sh /\
    run (go_search net shuffle ii st (percent_encode keep (search_path kw (to_string page)))) db =
      Ret (mk_client (map (fun sh => sha256_string (snd sh)) shards) [],
           dump 1 (response_of (answers stop (fst sh) words (real_page page))), db).
Proof. intros Hp. by apply search_run_client. Qed.



(** Four shards with one document each, served by one process. *)
Definition sample_crc : Z := sphCRC32 (L "rust").

Definition sample_part : list document * str := ([sample_doc "rust" sample_crc], sample_blob "rust" sample_crc).

Definition sample_replica : replica :=
  mk_replica (L "127.0.0.1") 12345
    (mk_querier (map fst (fst sample_part)) {[ sample_crc := [1] ]} (@template_of toy_crypto (snd sample_part))).

Definition node_key (i : Z) : str := shard_key "NODE-#EPOCH" (to_string 3) (to_string i).

Definition sample_live : redisDb :=
  let nodes := OBJ_LIST [replica_text sample_replica] in
  <[L "EPOCH" := OBJ_STRING (@epoch_packet toy_crypto (to_string 3))]>
    (<[node_key 1 := nodes]> (<[node_key 2 := nodes]> (<[node_key 3 := nodes]> {[ node_key 4 := nodes ]}))).

Definition sample_net (addr : str) (port : Z) (request : str) : str :=
  match run (@serve_request toy_crypto (r_state sample_replica) request) sample_live with
  | Ret (_, answer, _) => answer
  | _ => []
  end.

Lemma sample_replica_ok :
  @replica_ok toy_crypto sample_net sample_live [] (fst sample_part) (snd sample_part) sample_replica.
Proof.
  split_and!; [reflexivity|by repeat constructor|unfold is_i32; cbn; lia| |].
  - split; [reflexivity|]. split; [cbn; lia|]. split; [|reflexivity]. intros w. apply index_hits, sample_index.
  - intros request st' answer Hr. unfold sample_net. by rewrite Hr.
Qed.

Lemma sample_nodes k sh : replicate 4 sample_part !! k = Some sh ->
  @shard_live toy_crypto sample_net sample_live [] 3 (1 + Z.of_nat k) sh.
Proof.
  intros Hk. apply lookup_replicate in Hk as [-> Hk]. split; [by repeat constructor|].
  exists [sample_replica]. split; [discriminate|]. split; [constructor; [apply sample_replica_ok|constructor]|].
  unfold sample_live. do 4 (destruct k as [|k]; [by simplify_map_eq|]). lia.
Qed.

Lemma client_search_shows_witness :
  let shards := replicate 4 sample_part in let words := [sample_crc] in
  exists sh, shards !! Z.to_nat (show_position 6 - 1) = Some sh /\
    run (@go_search toy_crypto sample_net id 0 (mk_client [] [])
      (percent_encode sample_keep (search_path (L "rust") (to_string 6)))) sample_live =
      Ret (mk_client (map (fun sh => @sha256_string toy_crypto (snd sh)) shards) [],
           dump 1 (response_of (answers [] (fst sh) words (real_page 6))), sample_live).
Proof.
  apply (@client_search_shows toy_crypto toy_laws sample_net id 0 sample_live [] 3 sample_keep (L "rust") 6 [sample_crc]
    (replicate 4 sample_part)).
  - reflexivity.
  - apply lookup_insert_eq.
  - unfold is_i32. lia.
  - lia.
  - apply sample_keep_ok.
  - by repeat constructor.
  - apply (bool_decide_unpack _). vm_compute. exact I.
  - discriminate.
  - rewrite CreateTokenizer_eq. unfold query_words, wordIDs. rewrite tokens_plain_eq by repeat constructor. reflexivity.
  - discriminate.
  - lia.
  - unfold is_i32. lia.
  - unfold is_i32. change (real_page 6) with 2. lia.
  - reflexivity.
  - apply sample_nodes.
  - vm_compute. reflexivity.
  - apply Forall_replicate. rewrite (@full_response_length toy_crypto toy_laws). vm_compute. reflexivity.
  - reflexivity.
Defined.
